(* ===== verification/_CoqProject ===== *)
-Q . S2P
Prelude.v
Common.v
Platform.v
Csum.v
PlatformRef.v
TcpState.v
Ebpf.v
Ingress.v
Demo.v
IngressProps.v
Egress.v
EgressProps.v
Classifier.v
NetUtils.v
Server.v
ServerProps.v
System.v
Threads.v
Progress.v
Conc.v
ConcProps.v
ConcRaces.v
GatewayApi.v
GatewayUtils.v
GatewayProps.v
Reconcile.v
ReconcileProps.v
Controller.v
Proto.v
Grpc.v
GrpcRef.v
GrpcProps.v
AddrText.v
ClientTool.v
Startup.v
Loader.v
UdpServer.v
Xtask.v
