(* ===== verification/Prelude.v ===== *)
(** * Blixt: a layer-4 load balancer for Kubernetes Gateways

    ** The program

    Blixt has three parts and some tools.  The eBPF programs ([src/dataplane/ebpf]) run in
    the kernel on every packet of an interface: on ingress they send TCP and
    UDP packets addressed to a Gateway to one of its backends, on egress they
    give the replies the address of the Gateway.  The API server
    ([src/dataplane/api-server]) is a gRPC service in user space that fills
    the maps the eBPF programs read.  The control plane ([src/controlplane])
    watches Gateway objects, keeps a LoadBalancer Service for each and reports
    conditions in their status.  The first two share three BPF hash maps
    (BACKENDS, GATEWAY_INDEXES, LB_CONNECTIONS); the control plane shares no
    state with them.  The loader ([src/dataplane/loader]) attaches the eBPF
    programs and starts the API server; [src/xtask] builds and runs the
    program and holds a gRPC client; [src/tools] has a UDP server for tests.

    ** Files and sources

    - [Prelude]: effects, weakest preconditions, machine integers, memory.
    - [Common]: the types of [dataplane/common/src/lib.rs].
    - [Platform]: classes for the code outside the repository ([network-types]
      headers, [aya-ebpf] helpers, BPF maps, [aya] maps) with their laws.
    - [PlatformRef]: one concrete instance of every class of [Platform], with
      proofs of the laws.
    - [Csum], [TcpState]: [csum_fold_helper] and [process_tcp_state_transition]
      of [dataplane/ebpf/src/utils.rs].
    - [Ebpf]: the maps of [ebpf/src/main.rs] as [kstate], packet access, and
      the other functions of [utils.rs], with the proof rules of each.
    - [Ingress], [IngressProps]: [ingress/tcp.rs] and [ingress/udp.rs].
    - [Egress], [EgressProps]: [egress/tcp.rs] and [egress/icmp.rs].
    - [Classifier]: the two programs of [ebpf/src/main.rs].
    - [NetUtils]: [api-server/src/netutils.rs], over a class for netlink.
    - [Server], [ServerProps]: [BackendService] of [api-server/src/server.rs]
      and the messages of [backends.rs].
    - [System]: packets and RPCs as steps on the shared maps.
    - [Threads], [Progress]: tasks that interleave on single map operations
      under mutexes; rely-guarantee rules, lock order and termination.
    - [Conc], [ConcProps], [ConcRaces]: the packet programs and the RPCs as
      such tasks, what holds in every interleaving, and three races.
    - [GatewayApi], [GatewayUtils], [GatewayProps]: the Kubernetes objects and
      the pure functions of [controlplane/src/gateway_utils.rs].
    - [Reconcile], [ReconcileProps]: [controlplane/src/gateway_controller.rs]
      and the functions of [gateway_utils.rs] that call the Kubernetes API,
      over a class for the API server.
    - [Controller]: [controller] of [gateway_controller.rs] and [run] of
      [controlplane/src/main.rs].
    - [Proto], [Grpc], [GrpcRef], [GrpcProps]: the client and server stubs of
      [backends.rs] over classes for [prost] and [tonic], a proto3 instance of
      the first and a plain instance of the second.
    - [AddrText], [ClientTool]: addresses as text ([core::net]) and the gRPC
      client of [xtask/src/grpc.rs].
    - [Startup]: [start] and [setup_tls] of [api-server/src/lib.rs] and
      [config.rs]; [Loader]: [loader/src/main.rs].
    - [UdpServer]: [tools/udp-test-server/src/main.rs]; [Xtask]: the other
      commands of [xtask/src].
    - [Demo]: a concrete Gateway, packets and states; the theorems are applied
      to them to show that their premises can hold.

    ** How code becomes definitions

    A function that changes state or fails is a computation [Eff S E A]: it
    takes a state to a state and an outcome, which is a value, an error that
    [?] propagates, or a [Fault], the behaviour a Rust program must not have
    (a dereference outside the packet, an array index out of bounds).  [?] and
    early [return] are [try_] and [return_], resolved by [fn_body].  The state
    of the data plane is [kstate]: the bytes of the packet and the three maps.
    A raw pointer is an offset into the packet; [ptr_at] is the source's bounds
    check and reading or writing through a pointer checks the bounds again, so
    that a missing check in the source would show as a [Fault].  Integers are
    [Z] with the wrap-around of their width written out ([as_u16], [as_u64],
    [as_i32]); [from_be] and [to_be] reverse bytes, as on the little-endian
    target the repository builds for.  All definitions are executable.

    Handlers are total functions.  Loops of the source are structural
    recursion over the list they traverse, and the four folds of
    [csum_fold_helper] are an iteration; that four are enough for every [u64]
    is a theorem.  Only the field parser of [Proto] takes fuel, the length of
    the buffer, which is enough because every field takes a byte.

    Concurrent code is a [thread]: a tree of atomic map operations and lock
    operations that ends in a result.  A configuration holds the shared maps,
    the holder of each lock and the tasks, each with its own packet, and
    [sched] lets one task take its next step.  [System] and the sequential
    definitions are the same code without interleaving ([threads_sequential],
    [run_free], [run_alone]).
    The servers of [Startup] and the tasks of [UdpServer] never end; their
    models advance from one await point to the next.

    Code outside the repository is a class of operations, and what the code
    relies on is a class of laws next to it: header layouts of the RFCs,
    checksum helpers that update a sum modulo 2^16 - 1, maps that insert,
    replace and remove single entries or report an error and change nothing.
    [HelpersSucceed] (helper calls within the packet, with an offset, a size and
    flags the kernel accepts, do not fail) and the
    predicates [indexes_room], [conns_room], [update_room] (a map accepts one
    more entry) are premises of the theorems about packets and requests that
    succeed; the theorems about errors do not have them.

    ** What the theorems show

    - The whole data plane ([System]): an invariant of all states reachable by
      packets and RPCs, whatever they answer.  The steps carry the set of the
      Gateways that a failed RPC may have left half done; for the others the
      three maps agree, which implies that a configured Gateway serves.
    - Concurrency ([ConcProps], [Conc]): in every interleaving of any number of
      packets and RPCs the maps stay well-typed, no task goes wrong, Gateways
      that no RPC names keep their backends, and all tasks end without deadlock
      and with the mutexes free.  [ConcRaces] proves that three interleavings
      leave the maps in states that no sequence of calls does; that an RST can
      cut a purge short is shown for every Gateway on every platform.
    - Packet programs ([IngressProps], [EgressProps], [Classifier]): memory
      safety for every packet, backend selection and round robin, connection
      affinity, destination and source NAT and their composition, checksums,
      ICMP errors, and the packets that pass untouched.
    - Connection tracking ([TcpState]): where the state machine agrees with the
      TCP state diagram its comment cites and where not, and that it terminates.
    - Checksums ([Csum]): agreement with RFC 1071.
    - API server ([ServerProps], [NetUtils]): what update and delete leave in
      the maps, requests that are rejected without a trace, and partial
      failures.
    - Control plane ([GatewayProps]): convergence of the Service, conditions
      that do not flap, and when a Gateway is accepted.
    - Reconciler ([ReconcileProps]): a Gateway is reported as programmed only
      with an address of its Service and is so once the Service is ready, a
      run writes at most one Service, refused Gateways get their status and
      nothing else, and Gateways of other controllers are left alone; no
      sequence of runs gives a Gateway a second Service ([Controller]).
    - gRPC ([GrpcProps], [ClientTool]): the stubs are transparent over a working
      channel, have their effect at most once over a lossy one, and refuse
      unknown paths and large messages; the client tool installs one backend.
    - Start ([Startup], [Loader]): the API server is never served in plain text
      when TLS is configured, only after both programs are attached, and on two
      ports; what the last port leads to depends on the overflow checks of the
      build, a parameter.
    - Tools ([UdpServer], [Xtask]): the health server accepts connections only
      when all UDP servers are up, although clients can connect before, and
      remembers at most 101 peers; the program is run only after both builds.
    - Several theorems state behaviour that differs from what a comment says
      or the code means to do: the lost TCP port ([tcp_ingress_dest_port_lost]),
      RST handling ([tcp_rst_entry]), the TCP state diagram
      ([tcp_diagram_divergence]), the discarded verdict
      ([verdict_discarded]), the requested address ([requested_address_ignored]),
      Gateways without a status ([accepted_without_status]) and delete without
      an index ([delete_without_index]).

    ** Not modelled

    An access to the packet and a map operation are each atomic; weaker
    memory orders of several CPUs are not modelled, and a reference into a map
    value is the value read.  The clock is an argument, one reading per call of
    a control plane function ([clock n] is the n-th of a run).  Logging, the
    parsing of command lines, the text of printed lines and process exit are
    omitted.  Libraries are parameters: [aya], [tonic], [prost], [kube],
    netlink and the operating system appear as classes with the behaviour the
    code relies on.  The runtime of the [kube] crate runs reconciliations in
    any order and number, each on its own; overlapping runs for different
    Gateways are not modelled.  The tests and the build scripts are not modelled. *)

From stdpp Require Import base list gmap strings numbers pretty.

#[global] Open Scope Z_scope.

Declare Scope blixt_scope.
Delimit Scope blixt_scope with blixt.
#[global] Open Scope blixt_scope.

(** ** Effects

    Every stateful routine of the source is a function of the state type
    [S] that ends in one of three ways: a normal value (Rust's [Ok], or the
    value of an infallible function), an error value that [?] propagates, or
    a fault.  A fault is the behaviour a Rust program must not have: a
    dereference outside the packet, or a panic on an array index. *)
Inductive outcome (E A : Type) : Type :=
| Ret (a : A)
| Err (e : E)
| Fault.
Arguments Ret {E A} a.
Arguments Err {E A} e.
Arguments Fault {E A}.

Definition Eff (S E A : Type) : Type := S → S * outcome E A.

(** How a function body ends before its last expression: [?] on an error,
    or an explicit [return]. *)
Inductive ctl (E R : Type) : Type :=
| Throw (e : E)
| Return (r : R).
Arguments Throw {E R} e.
Arguments Return {E R} r.

Section effects.
Context {S E : Type}.

#[global] Instance eff_ret : MRet (Eff S E) := λ A a s, (s, Ret a).

#[global] Instance eff_bind : MBind (Eff S E) := λ A B k m s,
  match m s with
  | (s', Ret a) => k a s'
  | (s', Err e) => (s', Err e)
  | (s', Fault) => (s', Fault)
  end.

Definition throw {A} (e : E) : Eff S E A := λ s, (s, Err e).
Definition fault {A} : Eff S E A := λ s, (s, Fault).
Definition gets {A} (f : S → A) : Eff S E A := λ s, (s, Ret (f s)).
Definition modify (f : S → S) : Eff S E unit := λ s, (f s, Ret tt).

(** A computation that only reads: [None] is a fault. *)
Definition gets_or_fault {A} (f : S → option A) : Eff S E A := λ s,
  match f s with Some a => (s, Ret a) | None => (s, Fault) end.

(** [o.ok_or(e)?] *)
Definition ok_or {A} (o : option A) (e : E) : Eff S E A :=
  match o with Some a => mret a | None => throw e end.
End effects.

(** The [?] operator inside a function body that may also [return]. *)
Definition try_ {S E R A} (m : Eff S E A) : Eff S (ctl E R) A := λ s,
  match m s with
  | (s', Ret a) => (s', Ret a)
  | (s', Err e) => (s', Err (Throw e))
  | (s', Fault) => (s', Fault)
  end.

Definition return_ {S E R A} (r : R) : Eff S (ctl E R) A := throw (Return r).

(** A function body as a call sees it. *)
Definition fn_body {S E R} (b : Eff S (ctl E R) R) : Eff S E R := λ s,
  match b s with
  | (s', Ret r) => (s', Ret r)
  | (s', Err (Return r)) => (s', Ret r)
  | (s', Err (Throw e)) => (s', Err e)
  | (s', Fault) => (s', Fault)
  end.

(** Weakest precondition: running [m] from [s] ends in a state and an outcome
    that satisfy [Q].  [Eff] computations are total functions, so this is
    total correctness. *)
Definition wp {S E A} (m : Eff S E A) (Q : S → outcome E A → Prop) (s : S) : Prop :=
  Q (m s).1 (m s).2.

(** The postcondition a prefix of a sequence must establish. *)
Definition seq_post {S E A B} (k : A → Eff S E B) (Q : S → outcome E B → Prop) :
    S → outcome E A → Prop := λ s o,
  match o with
  | Ret a => wp (k a) Q s
  | Err e => Q s (Err e)
  | Fault => Q s Fault
  end.

(** ** Machine integers *)
Definition wrap (w x : Z) : Z := x mod 2 ^ w.
Definition fits (w x : Z) : Prop := 0 ≤ x < 2 ^ w.
#[export] Instance fits_dec w x : Decision (fits w x).
Proof. unfold fits. apply _. Defined.
Abbreviation as_u16 := (wrap 16).
Abbreviation as_u64 := (wrap 64).

(** [x as i32] *)
Definition as_i32 (x : Z) : Z := wrap 32 (x + 2 ^ 31) - 2 ^ 31.

Fixpoint le_value (l : list Z) : Z :=
  match l with [] => 0 | b :: l => b + 256 * le_value l end.

Fixpoint le_bytes (n : nat) (v : Z) : list Z :=
  match n with O => [] | S n => v mod 256 :: le_bytes n (v / 256) end.

Definition byte_list (l : list Z) : Prop := Forall (fits 8) l.

(** [u16::from_be], [u32::from_be], [to_be] on the little-endian targets the
    repository builds ([bpfel-unknown-none]): all reverse the bytes. *)
Definition swap_bytes (n : nat) (v : Z) : Z := le_value (rev (le_bytes n v)).
Abbreviation from_be16 := (swap_bytes 2).
Abbreviation from_be32 := (swap_bytes 4).
Abbreviation to_be16 := (swap_bytes 2).
Abbreviation to_be32 := (swap_bytes 4).

(** Reading and writing [n] bytes of memory in native (little-endian) order;
    [None] is an access outside the buffer. *)
Definition rd (n off : nat) (p : list Z) : option Z :=
  if decide (off + n ≤ length p)%nat then Some (le_value (take n (drop off p))) else None.

Definition wr (n off : nat) (v : Z) (p : list Z) : option (list Z) :=
  if decide (off + n ≤ length p)%nat
  then Some (take off p ++ le_bytes n v ++ drop (off + n) p) else None.

(** ** Automation *)
Create HintDb blixt.
Create HintDb bytes.
Create Rewrite HintDb layout.

(** ** Laws of the effect monad *)
Section effect_laws.
Context {S E : Type}.
Implicit Types s : S.

Lemma bind_Err {A B} (m : Eff S E A) (k : A → Eff S E B) s s' e :
  m s = (s', Err e) → (m ≫= k) s = (s', Err e).
Proof. unfold mbind, eff_bind. by intros ->. Qed.

Lemma wp_ret {A} (a : A) (Q : S → outcome E A → Prop) s : Q s (Ret a) → wp (mret a) Q s.
Proof. done. Qed.

Lemma wp_bind {A B} (m : Eff S E A) (k : A → Eff S E B) Q s :
  wp m (seq_post k Q) s → wp (m ≫= k) Q s.
Proof.
  unfold wp, seq_post, mbind, eff_bind. by destruct (m s) as [s' [a|e|]]; simpl.
Qed.

Lemma wp_mono {A} (m : Eff S E A) (Q Q' : S → outcome E A → Prop) s :
  wp m Q s → (∀ s' o, Q s' o → Q' s' o) → wp m Q' s.
Proof. unfold wp. eauto. Qed.

Lemma wp_throw {A} (e : E) (Q : S → outcome E A → Prop) s : Q s (Err e) → wp (throw e) Q s.
Proof. done. Qed.

Lemma wp_gets {A} (f : S → A) (Q : S → outcome E A → Prop) s :
  Q s (Ret (f s)) → wp (gets f) Q s.
Proof. done. Qed.

Lemma wp_modify (f : S → S) (Q : S → outcome E unit → Prop) s :
  Q (f s) (Ret tt) → wp (modify f) Q s.
Proof. done. Qed.

Lemma wp_gets_or_fault {A} (f : S → option A) (Q : S → outcome E A → Prop) s a :
  f s = Some a → Q s (Ret a) → wp (gets_or_fault f) Q s.
Proof. unfold wp, gets_or_fault. by intros ->. Qed.

Lemma wp_ok_or {A} (o : option A) e (Q : S → outcome E A → Prop) s :
  match o with Some a => Q s (Ret a) | None => Q s (Err e) end → wp (ok_or o e) Q s.
Proof. by destruct o. Qed.

Lemma wp_run {A} (m : Eff S E A) (Q : S → outcome E A → Prop) s s' o :
  wp m Q s → m s = (s', o) → Q s' o.
Proof. unfold wp. by intros H Hm; rewrite Hm in H. Qed.
End effect_laws.

Lemma wp_try {S E R A} (m : Eff S E A) (Q : S → outcome (ctl E R) A → Prop) s :
  wp m (λ s' o, match o with
                | Ret a => Q s' (Ret a)
                | Err e => Q s' (Err (Throw e))
                | Fault => Q s' Fault end) s → wp (try_ m) Q s.
Proof. unfold wp, try_. by destruct (m s) as [s' [a|e|]]. Qed.

Lemma wp_return {S E R A} (r : R) (Q : S → outcome (ctl E R) A → Prop) s :
  Q s (Err (Return r)) → wp (return_ r) Q s.
Proof. done. Qed.

Lemma wp_fn_body {S E R} (b : Eff S (ctl E R) R) (Q : S → outcome E R → Prop) s :
  wp b (λ s' o, match o with
                | Ret r | Err (Return r) => Q s' (Ret r)
                | Err (Throw e) => Q s' (Err e)
                | Fault => Q s' Fault end) s → wp (fn_body b) Q s.
Proof. unfold wp, fn_body. by destruct (b s) as [s' [a|[e|r]|]]. Qed.

(** One step of symbolic execution of a computation under [wp]. *)
Ltac wp_step :=
  match goal with
  | |- wp (fn_body _) _ _ => apply wp_fn_body
  | |- wp (mbind _ _) _ _ => apply wp_bind; unfold seq_post at 1
  | |- wp (try_ _) _ _ => apply wp_try
  | |- wp (mret _) _ _ => apply wp_ret
  | |- wp (return_ _) _ _ => apply wp_return
  | |- wp (throw _) _ _ => apply wp_throw
  | |- wp (gets _) _ _ => apply wp_gets
  | |- wp (modify _) _ _ => apply wp_modify
  | |- wp (ok_or _ _) _ _ => apply wp_ok_or
  end.

(** ** Bytes and words *)
Lemma length_le_bytes n v : length (le_bytes n v) = n.
Proof. revert v. induction n; intros; cbn [le_bytes length]; auto. Qed.

Lemma le_bytes_byte n v : byte_list (le_bytes n v).
Proof.
  revert v. induction n; intros v; cbn [le_bytes]; constructor; [|apply IHn].
  unfold fits. change (2 ^ 8) with 256. pose proof (Z.mod_pos_bound v 256). lia.
Qed.

Lemma le_value_bytes n v : le_value (le_bytes n v) = v mod 256 ^ Z.of_nat n.
Proof.
  revert v. induction n as [|n IH]; intros v.
  - by rewrite Z.mod_1_r.
  - cbn [le_bytes le_value]. rewrite IH, Nat2Z.inj_succ, Z.pow_succ_r by lia.
    rewrite Z.rem_mul_r by lia. done.
Qed.

Lemma le_bytes_value l : byte_list l → le_bytes (length l) (le_value l) = l.
Proof.
  induction 1 as [|b l Hb _ IH]; [done|]. unfold fits in Hb. change (2^8) with 256 in Hb.
  cbn [le_value le_bytes length].
  replace ((b + 256 * le_value l) mod 256) with b
    by (rewrite Z.mul_comm, Z.mod_add, Z.mod_small; lia).
  replace ((b + 256 * le_value l) / 256) with (le_value l)
    by (rewrite Z.mul_comm, Z.div_add, Z.div_small; lia).
  by rewrite IH.
Qed.

Lemma le_value_bound l : byte_list l → 0 ≤ le_value l < 256 ^ Z.of_nat (length l).
Proof.
  induction 1 as [|b l Hb _ IH]; cbn [le_value length]; [lia|].
  rewrite Nat2Z.inj_succ, Z.pow_succ_r by lia.
  unfold fits in Hb. change (2^8) with 256 in Hb. lia.
Qed.

Lemma byte_list_rev l : byte_list l → byte_list (rev l).
Proof. apply List.Forall_rev. Qed.

Lemma swap_bytes_bound n v : 0 ≤ swap_bytes n v < 256 ^ Z.of_nat n.
Proof.
  unfold swap_bytes.
  pose proof (le_value_bound _ (byte_list_rev _ (le_bytes_byte n v))) as H.
  by rewrite length_rev, length_le_bytes in H.
Qed.

(** [from_be] and [to_be] are inverse to each other. *)
Lemma swap_swap n v : 0 ≤ v < 256 ^ Z.of_nat n → swap_bytes n (swap_bytes n v) = v.
Proof.
  intros Hv. unfold swap_bytes.
  pose proof (le_bytes_value _ (byte_list_rev _ (le_bytes_byte n v))) as H.
  rewrite length_rev, length_le_bytes in H.
  rewrite H, rev_involutive, le_value_bytes. by apply Z.mod_small.
Qed.

Lemma swap_inj n v w :
  0 ≤ v < 256 ^ Z.of_nat n → 0 ≤ w < 256 ^ Z.of_nat n →
  swap_bytes n v = swap_bytes n w → v = w.
Proof. intros Hv Hw E. by rewrite <-(swap_swap n v), <-(swap_swap n w), E. Qed.

Lemma wrap_fits w x : 0 ≤ w → fits w (wrap w x).
Proof. intros. apply Z.mod_pos_bound. by apply Z.pow_pos_nonneg. Qed.

Lemma wrap_id w x : fits w x → wrap w x = x.
Proof. apply Z.mod_small. Qed.

(** ** Memory *)
Lemma rd_Some n off p v :
  rd n off p = Some v ↔ (off + n ≤ length p)%nat ∧ v = le_value (take n (drop off p)).
Proof. unfold rd. split; [case_decide; naive_solver|]. intros [? ->]. by rewrite decide_True. Qed.

Lemma wr_Some n off v p p' :
  wr n off v p = Some p' ↔
  (off + n ≤ length p)%nat ∧ p' = take off p ++ le_bytes n v ++ drop (off + n) p.
Proof. unfold wr. split; [case_decide; naive_solver|]. intros [? ->]. by rewrite decide_True. Qed.

Lemma rd_in_bounds n off p : (off + n ≤ length p)%nat → ∃ v, rd n off p = Some v.
Proof. intros. eexists. by apply rd_Some. Qed.

Lemma wr_in_bounds n off v p : (off + n ≤ length p)%nat → ∃ p', wr n off v p = Some p'.
Proof. intros. eexists. by apply wr_Some. Qed.

Lemma wr_length n off v p p' : wr n off v p = Some p' → length p' = length p.
Proof.
  rewrite wr_Some. intros [H ->].
  rewrite !length_app, length_take, length_le_bytes, length_drop. lia.
Qed.

Lemma rd_wr_same n off v p p' :
  wr n off v p = Some p' → rd n off p' = Some (v mod 256 ^ Z.of_nat n).
Proof.
  intros Hw. pose proof (wr_length _ _ _ _ _ Hw) as Hl.
  apply wr_Some in Hw as [H ->]. apply rd_Some. split; [lia|].
  rewrite drop_app_length', take_app_length' by (rewrite ?length_take, ?length_le_bytes; lia).
  by rewrite le_value_bytes.
Qed.

Lemma wr_lookup n off v p p' i :
  wr n off v p = Some p' →
  p' !! i = if decide (off ≤ i < off + n)%nat then le_bytes n v !! (i - off)%nat else p !! i.
Proof.
  rewrite wr_Some. intros [H ->].
  destruct (decide (i < off)%nat).
  { rewrite decide_False by lia. rewrite lookup_app_l by (rewrite length_take; lia).
    by rewrite lookup_take_lt by lia. }
  rewrite lookup_app_r by (rewrite length_take; lia). rewrite length_take, Nat.min_l by lia.
  case_decide; [by rewrite lookup_app_l by (rewrite length_le_bytes; lia)|].
  rewrite lookup_app_r by (rewrite length_le_bytes; lia).
  rewrite lookup_drop, length_le_bytes. f_equal. lia.
Qed.

(** The bytes a write leaves behind. *)
Lemma wr_take n off v p p' : wr n off v p = Some p' → take n (drop off p') = le_bytes n v.
Proof.
  rewrite wr_Some. intros [H ->].
  by rewrite drop_app_length', take_app_length' by (rewrite ?length_take, ?length_le_bytes; lia).
Qed.

(** The bytes of a segment that a write does not touch. *)
Lemma wr_segment n off v p p' m off' :
  wr n off v p = Some p' → (off' + m ≤ off ∨ off + n ≤ off')%nat →
  take m (drop off' p') = take m (drop off' p).
Proof.
  intros Hw Hd. apply list_eq. intros i.
  destruct (decide (i < m)%nat); [|by rewrite !lookup_take_ge by lia].
  rewrite !lookup_take_lt, !lookup_drop by done.
  rewrite (wr_lookup _ _ _ _ _ _ Hw), decide_False; [done|lia].
Qed.

Lemma rd_wr_other n off v p p' m off' :
  wr n off v p = Some p' → (off' + m ≤ off ∨ off + n ≤ off')%nat →
  rd m off' p' = rd m off' p.
Proof.
  intros Hw Hd. unfold rd. rewrite (wr_length _ _ _ _ _ Hw).
  by rewrite (wr_segment _ _ _ _ _ _ _ Hw Hd).
Qed.

(** A write inside a segment, seen as a write to the segment. *)
Lemma wr_in_segment n base off v p p' m :
  wr n (base + off) v p = Some p' → (off + n ≤ m)%nat → (base + m ≤ length p)%nat →
  wr n off v (take m (drop base p)) = Some (take m (drop base p')).
Proof.
  intros Hw Hn Hm. destruct (wr_in_bounds n off v (take m (drop base p))) as [q Hq].
  { rewrite length_take, length_drop. lia. }
  rewrite Hq. f_equal. apply list_eq. intros i.
  rewrite (wr_lookup _ _ _ _ _ _ Hq). destruct (decide (i < m)%nat).
  - rewrite !lookup_take_lt, !lookup_drop, (wr_lookup _ _ _ _ _ _ Hw) by done.
    repeat case_decide; try lia; [f_equal; lia|done].
  - rewrite decide_False by lia. by rewrite !lookup_take_ge by lia.
Qed.

Lemma rd_in_segment n base off v p m :
  rd n (base + off) p = Some v → (off + n ≤ m)%nat → (base + m ≤ length p)%nat →
  rd n off (take m (drop base p)) = Some v.
Proof.
  rewrite !rd_Some. intros [H ->] Hn Hm. split; [rewrite length_take, length_drop; lia|].
  f_equal. apply list_eq. intros i. destruct (decide (i < n)%nat).
  - rewrite !lookup_take_lt, !lookup_drop, lookup_take_lt, lookup_drop by lia. f_equal. lia.
  - by rewrite !lookup_take_ge by lia.
Qed.

Lemma wr_byte_list n off v p p' : wr n off v p = Some p' → byte_list p → byte_list p'.
Proof.
  rewrite wr_Some. intros [_ ->] Hp. unfold byte_list in *.
  rewrite !Forall_app. split_and!; [by apply Forall_take|apply le_bytes_byte|by apply Forall_drop].
Qed.

Lemma rd_bound n off p v :
  byte_list p → rd n off p = Some v → 0 ≤ v < 256 ^ Z.of_nat n.
Proof.
  intros Hp [H ->]%rd_Some.
  pose proof (le_value_bound (take n (drop off p))) as B.
  rewrite length_take, length_drop in B.
  replace (n `min` (length p - off))%nat with n in B by lia.
  apply B. by apply Forall_take, Forall_drop.
Qed.

#[export] Hint Resolve le_bytes_byte wr_byte_list : bytes.

#[global] Arguments le_bytes : simpl never.
#[global] Arguments le_value : simpl never.
