(* ===== verification/Common.v ===== *)
(** * The [common] crate: data shared by the eBPF programs and the API server

    Models [src/dataplane/common/src/lib.rs]: the values stored in the three
    BPF maps.  Integer fields are [Z]; [backend_wf], [backend_list_wf] and
    [lb_mapping_wf] say what their Rust types ([u32], [u16], an array of 128
    elements) guarantee. *)

From stdpp Require Import base list gmap.
From S2P Require Import Prelude.

Definition BACKENDS_ARRAY_CAPACITY : nat := 128.
Definition BPF_MAPS_CAPACITY : nat := 128.

Record Backend := MkBackend { daddr : Z; dport : Z; ifindex : Z }.
Definition Backend_default : Backend := MkBackend 0 0 0.

Record BackendKey := MkBackendKey { bk_ip : Z; bk_port : Z }.

Record BackendList := MkBackendList { backends : list Backend; backends_len : Z }.

Record ClientKey := MkClientKey { ck_ip : Z; ck_port : Z }.

Inductive TCPState :=
| Established | FinWait1 | FinWait2 | Closing | TimeWait | Closed.
Definition TCPState_default : TCPState := Established.

Record LoadBalancerMapping := MkMapping {
  backend : Backend;
  backend_key : BackendKey;
  tcp_state : option TCPState;
}.

#[export] Instance Backend_eq_dec : EqDecision Backend.
Proof. solve_decision. Defined.
#[export] Instance BackendKey_eq_dec : EqDecision BackendKey.
Proof. solve_decision. Defined.
#[export] Instance BackendList_eq_dec : EqDecision BackendList.
Proof. solve_decision. Defined.
#[export] Instance ClientKey_eq_dec : EqDecision ClientKey.
Proof. solve_decision. Defined.
#[export] Instance TCPState_eq_dec : EqDecision TCPState.
Proof. solve_decision. Defined.
#[export] Instance LoadBalancerMapping_eq_dec : EqDecision LoadBalancerMapping.
Proof. solve_decision. Defined.

#[export] Instance BackendKey_countable : Countable BackendKey.
Proof.
  refine (inj_countable' (λ k, (bk_ip k, bk_port k)) (λ p, MkBackendKey p.1 p.2) _).
  by intros [].
Defined.
#[export] Instance ClientKey_countable : Countable ClientKey.
Proof.
  refine (inj_countable' (λ k, (ck_ip k, ck_port k)) (λ p, MkClientKey p.1 p.2) _).
  by intros [].
Defined.

(** What the Rust field types guarantee. *)
Definition backend_wf (b : Backend) : Prop :=
  fits 32 (daddr b) ∧ fits 32 (dport b) ∧ fits 16 (ifindex b).

Definition backend_key_wf (k : BackendKey) : Prop :=
  fits 32 (bk_ip k) ∧ fits 32 (bk_port k).

(** The array has its type's length, and [backends_len] does not exceed it. *)
Definition backend_list_wf (bl : BackendList) : Prop :=
  length (backends bl) = BACKENDS_ARRAY_CAPACITY ∧
  0 ≤ backends_len bl ≤ Z.of_nat BACKENDS_ARRAY_CAPACITY ∧
  Forall backend_wf (backends bl).

Definition lb_mapping_wf (m : LoadBalancerMapping) : Prop :=
  backend_wf (backend m) ∧ backend_key_wf (backend_key m).

Lemma Backend_default_wf : backend_wf Backend_default.
Proof. by repeat split. Qed.

Lemma backend_list_wf_lookup bl i b :
  backend_list_wf bl → backends bl !! i = Some b → backend_wf b.
Proof. intros (_ & _ & H). by apply Forall_lookup_1. Qed.

#[export] Hint Resolve Backend_default_wf backend_list_wf_lookup : blixt.
