(* ===== verification/Platform.v ===== *)
(** * Interfaces of the crates and kernel services outside the repository

    The eBPF programs are written against three things this repository does
    not contain: the header structs of [network-types], the helpers and
    constants of [aya-ebpf], and the kernel's BPF hash maps.  Each is a class
    of operations (a parameter of every definition that uses it) and a class
    of laws stating the documented behaviour the code relies on.
    [PlatformRef] has one concrete implementation of each and proves the laws
    of it. *)

From stdpp Require Import base list gmap strings.
From S2P Require Import Prelude Common.

(** ** Packet headers ([network_types::{eth, ip, tcp, udp, icmp}]) *)
Inductive HdrType := EthHdr | Ipv4Hdr | TcpHdr | UdpHdr | IcmpHdr.

(** The header fields the programs access. *)
Inductive field :=
| Eth_ether_type
| Ip_proto | Ip_check | Ip_src_addr | Ip_dst_addr
| Tcp_source | Tcp_dest | Tcp_check
| Udp_dest | Udp_check
| Icmp_type.

Definition field_hdr (f : field) : HdrType :=
  match f with
  | Eth_ether_type => EthHdr
  | Ip_proto | Ip_check | Ip_src_addr | Ip_dst_addr => Ipv4Hdr
  | Tcp_source | Tcp_dest | Tcp_check => TcpHdr
  | Udp_dest | Udp_check => UdpHdr
  | Icmp_type => IcmpHdr
  end.

(** Bytes of the Rust type a field is used at ([u8], [u16], [u32]). *)
Definition field_size (f : field) : nat :=
  match f with
  | Ip_proto | Icmp_type => 1
  | Ip_src_addr | Ip_dst_addr => 4
  | _ => 2
  end.

Class NetworkTypes := {
  hdr_LEN : HdrType → nat;             (* [EthHdr::LEN], [Ipv4Hdr::LEN], ... *)
  size_of : HdrType → nat;             (* [mem::size_of::<T>()] *)
  offset_of : field → nat;             (* [offset_of!(T, field)] *)
  EtherType_Ipv4 : Z;                  (* discriminants, in memory order *)
  IpProto_Tcp : Z; IpProto_Udp : Z; IpProto_Icmp : Z;
  TcpHdr_fin : list Z → Z;             (* bit-field accessors of [TcpHdr] *)
  TcpHdr_rst : list Z → Z;
  TcpHdr_ack : list Z → Z;
}.

(** The layouts of Ethernet II and of RFC 791, 9293, 768 and 792, without options. *)
Class NetworkTypesSpec `{NetworkTypes} : Prop := {
  hdr_LEN_eq h : hdr_LEN h = size_of h;
  size_of_eq h :
    size_of h = match h with EthHdr => 14 | Ipv4Hdr => 20 | TcpHdr => 20
                           | UdpHdr => 8 | IcmpHdr => 8 end%nat;
  offset_of_eq f :
    offset_of f = match f with
      | Eth_ether_type => 12
      | Ip_proto => 9 | Ip_check => 10 | Ip_src_addr => 12 | Ip_dst_addr => 16
      | Tcp_source => 0 | Tcp_dest => 2 | Tcp_check => 16
      | Udp_dest => 2 | Udp_check => 6
      | Icmp_type => 0 end%nat;
  EtherType_Ipv4_eq : EtherType_Ipv4 = to_be16 0x0800;
  IpProto_Tcp_eq : IpProto_Tcp = 6;
  IpProto_Udp_eq : IpProto_Udp = 17;
  IpProto_Icmp_eq : IpProto_Icmp = 1;
  TcpHdr_fin_eq l : TcpHdr_fin l = Z.b2z (Z.testbit (nth 13 l 0) 0);
  TcpHdr_rst_eq l : TcpHdr_rst l = Z.b2z (Z.testbit (nth 13 l 0) 2);
  TcpHdr_ack_eq l : TcpHdr_ack l = Z.b2z (Z.testbit (nth 13 l 0) 4);
}.

(** ** Helpers and constants ([aya_ebpf::{bindings, helpers}]) *)
Class AyaEbpf := {
  TC_ACT_OK : Z; TC_ACT_PIPE : Z; TC_ACT_SHOT : Z;
  bpf_l4_csum_replace (skb : list Z) (offset : nat) (from to flags : Z) : list Z * Z;
  bpf_l3_csum_replace (skb : list Z) (offset : nat) (from to size : Z) : list Z * Z;
  bpf_skb_store_bytes (skb : list Z) (offset : nat) (from : list Z) (len : nat) (flags : Z) :
    list Z * Z;
  bpf_csum_diff (from : list Z) (from_size : nat) (to : list Z) (to_size : nat) (seed : Z) : Z;
  bpf_redirect_neigh (ifindex : Z) (plen : Z) (flags : Z) : Z;
}.

(** The 16-bit words of a buffer, summed (RFC 1071): what the kernel's checksums compute. *)
Fixpoint sum16 (l : list Z) : Z :=
  match l with
  | a :: b :: l => a + 256 * b + sum16 l
  | [a] => a
  | [] => 0
  end.

Class AyaEbpfSpec `{AyaEbpf} : Prop := {
  (** On success only the 16-bit checksum at [offset] is rewritten. *)
  l4_csum_replace_ok skb offset from to flags skb' :
    bpf_l4_csum_replace skb offset from to flags = (skb', 0) →
    ∃ c, fits 16 c ∧ wr 2 offset c skb = Some skb';
  (** The L3 helper updates the checksum incrementally: the complement of the
      checksum loses [from] and gains [to], modulo 2^16 - 1. *)
  l3_csum_replace_ok skb offset from to size skb' :
    bpf_l3_csum_replace skb offset from to size = (skb', 0) →
    ∃ c c', rd 2 offset skb = Some c ∧ fits 16 c' ∧ wr 2 offset c' skb = Some skb' ∧
            (size = 4 → byte_list skb → (c' - (c + from - to)) mod 65535 = 0);
  store_bytes_ok skb offset from len flags skb' :
    bpf_skb_store_bytes skb offset from len flags = (skb', 0) → length from = len →
    (offset + len ≤ length skb)%nat ∧
    skb' = take offset skb ++ from ++ drop (offset + len) skb;
  (** With an empty [from] and no seed, the 32-bit one's complement sum of [to]. *)
  csum_diff_ok to :
    byte_list to → length to = 20%nat →
    let r := bpf_csum_diff [] 0 to 20 0 in
    fits 32 r ∧ (r - sum16 to) mod 65535 = 0 ∧ (r = 0 ↔ sum16 to = 0);
}.

(** The checksum helpers take even offsets below 2^16 and fields of two or
    four bytes; the L4 helper has a flag for the pseudo header. *)
Definition csum_at (offset : nat) : Prop := Nat.even offset = true ∧ Z.of_nat offset < 65536.
Definition BPF_F_PSEUDO_HDR : Z := 0x10.
Definition l4_flags_ok (flags : Z) : Prop :=
  flags ∈ [2; 4; Z.lor BPF_F_PSEUDO_HDR 2; Z.lor BPF_F_PSEUDO_HDR 4].

(** Helper calls with such arguments that stay inside the packet succeed.  A
    premise of the theorems about packets that are forwarded; the error paths
    have their own. *)
Class HelpersSucceed `{AyaEbpf} : Prop := {
  l4_csum_replace_succeeds skb offset from to flags :
    csum_at offset → l4_flags_ok flags → (offset + 2 ≤ length skb)%nat →
    (bpf_l4_csum_replace skb offset from to flags).2 = 0;
  l3_csum_replace_succeeds skb offset from to size :
    csum_at offset → size ∈ [2; 4] → (offset + 2 ≤ length skb)%nat →
    (bpf_l3_csum_replace skb offset from to size).2 = 0;
  store_bytes_succeeds skb offset from len :
    length from = len → (0 < len)%nat → Z.of_nat offset < 65536 → (offset + len ≤ length skb)%nat →
    (bpf_skb_store_bytes skb offset from len 0).2 = 0;
}.

(** ** BPF hash maps

    One kernel object, two libraries: the eBPF programs use
    [aya_ebpf::maps::HashMap] and report errors as an [i64]; the API server
    uses [aya::maps::HashMap] and reports a [MapError].  [MapView] is the
    content both see, [MapOps Er] the updates of the library with errors [Er]. *)
Class MapView (M K V : Type) := bpf_get : M → K → option V.

Class MapOps (Er M K V : Type) := {
  map_insert : M → K → V → Z → M * outcome Er unit;
  map_remove : M → K → M * outcome Er unit;
}.

(** [bpf_map_update_elem] with flags 0 ([BPF_ANY]) creates or replaces, or
    fails and changes nothing; [bpf_map_delete_elem] fails exactly on a
    missing key. *)
Class MapOpsSpec (Er M K V : Type) `{EqDecision K, MapView M K V, MapOps Er M K V} : Prop := {
  insert_no_fault m k v : (map_insert m k v 0).2 ≠ Fault;
  insert_ok m k v m' :
    map_insert m k v 0 = (m', Ret tt) →
    ∀ k', bpf_get m' k' = if decide (k' = k) then Some v else bpf_get m k';
  insert_err m k v m' e :
    map_insert m k v 0 = (m', Err e) → ∀ k', bpf_get m' k' = bpf_get m k';
  remove_no_fault m k : (map_remove m k).2 ≠ Fault;
  remove_ok m k m' :
    map_remove m k = (m', Ret tt) →
    is_Some (bpf_get m k) ∧
    ∀ k', bpf_get m' k' = if decide (k' = k) then None else bpf_get m k';
  remove_err m k m' e :
    map_remove m k = (m', Err e) →
    bpf_get m k = None ∧ ∀ k', bpf_get m' k' = bpf_get m k';
}.

Abbreviation bpf_insert := (map_insert (Er:=Z)).
Abbreviation bpf_remove := (map_remove (Er:=Z)).

(** Two maps a program cannot tell apart. *)
Definition map_equiv `{MapView M K V} (m m' : M) : Prop := ∀ k, bpf_get m' k = bpf_get m k.

Section map_equiv.
Context `{MapView M K V}.
#[global] Instance map_equiv_equivalence : Equivalence (map_equiv (M:=M)).
Proof. split; unfold map_equiv; repeat intro; congruence. Qed.
#[global] Instance bpf_get_proper : Proper (map_equiv ==> eq ==> eq) (bpf_get (M:=M)).
Proof. intros m m' Hm k ? <-. symmetry. apply Hm. Qed.
End map_equiv.

(** The three maps of [src/dataplane/ebpf/src/main.rs]. *)
Class Maps := {
  backends_map : Type;
  indexes_map : Type;
  conns_map : Type;
  backends_view :: MapView backends_map BackendKey BackendList;
  indexes_view :: MapView indexes_map BackendKey Z;
  conns_view :: MapView conns_map ClientKey LoadBalancerMapping;
  indexes_ops :: MapOps Z indexes_map BackendKey Z;
  conns_ops :: MapOps Z conns_map ClientKey LoadBalancerMapping;
}.

Class MapsSpec `{Maps} : Prop := {
  indexes_spec :: MapOpsSpec Z indexes_map BackendKey Z;
  conns_spec :: MapOpsSpec Z conns_map ClientKey LoadBalancerMapping;
}.

(** The same maps through [aya], as the API server holds them. *)
Class AyaMaps `{Maps} := {
  MapError : Type;
  MapError_to_string : MapError → string;
  user_backends_ops :: MapOps MapError backends_map BackendKey BackendList;
  user_indexes_ops :: MapOps MapError indexes_map BackendKey Z;
  user_conns_ops :: MapOps MapError conns_map ClientKey LoadBalancerMapping;
  conns_iter : conns_map → list (outcome MapError (ClientKey * LoadBalancerMapping));
}.

(** An iteration without errors over a map nobody else changes yields each
    entry once. *)
Class AyaMapsSpec `{AyaMaps} : Prop := {
  user_backends_spec :: MapOpsSpec MapError backends_map BackendKey BackendList;
  user_indexes_spec :: MapOpsSpec MapError indexes_map BackendKey Z;
  user_conns_spec :: MapOpsSpec MapError conns_map ClientKey LoadBalancerMapping;
  conns_iter_no_fault m : Fault ∉ conns_iter m;
  conns_iter_nodup m (l : list (ClientKey * LoadBalancerMapping)) :
    conns_iter m = Ret <$> l → NoDup l.*1;
  conns_iter_elem m k v : Ret (k, v) ∈ conns_iter m → bpf_get m k = Some v;
  conns_iter_complete m (l : list (ClientKey * LoadBalancerMapping)) k v :
    conns_iter m = Ret <$> l → bpf_get m k = Some v → (k, v) ∈ l;
}.

(** Every field lies inside its header. *)
Lemma field_in_hdr `{NetworkTypesSpec} f :
  (offset_of f + field_size f ≤ size_of (field_hdr f))%nat.
Proof. rewrite offset_of_eq, size_of_eq. destruct f; simpl; lia. Qed.

#[export] Hint Rewrite @hdr_LEN_eq @size_of_eq @offset_of_eq using typeclasses eauto : layout.
