(* ===== verification/Csum.v ===== *)
(** * Internet checksums

    Models [csum_fold_helper] of [src/dataplane/ebpf/src/utils.rs] and relates
    it to the one's complement sum of RFC 1071: four conditional folds reduce
    every [u64] completely, and a header whose checksum field is filled with
    the folded sum of the rest verifies. *)

From stdpp Require Import base list.
From S2P Require Import Prelude Common Platform.

(** [!x] on a [u16]. *)
Definition not_u16 (x : Z) : Z := as_u16 (Z.lnot x).

(** One iteration of the loop body. *)
Definition csum_fold_step (csum : Z) : Z :=
  if Z.shiftr csum 16 >? 0
  then as_u64 (Z.land csum 0xffff + Z.shiftr csum 16)
  else csum.

Definition csum_fold_helper (csum : Z) : Z :=
  not_u16 (as_u16 (Nat.iter 4 csum_fold_step csum)).

(** ** Reference: the one's complement representative of a sum *)

(** The value in [1, 65535] congruent to [s] modulo 65535, or 0 for 0. *)
Definition ones_sum (s : Z) : Z := if s =? 0 then 0 else 1 + (s - 1) mod 65535.

(** RFC 1071: a buffer that contains its checksum sums to all ones. *)
Definition csum_valid (l : list Z) : Prop := ones_sum (sum16 l) = 65535.

(** ** The fold *)
Section fold.

Lemma csum_fold_step_eq c :
  fits 64 c → csum_fold_step c = if 65536 <=? c then c mod 65536 + c / 65536 else c.
Proof.
  intros [H0 H1]. unfold csum_fold_step.
  rewrite Z.shiftr_div_pow2 by lia. change (2 ^ 16) with 65536.
  change 0xffff with (Z.ones 16). rewrite Z.land_ones by lia. change (2 ^ 16) with 65536.
  pose proof (Z.div_pos c 65536). pose proof (Z.mod_pos_bound c 65536).
  pose proof (Z.div_mod c 65536).
  destruct (Z.leb_spec 65536 c).
  - assert (1 ≤ c / 65536) by (apply Z.div_le_lower_bound; lia).
    replace (c / 65536 >? 0) with true by lia.
    apply wrap_id. unfold fits. change (2 ^ 64) with 18446744073709551616 in *. lia.
  - by rewrite Z.div_small by lia.
Qed.

(** A step keeps the one's complement value and reduces the magnitude. *)
Lemma csum_fold_step_inv c k :
  0 ≤ k → 0 ≤ c < 65536 ^ (k + 1) + 65535 → 65536 ^ (k + 1) ≤ 65536 ^ 4 → fits 64 c →
  ones_sum (csum_fold_step c) = ones_sum c ∧
  0 ≤ csum_fold_step c < 65536 ^ Z.max 1 k + 65535 ∧ fits 64 (csum_fold_step c).
Proof.
  intros Hk Hc Hp Hf. rewrite csum_fold_step_eq by done. unfold fits in *.
  change (2 ^ 64) with 18446744073709551616 in *.
  pose proof (Z.div_mod c 65536). pose proof (Z.mod_pos_bound c 65536).
  rewrite (Z.pow_add_r 65536 k 1) in Hc by lia. rewrite Z.pow_1_r in Hc.
  assert (65536 ^ k ≤ 65536 ^ Z.max 1 k) by (apply Z.pow_le_mono_r; lia).
  assert (65536 ^ 1 ≤ 65536 ^ Z.max 1 k) by (apply Z.pow_le_mono_r; lia).
  destruct (Z.leb_spec 65536 c); [|split_and!; try done; lia].
  assert (1 ≤ c / 65536) by (apply Z.div_le_lower_bound; lia).
  split_and!; try lia. unfold ones_sum.
  replace (c mod 65536 + c / 65536 =? 0) with false by lia.
  replace (c =? 0) with false by lia. f_equal.
  replace (c - 1) with (c mod 65536 + c / 65536 - 1 + (c / 65536) * 65535) by lia.
  by rewrite Z.mod_add.
Qed.

Lemma ones_sum_fits s : 0 ≤ s → fits 16 (ones_sum s).
Proof.
  intros. unfold fits, ones_sum. change (2 ^ 16) with 65536.
  pose proof (Z.mod_pos_bound (s - 1) 65535). destruct (s =? 0); lia.
Qed.

Lemma not_u16_eq x : fits 16 x → not_u16 x = 65535 - x.
Proof.
  unfold fits, not_u16, wrap, Z.lnot. change (2 ^ 16) with 65536. intros.
  replace (Z.pred (- x)) with (65535 - x + (-1) * 65536) by lia.
  rewrite Z.mod_add, Z.mod_small; lia.
Qed.

(** The four iterations of the loop fold every [u64] to its one's complement
    representative. *)
Lemma csum_fold_iter c : fits 64 c → Nat.iter 4 csum_fold_step c = ones_sum c.
Proof.
  intros Hf. assert (0 ≤ c < 65536 ^ (3 + 1) + 65535) as Hc.
  { unfold fits in Hf. change (65536 ^ (3 + 1)) with (2 ^ 64). lia. }
  destruct (csum_fold_step_inv c 3) as (E1 & B1 & F1); [lia|done|done|done|].
  destruct (csum_fold_step_inv (csum_fold_step c) 2) as (E2 & B2 & F2); [lia|done|done|done|].
  destruct (csum_fold_step_inv (csum_fold_step (csum_fold_step c)) 1) as (E3 & B3 & F3);
    [lia|done|done|done|].
  cbn [Nat.iter nat_rect]. rewrite <-E1, <-E2, <-E3.
  set (d := csum_fold_step (csum_fold_step (csum_fold_step c))) in *. clearbody d.
  rewrite csum_fold_step_eq by done. change (65536 ^ Z.max 1 1) with 65536 in B3.
  unfold ones_sum. pose proof (Z.div_mod d 65536). pose proof (Z.mod_pos_bound d 65536).
  destruct (Z.leb_spec 65536 d).
  - assert (d / 65536 = 1) as Hd by (symmetry; apply Z.div_unique with (d - 65536); lia).
    replace (d =? 0) with false by lia. rewrite Hd in *.
    replace (d - 1) with (d mod 65536 + 1 * 65535) by lia.
    rewrite Z.mod_add, (Z.mod_small (d mod 65536) 65535) by lia. lia.
  - destruct (Z.eqb_spec d 0); [lia|]. rewrite Z.mod_small; lia.
Qed.

Lemma csum_fold_helper_eq c : fits 64 c → csum_fold_helper c = 65535 - ones_sum c.
Proof.
  intros Hf. unfold csum_fold_helper. rewrite csum_fold_iter by done.
  assert (0 ≤ c) by (unfold fits in Hf; lia).
  rewrite (wrap_id 16) by (by apply ones_sum_fits). by apply not_u16_eq, ones_sum_fits.
Qed.
End fold.

(** ** Sums of 16-bit words *)
Section sum16.

Lemma sum16_app l1 l2 : Nat.even (length l1) = true → sum16 (l1 ++ l2) = sum16 l1 + sum16 l2.
Proof.
  revert l1. fix IH 1. intros [|a [|b l1]] He; simpl in *; [done..|].
  rewrite (IH l1) by done. lia.
Qed.

Lemma sum16_nonneg l : byte_list l → 0 ≤ sum16 l.
Proof.
  revert l. fix IH 1. intros [|a [|b l]] Hl; [done| |].
  - inv Hl. unfold fits in *. simpl. lia.
  - inv Hl. match goal with H : Forall _ (_ :: _) |- _ => inv H end.
    unfold fits in *. cbn [sum16]. assert (0 ≤ sum16 l) by (by apply IH). lia.
Qed.

Lemma sum16_le_bytes_2 v : sum16 (le_bytes 2 v) = v mod 65536.
Proof. rewrite <-(le_value_bytes 2). cbv [sum16 le_bytes le_value]. lia. Qed.

Lemma sum16_le_bytes_4 v : ∃ q, sum16 (le_bytes 4 v) = v mod 256 ^ 4 + q * 65535.
Proof.
  rewrite <-(le_value_bytes 4). exists (- sum16 (le_bytes 2 (v / 65536))).
  change 65536 with (256 * 256) at 1. rewrite <-(Z.div_div v 256 256) by lia.
  cbv [sum16 le_bytes le_value]. lia.
Qed.

(** A value written at an even offset replaces its words in the sum. *)
Lemma sum16_wr n off v p p' old :
  wr n off v p = Some p' → Nat.even off = true → Nat.even n = true →
  take n (drop off p) = old → sum16 p' = sum16 p - sum16 old + sum16 (le_bytes n v).
Proof.
  intros [H ->]%wr_Some Ho Hn <-.
  rewrite <-(take_drop off p) at 3. rewrite <-(take_drop n (drop off p)) at 1.
  rewrite drop_drop, !sum16_app; [lia|..];
    rewrite ?length_take, ?length_drop, ?length_le_bytes, ?Nat.min_l; done || lia.
Qed.

(** Congruence modulo 2^16 - 1, with its quotient for [lia]. *)
Lemma mod_65535_quotient a b : (a - b) mod 65535 = 0 → ∃ q, a = b + q * 65535.
Proof. intros [q Hq]%Z.mod_divide; [|lia]. exists q. lia. Qed.

Lemma sum16_value n l :
  n = 2%nat ∨ n = 4%nat → byte_list l → length l = n → ∃ q, sum16 l = le_value l + q * 65535.
Proof.
  intros Hn Hl Hlen.
  assert (sum16 l = sum16 (le_bytes n (le_value l))) as ->
    by (rewrite <-Hlen; by rewrite le_bytes_value).
  pose proof (le_value_bound l Hl) as Hb. rewrite Hlen in Hb.
  destruct Hn as [-> | ->].
  - exists 0. rewrite sum16_le_bytes_2, Z.mod_small; [lia|done].
  - destruct (sum16_le_bytes_4 (le_value l)) as [q ->]. exists q. rewrite Z.mod_small; [lia|done].
Qed.

(** Replacing a 16- or 32-bit value at an even offset changes the sum by the
    difference of the values. *)
Lemma sum16_replace n off v p p' old :
  n = 2%nat ∨ n = 4%nat → Nat.even off = true → byte_list p → 0 ≤ v < 256 ^ Z.of_nat n →
  wr n off v p = Some p' → rd n off p = Some old →
  ∃ q, sum16 p' = sum16 p - old + v + q * 65535.
Proof.
  intros Hn He Hp Hv Hw [Hb ->]%rd_Some.
  assert (Nat.even n = true) as Hen by (by destruct Hn; subst).
  rewrite (sum16_wr _ _ _ _ _ _ Hw He Hen eq_refl).
  destruct (sum16_value n (take n (drop off p)) Hn) as [q ->].
  { by apply Forall_take, Forall_drop. }
  { rewrite length_take, length_drop. lia. }
  destruct (sum16_value n (le_bytes n v) Hn) as [q' ->];
    [apply le_bytes_byte|apply length_le_bytes|].
  rewrite le_value_bytes, (Z.mod_small v) by done. exists (q' - q). lia.
Qed.

Lemma sum16_pos l : byte_list l → 0 < hd 0 l → 0 < sum16 l.
Proof.
  intros Hl Hpos. destruct l as [|a [|b l]]; simpl in *; try lia.
  inv Hl. match goal with H : Forall _ (_ :: _) |- _ => inv H end.
  pose proof (sum16_nonneg l ltac:(done)). unfold fits in *. lia.
Qed.

Lemma csum_valid_iff l :
  byte_list l → csum_valid l ↔ sum16 l mod 65535 = 0 ∧ sum16 l ≠ 0.
Proof.
  intros Hl. pose proof (sum16_nonneg l Hl). unfold csum_valid, ones_sum.
  destruct (Z.eqb_spec (sum16 l) 0) as [->|Hne]; [naive_solver lia|].
  assert (sum16 l mod 65535 = ((sum16 l - 1) mod 65535 + 1) mod 65535) as ->.
  { rewrite Zplus_mod_idemp_l. f_equal. lia. }
  pose proof (Z.mod_pos_bound (sum16 l - 1) 65535).
  destruct (decide ((sum16 l - 1) mod 65535 = 65534)) as [->|]; [naive_solver lia|].
  rewrite (Z.mod_small (_ + 1)) by lia. lia.
Qed.

Lemma csum_valid_cong l l' :
  byte_list l → byte_list l' → 0 < hd 0 l' → (∃ q, sum16 l' = sum16 l + q * 65535) →
  csum_valid l → csum_valid l'.
Proof.
  intros Hl Hl' Hh [q Hq] [Hm _]%csum_valid_iff; [|done]. apply csum_valid_iff; [done|].
  split; [|pose proof (sum16_pos l' Hl' Hh); lia]. by rewrite Hq, Z.mod_add.
Qed.

(** Filling a zero checksum field with the folded sum makes the buffer verify. *)
Lemma csum_fill_valid hdr hdr' off r :
  byte_list hdr → Nat.even off = true → take 2 (drop off hdr) = [0; 0] →
  fits 32 r → (r - sum16 hdr) mod 65535 = 0 → (r = 0 ↔ sum16 hdr = 0) →
  wr 2 off (csum_fold_helper r) hdr = Some hdr' → csum_valid hdr'.
Proof.
  intros Hb He Hz Hr Hm H0 Hw.
  assert (fits 64 r) as Hr64 by (unfold fits in *; lia).
  assert (0 ≤ r) as Hpos by (unfold fits in Hr; lia).
  apply csum_valid_iff; [by eauto with bytes|].
  rewrite (sum16_wr _ _ _ _ _ _ Hw He eq_refl Hz), sum16_le_bytes_2.
  rewrite csum_fold_helper_eq by done. pose proof (ones_sum_fits r Hpos) as Hf.
  pose proof (sum16_nonneg hdr Hb).
  unfold fits in Hf. change (2 ^ 16) with 65536 in Hf. cbn [sum16].
  rewrite (Z.mod_small (65535 - ones_sum r)) by lia.
  unfold ones_sum in *. destruct (Z.eqb_spec r 0) as [->|Hne].
  { assert (sum16 hdr = 0) as -> by (by apply H0). done. }
  assert (sum16 hdr ≠ 0) by naive_solver.
  apply Z.mod_divide in Hm as [q Hq]; [|lia].
  pose proof (Z.div_mod (r - 1) 65535). pose proof (Z.mod_pos_bound (r - 1) 65535).
  split; [|lia].
  replace (_ - _ + _) with (((r - 1) / 65535 - q + 1) * 65535) by lia.
  by apply Z.mod_mul.
Qed.
End sum16.

(** C20: [csum_fold_helper] is the RFC 1071 checksum of its argument: for
    every [u64] sum the result is a [u16] that cancels the sum modulo
    2^16 - 1, and it is the complement of the fully folded sum, so the four
    iterations of the loop are enough for any input. *)
Theorem csum_fold_helper_rfc1071 (c : Z) :
  fits 64 c →
  fits 16 (csum_fold_helper c) ∧
  (csum_fold_helper c + c) mod 65535 = 0 ∧
  csum_fold_helper c = 65535 - ones_sum c.
Proof.
  intros Hf. rewrite csum_fold_helper_eq by done.
  assert (0 ≤ c) as Hc by (unfold fits in Hf; lia).
  pose proof (ones_sum_fits c Hc) as B.
  unfold fits in *. change (2 ^ 16) with 65536 in *. split_and!; [lia..| |done].
  unfold ones_sum in *. destruct (Z.eqb_spec c 0) as [->|]; [done|].
  pose proof (Z.div_mod (c - 1) 65535). pose proof (Z.mod_pos_bound (c - 1) 65535).
  replace (_ + c) with (((c - 1) / 65535 + 1) * 65535) by lia. by apply Z.mod_mul.
Qed.

Lemma csum_fold_helper_rfc1071_witness :
  csum_fold_helper 0xffffffffffffffff = 0 ∧ csum_fold_helper 0x2fffd = 0.
Proof.
  split.
  - by rewrite (proj2 (proj2 (csum_fold_helper_rfc1071 0xffffffffffffffff ltac:(done)))).
  - by rewrite (proj2 (proj2 (csum_fold_helper_rfc1071 0x2fffd ltac:(done)))).
Defined.

(** Three iterations would not do. *)
Example three_folds_not_enough :
  Nat.iter 3 csum_fold_step 0xfffffffeffff0001 ≠ ones_sum 0xfffffffeffff0001.
Proof. by vm_compute. Qed.
