(* ===== verification/PlatformRef.v ===== *)
(** * Reference implementations of the interfaces

    One concrete instance of each class of [Platform], with proofs of its
    laws: the RFC header layouts, checksum helpers that compute RFC 1624
    updates, and bounded hash maps on [gmap].  The laws the other files
    assume can therefore hold together; concrete runs use these instances. *)

From stdpp Require Import base list gmap strings.
From S2P Require Import Prelude Common Platform Csum.

(** ** Headers *)
Definition rfc_types : NetworkTypes := {|
  hdr_LEN h := match h with EthHdr => 14 | Ipv4Hdr => 20 | TcpHdr => 20
                          | UdpHdr => 8 | IcmpHdr => 8 end%nat;
  size_of h := match h with EthHdr => 14 | Ipv4Hdr => 20 | TcpHdr => 20
                          | UdpHdr => 8 | IcmpHdr => 8 end%nat;
  offset_of f := match f with
      | Eth_ether_type => 12
      | Ip_proto => 9 | Ip_check => 10 | Ip_src_addr => 12 | Ip_dst_addr => 16
      | Tcp_source => 0 | Tcp_dest => 2 | Tcp_check => 16
      | Udp_dest => 2 | Udp_check => 6
      | Icmp_type => 0 end%nat;
  EtherType_Ipv4 := to_be16 0x0800;
  IpProto_Tcp := 6; IpProto_Udp := 17; IpProto_Icmp := 1;
  TcpHdr_fin l := Z.b2z (Z.testbit (nth 13 l 0) 0);
  TcpHdr_rst l := Z.b2z (Z.testbit (nth 13 l 0) 2);
  TcpHdr_ack l := Z.b2z (Z.testbit (nth 13 l 0) 4);
|}.

(** ** Helpers *)

(** RFC 1624: the checksum after [from] is replaced by [to]. *)
Definition ref_csum_replace (skb : list Z) (offset : nat) (from to : Z) : list Z * Z :=
  match rd 2 offset skb with
  | Some c =>
      match wr 2 offset ((c + from - to) mod 65535) skb with
      | Some skb' => (skb', 0)
      | None => (skb, -14)
      end
  | None => (skb, -14)
  end.

Definition ref_store_bytes (skb : list Z) (offset : nat) (from : list Z) (len : nat) :
    list Z * Z :=
  if decide (offset + len ≤ length skb ∧ length from = len)%nat
  then (take offset skb ++ from ++ drop (offset + len) skb, 0) else (skb, -14).

Definition ref_ebpf : AyaEbpf := {|
  TC_ACT_OK := 0; TC_ACT_PIPE := 3; TC_ACT_SHOT := 2;
  bpf_l4_csum_replace skb offset from to _ := ref_csum_replace skb offset from to;
  bpf_l3_csum_replace skb offset from to _ := ref_csum_replace skb offset from to;
  bpf_skb_store_bytes skb offset from len _ := ref_store_bytes skb offset from len;
  bpf_csum_diff from from_size to to_size seed :=
    wrap 32 (seed + sum16 (take to_size to) - sum16 (take from_size from));
  bpf_redirect_neigh _ _ _ := 7;
|}.

(** ** Maps *)
Record ref_map (K V : Type) `{Countable K} := RefMap { entries : gmap K V }.
Arguments RefMap {K V _ _} _.
Arguments entries {K V _ _} _.

(** Error codes of the two libraries: errno values, or the text of the error. *)
Section ref_map.
Context {K V : Type} `{Countable K} {Er : Type} (E2BIG ENOENT : Er).

Definition ref_insert (m : ref_map K V) (k : K) (v : V) (flags : Z) : ref_map K V * outcome Er unit :=
  if decide (is_Some (entries m !! k) ∨ size (entries m) < BPF_MAPS_CAPACITY)%nat
  then (RefMap (<[k:=v]> (entries m)), Ret tt) else (m, Err E2BIG).

Definition ref_remove (m : ref_map K V) (k : K) : ref_map K V * outcome Er unit :=
  match entries m !! k with
  | Some _ => (RefMap (delete k (entries m)), Ret tt)
  | None => (m, Err ENOENT)
  end.

Definition ref_ops : MapOps Er (ref_map K V) K V :=
  {| map_insert := ref_insert; map_remove := ref_remove |}.

#[local] Instance ref_view : MapView (ref_map K V) K V := λ m k, entries m !! k.

Lemma ref_ops_spec : @MapOpsSpec Er (ref_map K V) K V _ ref_view ref_ops.
Proof.
  split; unfold bpf_get, ref_view; simpl; unfold ref_insert, ref_remove; intros m k.
  - intros v. by case_decide.
  - intros v m'. case_decide; intros ?; simplify_eq/=. intros k'.
    case_decide; subst; by simplify_map_eq.
  - intros v m' e. case_decide; intros ?; by simplify_eq/=.
  - by case_match.
  - intros m'. case_match; intros ?; simplify_eq/=. split; [done|]. intros k'.
    case_decide; subst; by simplify_map_eq.
  - intros m' e. case_match eqn:E; intros ?; by simplify_eq/=.
Qed.
End ref_map.

Definition ref_maps : Maps := {|
  backends_map := ref_map BackendKey BackendList;
  indexes_map := ref_map BackendKey Z;
  conns_map := ref_map ClientKey LoadBalancerMapping;
  backends_view := ref_view;
  indexes_view := ref_view;
  conns_view := ref_view;
  indexes_ops := ref_ops (-7) (-2);
  conns_ops := ref_ops (-7) (-2);
|}.

(** The text of the error for a missing entry, as [aya] 0.13 prints it. *)
Definition ref_not_found : string := "`bpf_map_delete_elem` failed".

Definition ref_user_maps : @AyaMaps ref_maps :=
  @Build_AyaMaps ref_maps string (λ e, e)
    (ref_ops (K:=BackendKey) (V:=BackendList) "E2BIG" ref_not_found)
    (ref_ops (K:=BackendKey) (V:=Z) "E2BIG" ref_not_found)
    (ref_ops (K:=ClientKey) (V:=LoadBalancerMapping) "E2BIG" ref_not_found)
    (λ m : ref_map ClientKey LoadBalancerMapping, Ret <$> map_to_list (entries m)).

(** ** The laws *)
#[export] Instance rfc_types_spec : @NetworkTypesSpec rfc_types.
Proof. by split; try intros []. Qed.

Lemma ref_csum_replace_ok skb offset from to skb' :
  ref_csum_replace skb offset from to = (skb', 0) →
  ∃ c, rd 2 offset skb = Some c ∧ wr 2 offset ((c + from - to) mod 65535) skb = Some skb'.
Proof. unfold ref_csum_replace. repeat case_match; naive_solver. Qed.

Lemma mod_65535_fits x : fits 16 (x mod 65535).
Proof. unfold fits. pose proof (Z.mod_pos_bound x 65535). lia. Qed.

Lemma sum16_bound l : byte_list l → sum16 l ≤ 65536 * Z.of_nat (length l).
Proof.
  revert l. fix IH 1. intros [|a [|b l]] Hl; [done| |]; inv Hl; unfold fits in *; simpl; [lia|].
  match goal with H : Forall _ (_ :: _) |- _ => inv H end.
  unfold fits in *. assert (sum16 l ≤ 65536 * Z.of_nat (length l)) by (by apply IH). lia.
Qed.

#[export] Instance ref_ebpf_spec : @AyaEbpfSpec ref_ebpf.
Proof.
  split; simpl; intros.
  - apply ref_csum_replace_ok in H as (c & ? & ?). eauto using mod_65535_fits.
  - apply ref_csum_replace_ok in H as (c & ? & ?). exists c, ((c + from - to) mod 65535).
    split_and!; auto using mod_65535_fits. intros _ _.
    rewrite Zminus_mod_idemp_l. by rewrite Z.sub_diag.
  - unfold ref_store_bytes in *. case_decide; naive_solver.
  - rewrite take_ge by lia. rewrite Z.sub_0_r, Z.add_0_l.
    pose proof (sum16_nonneg to H). pose proof (sum16_bound to H).
    rewrite wrap_id by (unfold fits; lia). rewrite Z.sub_diag. unfold fits. split_and!; naive_solver lia.
Qed.

#[export] Instance ref_helpers_succeed : @HelpersSucceed ref_ebpf.
Proof.
  assert (∀ skb offset from to, (offset + 2 ≤ length skb)%nat →
            (ref_csum_replace skb offset from to).2 = 0) as Hc.
  { intros skb offset from to Hb. unfold ref_csum_replace, rd, wr. by rewrite !decide_True. }
  split; simpl; intros; auto. unfold ref_store_bytes. by rewrite decide_True.
Qed.

#[export] Instance ref_maps_spec : @MapsSpec ref_maps.
Proof. split; apply ref_ops_spec. Qed.

Lemma fmap_Ret_inj {E A} (l l' : list A) :
  (Ret <$> l : list (outcome E A)) = Ret <$> l' → l = l'.
Proof.
  revert l'. induction l as [|a l IH]; intros [|a' l'] Hl; simplify_eq/=; [done|].
  by rewrite (IH l').
Qed.

#[export] Instance ref_user_maps_spec : @AyaMapsSpec ref_maps ref_user_maps.
Proof.
  split; simpl; try apply ref_ops_spec; intros m.
  - intros (? & ? & ?)%list_elem_of_fmap. done.
  - intros l Hl. assert (map_to_list (entries m) = l) as <-.
    { by apply fmap_Ret_inj in Hl. }
    apply NoDup_fst_map_to_list.
  - intros k v ([k' v'] & [= -> ->] & Hin)%list_elem_of_fmap. by apply elem_of_map_to_list in Hin.
  - intros l k v Hl Hk. assert (map_to_list (entries m) = l) as <-.
    { by apply fmap_Ret_inj in Hl. }
    by apply elem_of_map_to_list.
Qed.
