(* ===== verification/TcpState.v ===== *)
(** * TCP connection state tracking

    Models [process_tcp_state_transition] of [src/dataplane/ebpf/src/utils.rs].
    The comment above it refers to the TCP state diagram, of which the relation
    [diagram] is the part for the side that closes first; the function agrees
    with it up to three cases, moves strictly forward, and a connection that
    has started closing reaches [Closed]. *)

From stdpp Require Import base list.
From S2P Require Import Prelude Common Platform Csum PlatformRef.

Section tcp_state.
Context `{NT : NetworkTypes}.
Implicit Types (hdr : list Z) (st : TCPState).

(** [hdr.fin() == 1], [hdr.ack() == 1] *)
Definition fin hdr : bool := TcpHdr_fin hdr =? 1.
Definition ack hdr : bool := TcpHdr_ack hdr =? 1.

(** The new state and whether the state changed. *)
Definition process_tcp_state_transition hdr st : TCPState * bool :=
  match st with
  | Established => if fin hdr then (FinWait1, true) else (st, false)
  | FinWait1 =>
      if fin hdr && ack hdr then (TimeWait, true)
      else if fin hdr then (Closing, true)
      else if ack hdr then (FinWait2, true)
      else (st, false)
  | FinWait2 => if ack hdr then (TimeWait, true) else (st, false)
  | Closing => if ack hdr then (TimeWait, true) else (st, false)
  | TimeWait => if ack hdr then (Closed, true) else (st, false)
  | Closed => (st, false)
  end.

(** ** The diagram

    RFC 793, figure 6, from ESTABLISHED to CLOSED on the side that closes
    first.  Its events are segments, sent or received, by what they carry, and
    the timeout that ends TIME-WAIT. *)
Inductive tcp_event :=
| Segment (with_fin with_ack : bool)
| Timeout2MSL.

Inductive diagram : TCPState → tcp_event → TCPState → Prop :=
| close_sends_fin a : diagram Established (Segment true a) FinWait1
| own_fin_acked : diagram FinWait1 (Segment false true) FinWait2
| both_close : diagram FinWait1 (Segment true false) Closing
| acked_with_fin : diagram FinWait1 (Segment true true) TimeWait
| peer_closes a : diagram FinWait2 (Segment true a) TimeWait
| both_acked f : diagram Closing (Segment f true) TimeWait
| wait_over : diagram TimeWait Timeout2MSL Closed.

Definition segment hdr : tcp_event := Segment (fin hdr) (ack hdr).

Lemma diagram_segment st f a st' :
  diagram st (Segment f a) st' ↔
  match st with
  | Established => f = true ∧ st' = FinWait1
  | FinWait1 => (f || a) = true ∧ st' = (if f then if a then TimeWait else Closing else FinWait2)
  | FinWait2 => f = true ∧ st' = TimeWait
  | Closing => a = true ∧ st' = TimeWait
  | TimeWait | Closed => False
  end.
Proof.
  split; [by inversion 1|].
  destruct st; [| | | |done..]; intros [Hfa ->]; simplify_eq/=; [constructor| |constructor..].
  destruct f, a; simplify_eq/=; constructor.
Qed.

(** The state after a sequence of packets. *)
Definition tcp_run (hdrs : list (list Z)) st : TCPState :=
  foldl (λ st hdr, (process_tcp_state_transition hdr st).1) st hdrs.

(** Transitions still possible: the longest path to [Closed]. *)
Definition tcp_rank st : nat :=
  match st with
  | Established => 4 | FinWait1 => 3 | FinWait2 | Closing => 2 | TimeWait => 1 | Closed => 0
  end.

Definition acks (hdrs : list (list Z)) : nat := length (filter (λ h, ack h = true) hdrs).

Lemma process_forward hdr st :
  let '(st', moved) := process_tcp_state_transition hdr st in
  if moved then (tcp_rank st' < tcp_rank st)%nat else st' = st.
Proof.
  unfold process_tcp_state_transition.
  destruct st, (fin hdr), (ack hdr); simpl; done || lia.
Qed.

Lemma tcp_run_closed hdrs : tcp_run hdrs Closed = Closed.
Proof. by induction hdrs. Qed.

(** Past [Established], an ACK always moves the state on. *)
Lemma process_ack_rank hdr st :
  ack hdr = true → st ≠ Established →
  (tcp_rank (process_tcp_state_transition hdr st).1 ≤ pred (tcp_rank st))%nat ∧
  (process_tcp_state_transition hdr st).1 ≠ Established.
Proof.
  unfold process_tcp_state_transition. intros -> Hst.
  by destruct st, (fin hdr); simpl; split; done || lia.
Qed.

Lemma process_rank_le hdr st :
  st ≠ Established →
  (tcp_rank (process_tcp_state_transition hdr st).1 ≤ tcp_rank st)%nat ∧
  (process_tcp_state_transition hdr st).1 ≠ Established.
Proof.
  unfold process_tcp_state_transition. intros Hst.
  by destruct st, (fin hdr), (ack hdr); simpl; split; done || lia.
Qed.

Lemma acks_cons hdr hdrs :
  acks (hdr :: hdrs) = ((if ack hdr then 1 else 0) + acks hdrs)%nat.
Proof. unfold acks. rewrite filter_cons. by case_decide as A; destruct (ack hdr). Qed.

Lemma tcp_run_rank hdrs st :
  st ≠ Established → (tcp_rank (tcp_run hdrs st) ≤ tcp_rank st - acks hdrs)%nat.
Proof.
  revert st. induction hdrs as [|hdr hdrs IH]; intros st Hst; [unfold acks; simpl; lia|].
  change (tcp_run (hdr :: hdrs) st)
    with (tcp_run hdrs (process_tcp_state_transition hdr st).1).
  destruct (process_rank_le hdr st Hst) as [R N]. specialize (IH _ N).
  rewrite acks_cons. destruct (ack hdr) eqn:A; [|lia].
  destruct (process_ack_rank hdr st A Hst). lia.
Qed.

Lemma tcp_rank_0 st : tcp_rank st = 0%nat → st = Closed.
Proof. by destruct st. Qed.

(** C18: the function and the diagram it refers to.  It reports a transition
    exactly for the segments for which the diagram has one, to the same state,
    except that in [FinWait2] it waits for an ACK where the diagram has the FIN
    of the peer (so a mere ACK already leads to [TimeWait], and a FIN without
    ACK does not), and that an ACK ends [TimeWait], which in the diagram no
    segment does; when it reports none the state is unchanged. *)
Theorem tcp_diagram_divergence hdr st st' :
  (process_tcp_state_transition hdr st = (st', true) ↔
     (st ≠ FinWait2 ∧ diagram st (segment hdr) st') ∨
     (st = FinWait2 ∧ ack hdr = true ∧ st' = TimeWait) ∨
     (st = TimeWait ∧ ack hdr = true ∧ st' = Closed)) ∧
  ((process_tcp_state_transition hdr st).2 = false → (process_tcp_state_transition hdr st).1 = st) ∧
  (diagram FinWait2 (segment hdr) st' ↔ fin hdr = true ∧ st' = TimeWait) ∧
  ¬ diagram TimeWait (segment hdr) st'.
Proof.
  unfold process_tcp_state_transition, segment. rewrite !diagram_segment.
  split_and!; [| |done|by intros []]; destruct st, (fin hdr), (ack hdr); simpl; naive_solver.
Qed.

(** C19: tracking ends: once a connection has left [Established], any packet
    sequence with three ACKs, whatever else it contains, takes it to
    [Closed]; so the entry of a connection both ends are closing is removed. *)
Theorem tcp_teardown_completes hdrs st :
  st ≠ Established → (3 ≤ acks hdrs)%nat → tcp_run hdrs st = Closed.
Proof.
  intros Hst Ha. apply tcp_rank_0. pose proof (tcp_run_rank hdrs st Hst).
  assert (tcp_rank st ≤ 3)%nat by (destruct st; simpl; done || lia). lia.
Qed.

(** Without a FIN, no sequence of packets leaves [Established]. *)
Lemma tcp_run_no_fin hdrs :
  Forall (λ h, fin h = false) hdrs → tcp_run hdrs Established = Established.
Proof.
  intros Hf. unfold tcp_run. induction Hf as [|h hdrs Hh _ IH]; [done|]. simpl. by rewrite Hh.
Qed.
End tcp_state.

Definition demo_hdr (flags : Z) : list Z := replicate 13 0 ++ [flags] ++ replicate 6 0.

(** FIN|ACK, then two ACKs. *)
Lemma tcp_teardown_completes_witness :
  @tcp_run rfc_types [demo_hdr 17; demo_hdr 16; demo_hdr 16] FinWait1 = Closed.
Proof. apply tcp_teardown_completes; [done|vm_compute; lia]. Defined.

(** A mere ACK in [FinWait2]. *)
Lemma tcp_diagram_divergence_witness :
  @process_tcp_state_transition rfc_types (demo_hdr 16) FinWait2 = (TimeWait, true) ∧
  ¬ diagram FinWait2 (@segment rfc_types (demo_hdr 16)) TimeWait.
Proof.
  destruct (tcp_diagram_divergence (NT:=rfc_types) (demo_hdr 16) FinWait2 TimeWait)
    as (Hcode & _ & Hdiag & _).
  split; [apply Hcode; right; left; by vm_compute|]. intros [Hf _]%Hdiag. by vm_compute in Hf.
Defined.
