(* ===== verification/Ebpf.v ===== *)
(** * The state of the eBPF programs and their shared routines

    Models the maps of [src/dataplane/ebpf/src/main.rs] and the helpers of
    [src/dataplane/ebpf/src/utils.rs].  The packet is the byte string between
    [ctx.data()] and [ctx.data_end()]; a raw pointer is an offset into it, and
    dereferencing one outside the packet is a [Fault].  References into map
    values are copied where the program reads them: one program run is not
    interleaved with others here.  Logging is not modelled. *)

From stdpp Require Import base list gmap.
From S2P Require Import Prelude Common Platform Csum TcpState.

Section ebpf.
Context `{NT : NetworkTypes, AE : AyaEbpf, MP : Maps}.

Record kstate := KState {
  skb : list Z;
  BACKENDS : backends_map;
  GATEWAY_INDEXES : indexes_map;
  LB_CONNECTIONS : conns_map;
}.

Definition set_skb (p : list Z) (s : kstate) : kstate :=
  KState p (BACKENDS s) (GATEWAY_INDEXES s) (LB_CONNECTIONS s).
Definition set_indexes (m : indexes_map) (s : kstate) : kstate :=
  KState (skb s) (BACKENDS s) m (LB_CONNECTIONS s).
Definition set_conns (m : conns_map) (s : kstate) : kstate :=
  KState (skb s) (BACKENDS s) (GATEWAY_INDEXES s) m.

(** A function returning [Result<A, i64>], and the body of one. *)
Definition Prog (A : Type) : Type := Eff kstate Z A.
Definition Body (A : Type) : Type := Eff kstate (ctl Z Z) A.

(** ** Packet access *)

(** Addresses are relative to the start of the packet. *)
Definition ctx_data (s : kstate) : nat := 0.
Definition ctx_data_end (s : kstate) : nat := length (skb s).

Definition ptr_at (T : HdrType) (offset : nat) : Prog nat := λ s,
  let start := ctx_data s in
  let end_ := ctx_data_end s in
  let len := size_of T in
  if (end_ <? start + offset + len)%nat then (s, Err TC_ACT_OK) else (s, Ret (start + offset)%nat).

(** A field of the header behind a raw pointer, as an expression and as the target of an assignment. *)
Definition rd_field {E} (f : field) (hdr : nat) : Eff kstate E Z :=
  gets_or_fault (λ s, rd (field_size f) (hdr + offset_of f) (skb s)).

Definition wr_field {E} (f : field) (hdr : nat) (v : Z) : Eff kstate E unit := λ s,
  match wr (field_size f) (hdr + offset_of f) v (skb s) with
  | Some p => (set_skb p s, Ret tt)
  | None => (s, Fault)
  end.

(** The bytes of a whole header. *)
Definition rd_hdr {E} (T : HdrType) (hdr : nat) : Eff kstate E (list Z) :=
  gets_or_fault (λ s, if decide (hdr + size_of T ≤ length (skb s))%nat
                      then Some (take (size_of T) (drop hdr (skb s))) else None).

(** [ptr.as_ref()]: an address inside the packet is not the null pointer. *)
Definition as_ref (p : nat) : option nat := Some p.

(** ** Map access *)
Definition backends_get {E} (k : BackendKey) : Eff kstate E (option BackendList) :=
  gets (λ s, bpf_get (BACKENDS s) k).
Definition indexes_get {E} (k : BackendKey) : Eff kstate E (option Z) :=
  gets (λ s, bpf_get (GATEWAY_INDEXES s) k).
Definition indexes_insert (k : BackendKey) (v : Z) : Prog unit := λ s,
  let '(m, r) := bpf_insert (GATEWAY_INDEXES s) k v 0 in (set_indexes m s, r).
Definition conns_get {E} (k : ClientKey) : Eff kstate E (option LoadBalancerMapping) :=
  gets (λ s, bpf_get (LB_CONNECTIONS s) k).
Definition conns_insert (k : ClientKey) (v : LoadBalancerMapping) : Prog unit := λ s,
  let '(m, r) := bpf_insert (LB_CONNECTIONS s) k v 0 in (set_conns m s, r).
Definition conns_remove (k : ClientKey) : Prog unit := λ s,
  let '(m, r) := bpf_remove (LB_CONNECTIONS s) k in (set_conns m s, r).

(** ** Routines of [utils.rs] *)
Definition IP_CSUM_OFF : nat := hdr_LEN EthHdr + offset_of Ip_check.
Definition IP_DST_OFF : nat := hdr_LEN EthHdr + offset_of Ip_dst_addr.
Definition IS_PSEUDO : Z := 0x10.

(** Returns the mapping as [&mut lb_mapping] leaves it. *)
Definition update_tcp_conns (hdr : list Z) (client_key : ClientKey)
    (lb_mapping : LoadBalancerMapping) : Prog LoadBalancerMapping :=
  match tcp_state lb_mapping with
  | Some st =>
      let '(st', transitioned) := process_tcp_state_transition hdr st in
      let lb_mapping :=
        MkMapping (backend lb_mapping) (backend_key lb_mapping) (Some st') in
      match st' with
      | Closed => _ ← conns_remove client_key; mret lb_mapping
      | _ => if transitioned
             then _ ← conns_insert client_key lb_mapping; mret lb_mapping
             else mret lb_mapping
      end
  | None => mret lb_mapping
  end.

(** The tail of both TCP handlers: an RST removes the connection, then the
    state of the connection is updated. *)
Definition track_packet (hdr : list Z) (client_key : ClientKey)
    (lb_mapping : LoadBalancerMapping) : Body LoadBalancerMapping :=
  _ ← (if TcpHdr_rst hdr =? 1 then try_ (conns_remove client_key) else mret tt);
  try_ (update_tcp_conns hdr client_key lb_mapping).

(** A helper that rewrites the packet and returns a [c_long]. *)
Definition skb_helper {E} (h : list Z → list Z * Z) : Eff kstate E Z := λ s,
  let '(p, ret) := h (skb s) in (set_skb p s, Ret ret).

Definition set_ipv4_ip_dst {E} (l4_csum_offset : nat) (old_ip new_dip : Z) : Eff kstate E Z :=
  ret ← skb_helper (λ p, bpf_l4_csum_replace p l4_csum_offset old_ip new_dip (Z.lor IS_PSEUDO 4));
  if negb (ret =? 0) then mret ret else
  ret ← skb_helper (λ p, bpf_l3_csum_replace p IP_CSUM_OFF old_ip new_dip 4);
  if negb (ret =? 0) then mret ret else
  ret ← skb_helper (λ p, bpf_skb_store_bytes p IP_DST_OFF (le_bytes 4 new_dip) 4 0);
  if negb (ret =? 0) then mret ret else
  mret ret.

Definition set_ipv4_dest_port {E} (l4_csum_offset : nat) (old_port new_port : Z) :
    Eff kstate E Z :=
  ret ← skb_helper (λ p, bpf_l4_csum_replace p l4_csum_offset old_port new_port 2);
  if negb (ret =? 0) then mret ret else
  ret ← skb_helper (λ p, bpf_skb_store_bytes p l4_csum_offset (le_bytes 2 new_port) 2 0);
  if negb (ret =? 0) then mret ret else
  mret ret.

(** ** Invariants of the state *)

(** What the types of the map values guarantee. *)
Definition maps_wf (s : kstate) : Prop :=
  (∀ k bl, bpf_get (BACKENDS s) k = Some bl → backend_list_wf bl) ∧
  (∀ k i, bpf_get (GATEWAY_INDEXES s) k = Some i → fits 16 i) ∧
  (∀ c m, bpf_get (LB_CONNECTIONS s) c = Some m → lb_mapping_wf m).

(** A field of a header of the packet, and a whole header; the programs read
    them only after the bounds check of [ptr_at]. *)
Definition fld (f : field) (hdr : nat) (p : list Z) : Z :=
  default 0 (rd (field_size f) (hdr + offset_of f) p).
Definition hdr_bytes (T : HdrType) (hdr : nat) (p : list Z) : list Z :=
  take (size_of T) (drop hdr p).

(** Offsets of the network and transport headers. *)
Definition L3 : nat := hdr_LEN EthHdr.
Definition L4 : nat := hdr_LEN EthHdr + hdr_LEN Ipv4Hdr.

(** Packets long enough for the headers, and an IPv4 header that verifies. *)
Definition tcp_packet (p : list Z) : Prop :=
  byte_list p ∧ (L4 + size_of TcpHdr ≤ length p)%nat.
Definition udp_packet (p : list Z) : Prop :=
  byte_list p ∧ (L4 + size_of UdpHdr ≤ length p)%nat.

(** Its first byte holds the IP version, hence is not zero. *)
Definition ip_hdr_ok (p : list Z) : Prop :=
  0 < hd 0 (hdr_bytes Ipv4Hdr L3 p) ∧ csum_valid (hdr_bytes Ipv4Hdr L3 p).

(** ** Specification of connection tracking *)

Definition with_state (lb : LoadBalancerMapping) (st : TCPState) : LoadBalancerMapping :=
  MkMapping (backend lb) (backend_key lb) (Some st).

Definition is_rst (hdr : list Z) : bool := TcpHdr_rst hdr =? 1.

(** The mapping a packet leaves in the program. *)
Definition track_mapping (hdr : list Z) (lb : LoadBalancerMapping) : LoadBalancerMapping :=
  match tcp_state lb with
  | Some st => with_state lb (process_tcp_state_transition hdr st).1
  | None => lb
  end.

(** The client's entry after a packet, from the entry before it: an RST
    removes it, a transition to [Closed] removes it, any other transition
    records the new state. *)
Definition track_entry (hdr : list Z) (lb : LoadBalancerMapping)
    (old : option LoadBalancerMapping) : option LoadBalancerMapping :=
  let kept := if is_rst hdr then None else old in
  match tcp_state lb with
  | Some st =>
      let '(st', moved) := process_tcp_state_transition hdr st in
      if decide (st' = Closed) then None
      else if moved then Some (with_state lb st') else kept
  | None => kept
  end.

(** There is room for an entry of [c] (of [k]) next to the other entries of
    the map: an insertion succeeds whatever the value. *)
Definition conns_room (c : ClientKey) (M : conns_map) : Prop :=
  ∀ m v, (∀ c', c' ≠ c → bpf_get m c' = bpf_get M c') → (bpf_insert m c v 0).2 = Ret tt.
Definition indexes_room (k : BackendKey) (M : indexes_map) : Prop :=
  ∀ m v, (∀ k', k' ≠ k → bpf_get m k' = bpf_get M k') → (bpf_insert m k v 0).2 = Ret tt.

(** When tracking a packet ends in an error: no room, or an entry to remove
    is not there. *)
Definition track_error (hdr : list Z) (c : ClientKey) (lb : LoadBalancerMapping) (s : kstate) :
    Prop :=
  ¬ conns_room c (LB_CONNECTIONS s) ∨
  (is_rst hdr = true ∧ bpf_get (LB_CONNECTIONS s) c = None) ∨
  (∃ st, tcp_state lb = Some st ∧ (process_tcp_state_transition hdr st).1 = Closed ∧
         (is_rst hdr = true ∨ bpf_get (LB_CONNECTIONS s) c = None)).

(** The state when a handler has tracked the connection. *)
Definition tracked (hdr : list Z) (c : ClientKey) (lb : LoadBalancerMapping)
    (s1 : kstate) (m : conns_map) : Prop :=
  ∀ k', bpf_get m k' = if decide (k' = c)
                       then track_entry hdr lb (bpf_get (LB_CONNECTIONS s1) c)
                       else bpf_get (LB_CONNECTIONS s1) k'.

(** Entries other than one key's are as before. *)
Definition conns_frame (c : ClientKey) (s s' : kstate) : Prop :=
  ∀ c', c' ≠ c → bpf_get (LB_CONNECTIONS s') c' = bpf_get (LB_CONNECTIONS s) c'.
Definition indexes_frame (k : BackendKey) (s s' : kstate) : Prop :=
  ∀ k', k' ≠ k → bpf_get (GATEWAY_INDEXES s') k' = bpf_get (GATEWAY_INDEXES s) k'.

(** [s'] has the maps of [s], as far as a program can tell. *)
Definition same_backends (s s' : kstate) : Prop := map_equiv (BACKENDS s) (BACKENDS s').
Definition same_indexes (s s' : kstate) : Prop :=
  map_equiv (GATEWAY_INDEXES s) (GATEWAY_INDEXES s').
Definition same_conns (s s' : kstate) : Prop := map_equiv (LB_CONNECTIONS s) (LB_CONNECTIONS s').
Definition same_maps (s s' : kstate) : Prop :=
  same_backends s s' ∧ same_indexes s s' ∧ same_conns s s'.
End ebpf.

#[export] Hint Unfold same_backends same_indexes same_conns : blixt.

(** ** Rules for the primitives *)
Section rules.
Context `{NT : NetworkTypes, AE : AyaEbpf, MP : Maps}.
Context `{NTS : !NetworkTypesSpec, MS : !MapsSpec}.
Implicit Types s : kstate.

#[global] Instance same_maps_equivalence : Equivalence same_maps.
Proof.
  unfold same_maps, same_backends, same_indexes, same_conns. split.
  - by intros s.
  - intros s s' (?&?&?). split_and!; by symmetry.
  - intros s1 s2 s3 (?&?&?) (?&?&?). split_and!; by etrans.
Qed.

Lemma wp_ptr_at T off (Q : kstate → outcome Z nat → Prop) s :
  ((off + size_of T ≤ length (skb s))%nat → Q s (Ret off)) →
  (¬ (off + size_of T ≤ length (skb s))%nat → Q s (Err TC_ACT_OK)) →
  wp (ptr_at T off) Q s.
Proof.
  intros H1 H2. unfold wp, ptr_at, ctx_data, ctx_data_end. simpl.
  destruct (Nat.ltb_spec (length (skb s)) (off + size_of T)); simpl; [apply H2|apply H1]; lia.
Qed.

Lemma wp_rd_field {E} f hdr (Q : kstate → outcome E Z → Prop) s :
  (hdr + size_of (field_hdr f) ≤ length (skb s))%nat →
  (∀ v, rd (field_size f) (hdr + offset_of f) (skb s) = Some v → Q s (Ret v)) →
  wp (rd_field f hdr) Q s.
Proof.
  intros Hb HQ. pose proof (field_in_hdr f).
  destruct (rd_in_bounds (field_size f) (hdr + offset_of f) (skb s)) as [v Hv]; [lia|].
  by eapply wp_gets_or_fault; [|apply HQ].
Qed.

Lemma wp_wr_field {E} f hdr v (Q : kstate → outcome E unit → Prop) s :
  (hdr + size_of (field_hdr f) ≤ length (skb s))%nat →
  (∀ p, wr (field_size f) (hdr + offset_of f) v (skb s) = Some p →
        length p = length (skb s) → Q (set_skb p s) (Ret tt)) →
  wp (wr_field f hdr v) Q s.
Proof.
  intros Hb HQ. pose proof (field_in_hdr f).
  destruct (wr_in_bounds (field_size f) (hdr + offset_of f) v (skb s)) as [p Hp]; [lia|].
  unfold wp, wr_field. rewrite Hp. simpl. eauto using wr_length.
Qed.

Lemma wp_rd_hdr {E} T hdr (Q : kstate → outcome E (list Z) → Prop) s :
  (hdr + size_of T ≤ length (skb s))%nat →
  Q s (Ret (take (size_of T) (drop hdr (skb s)))) → wp (rd_hdr T hdr) Q s.
Proof. intros. eapply wp_gets_or_fault; [by rewrite decide_True|done]. Qed.

Lemma wp_skb_helper {E} h (Q : kstate → outcome E Z → Prop) s :
  (∀ p ret, h (skb s) = (p, ret) → Q (set_skb p s) (Ret ret)) → wp (skb_helper h) Q s.
Proof. unfold wp, skb_helper. destruct (h (skb s)); simpl; eauto. Qed.

Lemma wp_indexes_insert k v (Q : kstate → outcome Z unit → Prop) s :
  (∀ m, (∀ k', bpf_get m k' = if decide (k' = k) then Some v
                              else bpf_get (GATEWAY_INDEXES s) k') →
        Q (set_indexes m s) (Ret tt)) →
  (∀ m e, ¬ indexes_room k (GATEWAY_INDEXES s) → map_equiv (GATEWAY_INDEXES s) m →
     Q (set_indexes m s) (Err e)) →
  wp (indexes_insert k v) Q s.
Proof.
  intros H1 H2. unfold wp, indexes_insert.
  pose proof (insert_no_fault (GATEWAY_INDEXES s) k v).
  destruct (bpf_insert (GATEWAY_INDEXES s) k v 0) as [m [[]|e|]] eqn:Hi; simpl in *; [..|done].
  - apply H1. by eapply insert_ok.
  - apply H2; [|intros k'; by eapply insert_err]. intros Hr.
    specialize (Hr _ v (λ _ _, eq_refl)). by rewrite Hi in Hr.
Qed.

Lemma wp_conns_insert k v (Q : kstate → outcome Z unit → Prop) s :
  (∀ m, (∀ k', bpf_get m k' = if decide (k' = k) then Some v
                              else bpf_get (LB_CONNECTIONS s) k') →
        Q (set_conns m s) (Ret tt)) →
  (∀ m e, ¬ conns_room k (LB_CONNECTIONS s) → map_equiv (LB_CONNECTIONS s) m →
     Q (set_conns m s) (Err e)) →
  wp (conns_insert k v) Q s.
Proof.
  intros H1 H2. unfold wp, conns_insert.
  pose proof (insert_no_fault (LB_CONNECTIONS s) k v).
  destruct (bpf_insert (LB_CONNECTIONS s) k v 0) as [m [[]|e|]] eqn:Hi; simpl in *; [..|done].
  - apply H1. by eapply insert_ok.
  - apply H2; [|intros k'; by eapply insert_err]. intros Hr.
    specialize (Hr _ v (λ _ _, eq_refl)). by rewrite Hi in Hr.
Qed.

Lemma wp_conns_remove k (Q : kstate → outcome Z unit → Prop) s :
  (∀ m, is_Some (bpf_get (LB_CONNECTIONS s) k) →
        (∀ k', bpf_get m k' = if decide (k' = k) then None
                              else bpf_get (LB_CONNECTIONS s) k') →
        Q (set_conns m s) (Ret tt)) →
  (∀ m e, bpf_get (LB_CONNECTIONS s) k = None → map_equiv (LB_CONNECTIONS s) m →
          Q (set_conns m s) (Err e)) →
  wp (conns_remove k) Q s.
Proof.
  intros H1 H2. unfold wp, conns_remove.
  pose proof (remove_no_fault (LB_CONNECTIONS s) k).
  destruct (bpf_remove (LB_CONNECTIONS s) k) as [m [[]|e|]] eqn:Hi; simpl in *; [..|done].
  - apply remove_ok in Hi as [? ?]. by apply H1.
  - apply remove_err in Hi as [? ?]. by apply H2.
Qed.
End rules.

(** Symbolic execution of eBPF code: the rules above, with the bounds checks
    discharged from the successful [ptr_at]s. *)
Ltac bounds :=
  simpl; autorewrite with layout in *; simpl in *; lia.

Ltac ebpf_step :=
  first
  [ wp_step
  | match goal with
    | |- wp (ptr_at _ _) _ _ => apply wp_ptr_at; intros ?
    | |- wp (rd_field _ _) _ _ => apply wp_rd_field; [bounds|intros ? ?]
    | |- wp (wr_field _ _ _) _ _ => apply wp_wr_field; [bounds|intros ? ? ?]
    | |- wp (rd_hdr _ _) _ _ => apply wp_rd_hdr; [bounds|]
    | |- wp (conns_get _) _ _ => apply wp_gets
    | |- wp (backends_get _) _ _ => apply wp_gets
    | |- wp (indexes_get _) _ _ => apply wp_gets
    | |- wp (conns_insert _ _) _ _ => apply wp_conns_insert; intros
    | |- wp (conns_remove _) _ _ => apply wp_conns_remove; intros
    | |- wp (indexes_insert _ _) _ _ => apply wp_indexes_insert; intros
    end ].

(** Map facts in the context, applied to the map lookups of the goal. *)
Ltac map_facts :=
  repeat match goal with
  | Hm : map_equiv ?m0 ?m |- context [bpf_get ?m ?k] => rewrite (Hm k)
  | Hm : ∀ k, bpf_get ?m k = _ |- context [bpf_get ?m ?k'] => rewrite (Hm k')
  end.

Ltac map_solve :=
  unfold conns_frame, indexes_frame, same_maps, same_backends, same_indexes, same_conns,
    map_equiv in *;
  intros; cbn [skb BACKENDS GATEWAY_INDEXES LB_CONNECTIONS set_skb set_conns set_indexes] in *;
  map_facts; repeat case_decide; simplify_eq; try done; eauto with blixt.

(** Turns the reads of a handler into [fld]s of the packet. *)
Ltac parse_fields :=
  repeat match goal with
  | R : rd (field_size ?f) (?h + offset_of ?f) ?p = Some ?v |- _ =>
      assert (fld f h p = v) by (unfold fld; by rewrite R); clear R
  end.

(** ** Derived rules and preservation *)
Section derived.
Context `{NT : NetworkTypes, AE : AyaEbpf, MP : Maps}.
Context `{NTS : !NetworkTypesSpec, AES : !AyaEbpfSpec, MS : !MapsSpec}.
Implicit Types s : kstate.

Lemma maps_wf_set_skb p s : maps_wf s → maps_wf (set_skb p s).
Proof. done. Qed.

Lemma maps_wf_set_conns m s :
  maps_wf s → (∀ c x, bpf_get m c = Some x → lb_mapping_wf x) → maps_wf (set_conns m s).
Proof. intros (?&?&?) ?. by split_and!. Qed.

Lemma maps_wf_set_indexes m s :
  maps_wf s → (∀ k i, bpf_get m k = Some i → fits 16 i) → maps_wf (set_indexes m s).
Proof. intros (?&?&?) ?. by split_and!. Qed.

Lemma maps_wf_conns_equiv m s :
  maps_wf s → map_equiv (LB_CONNECTIONS s) m → maps_wf (set_conns m s).
Proof.
  intros Hwf He. apply maps_wf_set_conns; [done|]. intros c x. rewrite He. apply Hwf.
Qed.

Lemma maps_wf_indexes_equiv m s :
  maps_wf s → map_equiv (GATEWAY_INDEXES s) m → maps_wf (set_indexes m s).
Proof.
  intros Hwf He. apply maps_wf_set_indexes; [done|]. intros c x. rewrite He. apply Hwf.
Qed.

Lemma maps_wf_conns_insert m s k v :
  maps_wf s → lb_mapping_wf v →
  (∀ k', bpf_get m k' = if decide (k' = k) then Some v else bpf_get (LB_CONNECTIONS s) k') →
  maps_wf (set_conns m s).
Proof.
  intros Hwf Hv Hm. apply maps_wf_set_conns; [done|]. intros c x. rewrite Hm.
  case_decide; [naive_solver|apply Hwf].
Qed.

Lemma maps_wf_conns_remove m s k :
  maps_wf s →
  (∀ k', bpf_get m k' = if decide (k' = k) then None else bpf_get (LB_CONNECTIONS s) k') →
  maps_wf (set_conns m s).
Proof.
  intros Hwf Hm. apply maps_wf_set_conns; [done|]. intros c x. rewrite Hm.
  case_decide; [done|apply Hwf].
Qed.

Lemma maps_wf_indexes_insert m s k v :
  maps_wf s → fits 16 v →
  (∀ k', bpf_get m k' = if decide (k' = k) then Some v else bpf_get (GATEWAY_INDEXES s) k') →
  maps_wf (set_indexes m s).
Proof.
  intros Hwf Hv Hm. apply maps_wf_set_indexes; [done|]. intros c x. rewrite Hm.
  case_decide; [naive_solver|apply Hwf].
Qed.

(** What [update_tcp_conns] does to the client's entry: nothing, removal, or
    the mapping with its new state.  The mapping it returns keeps backend and
    Gateway. *)
Lemma wp_update_tcp_conns hdr c lb (Q : kstate → outcome Z LoadBalancerMapping → Prop) s :
  (tcp_state lb = None → Q s (Ret lb)) →
  (∀ st, tcp_state lb = Some st → st ≠ Closed →
     process_tcp_state_transition hdr st = (st, false) → Q s (Ret (with_state lb st))) →
  (∀ st st' m, tcp_state lb = Some st → st' ≠ Closed →
     process_tcp_state_transition hdr st = (st', true) →
     (∀ k', bpf_get m k' = if decide (k' = c) then Some (with_state lb st')
                           else bpf_get (LB_CONNECTIONS s) k') →
     Q (set_conns m s) (Ret (with_state lb st'))) →
  (∀ st m, tcp_state lb = Some st → (process_tcp_state_transition hdr st).1 = Closed →
     is_Some (bpf_get (LB_CONNECTIONS s) c) →
     (∀ k', bpf_get m k' = if decide (k' = c) then None else bpf_get (LB_CONNECTIONS s) k') →
     Q (set_conns m s) (Ret (with_state lb Closed))) →
  (∀ m e, (¬ conns_room c (LB_CONNECTIONS s) ∨
           bpf_get (LB_CONNECTIONS s) c = None ∧
           ∃ st, tcp_state lb = Some st ∧ (process_tcp_state_transition hdr st).1 = Closed) →
     map_equiv (LB_CONNECTIONS s) m → Q (set_conns m s) (Err e)) →
  wp (update_tcp_conns hdr c lb) Q s.
Proof.
  intros HN HS HI HR HE. unfold update_tcp_conns.
  destruct (tcp_state lb) as [st|] eqn:Hst; [|by apply wp_ret, HN].
  pose proof (process_forward hdr st) as P.
  destruct (process_tcp_state_transition hdr st) as [st' moved] eqn:Hp.
  destruct (decide (st' = Closed)) as [->|Hc].
  - repeat ebpf_step; [apply (HR st); by rewrite ?Hp|]. apply HE; [right|done].
    split; [done|]. exists st. by rewrite Hp.
  - assert (wp (if moved
                then _ ← conns_insert c (with_state lb st'); mret (with_state lb st')
                else mret (with_state lb st')) Q s).
    { destruct moved; repeat ebpf_step; [by apply (HI st)|apply HE; [by left|done]|subst].
      by apply HS. }
    by destruct st'.
Qed.

Lemma conns_room_frame c m M :
  (∀ c', c' ≠ c → bpf_get m c' = bpf_get M c') → conns_room c M → conns_room c m.
Proof. intros Hf Hr m' v Hm. apply Hr. intros c' Hc. by rewrite Hm, Hf. Qed.

(** The part common to both directions: RST handling and state tracking. *)
Lemma wp_track hdr c lb (Q : kstate → outcome (ctl Z Z) LoadBalancerMapping → Prop) s :
  (∀ m, (∀ k', bpf_get m k' = if decide (k' = c)
                              then track_entry hdr lb (bpf_get (LB_CONNECTIONS s) c)
                              else bpf_get (LB_CONNECTIONS s) k') →
        Q (set_conns m s) (Ret (track_mapping hdr lb))) →
  (∀ m e, track_error hdr c lb s → conns_frame c s (set_conns m s) →
          (bpf_get m c = bpf_get (LB_CONNECTIONS s) c ∨ bpf_get m c = None) →
          Q (set_conns m s) (Err (Throw e))) →
  wp (track_packet hdr c lb) Q s.
Proof.
  intros HO HE. unfold track_packet. wp_step.
  assert (∀ s1, BACKENDS s1 = BACKENDS s → GATEWAY_INDEXES s1 = GATEWAY_INDEXES s →
    skb s1 = skb s →
    (∀ k', bpf_get (LB_CONNECTIONS s1) k' =
       if decide (k' = c) then (if is_rst hdr then None else bpf_get (LB_CONNECTIONS s) c)
       else bpf_get (LB_CONNECTIONS s) k') →
    wp (try_ (update_tcp_conns hdr c lb)) Q s1) as Hupd.
  { intros [p1 b1 i1 c1]; simpl. intros -> -> -> Hc1. wp_step.
    apply wp_update_tcp_conns; unfold track_mapping, track_entry in HO; intros.
    all: repeat match goal with
         | E : tcp_state ?x = _, HO : context [tcp_state ?x] |- _ => rewrite E in HO; clear E
         | E : process_tcp_state_transition ?x ?y = _,
           HO : context [process_tcp_state_transition ?x ?y] |- _ => rewrite E in HO; clear E
         end.
    - apply (HO c1). exact Hc1.
    - apply (HO c1). intros k'. rewrite Hc1. repeat case_decide; done.
    - apply (HO m). map_solve.
    - destruct (process_tcp_state_transition hdr st) as [st' ?]; simplify_eq/=.
      apply (HO m). map_solve.
    - apply (HE m); [|map_solve|].
      { unfold track_error. destruct H as [Hr|[Hn (st & ? & ?)]].
        - left. intros Hr'. apply Hr. eapply conns_room_frame; [|done]. intros c' ?. simpl.
          by rewrite Hc1, decide_False.
        - right; right. exists st. split_and!; [done..|]. simpl in Hn. rewrite Hc1, decide_True in Hn by done.
          destruct (is_rst hdr); auto. }
      simpl in *. map_facts. rewrite decide_True by done.
      destruct (is_rst hdr); auto. }
  change (TcpHdr_rst hdr =? 1) with (is_rst hdr). destruct (is_rst hdr) eqn:Hrst.
  - wp_step. apply wp_conns_remove; intros; [by apply Hupd|]. 
    apply (HE m); [by right; left|map_solve|]. left. simpl. by map_facts.
  - wp_step. apply Hupd; try done. intros k'. by case_decide; subst.
Qed.

Lemma track_mapping_wf hdr lb : lb_mapping_wf lb → lb_mapping_wf (track_mapping hdr lb).
Proof. unfold track_mapping. by destruct (tcp_state lb). Qed.

(** Tracking does not change the Gateway of a connection. *)
Lemma track_entry_key hdr lb old x :
  track_entry hdr lb old = Some x → backend_key x = backend_key lb ∨ old = Some x.
Proof. unfold track_entry. repeat case_match; try case_decide; naive_solver. Qed.

Lemma track_mapping_key hdr lb : backend_key (track_mapping hdr lb) = backend_key lb.
Proof. unfold track_mapping. by destruct (tcp_state lb). Qed.

Lemma track_entry_wf hdr lb old x :
  lb_mapping_wf lb → (∀ y, old = Some y → lb_mapping_wf y) →
  track_entry hdr lb old = Some x → lb_mapping_wf x.
Proof.
  intros Hlb Hold. unfold track_entry. repeat case_match; try case_decide; naive_solver.
Qed.

Lemma tracked_wf hdr c lb s1 m :
  maps_wf s1 → lb_mapping_wf lb → tracked hdr c lb s1 m → maps_wf (set_conns m s1).
Proof.
  intros Hwf Hlb Hm. apply maps_wf_set_conns; [done|]. intros c' x. rewrite Hm. case_decide.
  - apply track_entry_wf; [done|]. intros y. apply Hwf.
  - apply Hwf.
Qed.

(** A map that at most lost the entry of [c]. *)
Lemma maps_wf_conns_lost c m s :
  maps_wf s → conns_frame c s (set_conns m s) →
  (bpf_get m c = bpf_get (LB_CONNECTIONS s) c ∨ bpf_get m c = None) → maps_wf (set_conns m s).
Proof.
  intros Hwf Hf Hor. apply maps_wf_set_conns; [done|]. intros c' x Hx.
  destruct (decide (c' = c)) as [->|Hne].
  - destruct Hor as [Hor|Hor]; rewrite Hor in Hx; [|done]. by eapply (proj2 (proj2 Hwf)).
  - eapply (proj2 (proj2 Hwf) c'). by rewrite <-(Hf c').
Qed.

(** The packet after a successful [bpf_skb_store_bytes] of an integer. *)
Lemma store_bytes_wr p off n v flags p' :
  bpf_skb_store_bytes p off (le_bytes n v) n flags = (p', 0) → wr n off v p = Some p'.
Proof. intros Hs. apply wr_Some. eapply store_bytes_ok; [done|]. apply length_le_bytes. Qed.

(** The decisions of tracking depend on three flags of the header only. *)
Lemma track_ext hdr hdr' lb old :
  TcpHdr_fin hdr = TcpHdr_fin hdr' → TcpHdr_rst hdr = TcpHdr_rst hdr' →
  TcpHdr_ack hdr = TcpHdr_ack hdr' →
  track_entry hdr lb old = track_entry hdr' lb old ∧
  ∀ c s, track_error hdr c lb s → track_error hdr' c lb s.
Proof.
  intros Hf Hr Ha.
  assert (is_rst hdr = is_rst hdr') as Hrst by (unfold is_rst; by rewrite Hr).
  assert (∀ st, process_tcp_state_transition hdr st = process_tcp_state_transition hdr' st) as Hp.
  { intros st. unfold process_tcp_state_transition, fin, ack. by rewrite Hf, Ha. }
  unfold track_entry, track_error. rewrite Hrst. split.
  - destruct (tcp_state lb); [by rewrite Hp|done].
  - intros c s. setoid_rewrite Hp. done.
Qed.

Lemma flags_ext hdr hdr' :
  nth 13 hdr 0 = nth 13 hdr' 0 →
  TcpHdr_fin hdr = TcpHdr_fin hdr' ∧ TcpHdr_rst hdr = TcpHdr_rst hdr' ∧
  TcpHdr_ack hdr = TcpHdr_ack hdr'.
Proof.
  intros Hn. by rewrite !TcpHdr_fin_eq, !TcpHdr_rst_eq, !TcpHdr_ack_eq, Hn.
Qed.

Lemma nth_hdr_bytes T h i p :
  (i < size_of T)%nat → nth i (hdr_bytes T h p) 0 = default 0 (p !! (h + i)%nat).
Proof.
  intros Hi. unfold hdr_bytes. rewrite nth_lookup, lookup_take_lt, lookup_drop by done. done.
Qed.

(** ** The IPv4 header inside the packet *)
Lemma ip_hdr_replace n h off v p p' old :
  n = 2%nat ∨ n = 4%nat → Nat.even off = true → (off + n ≤ 20)%nat → (h + 20 ≤ length p)%nat →
  byte_list p → 0 ≤ v < 256 ^ Z.of_nat n →
  wr n (h + off) v p = Some p' → rd n (h + off) p = Some old →
  ∃ q, sum16 (hdr_bytes Ipv4Hdr h p') = sum16 (hdr_bytes Ipv4Hdr h p) - old + v + q * 65535.
Proof.
  intros Hn He Hoff Hh Hp Hv Hw Hr. unfold hdr_bytes. rewrite size_of_eq.
  eapply sum16_replace; [done|done| |done|by eapply wr_in_segment|by eapply rd_in_segment].
  by apply Forall_take, Forall_drop.
Qed.

Lemma hdr_bytes_other T h n off v p p' :
  wr n off v p = Some p' → (h + size_of T ≤ off ∨ off + n ≤ h)%nat →
  hdr_bytes T h p' = hdr_bytes T h p.
Proof. intros Hw Hd. by eapply wr_segment. Qed.

(** The first byte of a header survives writes behind it. *)
Lemma hdr_bytes_hd T h n off v p p' :
  wr n off v p = Some p' → (h < off)%nat →
  hd 0 (hdr_bytes T h p') = hd 0 (hdr_bytes T h p).
Proof.
  intros Hw Hd. unfold hdr_bytes.
  assert (∀ l : list Z, hd 0 l = default 0 (l !! 0%nat)) as Hhd by (by intros []).
  rewrite !Hhd. destruct (decide (0 < size_of T)%nat).
  - rewrite !lookup_take_lt, !lookup_drop, (wr_lookup _ _ _ _ _ _ Hw) by lia.
    case_decide; [lia|done].
  - by rewrite !lookup_take_ge by lia.
Qed.

Lemma hdr_bytes_byte T h p : byte_list p → byte_list (hdr_bytes T h p).
Proof. intros. by apply Forall_take, Forall_drop. Qed.

Lemma fld_other f h n off v p p' :
  wr n off v p = Some p' →
  (h + offset_of f + field_size f ≤ off ∨ off + n ≤ h + offset_of f)%nat →
  fld f h p' = fld f h p.
Proof. intros Hw Hd. unfold fld. by rewrite (rd_wr_other _ _ _ _ _ _ _ Hw Hd). Qed.

Lemma fld_same f h v p p' :
  wr (field_size f) (h + offset_of f) v p = Some p' →
  0 ≤ v < 256 ^ Z.of_nat (field_size f) → fld f h p' = v.
Proof. intros Hw Hv. unfold fld. by rewrite (rd_wr_same _ _ _ _ _ Hw), Z.mod_small. Qed.

Lemma fld_rd f h p :
  (h + offset_of f + field_size f ≤ length p)%nat →
  rd (field_size f) (h + offset_of f) p = Some (fld f h p).
Proof. intros Hb. unfold fld. destruct (rd_in_bounds _ _ _ Hb) as [v ->]. done. Qed.

Lemma fld_bound f h p : byte_list p → 0 ≤ fld f h p < 256 ^ Z.of_nat (field_size f).
Proof.
  intros Hp. unfold fld. destruct (rd _ _ p) eqn:Hr; simpl; [by eapply rd_bound|].
  split; [lia|]. apply Z.pow_pos_nonneg; lia.
Qed.

(** The packet after a successful [set_ipv4_ip_dst], in the order of the helper calls. *)
Definition ip_dst_packet (csum_off : nat) (old_ip new_ip : Z) (p p' : list Z) : Prop :=
  ∃ c1 c2 c2' p1 p2,
    wr 2 csum_off c1 p = Some p1 ∧
    (rd 2 IP_CSUM_OFF p1 = Some c2 ∧ fits 16 c2' ∧ wr 2 IP_CSUM_OFF c2' p1 = Some p2 ∧
     (byte_list p1 → (c2' - (c2 + old_ip - new_ip)) mod 65535 = 0)) ∧
    wr 4 IP_DST_OFF new_ip p2 = Some p'.

(** The packet after a successful [set_ipv4_dest_port]. *)
Definition dest_port_packet (csum_off : nat) (new_port : Z) (p p' : list Z) : Prop :=
  ∃ c p1, wr 2 csum_off c p = Some p1 ∧ wr 2 csum_off new_port p1 = Some p'.

(** A helper call, then the rest of the routine unless it failed. *)
Lemma wp_helper_chain {E} h (k : Eff kstate E Z) (Q : kstate → outcome E Z → Prop) s :
  (∀ p, h (skb s) = (p, 0) → wp k Q (set_skb p s)) →
  (∀ p ret, h (skb s) = (p, ret) → ret ≠ 0 → Q (set_skb p s) (Ret ret)) →
  wp (ret ← skb_helper h; if negb (ret =? 0) then mret ret else k) Q s.
Proof.
  intros HO HE. wp_step. apply wp_skb_helper. intros p ret Hh.
  destruct (Z.eqb_spec ret 0) as [->|]; simpl; eauto using wp_ret.
Qed.

Lemma ip_csum_at : csum_at IP_CSUM_OFF.
Proof. unfold csum_at, IP_CSUM_OFF. split; [|bounds]. by autorewrite with layout. Qed.

Lemma wp_set_ipv4_ip_dst {E} csum_off old_ip new_ip (Q : kstate → outcome E Z → Prop) s :
  (∀ p, ip_dst_packet csum_off old_ip new_ip (skb s) p → Q (set_skb p s) (Ret 0)) →
  (∀ p ret, ret ≠ 0 →
     (csum_at csum_off → (csum_off + 2 ≤ length (skb s))%nat → (IP_DST_OFF + 4 ≤ length (skb s))%nat →
      (IP_CSUM_OFF + 2 ≤ length (skb s))%nat → ¬ HelpersSucceed) →
     Q (set_skb p s) (Ret ret)) →
  wp (set_ipv4_ip_dst csum_off old_ip new_ip) Q s.
Proof.
  intros HO HE. unfold set_ipv4_ip_dst.
  apply wp_helper_chain; [intros p1 E1|intros p1 ret E1 Hne; apply HE; [done|]; intros HC B1 B2 B3 HS].
  2: { pose proof (l4_csum_replace_succeeds (skb s) csum_off old_ip new_ip (Z.lor IS_PSEUDO 4) HC ltac:(unfold l4_flags_ok; set_solver) B1) as E2.
       by rewrite E1 in E2. }
  apply l4_csum_replace_ok in E1 as (c1 & _ & W1). pose proof (wr_length _ _ _ _ _ W1).
  apply wp_helper_chain; cbn [skb set_skb];
    [intros p2 E2|intros p2 ret E2 Hne; apply (HE p2); [done|]; intros HC B1 B2 B3 HS].
  2: { pose proof (l3_csum_replace_succeeds p1 IP_CSUM_OFF old_ip new_ip 4 ip_csum_at ltac:(set_solver) ltac:(lia)) as E3.
       by rewrite E2 in E3. }
  apply l3_csum_replace_ok in E2 as (c2 & c2' & R2 & F2 & W2 & M2).
  pose proof (wr_length _ _ _ _ _ W2).
  wp_step. apply wp_skb_helper. intros p3 ret E3. cbn [skb set_skb] in E3.
  destruct (Z.eqb_spec ret 0) as [->|Hne]; simpl; wp_step.
  - apply (HO p3). exists c1, c2, c2', p1, p2. split_and!; [done..|by apply M2|by eapply store_bytes_wr].
  - apply (HE p3); [done|]. intros HC B1 B2 B3 HS. 
    pose proof (store_bytes_succeeds p2 IP_DST_OFF (le_bytes 4 new_ip) 4
                  (length_le_bytes _ _) ltac:(lia) ltac:(unfold IP_DST_OFF; bounds) ltac:(lia)) as E4.
    by rewrite E3 in E4.
Qed.

Lemma wp_set_ipv4_dest_port {E} csum_off old_port new_port (Q : kstate → outcome E Z → Prop) s :
  (∀ p, dest_port_packet csum_off new_port (skb s) p → Q (set_skb p s) (Ret 0)) →
  (∀ p ret, ret ≠ 0 → (csum_at csum_off → (csum_off + 2 ≤ length (skb s))%nat → ¬ HelpersSucceed) →
     Q (set_skb p s) (Ret ret)) →
  wp (set_ipv4_dest_port csum_off old_port new_port) Q s.
Proof.
  intros HO HE. unfold set_ipv4_dest_port.
  apply wp_helper_chain; [intros p1 E1|intros p1 ret E1 Hne; apply HE; [done|]; intros HC B1 HS].
  2: { pose proof (l4_csum_replace_succeeds (skb s) csum_off old_port new_port 2 HC ltac:(unfold l4_flags_ok; set_solver) B1) as E2.
       by rewrite E1 in E2. }
  apply l4_csum_replace_ok in E1 as (c1 & _ & W1). pose proof (wr_length _ _ _ _ _ W1).
  wp_step. apply wp_skb_helper. intros p2 ret E2. cbn [skb set_skb] in E2.
  destruct (Z.eqb_spec ret 0) as [->|Hne]; simpl; wp_step.
  - apply (HO p2). exists c1, p1. split; [done|by eapply store_bytes_wr].
  - apply (HE p2); [done|]. intros HC B1 HS.
    pose proof (store_bytes_succeeds p1 csum_off (le_bytes 2 new_port) 2
                  (length_le_bytes _ _) ltac:(lia) (proj2 HC) ltac:(lia)) as E4.
    by rewrite E2 in E4.
Qed.
End derived.

(** Reads a field through the writes in the context that miss it. *)
Ltac frame_fld :=
  repeat match goal with
  | W : wr _ _ _ ?p = Some ?p' |- context [fld ?f ?h ?p'] =>
      rewrite (fld_other f h _ _ _ _ _ W) by (unfold L3, L4; autorewrite with layout; simpl; lia)
  end.

#[export] Hint Resolve maps_wf_set_skb maps_wf_conns_equiv maps_wf_indexes_equiv
  maps_wf_conns_insert maps_wf_conns_remove maps_wf_indexes_insert : blixt.
