(* ===== verification/Ingress.v ===== *)
(** * Ingress programs

    Models [handle_tcp_ingress] ([src/dataplane/ebpf/src/ingress/tcp.rs]) and
    [handle_udp_ingress] ([src/dataplane/ebpf/src/ingress/udp.rs]).  Each
    handler is one definition composed of its parts in source order: parse,
    choose a backend, rewrite and forward. *)

From stdpp Require Import base list gmap.
From S2P Require Import Prelude Common Platform Csum TcpState Ebpf.

Section ingress.
Context `{NT : NetworkTypes, AE : AyaEbpf, MP : Maps}.

Definition TCP_CSUM_OFF : nat := hdr_LEN EthHdr + hdr_LEN Ipv4Hdr + offset_of Tcp_check.
Definition UDP_CSUM_OFF : nat := hdr_LEN EthHdr + hdr_LEN Ipv4Hdr + offset_of Udp_check.

(** ** Choosing a backend *)

(** [backend_list.backends[0]], replaced by the entry at the index if there is one. *)
Definition select_backend (bl : BackendList) (backend_index : Z) : Body Backend :=
  backend0 ← gets_or_fault (λ _, backends bl !! 0%nat);
  mret (match backends bl !! Z.to_nat backend_index with
        | Some val => val
        | None => backend0
        end).

(** The index of the next backend in line. *)
Definition next_index (bl : BackendList) (backend_index : Z) : Z :=
  let next := as_u16 (backend_index + 1) in
  if backends_len bl <=? next then 0 else next.

(** The client and the Gateway address of a packet (specification). *)
Definition tcp_client (p : list Z) : ClientKey :=
  MkClientKey (from_be32 (fld Ip_src_addr L3 p)) (from_be16 (fld Tcp_source L4 p)).
Definition udp_client (p : list Z) : ClientKey :=
  MkClientKey (from_be32 (fld Ip_src_addr L3 p)) 0.
Definition vip_of (daddr dport : Z) : BackendKey :=
  MkBackendKey (from_be32 daddr) (from_be16 dport).
Definition tcp_vip (p : list Z) : BackendKey :=
  vip_of (fld Ip_dst_addr L3 p) (fld Tcp_dest L4 p).
Definition udp_vip (p : list Z) : BackendKey :=
  vip_of (fld Ip_dst_addr L3 p) (fld Udp_dest L4 p).

(** A TCP client without an entry: assign it the next backend in line. *)
Definition tcp_new_connection (original_daddr original_dport : Z) :
    Body (Backend * BackendKey) :=
  let backend_key := MkBackendKey (from_be32 original_daddr) (from_be16 original_dport) in
  found ← backends_get backend_key;
  backend_list ← ok_or found (Throw TC_ACT_OK);
  found ← indexes_get backend_key;
  backend_index ← ok_or found (Throw TC_ACT_OK);
  if backends_len backend_list <=? backend_index then return_ TC_ACT_OK else
  if Z.of_nat BACKENDS_ARRAY_CAPACITY <=? backend_index then return_ TC_ACT_OK else
  backend ← select_backend backend_list backend_index;
  _ ← try_ (indexes_insert backend_key (next_index backend_list backend_index));
  mret (backend, backend_key).

(** ** TCP *)

(** The connection a packet belongs to: its mapping and whether it is new. *)
Definition tcp_connection (client_key : ClientKey) (original_daddr original_dport : Z) :
    Body (LoadBalancerMapping * bool) :=
  found ← conns_get client_key;
  match found with
  | Some val => mret (MkMapping (backend val) (backend_key val) (tcp_state val), false)
  | None =>
      '(backend, backend_key) ← tcp_new_connection original_daddr original_dport;
      mret (MkMapping backend backend_key (Some TCPState_default), true)
  end.

(** Connection tracking for a packet: an RST removes the entry, then the
    TCP state moves on. *)
Definition tcp_track (tcp_hdr : nat) (client_key : ClientKey)
    (lb_mapping : LoadBalancerMapping) : Body LoadBalancerMapping :=
  end_ ← gets ctx_data_end;
  start ← gets ctx_data;
  if (end_ <? start + hdr_LEN EthHdr + hdr_LEN Ipv4Hdr)%nat then return_ TC_ACT_OK else
  tcp_hdr_ref ← ok_or (as_ref tcp_hdr) (Throw TC_ACT_OK);
  hdr ← rd_hdr TcpHdr tcp_hdr_ref;
  track_packet hdr client_key lb_mapping.

(** Rewrite the destination and redirect; the value of [bpf_redirect_neigh]. *)
Definition dnat_redirect (csum_off : nat) (err : Z) (b : Backend)
    (original_daddr original_dport : Z) : Body Z :=
  let backend_ip := to_be32 (daddr b) in
  ret ← set_ipv4_ip_dst csum_off original_daddr backend_ip;
  if negb (ret =? 0) then return_ err else
  let backend_port := to_be16 (as_u16 (dport b)) in
  ret ← set_ipv4_dest_port csum_off original_dport backend_port;
  if negb (ret =? 0) then return_ err else
  mret (bpf_redirect_neigh (ifindex b) 0 0).

Definition handle_tcp_ingress : Prog Z := fn_body (
  ip_hdr ← try_ (ptr_at Ipv4Hdr (hdr_LEN EthHdr));
  tcp_hdr ← try_ (ptr_at TcpHdr (hdr_LEN EthHdr + hdr_LEN Ipv4Hdr));
  original_daddr ← rd_field Ip_dst_addr ip_hdr;
  original_dport ← rd_field Tcp_dest tcp_hdr;
  src_addr ← rd_field Ip_src_addr ip_hdr;
  source ← rd_field Tcp_source tcp_hdr;
  let client_key := MkClientKey (from_be32 src_addr) (from_be16 source) in
  '(lb_mapping, new_conn) ← tcp_connection client_key original_daddr original_dport;
  lb_mapping ← tcp_track tcp_hdr client_key lb_mapping;
  action ← dnat_redirect TCP_CSUM_OFF TC_ACT_OK (backend lb_mapping) original_daddr original_dport;
  if (new_conn : bool) then
    _ ← try_ (conns_insert client_key lb_mapping);
    return_ (as_i32 action)
  else mret (as_i32 action)).

(** ** UDP *)
Definition handle_udp_ingress : Prog Z := fn_body (
  ip_hdr ← try_ (ptr_at Ipv4Hdr (hdr_LEN EthHdr));
  udp_hdr ← try_ (ptr_at UdpHdr (hdr_LEN EthHdr + hdr_LEN Ipv4Hdr));
  original_daddr ← rd_field Ip_dst_addr ip_hdr;
  original_dport ← rd_field Udp_dest udp_hdr;
  let backend_key := MkBackendKey (from_be32 original_daddr) (from_be16 original_dport) in
  found ← backends_get backend_key;
  backend_list ← ok_or found (Throw TC_ACT_PIPE);
  found ← indexes_get backend_key;
  backend_index ← ok_or found (Throw TC_ACT_PIPE);
  if backends_len backend_list <=? backend_index then return_ TC_ACT_PIPE else
  if Z.of_nat BACKENDS_ARRAY_CAPACITY <=? backend_index then return_ TC_ACT_PIPE else
  backend ← select_backend backend_list backend_index;
  _ ← wr_field Ip_dst_addr ip_hdr (to_be32 (daddr backend));
  _ ← wr_field Udp_dest udp_hdr (to_be16 (as_u16 (dport backend)));
  src_addr ← rd_field Ip_src_addr ip_hdr;
  let client_key := MkClientKey (from_be32 src_addr) 0 in
  _ ← try_ (conns_insert client_key (MkMapping backend backend_key None));
  end_ ← gets ctx_data_end;
  start ← gets ctx_data;
  if (end_ <? start + hdr_LEN EthHdr + hdr_LEN Ipv4Hdr)%nat then return_ TC_ACT_PIPE else
  action ← dnat_redirect UDP_CSUM_OFF TC_ACT_PIPE backend original_daddr original_dport;
  _ ← try_ (indexes_insert backend_key (next_index backend_list backend_index));
  mret (as_i32 action)).
End ingress.

(** ** Rules for the parts of the handlers *)
Section rules.
Context `{NT : NetworkTypes, AE : AyaEbpf, MP : Maps}.
Context `{NTS : !NetworkTypesSpec, AES : !AyaEbpfSpec, MS : !MapsSpec}.
Implicit Types s : kstate.

Lemma next_index_bound bl i :
  backend_list_wf bl → 0 ≤ i < backends_len bl →
  0 ≤ next_index bl i < backends_len bl ∧ next_index bl i = (i + 1) mod backends_len bl.
Proof.
  intros (_ & Hl & _) Hi. unfold next_index, BACKENDS_ARRAY_CAPACITY in *.
  rewrite wrap_id by (unfold fits; lia).
  destruct (Z.leb_spec (backends_len bl) (i + 1)).
  - replace (i + 1) with (backends_len bl) by lia. rewrite Z_mod_same_full. lia.
  - rewrite Z.mod_small; lia.
Qed.

Lemma next_index_fits bl i : fits 16 (next_index bl i).
Proof.
  unfold next_index. case_match; [done|]. by apply wrap_fits.
Qed.

Lemma wp_select_backend bl i (Q : kstate → outcome (ctl Z Z) Backend → Prop) s :
  backend_list_wf bl → 0 ≤ i < Z.of_nat BACKENDS_ARRAY_CAPACITY →
  (∀ b, backends bl !! Z.to_nat i = Some b → Q s (Ret b)) → wp (select_backend bl i) Q s.
Proof.
  intros (Hl & _) Hi HQ. unfold select_backend.
  destruct (lookup_lt_is_Some_2 (backends bl) 0) as [b0 H0].
  { rewrite Hl. unfold BACKENDS_ARRAY_CAPACITY. lia. }
  destruct (lookup_lt_is_Some_2 (backends bl) (Z.to_nat i)) as [b Hb].
  { rewrite Hl. lia. }
  wp_step. eapply wp_gets_or_fault; [done|]. wp_step. rewrite Hb. by apply HQ.
Qed.

(** The four ways to leave the selection of a backend for a new client. *)
Lemma wp_tcp_new_connection daddr dport
    (Q : kstate → outcome (ctl Z Z) (Backend * BackendKey) → Prop) s :
  let key := vip_of daddr dport in
  maps_wf s →
  (bpf_get (BACKENDS s) key = None ∨ bpf_get (GATEWAY_INDEXES s) key = None →
   Q s (Err (Throw TC_ACT_OK))) →
  (∀ bl i, bpf_get (BACKENDS s) key = Some bl → bpf_get (GATEWAY_INDEXES s) key = Some i →
     backends_len bl ≤ i → Q s (Err (Return TC_ACT_OK))) →
  (∀ bl i b m, bpf_get (BACKENDS s) key = Some bl →
     bpf_get (GATEWAY_INDEXES s) key = Some i →
     0 ≤ i < backends_len bl → backends bl !! Z.to_nat i = Some b →
     (∀ k', bpf_get m k' = if decide (k' = key) then Some (next_index bl i)
                           else bpf_get (GATEWAY_INDEXES s) k') →
     Q (set_indexes m s) (Ret (b, key))) →
  (∀ bl i m e, bpf_get (BACKENDS s) key = Some bl →
     bpf_get (GATEWAY_INDEXES s) key = Some i → 0 ≤ i < backends_len bl →
     ¬ indexes_room key (GATEWAY_INDEXES s) → map_equiv (GATEWAY_INDEXES s) m →
     Q (set_indexes m s) (Err (Throw e))) →
  wp (tcp_new_connection daddr dport) Q s.
Proof.
  intros key (Hb & Hi & Hc) HN HR HO HE. unfold tcp_new_connection. change (MkBackendKey _ _) with key.
  clearbody key.
  do 4 ebpf_step. destruct (bpf_get (BACKENDS s) key) as [bl|] eqn:Hbl; [|by apply HN; left].
  do 4 ebpf_step. destruct (bpf_get (GATEWAY_INDEXES s) key) as [i|] eqn:Hix; [|by apply HN; right].
  specialize (Hb _ _ Hbl). specialize (Hi _ _ Hix). unfold fits in Hi.
  destruct (Z.leb_spec (backends_len bl) i); [wp_step; by eapply HR|].
  assert (i < Z.of_nat BACKENDS_ARRAY_CAPACITY) by (destruct Hb as (_&?&_); lia).
  destruct (Z.leb_spec (Z.of_nat BACKENDS_ARRAY_CAPACITY) i); [lia|].
  wp_step. apply wp_select_backend; [done|lia|]. intros b Hsel.
  repeat ebpf_step; [eapply HO|eapply HE]; done || lia.
Qed.

(** What a successful rewrite of the destination does to the packet. *)
Definition dnat_packet (csum_off : nat) (b : Backend) (old_ip : Z) (p p' : list Z) : Prop :=
  ∃ p1, ip_dst_packet csum_off old_ip (to_be32 (daddr b)) p p1 ∧
        dest_port_packet csum_off (to_be16 (as_u16 (dport b))) p1 p'.

Lemma ip_dst_packet_length csum_off old new p p' :
  ip_dst_packet csum_off old new p p' → length p' = length p.
Proof.
  intros (?&?&?&?&?& W1 & (_&_& W2 &_) & W3).
  apply wr_length in W1, W2, W3. congruence.
Qed.

Lemma tcp_csum_at : csum_at TCP_CSUM_OFF.
Proof. unfold csum_at, TCP_CSUM_OFF. split; [|bounds]. by autorewrite with layout. Qed.
Lemma udp_csum_at : csum_at UDP_CSUM_OFF.
Proof. unfold csum_at, UDP_CSUM_OFF. split; [|bounds]. by autorewrite with layout. Qed.

Lemma wp_dnat_redirect csum_off err b old_ip old_port
    (Q : kstate → outcome (ctl Z Z) Z → Prop) s :
  (∀ p, dnat_packet csum_off b old_ip (skb s) p →
        Q (set_skb p s) (Ret (bpf_redirect_neigh (ifindex b) 0 0))) →
  (∀ p, (csum_at csum_off → (csum_off + 2 ≤ length (skb s))%nat → (IP_DST_OFF + 4 ≤ length (skb s))%nat →
         (IP_CSUM_OFF + 2 ≤ length (skb s))%nat → ¬ HelpersSucceed) →
        Q (set_skb p s) (Err (Return err))) →
  wp (dnat_redirect csum_off err b old_ip old_port) Q s.
Proof.
  intros HO HE. unfold dnat_redirect. wp_step. apply wp_set_ipv4_ip_dst.
  - intros p1 P1. simpl. wp_step. apply wp_set_ipv4_dest_port.
    + intros p2 P2. simpl. wp_step. apply HO. by exists p1.
    + intros p2 ret Hne HS. apply Z.eqb_neq in Hne as ->. simpl. apply wp_return, (HE p2).
      intros HC B _ _. apply HS; [done|]. cbn [skb set_skb]. by rewrite (ip_dst_packet_length _ _ _ _ _ P1).
  - intros p ret Hne HS. apply Z.eqb_neq in Hne as ->. simpl. by apply wp_return, HE.
Qed.

(** What a run of an ingress handler may change besides the packet: one
    index, one connection. *)
Definition ingress_frame (key : BackendKey) (c : ClientKey) (s s' : kstate) : Prop :=
  BACKENDS s' = BACKENDS s ∧ indexes_frame key s s' ∧ conns_frame c s s'.

Lemma wp_tcp_track ptr c lb (Q : kstate → outcome (ctl Z Z) LoadBalancerMapping → Prop) s :
  (L4 ≤ ptr)%nat → (ptr + size_of TcpHdr ≤ length (skb s))%nat →
  let hdr := hdr_bytes TcpHdr ptr (skb s) in
  (∀ m, (∀ k', bpf_get m k' = if decide (k' = c)
                              then track_entry hdr lb (bpf_get (LB_CONNECTIONS s) c)
                              else bpf_get (LB_CONNECTIONS s) k') →
        Q (set_conns m s) (Ret (track_mapping hdr lb))) →
  (∀ m e, track_error hdr c lb s → conns_frame c s (set_conns m s) →
          (bpf_get m c = bpf_get (LB_CONNECTIONS s) c ∨ bpf_get m c = None) →
          Q (set_conns m s) (Err (Throw e))) →
  wp (tcp_track ptr c lb) Q s.
Proof.
  intros Hp Hl hdr HO HE. unfold tcp_track, L4 in *.
  do 4 ebpf_step. unfold ctx_data, ctx_data_end.
  destruct (Nat.ltb_spec (length (skb s)) (0 + hdr_LEN EthHdr + hdr_LEN Ipv4Hdr)); [lia|].
  do 2 ebpf_step. cbn [as_ref]. do 2 ebpf_step.
  by apply wp_track.
Qed.

(** The connection of a packet: its mapping, whether it is new, and the state
    once the backend is chosen. *)
Inductive tcp_connection_of (s : kstate) : kstate → LoadBalancerMapping → bool → Prop :=
| conn_tracked lb :
    bpf_get (LB_CONNECTIONS s) (tcp_client (skb s)) = Some lb →
    tcp_connection_of s s lb false
| conn_new bl i b m :
    bpf_get (LB_CONNECTIONS s) (tcp_client (skb s)) = None →
    bpf_get (BACKENDS s) (tcp_vip (skb s)) = Some bl →
    bpf_get (GATEWAY_INDEXES s) (tcp_vip (skb s)) = Some i →
    0 ≤ i < backends_len bl → backends bl !! Z.to_nat i = Some b →
    (∀ k', bpf_get m k' = if decide (k' = tcp_vip (skb s)) then Some (next_index bl i)
                          else bpf_get (GATEWAY_INDEXES s) k') →
    tcp_connection_of s (set_indexes m s)
      (MkMapping b (tcp_vip (skb s)) (Some TCPState_default)) true.

Lemma wp_tcp_connection daddr dport
    (Q : kstate → outcome (ctl Z Z) (LoadBalancerMapping * bool) → Prop) s :
  maps_wf s → tcp_vip (skb s) = vip_of daddr dport →
  let c := tcp_client (skb s) in
  (∀ s1 lb new, tcp_connection_of s s1 lb new → Q s1 (Ret (lb, new))) →
  (bpf_get (LB_CONNECTIONS s) c = None →
   bpf_get (BACKENDS s) (tcp_vip (skb s)) = None ∨
   bpf_get (GATEWAY_INDEXES s) (tcp_vip (skb s)) = None → Q s (Err (Throw TC_ACT_OK))) →
  (∀ bl i, bpf_get (LB_CONNECTIONS s) c = None →
     bpf_get (BACKENDS s) (tcp_vip (skb s)) = Some bl →
     bpf_get (GATEWAY_INDEXES s) (tcp_vip (skb s)) = Some i →
     backends_len bl ≤ i → Q s (Err (Return TC_ACT_OK))) →
  (∀ bl i m e, bpf_get (LB_CONNECTIONS s) c = None →
     bpf_get (BACKENDS s) (tcp_vip (skb s)) = Some bl →
     bpf_get (GATEWAY_INDEXES s) (tcp_vip (skb s)) = Some i → 0 ≤ i < backends_len bl →
     ¬ indexes_room (tcp_vip (skb s)) (GATEWAY_INDEXES s) → map_equiv (GATEWAY_INDEXES s) m →
     Q (set_indexes m s) (Err (Throw e))) →
  wp (tcp_connection c daddr dport) Q s.
Proof.
  intros Hwf Hvip c HO HN HR HE. unfold tcp_connection. do 2 ebpf_step.
  destruct (bpf_get (LB_CONNECTIONS s) c) as [[b k st]|] eqn:Hc; [wp_step; by apply HO, conn_tracked|].
  wp_step. apply wp_tcp_new_connection; rewrite <-?Hvip; [done|by apply HN|by eauto| |by eauto].
  intros bl i b m Hbl Hi Hlt Hb Hm. wp_step. apply HO. by eapply conn_new.
Qed.

(** Every way a run of [handle_tcp_ingress] can end. *)
Lemma wp_handle_tcp_ingress (Q : kstate → outcome Z Z → Prop) s :
  let p := skb s in let c := tcp_client p in let key := tcp_vip p in
  let hdr := hdr_bytes TcpHdr L4 p in
  maps_wf s →
  (¬ (L4 + size_of TcpHdr ≤ length p)%nat → Q s (Err TC_ACT_OK)) →
  (bpf_get (LB_CONNECTIONS s) c = None →
   bpf_get (BACKENDS s) key = None ∨ bpf_get (GATEWAY_INDEXES s) key = None →
   Q s (Err TC_ACT_OK)) →
  (∀ bl i, bpf_get (LB_CONNECTIONS s) c = None → bpf_get (BACKENDS s) key = Some bl →
     bpf_get (GATEWAY_INDEXES s) key = Some i → backends_len bl ≤ i → Q s (Ret TC_ACT_OK)) →
  (∀ bl i m e, bpf_get (LB_CONNECTIONS s) c = None →
     bpf_get (BACKENDS s) key = Some bl → bpf_get (GATEWAY_INDEXES s) key = Some i →
     0 ≤ i < backends_len bl → ¬ indexes_room key (GATEWAY_INDEXES s) → map_equiv (GATEWAY_INDEXES s) m → Q (set_indexes m s) (Err e)) →
  (∀ s1 lb new m e, tcp_connection_of s s1 lb new → track_error hdr c lb s1 →
     conns_frame c s1 (set_conns m s1) →
     (bpf_get m c = bpf_get (LB_CONNECTIONS s1) c ∨ bpf_get m c = None) →
     Q (set_conns m s1) (Err e)) →
  (∀ s1 lb new m p', tcp_connection_of s s1 lb new → tracked hdr c lb s1 m →
     ¬ HelpersSucceed → Q (set_skb p' (set_conns m s1)) (Ret TC_ACT_OK)) →
  (∀ s1 lb new m p', tcp_connection_of s s1 lb new → tracked hdr c lb s1 m →
     (L4 + size_of TcpHdr ≤ length p)%nat →
     dnat_packet TCP_CSUM_OFF (backend lb) (fld Ip_dst_addr L3 p) p p' →
     let s2 := set_skb p' (set_conns m s1) in
     let lb' := track_mapping hdr lb in
     let act := as_i32 (bpf_redirect_neigh (ifindex (backend lb)) 0 0) in
     if new : bool then
       (∀ m', (∀ k', bpf_get m' k' = if decide (k' = c) then Some lb' else bpf_get m k') →
              Q (set_conns m' s2) (Ret act)) ∧
       (∀ m' e, ¬ conns_room c (LB_CONNECTIONS s) → map_equiv m m' → Q (set_conns m' s2) (Err e))
     else Q s2 (Ret act)) →
  wp handle_tcp_ingress Q s.
Proof.
  intros p c key hdr Hwf HS HN HR HI HT HD HO. unfold handle_tcp_ingress.
  wp_step. wp_step. wp_step. apply wp_ptr_at; intros Hip; [|apply HS; unfold p, L4 in *; bounds].
  wp_step. wp_step. apply wp_ptr_at; intros Htcp; [|by apply HS].
  do 8 ebpf_step. parse_fields. subst.
  wp_step. apply wp_tcp_connection; [done|done| |by apply HN|by eauto|by eauto].
  intros s1 lb new Hconn. assert (skb s1 = p) as Hp by (by destruct Hconn).
  wp_step. apply wp_tcp_track; rewrite ?Hp; [done|done| |by eauto].
  intros m Hm. wp_step.
  assert (backend (track_mapping hdr lb) = backend lb) as Hb
    by (unfold track_mapping; by destruct (tcp_state lb)).
  change (track_mapping _ lb) with (track_mapping hdr lb). rewrite Hb. apply wp_dnat_redirect; cbn [skb set_conns]; rewrite Hp.
  - intros p' Hd. specialize (HO s1 lb new m p' Hconn Hm Htcp Hd).
    destruct new; [|by wp_step]. destruct HO as [HO1 HO2].
    repeat ebpf_step; [by apply HO1|]. apply HO2; [|done]. intros Hr.
    match goal with Hn : ¬ conns_room _ _ |- _ => apply Hn end.
    eapply conns_room_frame; [|done]. intros c' Hc. simpl. rewrite Hm, decide_False by done.
    by destruct Hconn.
  - intros p' Hd. eapply HD; [done|done|]. apply Hd; [apply tcp_csum_at|..];
      unfold p, TCP_CSUM_OFF, IP_DST_OFF, IP_CSUM_OFF, L4 in *; bounds.
Qed.

(** The backend a UDP packet is sent to. *)
Definition udp_choice (s : kstate) (bl : BackendList) (i : Z) (b : Backend) : Prop :=
  bpf_get (BACKENDS s) (udp_vip (skb s)) = Some bl ∧
  bpf_get (GATEWAY_INDEXES s) (udp_vip (skb s)) = Some i ∧
  0 ≤ i < backends_len bl ∧ backends bl !! Z.to_nat i = Some b.

(** The packet once the handler has written the destination itself. *)
Definition udp_written (b : Backend) (p q : list Z) : Prop :=
  ∃ q1, wr 4 (L3 + offset_of Ip_dst_addr) (to_be32 (daddr b)) p = Some q1 ∧
        wr 2 (L4 + offset_of Udp_dest) (to_be16 (as_u16 (dport b))) q1 = Some q.

Lemma udp_written_fld b p q f h :
  udp_written b p q → Nat.leb (h + offset_of f + field_size f) (L3 + 16) = true →
  fld f h q = fld f h p.
Proof.
  intros (q1 & W1 & W2) Hb%Nat.leb_le. unfold fld.
  rewrite (rd_wr_other _ _ _ _ _ _ _ W2), (rd_wr_other _ _ _ _ _ _ _ W1); [done|..];
    left; unfold L3, L4 in *; autorewrite with layout in *; destruct f; simpl in *; lia.
Qed.

(** Every way a run of [handle_udp_ingress] can end. *)
Lemma wp_handle_udp_ingress (Q : kstate → outcome Z Z → Prop) s :
  let p := skb s in let c := udp_client p in let key := udp_vip p in
  maps_wf s →
  (¬ (L4 + size_of UdpHdr ≤ length p)%nat → Q s (Err TC_ACT_OK)) →
  (bpf_get (BACKENDS s) key = None ∨ bpf_get (GATEWAY_INDEXES s) key = None →
   Q s (Err TC_ACT_PIPE)) →
  (∀ bl i, bpf_get (BACKENDS s) key = Some bl → bpf_get (GATEWAY_INDEXES s) key = Some i →
     backends_len bl ≤ i → Q s (Ret TC_ACT_PIPE)) →
  (∀ bl i b q, udp_choice s bl i b → udp_written b p q →
     (∀ m e, ¬ conns_room c (LB_CONNECTIONS s) → map_equiv (LB_CONNECTIONS s) m →
        Q (set_conns m (set_skb q s)) (Err e)) ∧
     (∀ m, (∀ k', bpf_get m k' = if decide (k' = c) then Some (MkMapping b key None)
                                 else bpf_get (LB_CONNECTIONS s) k') →
        (∀ p', ¬ HelpersSucceed → Q (set_conns m (set_skb p' s)) (Ret TC_ACT_PIPE)) ∧
        (∀ p', (L4 + size_of UdpHdr ≤ length p)%nat →
           dnat_packet UDP_CSUM_OFF b (fld Ip_dst_addr L3 p) q p' →
           let s2 := set_conns m (set_skb p' s) in
           (∀ mi, (∀ k', bpf_get mi k' = if decide (k' = key) then Some (next_index bl i)
                                         else bpf_get (GATEWAY_INDEXES s) k') →
              Q (set_indexes mi s2) (Ret (as_i32 (bpf_redirect_neigh (ifindex b) 0 0)))) ∧
           (∀ mi e, ¬ indexes_room key (GATEWAY_INDEXES s) → map_equiv (GATEWAY_INDEXES s) mi →
              Q (set_indexes mi s2) (Err e))))) →
  wp handle_udp_ingress Q s.
Proof.
  intros p c key (Hb & Hi & _) HS HN HR HO. unfold handle_udp_ingress.
  wp_step. wp_step. wp_step. apply wp_ptr_at; intros Hip; [|apply HS; unfold p, L4 in *; bounds].
  wp_step. wp_step. apply wp_ptr_at; intros Hudp; [|by apply HS].
  do 4 ebpf_step. parse_fields. subst. change (MkBackendKey _ _) with key.
  do 4 ebpf_step. destruct (bpf_get (BACKENDS s) key) as [bl|] eqn:Hbl; [|by apply HN; left].
  do 4 ebpf_step. destruct (bpf_get (GATEWAY_INDEXES s) key) as [i|] eqn:Hix; [|by apply HN; right].
  specialize (Hb _ _ Hbl). specialize (Hi _ _ Hix). unfold fits in Hi.
  destruct (Z.leb_spec (backends_len bl) i); [wp_step; by eapply HR|].
  assert (i < Z.of_nat BACKENDS_ARRAY_CAPACITY) by (destruct Hb as (_&?&_); lia).
  destruct (Z.leb_spec (Z.of_nat BACKENDS_ARRAY_CAPACITY) i); [lia|].
  wp_step. apply wp_select_backend; [done|lia|]. intros b Hsel.
  do 6 ebpf_step. parse_fields.
  match goal with W1 : wr _ _ _ (skb s) = Some ?q1, W2 : wr _ _ _ _ = Some ?q |- _ =>
    assert (udp_written b p q) as Hw by (by exists q1) end.
  destruct (HO bl i b _ ltac:(by split_and!; try done; lia) Hw) as [HO1 HO2].
  match goal with F : fld Ip_src_addr _ (skb (set_skb ?q _)) = ?v |- _ =>
    change (fld Ip_src_addr L3 q = v) in F;
    rewrite (udp_written_fld _ _ _ _ _ Hw) in F by (rewrite offset_of_eq; apply Nat.leb_le; simpl; lia);
    subst v end.
  change (MkClientKey _ 0) with c.
  do 3 ebpf_step; [|by apply HO1].
  destruct (HO2 m ltac:(done)) as [HO3 HO4]. do 4 ebpf_step. unfold ctx_data, ctx_data_end.
  match goal with |- context [(?a <? ?b)%nat] => destruct (Nat.ltb_spec a b) end.
  { unfold L3, L4, p in *; bounds. }
  wp_step. apply wp_dnat_redirect.
  - intros p' Hd. destruct (HO4 p' ltac:(done) Hd) as [HO5 HO6].
    repeat ebpf_step; [by apply HO5|by apply HO6].
  - intros p' Hd. apply HO3, Hd; [apply udp_csum_at|..];
      unfold p, UDP_CSUM_OFF, IP_DST_OFF, IP_CSUM_OFF, L4 in *; bounds.
Qed.
End rules.
