(* ===== verification/Demo.v ===== *)
(** * A concrete configuration

    One Gateway, 10.0.0.1:80, with two backends, and packets of the client
    192.168.0.9:4242, on the reference platform.  The theorems are applied to
    these states to show that their premises can hold. *)

From stdpp Require Import base list gmap strings.
From S2P Require Import Prelude Common Platform Csum PlatformRef TcpState Ebpf Ingress.

#[local] Existing Instance rfc_types.
#[local] Existing Instance ref_ebpf.
#[local] Existing Instance ref_maps.
#[local] Existing Instance ref_user_maps.

Definition demo_vip : BackendKey := MkBackendKey 0x0A000001 80.
Definition demo_client : ClientKey := MkClientKey 0xC0A80009 4242.
Definition demo_udp_client : ClientKey := MkClientKey 0xC0A80009 0.
Definition demo_b0 : Backend := MkBackend 0x0A010001 8080 3.
Definition demo_b1 : Backend := MkBackend 0x0A010002 8081 4.
Definition demo_list : BackendList :=
  MkBackendList ([demo_b0; demo_b1] ++ replicate 126 Backend_default) 2.

(** Ethernet, IPv4 and transport headers. *)
Definition demo_eth : list Z := replicate 12 0 ++ [8; 0].
Definition demo_ip (proto : Z) (src dst : list Z) : list Z :=
  let hdr := [0x45; 0; 0; 40; 0; 0; 0; 0; 64; proto] ++ [0; 0] ++ src ++ dst in
  take 10 hdr ++ le_bytes 2 (csum_fold_helper (sum16 hdr)) ++ drop 12 hdr.
Definition demo_tcp (sport dport : list Z) (flags : Z) : list Z :=
  sport ++ dport ++ replicate 8 0 ++ [0x50; flags] ++ replicate 6 0.
Definition demo_udp (sport dport : list Z) : list Z := sport ++ dport ++ [0; 8; 0; 0].

Definition addr_client : list Z := [192; 168; 0; 9].
Definition addr_vip : list Z := [10; 0; 0; 1].
Definition addr_b0 : list Z := [10; 1; 0; 1].
Definition port_client : list Z := [16; 146].
Definition port_vip : list Z := [0; 80].
Definition port_b0 : list Z := [31; 144].

(** Client to Gateway, and backend to client. *)
Definition tcp_in (flags : Z) : list Z :=
  demo_eth ++ demo_ip 6 addr_client addr_vip ++ demo_tcp port_client port_vip flags.
Definition tcp_out (flags : Z) : list Z :=
  demo_eth ++ demo_ip 6 addr_b0 addr_client ++ demo_tcp port_b0 port_client flags.
Definition udp_in : list Z :=
  demo_eth ++ demo_ip 17 addr_client addr_vip ++ demo_udp port_client port_vip.

(** "Port unreachable", quoting the first [n] bytes of the packet the backend got. *)
Definition icmp_msg (n : nat) : list Z :=
  let msg := [3; 3] ++ [0; 0] ++ replicate 4 0 ++
             take n (demo_ip 17 addr_client addr_b0 ++ demo_udp port_client port_b0) in
  take 2 msg ++ le_bytes 2 (csum_fold_helper (sum16 msg)) ++ drop 4 msg.
Definition icmp_out (n : nat) : list Z := demo_eth ++ demo_ip 1 addr_b0 addr_client ++ icmp_msg n.

(** Flag bytes: SYN, ACK, FIN|ACK, RST, RST|ACK. *)
Definition SYN : Z := 2.
Definition ACK : Z := 16.
Definition FIN_ACK : Z := 17.
Definition RST : Z := 4.
Definition RST_ACK : Z := 20.

Definition demo_state (p : list Z) (idx : Z) (conns : gmap ClientKey LoadBalancerMapping) : kstate :=
  KState p (RefMap {[demo_vip := demo_list]}) (RefMap {[demo_vip := idx]}) (RefMap conns).

(** Nothing configured. *)
Definition demo_empty (p : list Z) : kstate :=
  KState p (RefMap (∅ : gmap BackendKey BackendList)) (RefMap (∅ : gmap BackendKey Z))
    (RefMap (∅ : gmap ClientKey LoadBalancerMapping)).

Definition demo_mapping (st : option TCPState) : LoadBalancerMapping :=
  MkMapping demo_b0 demo_vip st.

Lemma demo_list_wf : backend_list_wf demo_list.
Proof.
  split_and!; [done..|]. simpl. repeat (constructor; [by repeat split|]). constructor.
Qed.

Lemma demo_mapping_wf st : lb_mapping_wf (demo_mapping st).
Proof. by repeat split. Qed.

Lemma demo_wf p idx conns :
  fits 16 idx → map_Forall (λ _ m, lb_mapping_wf m) conns → maps_wf (demo_state p idx conns).
Proof.
  intros Hi Hc. split_and!; unfold bpf_get; simpl; unfold ref_view; simpl.
  - intros k bl [_ <-]%lookup_singleton_Some. apply demo_list_wf.
  - by intros k i [_ <-]%lookup_singleton_Some.
  - intros c m Hm. by apply (Hc c).
Qed.

Lemma demo_wf_one p idx c st :
  fits 16 idx → maps_wf (demo_state p idx {[c := demo_mapping st]}).
Proof. intros. apply demo_wf; [done|]. apply map_Forall_singleton, demo_mapping_wf. Qed.

(** Maps with few entries have room. *)
Lemma ref_room `{Countable K} {V} (k : K) (M m : ref_map K V) (v : V) :
  (size (entries M) < 127)%nat →
  (∀ k', k' ≠ k → entries m !! k' = entries M !! k') →
  (ref_insert (-7) m k v 0).2 = Ret tt.
Proof.
  intros Hs Hf. unfold ref_insert. rewrite decide_True; [done|].
  destruct (entries m !! k) eqn:E; [by left; eauto|right].
  assert (dom (entries m) ⊆ ({[k]} ∪ dom (entries M) : gset K)) as Hsub.
  { intros k' [x Hx]%elem_of_dom. destruct (decide (k' = k)) as [->|Hne]; [set_solver|].
    rewrite Hf in Hx by done. apply elem_of_union_r, elem_of_dom. eauto. }
  apply subseteq_size in Hsub. rewrite size_union_alt, size_singleton, size_dom in Hsub.
  pose proof (subseteq_size (dom (entries M) ∖ {[k]}) (dom (entries M) : gset K)
                ltac:(set_solver)) as Hd.
  rewrite (size_dom (entries M)) in Hd. unfold BPF_MAPS_CAPACITY. lia.
Qed.

Lemma demo_conns_room c M : (size (entries M) < 127)%nat → conns_room c M.
Proof. intros Hs m v Hf. by eapply ref_room. Qed.

Lemma demo_indexes_room k M : (size (entries M) < 127)%nat → indexes_room k M.
Proof. intros Hs m v Hf. by eapply ref_room. Qed.

#[export] Hint Resolve demo_list_wf demo_wf_one demo_conns_room demo_indexes_room : blixt.
