(* ===== verification/IngressProps.v ===== *)
(** * Properties of the ingress programs

    Safety and frame of both handlers, the fate of a packet of a tracked and
    of an untracked client, round-robin scheduling, and two behaviours that
    differ from what the comments promise. *)

From stdpp Require Import base list gmap.
From S2P Require Import Prelude Common Platform Csum PlatformRef TcpState Ebpf Ingress Demo.

Section props.
Context `{NT : NetworkTypes, AE : AyaEbpf, MP : Maps}.
Context `{NTS : !NetworkTypesSpec, AES : !AyaEbpfSpec, MS : !MapsSpec}.
Implicit Types s : kstate.

Lemma tcp_vip_wf p : backend_key_wf (tcp_vip p).
Proof.
  split; [apply (swap_bytes_bound 4)|]. simpl.
  pose proof (swap_bytes_bound 2 (fld Tcp_dest L4 p)) as Hb. unfold fits. simpl in Hb. lia.
Qed.

Lemma udp_vip_wf p : backend_key_wf (udp_vip p).
Proof.
  split; [apply (swap_bytes_bound 4)|]. simpl.
  pose proof (swap_bytes_bound 2 (fld Udp_dest L4 p)) as Hb. unfold fits. simpl in Hb. lia.
Qed.

Lemma tcp_connection_of_wf s s1 lb new :
  maps_wf s → tcp_connection_of s s1 lb new →
  maps_wf s1 ∧ lb_mapping_wf lb ∧ BACKENDS s1 = BACKENDS s ∧
  LB_CONNECTIONS s1 = LB_CONNECTIONS s ∧ indexes_frame (tcp_vip (skb s)) s s1.
Proof.
  intros Hwf [lb' Hlb|bl i b m Hc Hbl Hi Hlt Hb Hm].
  - split_and!; [done| |done|done|by intros ??]. by eapply (proj2 (proj2 Hwf)).
  - split_and!; [|split; simpl| done|done|map_solve].
    + eapply maps_wf_indexes_insert; [done|apply next_index_fits|done].
    + eapply backend_list_wf_lookup; [|done]. by eapply (proj1 Hwf).
    + apply tcp_vip_wf.
Qed.

(** No run of the TCP handler faults; it keeps the maps well-formed and
    touches only the index of the packet's Gateway and the entry of its client. *)
Lemma tcp_ingress_safe s :
  maps_wf s →
  wp handle_tcp_ingress (λ s' o, o ≠ Fault ∧ maps_wf s' ∧
    ingress_frame (tcp_vip (skb s)) (tcp_client (skb s)) s s') s.
Proof.
  intros Hwf.
  assert (ingress_frame (tcp_vip (skb s)) (tcp_client (skb s)) s s) by (by split_and!; map_solve).
  apply wp_handle_tcp_ingress; try done.
  - intros bl i m e _ _ _ _ _ He. split_and!; [done|by eauto with blixt|by split_and!; map_solve].
  - intros s1 lb new m e Hc _ Hf Hor.
    destruct (tcp_connection_of_wf _ _ _ _ Hwf Hc) as (Hwf1 & _ & Hb & Hl & Hi).
    split_and!; [done| |split_and!; [done|map_solve|intros c' Hne; rewrite Hf, Hl; done]].
    by eapply maps_wf_conns_lost.
  - intros s1 lb new m p' Hc Hm _.
    destruct (tcp_connection_of_wf _ _ _ _ Hwf Hc) as (Hwf1 & Hlb & Hb & Hl & Hi).
    split_and!; [done|by eapply maps_wf_set_skb, tracked_wf|].
    unfold tracked in Hm. rewrite Hl in Hm. by split_and!; map_solve.
  - intros s1 lb new m p' Hc Hm _ _.
    destruct (tcp_connection_of_wf _ _ _ _ Hwf Hc) as (Hwf1 & Hlb & Hb & Hl & Hi).
    assert (maps_wf (set_skb p' (set_conns m s1))) as Hwf2 by (by eapply maps_wf_set_skb, tracked_wf).
    unfold tracked in Hm. rewrite Hl in Hm.
    cbv zeta. destruct new; [split|]; intros; (split_and!; [done| |by split_and!; map_solve]);
      eauto using track_mapping_wf with blixt.
Qed.

Lemma udp_ingress_safe s :
  maps_wf s →
  wp handle_udp_ingress (λ s' o, o ≠ Fault ∧ maps_wf s' ∧
    ingress_frame (udp_vip (skb s)) (udp_client (skb s)) s s') s.
Proof.
  intros Hwf.
  assert (ingress_frame (udp_vip (skb s)) (udp_client (skb s)) s s) by (by split_and!; map_solve).
  apply wp_handle_udp_ingress; try done.
  intros bl i b q (Hbl & Hi & Hlt & Hb) Hq.
  assert (lb_mapping_wf (MkMapping b (udp_vip (skb s)) None)) as Hlb.
  { split; [|apply udp_vip_wf]. eapply backend_list_wf_lookup; [|done]. by eapply (proj1 Hwf). }
  split; [intros m e _ He; split_and!; [done| |by split_and!; map_solve]|].
  { apply (maps_wf_conns_equiv m (set_skb q s)); eauto with blixt. }
  intros m Hm.
  assert (∀ p', maps_wf (set_conns m (set_skb p' s))) as Hwf1.
  { intros p'. by eapply (maps_wf_conns_insert m (set_skb p' s)). }
  split; [intros p' _; split_and!; [done|done|by split_and!; map_solve]|].
  intros p' _ _. split; intros; (split_and!; [done| |by split_and!; map_solve]).
  - eapply maps_wf_indexes_insert; [done|apply next_index_fits|done].
  - by apply maps_wf_indexes_equiv.
Qed.

(** ** The packet after the rewrite *)
Lemma ip_dst_packet_spec csum_off old new p p' :
  (L4 ≤ csum_off)%nat → (L4 ≤ length p)%nat → byte_list p → 0 ≤ new < 256 ^ 4 →
  ip_dst_packet csum_off old new p p' →
  byte_list p' ∧ fld Ip_dst_addr L3 p' = new ∧
  hd 0 (hdr_bytes Ipv4Hdr L3 p') = hd 0 (hdr_bytes Ipv4Hdr L3 p) ∧
  ∃ q, sum16 (hdr_bytes Ipv4Hdr L3 p') =
       sum16 (hdr_bytes Ipv4Hdr L3 p) - fld Ip_dst_addr L3 p + old + q * 65535.
Proof.
  intros Hoff Hlen Hp Hnew (c1 & c2 & c2' & p1 & p2 & W1 & (R2 & F2 & W2 & M2) & W3).
  assert (byte_list p1) as Hp1 by eauto with bytes.
  assert (byte_list p2) as Hp2 by eauto with bytes.
  pose proof (wr_length _ _ _ _ _ W1) as L1. pose proof (wr_length _ _ _ _ _ W2) as L2.
  unfold L3, L4, IP_CSUM_OFF, IP_DST_OFF in *. autorewrite with layout in *. simpl in Hoff, Hlen, R2, W2, W3 |- *.
  split_and!; [by eauto with bytes|by eapply (fld_same Ip_dst_addr); [rewrite offset_of_eq|]|..].
  - rewrite (hdr_bytes_hd _ _ _ _ _ _ _ W3), (hdr_bytes_hd _ _ _ _ _ _ _ W2),
      (hdr_bytes_hd _ _ _ _ _ _ _ W1); done || lia.
  - destruct (ip_hdr_replace 2 14 10 c2' p1 p2 c2) as [q2 E2];
      [by left|done|lia|lia|done|done|done|done|].
    destruct (ip_hdr_replace 4 14 16 new p2 p' (fld Ip_dst_addr 14 p)) as [q3 E3];
      [by right|done|lia|lia|done|done|done| |].
    { rewrite (rd_wr_other _ _ _ _ _ _ _ W2), (rd_wr_other _ _ _ _ _ _ _ W1) by lia.
      rewrite <-(offset_of_eq Ip_dst_addr). apply fld_rd. rewrite offset_of_eq. simpl. lia. }
    rewrite E3, E2, (hdr_bytes_other _ _ _ _ _ _ _ W1) by (rewrite size_of_eq; lia).
    destruct (mod_65535_quotient _ _ (M2 Hp1)) as [q4 ->]. exists (q2 + q3 + q4). lia.
Qed.

Lemma dest_port_packet_spec csum_off new p p' :
  (L4 ≤ csum_off)%nat → byte_list p → dest_port_packet csum_off new p p' →
  byte_list p' ∧ fld Ip_dst_addr L3 p' = fld Ip_dst_addr L3 p ∧
  hdr_bytes Ipv4Hdr L3 p' = hdr_bytes Ipv4Hdr L3 p ∧ wr 2 csum_off new p = Some p'.
Proof.
  intros Hoff Hp (c & p1 & W1 & W2). unfold L3, L4 in *. autorewrite with layout in *. simpl in Hoff |- *.
  split_and!; [by eauto with bytes|..].
  - rewrite (fld_other _ _ _ _ _ _ _ W2), (fld_other _ _ _ _ _ _ _ W1);
      rewrite ?offset_of_eq; simpl; [done|lia..].
  - rewrite (hdr_bytes_other _ _ _ _ _ _ _ W2), (hdr_bytes_other _ _ _ _ _ _ _ W1);
      rewrite ?size_of_eq; [done|lia..].
  - apply wr_Some in W1 as [B1 ->]. apply wr_Some in W2 as [B2 ->]. apply wr_Some.
    split; [done|]. rewrite take_app_length', drop_app by (rewrite length_take; lia).
    rewrite drop_ge by (rewrite length_take; lia). f_equal. f_equal.
    rewrite drop_app_length'; [done|]. rewrite length_take, length_le_bytes. lia.
Qed.

(** A field away from the rewritten ranges keeps its value. *)
Lemma dnat_packet_fld csum_off b old p p' f h :
  dnat_packet csum_off b old p p' →
  (∀ a n, (a, n) ∈ [(csum_off, 2); (IP_CSUM_OFF, 2); (IP_DST_OFF, 4)] →
     h + offset_of f + field_size f ≤ a ∨ a + n ≤ h + offset_of f)%nat →
  fld f h p' = fld f h p.
Proof.
  intros (p3 & (c1&c2&c2'&p1&p2& W1 & (_&_& W2 &_) & W3) & (c4 & p4 & W4 & W5)) Hd.
  rewrite (fld_other _ _ _ _ _ _ _ W5), (fld_other _ _ _ _ _ _ _ W4),
    (fld_other _ _ _ _ _ _ _ W3), (fld_other _ _ _ _ _ _ _ W2), (fld_other _ _ _ _ _ _ _ W1);
    [done|apply Hd; set_solver..].
Qed.

(** The destination address is the backend's, and a valid IPv4 header
    checksum stays valid. *)
Lemma dnat_packet_ip csum_off b p p' old :
  (L4 ≤ csum_off)%nat → (L4 ≤ length p)%nat → byte_list p → 0 ≤ daddr b < 2 ^ 32 →
  dnat_packet csum_off b old p p' →
  fld Ip_dst_addr L3 p' = to_be32 (daddr b) ∧ byte_list p' ∧
  (0 < hd 0 (hdr_bytes Ipv4Hdr L3 p) →
   (∃ l, byte_list l ∧ csum_valid l ∧
         ∃ q, sum16 (hdr_bytes Ipv4Hdr L3 p) - fld Ip_dst_addr L3 p + old = sum16 l + q * 65535) →
   csum_valid (hdr_bytes Ipv4Hdr L3 p')).
Proof.
  intros Hoff Hlen Hp Hb (p1 & P1 & P2).
  destruct (ip_dst_packet_spec _ _ _ _ _ Hoff Hlen Hp (swap_bytes_bound 4 _) P1)
    as (Hp1 & Hd1 & Hh1 & q1 & Hs1).
  destruct (dest_port_packet_spec _ _ _ _ Hoff Hp1 P2) as (Hp2 & Hd2 & Hh2 & _).
  split_and!; [congruence|done|]. intros Hpos (l & Hl & Hv & q & Hq). rewrite Hh2.
  eapply csum_valid_cong; [exact Hl|by apply hdr_bytes_byte|by rewrite Hh1| |done].
  exists (q + q1). rewrite Hs1. lia.
Qed.

(** ** What happens to a packet *)

Lemma tcp_dnat_ip b p p' :
  tcp_packet p → backend_wf b →
  dnat_packet TCP_CSUM_OFF b (fld Ip_dst_addr L3 p) p p' →
  fld Ip_dst_addr L3 p' = to_be32 (daddr b) ∧
  (ip_hdr_ok p → csum_valid (hdr_bytes Ipv4Hdr L3 p')).
Proof.
  intros [Hp Hlen] (Hb & _) Hd.
  destruct (dnat_packet_ip TCP_CSUM_OFF b p p' (fld Ip_dst_addr L3 p)) as (Hdst & _ & Hc);
    [unfold TCP_CSUM_OFF, L4; lia|lia|done|done|done|].
  split; [done|]. intros [Hpos Hv]. apply Hc; [done|]. exists (hdr_bytes Ipv4Hdr L3 p).
  split_and!; [by apply hdr_bytes_byte|done|]. exists 0. lia.
Qed.

Lemma first_packet_state hdr :
  process_tcp_state_transition hdr Established =
  (if fin hdr then FinWait1 else Established, fin hdr).
Proof. unfold process_tcp_state_transition. by destruct (fin hdr). Qed.

(** A packet of an unknown client, given the backend list and index of its Gateway. *)
Lemma tcp_new_connection_run s bl i :
  HelpersSucceed → maps_wf s → tcp_packet (skb s) →
  let c := tcp_client (skb s) in let vip := tcp_vip (skb s) in
  let hdr := hdr_bytes TcpHdr L4 (skb s) in
  bpf_get (LB_CONNECTIONS s) c = None → is_rst hdr = false →
  bpf_get (BACKENDS s) vip = Some bl → bpf_get (GATEWAY_INDEXES s) vip = Some i →
  i < backends_len bl →
  indexes_room vip (GATEWAY_INDEXES s) → conns_room c (LB_CONNECTIONS s) →
  wp handle_tcp_ingress (λ s' o, ∃ b,
    backends bl !! Z.to_nat i = Some b ∧
    o = Ret (as_i32 (bpf_redirect_neigh (ifindex b) 0 0)) ∧
    bpf_get (GATEWAY_INDEXES s') vip = Some ((i + 1) mod backends_len bl) ∧
    bpf_get (LB_CONNECTIONS s') c =
      Some (MkMapping b vip (Some (if fin hdr then FinWait1 else Established))) ∧
    fld Ip_dst_addr L3 (skb s') = to_be32 (daddr b) ∧
    (ip_hdr_ok (skb s) → csum_valid (hdr_bytes Ipv4Hdr L3 (skb s')))) s.
Proof.
  intros HH Hwf Hpkt c vip hdr Hc Hrst Hbl Hi Hlt Hri Hrc. pose proof Hpkt as [Hbytes Hlen].
  apply wp_handle_tcp_ingress; fold c vip hdr; try done.
  - intros _ [?|?]; congruence.
  - intros bl' i' _ Hbl' Hi' Hle. simplify_eq. lia.
  - intros s1 lb new m e Hconn Herr. destruct Hconn as [lb' Hlb|bl' i' b m' _ Hbl' Hi' _ Hb Hm].
    { fold c in Hlb. congruence. }
    destruct Herr as [?|[[? _]|(st & [= <-] & Hcl & _)]]; [done|congruence|].
    unfold TCPState_default in Hcl. rewrite first_packet_state in Hcl. by destruct (fin hdr).
  - intros s1 lb new m p' Hconn Hm _ Hd. destruct Hconn as [lb' Hlb|bl' i' b mi _ Hbl' Hi' Hlt' Hb Hmi].
    { fold c in Hlb. congruence. }
    fold vip in Hbl', Hi'. simplify_eq. simpl in Hd.
    assert (backend_list_wf bl) as Hwbl by (by eapply (proj1 Hwf)).
    cbv zeta. split; [|done]. intros m' Hm'. exists b.
    destruct (tcp_dnat_ip b (skb s) p') as [Hdst Hcs]; [done|by eapply backend_list_wf_lookup|done|].
    split_and!; [done|done|simpl; rewrite Hmi|simpl; rewrite Hm'|done|done].
    + rewrite decide_True by done. by rewrite (proj2 (next_index_bound bl i Hwbl Hlt')).
    + rewrite decide_True by done. unfold track_mapping, TCPState_default; cbn [tcp_state].
      rewrite first_packet_state. by destruct (fin hdr).
Qed.

(** C6: a client without a connection gets the backend at the Gateway's
    index: its packet is redirected to that backend with the backend's
    destination address and a valid IPv4 checksum, the connection is
    recorded with the Gateway and the TCP state, and the index moves on
    round-robin.  Premises: the Gateway has backends, the maps have room and
    the kernel helpers succeed; the packet is not an RST. *)
Theorem tcp_ingress_new_connection s bl i :
  HelpersSucceed → maps_wf s → tcp_packet (skb s) →
  bpf_get (LB_CONNECTIONS s) (tcp_client (skb s)) = None →
  is_rst (hdr_bytes TcpHdr L4 (skb s)) = false →
  bpf_get (BACKENDS s) (tcp_vip (skb s)) = Some bl →
  bpf_get (GATEWAY_INDEXES s) (tcp_vip (skb s)) = Some i → i < backends_len bl →
  indexes_room (tcp_vip (skb s)) (GATEWAY_INDEXES s) →
  conns_room (tcp_client (skb s)) (LB_CONNECTIONS s) →
  wp handle_tcp_ingress (λ s' o, ∃ b,
    backends bl !! Z.to_nat i = Some b ∧
    o = Ret (as_i32 (bpf_redirect_neigh (ifindex b) 0 0)) ∧
    bpf_get (GATEWAY_INDEXES s') (tcp_vip (skb s)) = Some ((i + 1) mod backends_len bl) ∧
    bpf_get (LB_CONNECTIONS s') (tcp_client (skb s)) =
      Some (MkMapping b (tcp_vip (skb s))
              (Some (if fin (hdr_bytes TcpHdr L4 (skb s)) then FinWait1 else Established))) ∧
    fld Ip_dst_addr L3 (skb s') = to_be32 (daddr b) ∧
    (ip_hdr_ok (skb s) → csum_valid (hdr_bytes Ipv4Hdr L3 (skb s')))) s.
Proof. intros. by apply tcp_new_connection_run. Qed.

(** C9: connection affinity.  A packet of a tracked client goes to the backend
    recorded for it whatever the Gateway's index or backend list now say: no
    index changes, the packet gets the recorded backend's address, and the
    client's entry moves as [track_entry] specifies. *)
Theorem tcp_ingress_affinity s lb :
  HelpersSucceed → maps_wf s → tcp_packet (skb s) →
  bpf_get (LB_CONNECTIONS s) (tcp_client (skb s)) = Some lb →
  ¬ track_error (hdr_bytes TcpHdr L4 (skb s)) (tcp_client (skb s)) lb s →
  wp handle_tcp_ingress (λ s' o,
    o = Ret (as_i32 (bpf_redirect_neigh (ifindex (backend lb)) 0 0)) ∧
    same_indexes s s' ∧ same_backends s s' ∧
    bpf_get (LB_CONNECTIONS s') (tcp_client (skb s)) =
      track_entry (hdr_bytes TcpHdr L4 (skb s)) lb (Some lb) ∧
    fld Ip_dst_addr L3 (skb s') = to_be32 (daddr (backend lb))) s.
Proof.
  intros HH Hwf Hpkt Hc Herr. pose proof Hpkt as [_ Hlen].
  apply wp_handle_tcp_ingress; try done; [by rewrite Hc..| | |].
  - intros bl i m e. by rewrite Hc.
  - intros s1 lb' new m e Hconn Herr'. exfalso. destruct Hconn; simplify_eq. by apply Herr.
  - intros s1 lb' new m p' Hconn Hm _ Hd. destruct Hconn; simplify_eq. cbv zeta.
    destruct (tcp_dnat_ip (backend lb) (skb s) p') as [Hdst _]; [done| |done|].
    { by eapply (proj2 (proj2 Hwf)). }
    split_and!; [done|done|done| |done]. simpl. by rewrite Hm, decide_True, Hc.
Qed.

(** Packets for unknown Gateways pass through.  Without a connection, a
    packet whose destination has no backends, no index, or an index outside
    the list (an empty list in particular) leaves the packet and every map
    exactly as they were. *)
Theorem tcp_ingress_unknown_gateway s :
  maps_wf s →
  bpf_get (LB_CONNECTIONS s) (tcp_client (skb s)) = None →
  (∀ bl i, bpf_get (BACKENDS s) (tcp_vip (skb s)) = Some bl →
     bpf_get (GATEWAY_INDEXES s) (tcp_vip (skb s)) = Some i → backends_len bl ≤ i) →
  handle_tcp_ingress s = (s, Ret TC_ACT_OK) ∨ handle_tcp_ingress s = (s, Err TC_ACT_OK).
Proof.
  intros Hwf Hc Hno.
  assert (∀ s1 lb new, tcp_connection_of s s1 lb new → False) as Hconn_no.
  { intros s1 lb new [lb' ?|bl i b m _ Hb Hi Hlt _ _]; [congruence|].
    specialize (Hno _ _ Hb Hi). lia. }
  assert (wp handle_tcp_ingress (λ s' o, s' = s ∧ (o = Ret TC_ACT_OK ∨ o = Err TC_ACT_OK)) s) as H.
  { apply wp_handle_tcp_ingress; [done|by auto|by auto|by auto|..].
    - intros bl i m e _ Hb Hi Hlt. specialize (Hno _ _ Hb Hi). lia.
    - intros s1 lb new m e Hconn. exfalso. by eapply Hconn_no.
    - intros s1 lb new m p' Hconn. exfalso. by eapply Hconn_no.
    - intros s1 lb new m p' Hconn. exfalso. by eapply Hconn_no. }
  destruct (handle_tcp_ingress s) as [s' o] eqn:E. apply (wp_run _ _ _ _ _ H) in E. naive_solver.
Qed.

(** C32: the destination port of a TCP packet is never rewritten.  After a
    complete run for a tracked connection the [dest] field is the client's,
    not the backend's, and the TCP checksum field holds the backend's port:
    [set_ipv4_dest_port] stores the port at the checksum's offset. *)
Theorem tcp_ingress_dest_port_lost s lb :
  HelpersSucceed → maps_wf s → tcp_packet (skb s) →
  bpf_get (LB_CONNECTIONS s) (tcp_client (skb s)) = Some lb →
  ¬ track_error (hdr_bytes TcpHdr L4 (skb s)) (tcp_client (skb s)) lb s →
  wp handle_tcp_ingress (λ s' o,
    o = Ret (as_i32 (bpf_redirect_neigh (ifindex (backend lb)) 0 0)) ∧
    fld Tcp_dest L4 (skb s') = fld Tcp_dest L4 (skb s) ∧
    fld Tcp_check L4 (skb s') = to_be16 (as_u16 (dport (backend lb)))) s.
Proof.
  intros HH Hwf Hpkt Hc Herr. pose proof Hpkt as [_ Hlen].
  apply wp_handle_tcp_ingress; try done; [by rewrite Hc..| | |].
  - intros bl i m e. by rewrite Hc.
  - intros s1 lb' new m e Hconn Herr'. exfalso. destruct Hconn; simplify_eq. by apply Herr.
  - intros s1 lb' new m p' Hconn Hm _ Hd. destruct Hconn; simplify_eq. cbv zeta.
    split_and!; [done|..]; simpl.
    + apply (dnat_packet_fld _ _ _ _ _ _ _ Hd). unfold TCP_CSUM_OFF, IP_CSUM_OFF, IP_DST_OFF, L4.
      autorewrite with layout. simpl. intros a n Hin.
      repeat (apply elem_of_cons in Hin as [[= -> ->]|Hin]); [lia..|set_solver].
    + destruct Hd as (p1 & _ & (c & p2 & _ & W)).
      apply (fld_same Tcp_check _ _ _ _ W). apply (swap_bytes_bound 2).
Qed.

(** C39: An RST does not always end tracking.  For a TCP packet with RST of a
    tracked connection in state [st] that it does not take to [Closed], when the
    map has room for the client's entry: the entry is removed if the packet
    causes no transition; if it does (an RST with ACK during the teardown,
    say), the entry is there afterwards, with the next state. *)
Theorem tcp_rst_entry s lb st :
  maps_wf s → tcp_packet (skb s) →
  bpf_get (LB_CONNECTIONS s) (tcp_client (skb s)) = Some lb → tcp_state lb = Some st →
  conns_room (tcp_client (skb s)) (LB_CONNECTIONS s) →
  is_rst (hdr_bytes TcpHdr L4 (skb s)) = true →
  (process_tcp_state_transition (hdr_bytes TcpHdr L4 (skb s)) st).1 ≠ Closed →
  wp handle_tcp_ingress (λ s' o,
    o ≠ Fault ∧
    bpf_get (LB_CONNECTIONS s') (tcp_client (skb s)) =
      if (process_tcp_state_transition (hdr_bytes TcpHdr L4 (skb s)) st).2
      then Some (with_state lb (process_tcp_state_transition (hdr_bytes TcpHdr L4 (skb s)) st).1)
      else None) s.
Proof.
  intros Hwf Hpkt Hc Hst Hroom Hrst Hncl. pose proof Hpkt as [_ Hlen].
  assert (∀ s1 lb' new, tcp_connection_of s s1 lb' new → s1 = s ∧ lb' = lb ∧ new = false) as Hconn.
  { intros s1 lb' new []; naive_solver. }
  assert (∀ m, tracked (hdr_bytes TcpHdr L4 (skb s)) (tcp_client (skb s)) lb s m →
    bpf_get m (tcp_client (skb s)) =
      if (process_tcp_state_transition (hdr_bytes TcpHdr L4 (skb s)) st).2
      then Some (with_state lb (process_tcp_state_transition (hdr_bytes TcpHdr L4 (skb s)) st).1)
      else None) as Htr.
  { intros m Hm. rewrite Hm, decide_True by done. unfold track_entry. rewrite Hst, Hrst.
    destruct (process_tcp_state_transition _ st) as [st' []]; simpl in *; by rewrite decide_False. }
  apply wp_handle_tcp_ingress; try done; [by rewrite Hc..| | | |].
  - intros bl i m e. by rewrite Hc.
  - intros s1 lb' new m e (-> & -> & ->)%Hconn Herr.
    destruct Herr as [?|[[_ ?]|(st' & Hst' & ? & _)]]; [done|congruence|]. by simplify_eq.
  - intros s1 lb' new m p' (-> & -> & ->)%Hconn Hm _. split; [done|]. by apply Htr.
  - intros s1 lb' new m p' (-> & -> & ->)%Hconn Hm _ Hd. split; [done|]. by apply Htr.
Qed.

(** ** UDP *)

(** The handler's own writes and the helpers' agree on the destination, and
    the incremental update accounts for the address already written. *)
Lemma udp_dnat_spec b p q p' :
  udp_packet p → backend_wf b → udp_written b p q →
  dnat_packet UDP_CSUM_OFF b (fld Ip_dst_addr L3 p) q p' →
  fld Ip_dst_addr L3 p' = to_be32 (daddr b) ∧
  fld Udp_dest L4 p' = to_be16 (as_u16 (dport b)) ∧
  fld Udp_check L4 p' = to_be16 (as_u16 (dport b)) ∧
  (ip_hdr_ok p → csum_valid (hdr_bytes Ipv4Hdr L3 p')).
Proof.
  intros [Hp Hlen] (Hb & _) (q1 & W1 & W2) Hd.
  assert (byte_list q) as Hq by eauto with bytes.
  assert (byte_list q1) as Hq1 by eauto with bytes.
  pose proof (wr_length _ _ _ _ _ W1) as L1. pose proof (wr_length _ _ _ _ _ W2) as L2.
  destruct (dnat_packet_ip UDP_CSUM_OFF b q p' (fld Ip_dst_addr L3 p)) as (Hdst & _ & Hc);
    [unfold UDP_CSUM_OFF, L4; lia|lia|done|done|done|].
  assert (fld Ip_dst_addr L3 q = to_be32 (daddr b)) as Hdq.
  { rewrite (fld_other _ _ _ _ _ _ _ W2) by (unfold L3, L4; autorewrite with layout; simpl; lia).
    apply (fld_same Ip_dst_addr _ _ _ _ W1), (swap_bytes_bound 4). }
  assert (hdr_bytes Ipv4Hdr L3 q = hdr_bytes Ipv4Hdr L3 q1) as Hh.
  { eapply hdr_bytes_other; [done|]. unfold L3, L4. autorewrite with layout. simpl. lia. }
  split_and!; [done|..].
  - rewrite (dnat_packet_fld _ _ _ _ _ _ _ Hd).
    + apply (fld_same Udp_dest _ _ _ _ W2), (swap_bytes_bound 2).
    + unfold UDP_CSUM_OFF, IP_CSUM_OFF, IP_DST_OFF, L4. autorewrite with layout. simpl.
      intros a n Hin. repeat (apply elem_of_cons in Hin as [[= -> ->]|Hin]); [lia..|set_solver].
  - destruct Hd as (p1 & _ & (c & p2 & _ & W)). eapply (fld_same Udp_check); [done|apply (swap_bytes_bound 2)].
  - intros [Hpos Hv].
    unfold L3, L4 in *. autorewrite with layout in *. simpl in *.
    destruct (ip_hdr_replace 4 14 16 (to_be32 (daddr b)) p q1 (fld Ip_dst_addr 14 p)) as [k Hk];
      [by right|done|lia|lia|done|apply (swap_bytes_bound 4)|done| |].
    { rewrite <-(offset_of_eq Ip_dst_addr). apply fld_rd. rewrite offset_of_eq. simpl. lia. }
    apply Hc; [|exists (hdr_bytes Ipv4Hdr 14 p); split_and!; [by apply hdr_bytes_byte|done|]].
    + rewrite Hh, (hdr_bytes_hd _ _ _ _ _ _ _ W1); [done|lia].
    + exists k. rewrite Hh, Hdq, Hk. lia.
Qed.

(** A UDP packet for a Gateway with backends: forwarded, or an insertion
    failed for want of room. *)
Lemma udp_ingress_run s bl i :
  HelpersSucceed → maps_wf s → udp_packet (skb s) →
  bpf_get (BACKENDS s) (udp_vip (skb s)) = Some bl →
  bpf_get (GATEWAY_INDEXES s) (udp_vip (skb s)) = Some i → i < backends_len bl →
  wp handle_udp_ingress (λ s' o,
    (∃ e, o = Err e ∧ (conns_room (udp_client (skb s)) (LB_CONNECTIONS s) →
                       ¬ indexes_room (udp_vip (skb s)) (GATEWAY_INDEXES s))) ∨
    ∃ b, backends bl !! Z.to_nat i = Some b ∧
      o = Ret (as_i32 (bpf_redirect_neigh (ifindex b) 0 0)) ∧
      bpf_get (GATEWAY_INDEXES s') (udp_vip (skb s)) = Some ((i + 1) mod backends_len bl) ∧
      bpf_get (LB_CONNECTIONS s') (udp_client (skb s)) =
        Some (MkMapping b (udp_vip (skb s)) None) ∧
      fld Ip_dst_addr L3 (skb s') = to_be32 (daddr b) ∧
      fld Udp_dest L4 (skb s') = to_be16 (as_u16 (dport b)) ∧
      fld Udp_check L4 (skb s') = to_be16 (as_u16 (dport b)) ∧
      (ip_hdr_ok (skb s) → csum_valid (hdr_bytes Ipv4Hdr L3 (skb s')))) s.
Proof.
  intros HH Hwf [Hp Hlen] Hbl Hi Hlt.
  apply wp_handle_udp_ingress; [done|done|intros [?|?]; congruence| |].
  { intros bl' i' ? ? ?. simplify_eq. lia. }
  intros bl' i' b q (Hbl' & Hi' & Hlt' & Hb) Hq. simplify_eq.
  split; [intros m e Hr _; left; exists e; naive_solver|]. intros m Hm. split; [done|].
  intros p' _ Hd. cbv zeta. split; [|intros mi e Hr _; left; exists e; naive_solver].
  intros mi Hmi. right. exists b.
  assert (backend_list_wf bl) as Hwbl by (by eapply (proj1 Hwf)).
  split_and!; [done|done|simpl; by rewrite Hmi, decide_True, (proj2 (next_index_bound bl i Hwbl Hlt'))
              |simpl; by rewrite Hm, decide_True|..]; cbn [skb set_skb set_conns set_indexes].
  all: by destruct (udp_dnat_spec b (skb s) q p') as (? & ? & ? & ?);
    [done|by eapply backend_list_wf_lookup|..].
Qed.

(** C22: a UDP packet for a Gateway with backends is redirected to the backend
    at the Gateway's index with that backend's address and port and a valid
    IPv4 checksum; the UDP checksum, however, is overwritten with the port.
    The client's address is recorded for ICMP replies and the index moves on
    round-robin. *)
Theorem udp_ingress_forward s bl i :
  HelpersSucceed → maps_wf s → udp_packet (skb s) →
  bpf_get (BACKENDS s) (udp_vip (skb s)) = Some bl →
  bpf_get (GATEWAY_INDEXES s) (udp_vip (skb s)) = Some i → i < backends_len bl →
  indexes_room (udp_vip (skb s)) (GATEWAY_INDEXES s) →
  conns_room (udp_client (skb s)) (LB_CONNECTIONS s) →
  wp handle_udp_ingress (λ s' o, ∃ b,
    backends bl !! Z.to_nat i = Some b ∧
    o = Ret (as_i32 (bpf_redirect_neigh (ifindex b) 0 0)) ∧
    bpf_get (GATEWAY_INDEXES s') (udp_vip (skb s)) = Some ((i + 1) mod backends_len bl) ∧
    bpf_get (LB_CONNECTIONS s') (udp_client (skb s)) =
      Some (MkMapping b (udp_vip (skb s)) None) ∧
    fld Ip_dst_addr L3 (skb s') = to_be32 (daddr b) ∧
    fld Udp_dest L4 (skb s') = to_be16 (as_u16 (dport b)) ∧
    fld Udp_check L4 (skb s') = to_be16 (as_u16 (dport b)) ∧
    (ip_hdr_ok (skb s) → csum_valid (hdr_bytes Ipv4Hdr L3 (skb s')))) s.
Proof.
  intros HH Hwf Hpkt Hbl Hi Hlt Hri Hrc.
  eapply wp_mono; [by eapply udp_ingress_run|]. naive_solver.
Qed.

(** ** Round robin over a sequence of packets *)

(** The packets and outcomes of a sequence of UDP packets, one run each. *)
Fixpoint udp_run (ps : list (list Z)) (s : kstate) : list (list Z * outcome Z Z) :=
  match ps with
  | [] => []
  | p :: ps =>
      let '(s', o) := handle_udp_ingress (set_skb p s) in (skb s', o) :: udp_run ps s'
  end.

Definition is_ret {E A} (o : outcome E A) : bool := match o with Ret _ => true | _ => false end.

Lemma udp_run_backend ps s key bl i j q o :
  HelpersSucceed → maps_wf s →
  Forall (λ p, udp_packet p ∧ udp_vip p = key) ps →
  bpf_get (BACKENDS s) key = Some bl → bpf_get (GATEWAY_INDEXES s) key = Some i →
  0 ≤ i < backends_len bl →
  Forall (λ x, is_ret x.2 = true) (udp_run ps s) →
  udp_run ps s !! j = Some (q, o) →
  ∃ b, backends bl !! Z.to_nat ((i + Z.of_nat j) mod backends_len bl) = Some b ∧
       o = Ret (as_i32 (bpf_redirect_neigh (ifindex b) 0 0)) ∧
       fld Ip_dst_addr L3 q = to_be32 (daddr b) ∧ fld Udp_dest L4 q = to_be16 (as_u16 (dport b)).
Proof.
  intros HH Hwf Hps. revert s i j Hwf. induction Hps as [|p ps [Hp Hk] Hps IH]; [done|].
  intros s i j Hwf Hbl Hi Hlt. simpl.
  pose proof (udp_ingress_run (set_skb p s) bl i HH) as Hrun.
  pose proof (udp_ingress_safe (set_skb p s) Hwf) as Hsafe. simpl in Hrun, Hsafe. rewrite Hk in *.
  destruct (handle_udp_ingress (set_skb p s)) as [s' o'] eqn:E.
  eapply wp_run in Hsafe as (_ & Hwf' & Hb' & _); [|done].
  specialize (Hrun Hwf Hp Hbl Hi (proj2 Hlt)). eapply wp_run in Hrun; [|done].
  intros Hret Hj. apply Forall_cons in Hret as [Hret Hrets]. simpl in Hret, Hb'.
  destruct Hrun as [(e & -> & _)|(b & Hsel & -> & Hi' & _ & Hd & Hu & _ & _)]; [done|].
  destruct j as [|j]; simpl in Hj.
  - simplify_eq. exists b. rewrite Z.add_0_r, Z.mod_small by lia. done.
  - destruct (IH s' ((i + 1) mod backends_len bl) j Hwf') as (b' & Hb & ?); [|done| |done|done|].
    + by rewrite Hb'.
    + apply Z.mod_pos_bound. lia.
    + exists b'. split; [|done]. rewrite <-Hb. f_equal. f_equal.
      rewrite Zplus_mod_idemp_l. f_equal. lia.
Qed.

(** C15: round robin is fair.  In a sequence of forwarded UDP packets for one
    Gateway with [n] backends, packet [j] goes to backend [(i + j) mod n],
    and every backend is used by some packet of any [n] consecutive ones. *)
Theorem udp_round_robin ps s key bl i :
  HelpersSucceed → maps_wf s →
  Forall (λ p, udp_packet p ∧ udp_vip p = key) ps →
  bpf_get (BACKENDS s) key = Some bl → bpf_get (GATEWAY_INDEXES s) key = Some i →
  0 ≤ i < backends_len bl →
  Forall (λ x, is_ret x.2 = true) (udp_run ps s) →
  (∀ j q o, udp_run ps s !! j = Some (q, o) →
     ∃ b, backends bl !! Z.to_nat ((i + Z.of_nat j) mod backends_len bl) = Some b ∧
          fld Ip_dst_addr L3 q = to_be32 (daddr b) ∧
          fld Udp_dest L4 q = to_be16 (as_u16 (dport b))) ∧
  (∀ t k, 0 ≤ k < backends_len bl →
     ∃ j, t ≤ j < t + backends_len bl ∧ (i + j) mod backends_len bl = k).
Proof.
  intros HH Hwf Hps Hbl Hi Hlt Hret. split.
  - intros j q o Hj.
    destruct (udp_run_backend ps s key bl i j q o) as (b & ? & _ & ? & ?); eauto.
  - intros t k Hk. exists (t + (k - i - t) mod backends_len bl).
    pose proof (Z.mod_pos_bound (k - i - t) (backends_len bl)). split; [lia|].
    rewrite Z.add_assoc, Zplus_mod_idemp_r.
    replace (i + t + (k - i - t)) with k by lia. by apply Z.mod_small.
Qed.
End props.

(** ** The theorems at concrete packets *)
#[local] Existing Instance rfc_types.
#[local] Existing Instance ref_ebpf.
#[local] Existing Instance ref_maps.

Lemma demo_tcp_packet flags :
  bool_decide (Forall (fits 8) (tcp_in flags)) = true → tcp_packet (tcp_in flags).
Proof. intros H%bool_decide_eq_true. split; [done|]. vm_compute. lia. Qed.

Lemma demo_udp_packet : udp_packet udp_in.
Proof. split; [by apply (bool_decide_eq_true_1 (Forall (fits 8) udp_in))|]. vm_compute. lia. Qed.

Lemma tcp_ingress_new_connection_witness :
  wp handle_tcp_ingress (λ s' o, o = Ret 7 ∧
    bpf_get (GATEWAY_INDEXES s') demo_vip = Some 0 ∧
    ∃ m, bpf_get (LB_CONNECTIONS s') demo_client = Some m ∧ backend m = demo_b1)
    (demo_state (tcp_in SYN) 1 ∅).
Proof.
  eapply wp_mono.
  - apply (tcp_ingress_new_connection (demo_state (tcp_in SYN) 1 ∅) demo_list 1);
      [apply _|by apply demo_wf|by apply demo_tcp_packet|done|done|done|done|done| |].
    + apply demo_indexes_room. vm_compute. lia.
    + apply demo_conns_room. vm_compute. lia.
  - intros s' o (b & Hb & Ho & Hi & Hc & _). simpl in Hb. injection Hb as <-.
    split_and!; [done|done|]. by eexists.
Defined.

(** Reads a result off a theorem about a concrete run. *)
Definition demo_tracked (st : TCPState) (flags : Z) : kstate :=
  demo_state (tcp_in flags) 1 {[demo_client := demo_mapping (Some st)]}.

Lemma demo_tracked_no_error st flags :
  is_rst (hdr_bytes TcpHdr L4 (tcp_in flags)) = false →
  (process_tcp_state_transition (hdr_bytes TcpHdr L4 (tcp_in flags)) st).1 ≠ Closed →
  ¬ track_error (hdr_bytes TcpHdr L4 (tcp_in flags)) (tcp_client (tcp_in flags))
      (demo_mapping (Some st)) (demo_tracked st flags).
Proof.
  intros Hr Hc [Hn|[[Ht _]|(st' & [= <-] & Hcl & _)]]; [|congruence|done].
  apply Hn, demo_conns_room. vm_compute. lia.
Qed.

Lemma tcp_ingress_affinity_witness :
  wp handle_tcp_ingress (λ s' o, o = Ret 7 ∧
    bpf_get (LB_CONNECTIONS s') demo_client = Some (demo_mapping (Some FinWait1)) ∧
    fld Ip_dst_addr L3 (skb s') = to_be32 0x0A010001) (demo_tracked Established FIN_ACK).
Proof.
  eapply wp_mono.
  - apply (tcp_ingress_affinity (demo_tracked Established FIN_ACK) (demo_mapping (Some Established)));
      [apply _|by apply demo_wf_one|by apply demo_tcp_packet|done|by apply demo_tracked_no_error].
  - by intros s' o (Ho & _ & _ & Hc & Hd).
Defined.

Lemma tcp_ingress_unknown_gateway_witness :
  handle_tcp_ingress (demo_empty (tcp_in SYN)) = (demo_empty (tcp_in SYN), Ret TC_ACT_OK) ∨
  handle_tcp_ingress (demo_empty (tcp_in SYN)) = (demo_empty (tcp_in SYN), Err TC_ACT_OK).
Proof. apply (tcp_ingress_unknown_gateway (demo_empty (tcp_in SYN))); [by split_and!|done|done]. Defined.

Lemma tcp_ingress_dest_port_lost_witness :
  wp handle_tcp_ingress (λ s' o, o = Ret 7 ∧
    from_be16 (fld Tcp_dest L4 (skb s')) = 80 ∧
    from_be16 (fld Tcp_check L4 (skb s')) = 8080) (demo_tracked Established ACK).
Proof.
  eapply wp_mono.
  - apply (tcp_ingress_dest_port_lost (demo_tracked Established ACK) (demo_mapping (Some Established)));
      [apply _|by apply demo_wf_one|by apply demo_tcp_packet|done|by apply demo_tracked_no_error].
  - intros s' o (Ho & Hd & Hc). rewrite Hd, Hc. by vm_compute.
Defined.

Lemma tcp_rst_entry_witness :
  wp handle_tcp_ingress (λ s' o, o ≠ Fault ∧
    bpf_get (LB_CONNECTIONS s') demo_client = Some (demo_mapping (Some FinWait2)))
    (demo_tracked FinWait1 RST_ACK) ∧
  wp handle_tcp_ingress (λ s' o, o ≠ Fault ∧
    bpf_get (LB_CONNECTIONS s') demo_client = None) (demo_tracked Established RST).
Proof.
  split.
  - eapply wp_mono.
    + apply (tcp_rst_entry (demo_tracked FinWait1 RST_ACK) (demo_mapping (Some FinWait1)) FinWait1);
        [by apply demo_wf_one|by apply demo_tcp_packet|done|done| |done|done].
      apply demo_conns_room. vm_compute. lia.
    + by intros s' o [Ho Hc].
  - eapply wp_mono.
    + apply (tcp_rst_entry (demo_tracked Established RST) (demo_mapping (Some Established)) Established);
        [by apply demo_wf_one|by apply demo_tcp_packet|done|done| |done|done].
      apply demo_conns_room. vm_compute. lia.
    + by intros s' o [Ho Hc].
Defined.

Lemma udp_ingress_forward_witness :
  wp handle_udp_ingress (λ s' o, o = Ret 7 ∧
    bpf_get (GATEWAY_INDEXES s') demo_vip = Some 1 ∧
    from_be16 (fld Udp_dest L4 (skb s')) = 8080) (demo_state udp_in 0 ∅).
Proof.
  eapply wp_mono.
  - apply (udp_ingress_forward (demo_state udp_in 0 ∅) demo_list 0);
      [apply _|by apply demo_wf|by apply demo_udp_packet|done|done|done| |].
    + apply demo_indexes_room. vm_compute. lia.
    + apply demo_conns_room. vm_compute. lia.
  - intros s' o (b & Hb & Ho & Hi & Hc & _ & Hu & _). simpl in Hb. injection Hb as <-.
    split_and!; [done|done|]. rewrite Hu. by vm_compute.
Defined.

Definition demo_three : list (list Z) := [udp_in; udp_in; udp_in].

Lemma demo_three_ok : Forall (λ p, udp_packet p ∧ udp_vip p = demo_vip) demo_three.
Proof. repeat constructor; try apply demo_udp_packet; by vm_compute. Qed.

Lemma demo_three_forwarded :
  Forall (λ x, is_ret x.2 = true) (udp_run demo_three (demo_state udp_in 1 ∅)).
Proof. vm_compute. repeat constructor. Qed.

Example demo_three_destinations :
  (from_be32 ∘ fld Ip_dst_addr L3 ∘ fst <$> udp_run demo_three (demo_state udp_in 1 ∅)) =
  [daddr demo_b1; daddr demo_b0; daddr demo_b1].
Proof. by vm_compute. Qed.

Lemma demo_three_second :
  ∃ q o, udp_run demo_three (demo_state udp_in 1 ∅) !! 1%nat = Some (q, o).
Proof. do 2 eexists. vm_compute. reflexivity. Qed.

(** The second packet wraps around to the first backend. *)
Lemma udp_round_robin_witness :
  ∃ q o b, udp_run demo_three (demo_state udp_in 1 ∅) !! 1%nat = Some (q, o) ∧
    backends demo_list !! 0%nat = Some b ∧
    fld Ip_dst_addr L3 q = to_be32 (daddr b) ∧ fld Udp_dest L4 q = to_be16 (as_u16 (dport b)).
Proof.
  assert (∀ j q o, udp_run demo_three (demo_state udp_in 1 ∅) !! j = Some (q, o) →
     ∃ b, backends demo_list !! Z.to_nat ((1 + Z.of_nat j) mod backends_len demo_list) = Some b ∧
          fld Ip_dst_addr L3 q = to_be32 (daddr b) ∧
          fld Udp_dest L4 q = to_be16 (as_u16 (dport b))) as Hrun.
  { apply (udp_round_robin demo_three (demo_state udp_in 1 ∅) demo_vip demo_list 1).
    - apply _.
    - by apply demo_wf.
    - exact demo_three_ok.
    - by vm_compute.
    - by vm_compute.
    - done.
    - exact demo_three_forwarded. }
  destruct demo_three_second as (q & o & Hq).
  destruct (Hrun 1%nat q o Hq) as (b & Hb & Hd & Hu).
  exists q, o, b. split_and!; [exact Hq|exact Hb|exact Hd|exact Hu].
Defined.
