(* ===== verification/Egress.v ===== *)
(** * Egress programs

    Models [handle_tcp_egress] ([src/dataplane/ebpf/src/egress/tcp.rs]) and
    [handle_icmp_egress] ([src/dataplane/ebpf/src/egress/icmp.rs]): replies of
    a backend leave with the address of the Gateway. *)

From stdpp Require Import base list gmap.
From S2P Require Import Prelude Common Platform Csum TcpState Ebpf.

Section egress.
Context `{NT : NetworkTypes, AE : AyaEbpf, MP : Maps}.

Definition ICMP_PROTO_TYPE_UNREACH : Z := 3.

(** Recompute the IPv4 header checksum: the field is zero, the header is
    summed by the kernel, and the folded sum is stored. *)
Definition fill_ip_check {E} (ip_hdr : nat) : Eff kstate E unit :=
  hdr ← rd_hdr Ipv4Hdr ip_hdr;
  let full_cksum := as_u64 (bpf_csum_diff [] 0 (take (hdr_LEN Ipv4Hdr) hdr) (hdr_LEN Ipv4Hdr) 0) in
  wr_field Ip_check ip_hdr (csum_fold_helper full_cksum).

Definition handle_tcp_egress : Prog Z := fn_body (
  ip_hdr ← try_ (ptr_at Ipv4Hdr (hdr_LEN EthHdr));
  tcp_hdr ← try_ (ptr_at TcpHdr (hdr_LEN EthHdr + hdr_LEN Ipv4Hdr));
  client_addr ← rd_field Ip_dst_addr ip_hdr;
  dest_port ← rd_field Tcp_dest tcp_hdr;
  let client_key := MkClientKey (from_be32 client_addr) (from_be16 dest_port) in
  found ← conns_get client_key;
  lb_mapping ← ok_or found (Throw TC_ACT_PIPE);
  _ ← wr_field Ip_src_addr ip_hdr (to_be32 (bk_ip (backend_key lb_mapping)));
  _ ← wr_field Tcp_source tcp_hdr (from_be16 (as_u16 (bk_port (backend_key lb_mapping))));
  end_ ← gets ctx_data_end;
  start ← gets ctx_data;
  if (end_ <? start + hdr_LEN EthHdr + hdr_LEN Ipv4Hdr)%nat then return_ TC_ACT_OK else
  _ ← wr_field Ip_check ip_hdr 0;
  _ ← fill_ip_check ip_hdr;
  _ ← wr_field Tcp_check tcp_hdr 0;
  tcp_hdr_ref ← ok_or (as_ref tcp_hdr) (Throw TC_ACT_OK);
  hdr ← rd_hdr TcpHdr tcp_hdr_ref;
  _ ← track_packet hdr client_key lb_mapping;
  mret TC_ACT_PIPE).

Definition handle_icmp_egress : Prog Z := fn_body (
  ip_hdr ← try_ (ptr_at Ipv4Hdr (hdr_LEN EthHdr));
  let icmp_header_offset := (hdr_LEN EthHdr + hdr_LEN Ipv4Hdr)%nat in
  icmp_hdr ← try_ (ptr_at IcmpHdr icmp_header_offset);
  type_ ← rd_field Icmp_type icmp_hdr;
  if negb (type_ =? ICMP_PROTO_TYPE_UNREACH) then return_ TC_ACT_PIPE else
  dest_addr ← rd_field Ip_dst_addr ip_hdr;
  let client_key := MkClientKey (to_be32 dest_addr) 0 in
  found ← conns_get client_key;
  lb_mapping ← ok_or found (Throw TC_ACT_PIPE);
  _ ← wr_field Ip_src_addr ip_hdr (to_be32 (bk_ip (backend_key lb_mapping)));
  _ ← wr_field Ip_check ip_hdr 0;
  _ ← fill_ip_check ip_hdr;
  icmp_inner_ip_hdr ← try_ (ptr_at Ipv4Hdr (icmp_header_offset + hdr_LEN IcmpHdr));
  _ ← wr_field Ip_dst_addr icmp_inner_ip_hdr (to_be32 (bk_ip (backend_key lb_mapping)));
  _ ← wr_field Ip_check icmp_inner_ip_hdr 0;
  _ ← fill_ip_check icmp_inner_ip_hdr;
  _ ← try_ (conns_remove client_key);
  mret TC_ACT_PIPE).
End egress.
