(* ===== verification/EgressProps.v ===== *)
(** * Properties of the egress programs

    Safety and frame of both handlers; replies of a backend leave with the
    address and port of the Gateway and with valid checksums; a truncated ICMP
    error is the only partial rewrite. *)

From stdpp Require Import base list gmap.
From S2P Require Import Prelude Common Platform Csum PlatformRef TcpState Ebpf Ingress Demo IngressProps Egress.

Section rules.
Context `{NT : NetworkTypes, AE : AyaEbpf, MP : Maps}.
Context `{NTS : !NetworkTypesSpec, AES : !AyaEbpfSpec, MS : !MapsSpec}.
Implicit Types s : kstate.

(** The client a reply is for (specification). *)
Definition reply_client (p : list Z) : ClientKey :=
  MkClientKey (from_be32 (fld Ip_dst_addr L3 p)) (from_be16 (fld Tcp_dest L4 p)).
Definition icmp_client (p : list Z) : ClientKey :=
  MkClientKey (from_be32 (fld Ip_dst_addr L3 p)) 0.

Lemma wp_fill_ip_check {E} h (Q : kstate → outcome E unit → Prop) s :
  (h + size_of Ipv4Hdr ≤ length (skb s))%nat →
  (∀ p' c, wr 2 (h + offset_of Ip_check) c (skb s) = Some p' → length p' = length (skb s) →
     (byte_list (skb s) → take 2 (drop (h + offset_of Ip_check) (skb s)) = le_bytes 2 0 →
      csum_valid (hdr_bytes Ipv4Hdr h p')) →
     Q (set_skb p' s) (Ret tt)) →
  wp (fill_ip_check h) Q s.
Proof.
  intros Hb HQ. unfold fill_ip_check. repeat ebpf_step. eapply HQ; [done|done|].
  intros Hbytes Hz. set (hdr := take (size_of Ipv4Hdr) (drop h (skb s))) in *.
  assert (byte_list hdr) as Hhdr by (by apply Forall_take, Forall_drop).
  assert (length hdr = 20%nat) as Hlen.
  { unfold hdr. rewrite length_take, length_drop, size_of_eq in *. lia. }
  match goal with W : wr _ _ _ _ = Some _ |- _ => rename W into Hw end.
  rewrite hdr_LEN_eq, size_of_eq in Hw. rewrite take_ge in Hw by lia.
  destruct (csum_diff_ok hdr Hhdr Hlen) as (Hr & Hm & Hzero).
  rewrite (wrap_id 64) in Hw by (unfold fits in *; lia).
  eapply (csum_fill_valid hdr _ 10); [done|done| |done|done|done|].
  - unfold hdr. rewrite offset_of_eq, size_of_eq in *. change [0; 0] with (le_bytes 2 0). rewrite <-Hz.
    apply list_eq. intros i. destruct (decide (i < 2)%nat).
    + rewrite !lookup_take_lt, !lookup_drop, lookup_take_lt, lookup_drop by lia. f_equal. lia.
    + by rewrite !lookup_take_ge by lia.
  - unfold hdr, hdr_bytes. rewrite offset_of_eq in Hw. eapply wr_in_segment; [done|..];
      rewrite size_of_eq in *; lia.
Qed.

(** The packet when [handle_tcp_egress] has rewritten it: the writes in
    source order; the checksum field is zero when the checksum is computed. *)
Definition snat_packet (key : BackendKey) (p p' : list Z) : Prop :=
  ∃ p1 p2 p3 p4 c,
    wr 4 (L3 + offset_of Ip_src_addr) (to_be32 (bk_ip key)) p = Some p1 ∧
    wr 2 (L4 + offset_of Tcp_source) (from_be16 (as_u16 (bk_port key))) p1 = Some p2 ∧
    wr 2 (L3 + offset_of Ip_check) 0 p2 = Some p3 ∧
    wr 2 (L3 + offset_of Ip_check) c p3 = Some p4 ∧
    (byte_list p3 → csum_valid (hdr_bytes Ipv4Hdr L3 p4)) ∧
    wr 2 (L4 + offset_of Tcp_check) 0 p4 = Some p'.

(** The flags of the TCP header are not touched. *)
Lemma snat_packet_flags key p p' :
  snat_packet key p p' →
  nth 13 (hdr_bytes TcpHdr L4 p') 0 = nth 13 (hdr_bytes TcpHdr L4 p) 0.
Proof.
  intros (p1&p2&p3&p4&c& W1 & W2 & W3 & W4 & _ & W5).
  rewrite !nth_hdr_bytes by (rewrite size_of_eq; lia). unfold L3, L4 in *.
  autorewrite with layout in *. simpl in *.
  rewrite (wr_lookup _ _ _ _ _ _ W5), (wr_lookup _ _ _ _ _ _ W4), (wr_lookup _ _ _ _ _ _ W3),
    (wr_lookup _ _ _ _ _ _ W2), (wr_lookup _ _ _ _ _ _ W1).
  repeat case_decide; done || lia.
Qed.

(** Every way a run of [handle_tcp_egress] can end. *)
Lemma wp_handle_tcp_egress (Q : kstate → outcome Z Z → Prop) s :
  let p := skb s in let c := reply_client p in let hdr := hdr_bytes TcpHdr L4 p in
  (¬ (L4 + size_of TcpHdr ≤ length p)%nat → Q s (Err TC_ACT_OK)) →
  ((L4 + size_of TcpHdr ≤ length p)%nat →
   bpf_get (LB_CONNECTIONS s) c = None → Q s (Err TC_ACT_PIPE)) →
  (∀ lb p', bpf_get (LB_CONNECTIONS s) c = Some lb →
     (L4 + size_of TcpHdr ≤ length p)%nat → snat_packet (backend_key lb) p p' →
     (∀ m, tracked hdr c lb s m → Q (set_conns m (set_skb p' s)) (Ret TC_ACT_PIPE)) ∧
     (∀ m e, track_error hdr c lb s → conns_frame c s (set_conns m s) →
        (bpf_get m c = Some lb ∨ bpf_get m c = None) →
        Q (set_conns m (set_skb p' s)) (Err e))) →
  wp handle_tcp_egress Q s.
Proof.
  intros p c hdr HS HN HO. unfold handle_tcp_egress.
  wp_step. wp_step. wp_step. apply wp_ptr_at; intros Hip; [|apply HS; unfold p, L4 in *; bounds].
  wp_step. wp_step. apply wp_ptr_at; intros Htcp; [|by apply HS].
  do 4 ebpf_step. parse_fields. subst. change (MkClientKey _ _) with c.
  do 4 ebpf_step. destruct (bpf_get (LB_CONNECTIONS s) c) as [lb|] eqn:Hc; [|by apply HN].
  do 8 ebpf_step. unfold ctx_data, ctx_data_end.
  match goal with |- context [(?a <? ?b)%nat] => destruct (Nat.ltb_spec a b) end.
  { unfold L3, L4, p in *; bounds. }
  do 2 ebpf_step. wp_step. apply wp_fill_ip_check; [bounds|]. intros p4 cs W4 HL4 Hv.
  do 4 ebpf_step. cbn [as_ref]. do 3 ebpf_step.
  match goal with W : wr (field_size Tcp_check) _ _ _ = Some ?x |- _ =>
    rename W into W5, x into p'
  end.
  assert (snat_packet (backend_key lb) p p') as Hsn.
  { do 5 eexists. split_and!; [done..| |done]. intros Hb. apply Hv; [done|]. by eapply wr_take. }
  destruct (HO lb p' eq_refl Htcp Hsn) as [HO1 HO2].
  destruct (flags_ext _ _ (snat_packet_flags _ _ _ Hsn)) as (Hf & Hr & Ha).
  apply wp_track; change (take _ (drop _ _)) with (hdr_bytes TcpHdr L4 p').
  - intros m Hm. wp_step. apply (HO1 m). intros k'. rewrite Hm.
    by rewrite (proj1 (track_ext _ hdr lb _ Hf Hr Ha)).
  - intros m e He Hfr Hor. apply (HO2 m); [|done|by rewrite <-Hc].
    by apply (proj2 (track_ext _ hdr lb None Hf Hr Ha)) in He.
Qed.

(** ** ICMP *)

(** Offset of the IPv4 header quoted by an ICMP error. *)
Definition INNER : nat := L4 + hdr_LEN IcmpHdr.

(** A header at [h] with the address of [f] replaced and a fresh checksum. *)
Definition ip_refreshed (f : field) (h : nat) (addr : Z) (p p' : list Z) : Prop :=
  ∃ p1 p2 c,
    wr (field_size f) (h + offset_of f) addr p = Some p1 ∧
    wr 2 (h + offset_of Ip_check) 0 p1 = Some p2 ∧
    wr 2 (h + offset_of Ip_check) c p2 = Some p' ∧
    (byte_list p2 → csum_valid (hdr_bytes Ipv4Hdr h p')).

Lemma ip_refreshed_length f h addr p p' : ip_refreshed f h addr p p' → length p' = length p.
Proof. intros (?&?&?& W1 & W2 & W3 & _). apply wr_length in W1, W2, W3. congruence. Qed.

Lemma ip_refreshed_bytes f h addr p p' :
  ip_refreshed f h addr p p' → byte_list p → byte_list p' ∧ csum_valid (hdr_bytes Ipv4Hdr h p').
Proof. intros (?&?&?& W1 & W2 & W3 & Hv) Hp. split; [|apply Hv]; eauto 6 with bytes. Qed.

(** Another field of the packet keeps its value. *)
Lemma ip_refreshed_other f h addr p p' g h' :
  ip_refreshed f h addr p p' →
  (h' + offset_of g + field_size g ≤ h + 10 ∨ h + 20 ≤ h' + offset_of g)%nat →
  field_hdr f = Ipv4Hdr → (10 ≤ offset_of f)%nat → fld g h' p' = fld g h' p.
Proof.
  intros (p1&p2&c& W1 & W2 & W3 & _) Hd Hf Hge. pose proof (field_in_hdr f) as Hb.
  rewrite Hf, size_of_eq in Hb. rewrite (offset_of_eq Ip_check) in *.
  by rewrite (fld_other _ _ _ _ _ _ _ W3), (fld_other _ _ _ _ _ _ _ W2),
    (fld_other _ _ _ _ _ _ _ W1) by lia.
Qed.

(** The address is the one written. *)
Lemma ip_refreshed_addr f h addr p p' :
  ip_refreshed f h addr p p' → (12 ≤ offset_of f)%nat →
  0 ≤ addr < 256 ^ Z.of_nat (field_size f) → fld f h p' = addr.
Proof.
  intros (p1&p2&c& W1 & W2 & W3 & _) Hd Ha. rewrite (offset_of_eq Ip_check) in *.
  rewrite (fld_other _ _ _ _ _ _ _ W3), (fld_other _ _ _ _ _ _ _ W2) by lia.
  by eapply fld_same.
Qed.

(** The three statements both rewrites of [handle_icmp_egress] consist of. *)
Lemma wp_ip_refresh {A} f h addr (k : Body A) (Q : kstate → outcome (ctl Z Z) A → Prop) s :
  field_hdr f = Ipv4Hdr → (h + size_of Ipv4Hdr ≤ length (skb s))%nat →
  (∀ p', ip_refreshed f h addr (skb s) p' → wp k Q (set_skb p' s)) →
  wp (_ ← wr_field f h addr; _ ← wr_field Ip_check h 0; _ ← fill_ip_check h; k) Q s.
Proof.
  intros Hf Hb HQ. wp_step. apply wp_wr_field; [by rewrite Hf|]. intros p1 W1 L1.
  wp_step. apply wp_wr_field; [simpl in *; lia|]. intros p2 W2 L2. simpl in L2.
  wp_step. apply wp_fill_ip_check; [simpl in *; lia|]. intros p3 c W3 _ Hv.
  apply (HQ p3). exists p1, p2, c. split_and!; [done..|]. intros Hp2. apply Hv; [done|].
  by eapply wr_take.
Qed.

(** Every way a run of [handle_icmp_egress] can end. *)
Lemma wp_handle_icmp_egress (Q : kstate → outcome Z Z → Prop) s :
  let p := skb s in let c := icmp_client p in
  (¬ (L4 + size_of IcmpHdr ≤ length p)%nat → Q s (Err TC_ACT_OK)) →
  ((L4 + size_of IcmpHdr ≤ length p)%nat →
   fld Icmp_type L4 p ≠ ICMP_PROTO_TYPE_UNREACH → Q s (Ret TC_ACT_PIPE)) →
  ((L4 + size_of IcmpHdr ≤ length p)%nat → fld Icmp_type L4 p = ICMP_PROTO_TYPE_UNREACH →
   bpf_get (LB_CONNECTIONS s) c = None → Q s (Err TC_ACT_PIPE)) →
  (∀ lb p1, (L4 + size_of IcmpHdr ≤ length p)%nat →
     fld Icmp_type L4 p = ICMP_PROTO_TYPE_UNREACH → bpf_get (LB_CONNECTIONS s) c = Some lb →
     let addr := to_be32 (bk_ip (backend_key lb)) in
     ip_refreshed Ip_src_addr L3 addr p p1 →
     (¬ (INNER + size_of Ipv4Hdr ≤ length p)%nat → Q (set_skb p1 s) (Err TC_ACT_OK)) ∧
     (∀ p' m, (INNER + size_of Ipv4Hdr ≤ length p)%nat →
        ip_refreshed Ip_dst_addr INNER addr p1 p' →
        (∀ k', bpf_get m k' = if decide (k' = c) then None else bpf_get (LB_CONNECTIONS s) k') →
        Q (set_conns m (set_skb p' s)) (Ret TC_ACT_PIPE))) →
  wp handle_icmp_egress Q s.
Proof.
  intros p c HS HT HN HO. unfold handle_icmp_egress.
  wp_step. wp_step. wp_step. apply wp_ptr_at; intros Hip; [|apply HS; unfold p, L4 in *; bounds].
  wp_step. wp_step. apply wp_ptr_at; intros Hicmp; [|by apply HS].
  do 2 ebpf_step. parse_fields. subst.
  match goal with |- context [?t =? ICMP_PROTO_TYPE_UNREACH] =>
    destruct (Z.eqb_spec t ICMP_PROTO_TYPE_UNREACH) as [Ht|Ht]; simpl end; [|wp_step; by apply HT].
  do 2 ebpf_step. parse_fields. subst. change (MkClientKey _ _) with c.
  do 4 ebpf_step. destruct (bpf_get (LB_CONNECTIONS s) c) as [lb|] eqn:Hc; [|by apply HN].
  apply wp_ip_refresh; [done|bounds|]. intros p1 P1. pose proof (ip_refreshed_length _ _ _ _ _ P1).
  destruct (HO lb p1 Hicmp Ht eq_refl P1) as [HO1 HO2].
  wp_step. wp_step. apply wp_ptr_at; cbn [skb set_skb]; intros Hin; [|apply HO1; unfold p, INNER, L4 in *; lia].
  apply wp_ip_refresh; [done|done|]. intros p' P'.
  repeat ebpf_step; [|cbn [LB_CONNECTIONS set_skb] in *; congruence].
  apply HO2; [unfold p, INNER, L4 in *; lia|done|done].
Qed.
End rules.

Section props.
Context `{NT : NetworkTypes, AE : AyaEbpf, MP : Maps}.
Context `{NTS : !NetworkTypesSpec, AES : !AyaEbpfSpec, MS : !MapsSpec}.
Implicit Types s : kstate.

(** ** Safety *)

(** What a run of an egress handler may change besides the packet: one connection. *)
Definition egress_frame (c : ClientKey) (s s' : kstate) : Prop :=
  BACKENDS s' = BACKENDS s ∧ GATEWAY_INDEXES s' = GATEWAY_INDEXES s ∧ conns_frame c s s'.

Lemma egress_frame_refl c s : egress_frame c s s.
Proof. by split_and!. Qed.

Lemma tcp_egress_safe s :
  maps_wf s →
  wp handle_tcp_egress (λ s' o, o ≠ Fault ∧ maps_wf s' ∧
    egress_frame (reply_client (skb s)) s s') s.
Proof.
  intros Hwf. pose proof (egress_frame_refl (reply_client (skb s)) s).
  apply wp_handle_tcp_egress; [done|done|]. intros lb p' Hlb _ _.
  assert (lb_mapping_wf lb) as Hw by (by eapply (proj2 (proj2 Hwf))). split.
  - intros m Hm. split_and!; [done| |by split_and!; unfold tracked in Hm; map_solve].
    by eapply (tracked_wf _ _ lb (set_skb p' s)).
  - intros m e _ Hf Hor. split_and!; [done| |by split_and!].
    eapply (maps_wf_conns_lost (reply_client (skb s)) m (set_skb p' s)); [done..|].
    simpl. by rewrite Hlb.
Qed.

Lemma icmp_egress_safe s :
  maps_wf s →
  wp handle_icmp_egress (λ s' o, o ≠ Fault ∧ maps_wf s' ∧
    egress_frame (icmp_client (skb s)) s s') s.
Proof.
  intros Hwf. pose proof (egress_frame_refl (icmp_client (skb s)) s).
  apply wp_handle_icmp_egress; [done..|]. intros lb p1 _ _ Hlb addr _. split; [done|].
  intros p' m _ _ Hm. split_and!; [done| |by split_and!; map_solve].
  by eapply (maps_wf_conns_remove m (set_skb p' s)).
Qed.

(** ** TCP *)

(** What the rewrite does to the packet, byte for byte outside the headers. *)
Lemma snat_packet_spec key p p' :
  tcp_packet p → snat_packet key p p' → fits 32 (bk_ip key) →
  from_be32 (fld Ip_src_addr L3 p') = bk_ip key ∧
  from_be16 (fld Tcp_source L4 p') = as_u16 (bk_port key) ∧
  fld Ip_dst_addr L3 p' = fld Ip_dst_addr L3 p ∧ fld Tcp_dest L4 p' = fld Tcp_dest L4 p ∧
  csum_valid (hdr_bytes Ipv4Hdr L3 p') ∧ fld Tcp_check L4 p' = 0 ∧
  byte_list p' ∧ drop (L4 + 20) p' = drop (L4 + 20) p.
Proof.
  intros [Hp Hlen] (p1&p2&p3&p4&c& W1 & W2 & W3 & W4 & Hv & W5) Hf.
  assert (byte_list p3) as Hp3 by eauto 6 with bytes.
  assert (byte_list p') as Hl by eauto with bytes.
  assert (drop (L4 + 20) p' = drop (L4 + 20) p) as Hd.
  { apply list_eq. intros i. rewrite !lookup_drop. unfold L3, L4 in *.
    autorewrite with layout in *. simpl in *.
    rewrite (wr_lookup _ _ _ _ _ _ W5), (wr_lookup _ _ _ _ _ _ W4), (wr_lookup _ _ _ _ _ _ W3),
      (wr_lookup _ _ _ _ _ _ W2), (wr_lookup _ _ _ _ _ _ W1). repeat case_decide; done || lia. }
  assert (hdr_bytes Ipv4Hdr L3 p' = hdr_bytes Ipv4Hdr L3 p4) as Hh.
  { eapply hdr_bytes_other; [done|]. unfold L3, L4. bounds. }
  split_and!; [| | | |by rewrite Hh; apply Hv|by eapply fld_same|done|done]; frame_fld; [| |done|done].
  - erewrite (fld_same Ip_src_addr); [by apply (swap_swap 4)|done|apply (swap_bytes_bound 4)].
  - erewrite (fld_same Tcp_source); [|done|apply (swap_bytes_bound 2)].
    apply (swap_swap 2). by apply (wrap_fits 16).
Qed.

(** C10: source NAT of replies.  A TCP packet to a tracked client leaves with
    the address and port of the client's Gateway as its source, the same
    destination and payload, a valid IPv4 checksum and a zero TCP checksum;
    the client's entry moves as [track_entry] specifies, and nothing else in
    the maps changes. *)
Theorem tcp_egress_snat s lb :
  maps_wf s → tcp_packet (skb s) →
  bpf_get (LB_CONNECTIONS s) (reply_client (skb s)) = Some lb →
  ¬ track_error (hdr_bytes TcpHdr L4 (skb s)) (reply_client (skb s)) lb s →
  wp handle_tcp_egress (λ s' o,
    o = Ret TC_ACT_PIPE ∧
    from_be32 (fld Ip_src_addr L3 (skb s')) = bk_ip (backend_key lb) ∧
    from_be16 (fld Tcp_source L4 (skb s')) = as_u16 (bk_port (backend_key lb)) ∧
    reply_client (skb s') = reply_client (skb s) ∧
    drop (L4 + 20) (skb s') = drop (L4 + 20) (skb s) ∧
    csum_valid (hdr_bytes Ipv4Hdr L3 (skb s')) ∧ fld Tcp_check L4 (skb s') = 0 ∧
    bpf_get (LB_CONNECTIONS s') (reply_client (skb s)) =
      track_entry (hdr_bytes TcpHdr L4 (skb s)) lb (Some lb) ∧
    egress_frame (reply_client (skb s)) s s') s.
Proof.
  intros Hwf Hpkt Hc Herr. pose proof Hpkt as [_ Hlen].
  apply wp_handle_tcp_egress; [done|by rewrite Hc|]. intros lb' p' Hlb' _ Hsn. simplify_eq.
  assert (lb_mapping_wf lb) as [_ [Hk _]] by (by eapply (proj2 (proj2 Hwf))).
  destruct (snat_packet_spec _ _ _ Hpkt Hsn Hk) as (? & ? & Hd & Ht & ? & ? & ? & ?).
  split; [|done]. intros m Hm. cbn [skb set_conns set_skb LB_CONNECTIONS].
  split_and!; [done..|unfold reply_client; by rewrite Hd, Ht|done|done|done| |].
  - by rewrite Hm, decide_True, Hc.
  - unfold tracked in Hm. by split_and!; map_solve.
Qed.

(** Other traffic leaves untouched.  A packet that is too short or whose
    destination is not a tracked client leaves the packet and all maps exactly
    as they were. *)
Theorem tcp_egress_untracked s :
  bpf_get (LB_CONNECTIONS s) (reply_client (skb s)) = None →
  handle_tcp_egress s =
    (s, Err (if decide (L4 + size_of TcpHdr ≤ length (skb s))%nat
             then TC_ACT_PIPE else TC_ACT_OK)).
Proof.
  intros Hc.
  enough (wp handle_tcp_egress (λ s' o, s' = s ∧ o =
      Err (if decide (L4 + size_of TcpHdr ≤ length (skb s))%nat then TC_ACT_PIPE else TC_ACT_OK)) s)
    as [Hs Ho].
  { rewrite (surjective_pairing (handle_tcp_egress s)). by f_equal. }
  apply wp_handle_tcp_egress; [by intros; rewrite decide_False|by intros; rewrite decide_True|].
  by rewrite Hc.
Qed.

(** ** The two directions together *)

(** However the packet of a new client is handled: if the client is tracked
    afterwards, then for the Gateway the packet was sent to. *)
Lemma tcp_ingress_records s :
  maps_wf s → tcp_packet (skb s) → bpf_get (LB_CONNECTIONS s) (tcp_client (skb s)) = None →
  wp handle_tcp_ingress (λ s' _, ∀ lb,
    bpf_get (LB_CONNECTIONS s') (tcp_client (skb s)) = Some lb → backend_key lb = tcp_vip (skb s)) s.
Proof.
  intros Hwf [_ Hlen] Hc.
  assert (∀ s1 lb new, tcp_connection_of s s1 lb new →
    new = true ∧ backend_key lb = tcp_vip (skb s) ∧ LB_CONNECTIONS s1 = LB_CONNECTIONS s) as Hnew.
  { intros s1 lb new []; [congruence|done]. }
  assert (∀ s1 lb new m, tcp_connection_of s s1 lb new →
    tracked (hdr_bytes TcpHdr L4 (skb s)) (tcp_client (skb s)) lb s1 m →
    ∀ x, bpf_get m (tcp_client (skb s)) = Some x → backend_key x = tcp_vip (skb s)) as Htr.
  { intros s1 lb new m Hcn Hm x. destruct (Hnew _ _ _ Hcn) as (_ & Hk & Hc1). rewrite Hm, decide_True, Hc1, Hc by done.
    intros [Hx|?]%track_entry_key; congruence. }
  apply wp_handle_tcp_ingress; try done; try (intros; simpl in *; congruence).
  - intros s1 lb new m e Hcn _ _ Hor x. destruct (Hnew _ _ _ Hcn) as (_ & _ & Hc1). simpl. rewrite Hc1, Hc in Hor.
    destruct Hor; congruence.
  - intros s1 lb new m p' Hcn Hm _. by eapply Htr.
  - intros s1 lb new m p' Hcn Hm _ _. destruct (Hnew _ _ _ Hcn) as (-> & Hk & _). split.
    + intros m' Hm' x. simpl. rewrite Hm', decide_True by done. intros [= <-]. by rewrite track_mapping_key.
    + intros m' e _ He x. simpl. rewrite (He (tcp_client (skb s))). by eapply Htr.
Qed.

(** C7: the two rewrites are inverse to each other.  Take any TCP packet of a
    client that is not tracked, handled with whatever result (an RST, full
    maps and failing helpers included).  If the client is tracked afterwards,
    then any TCP reply to it, RST or not and whatever source the backend used,
    leaves with exactly the source address and port the client sent its packet
    to, is still addressed to the client, and the handler does not fault. *)
Theorem tcp_nat_roundtrip s reply :
  maps_wf s → tcp_packet (skb s) → bpf_get (LB_CONNECTIONS s) (tcp_client (skb s)) = None →
  tcp_packet reply → reply_client reply = tcp_client (skb s) →
  wp handle_tcp_ingress (λ s1 _, is_Some (bpf_get (LB_CONNECTIONS s1) (tcp_client (skb s))) →
    wp handle_tcp_egress (λ s2 o2, o2 ≠ Fault ∧
      fld Ip_src_addr L3 (skb s2) = fld Ip_dst_addr L3 (skb s) ∧
      fld Tcp_source L4 (skb s2) = fld Tcp_dest L4 (skb s) ∧
      reply_client (skb s2) = tcp_client (skb s)) (set_skb reply s1)) s.
Proof.
  intros Hwf Hpkt Hc Hrep Hcl. eapply wp_mono; [by apply tcp_ingress_records|].
  intros s1 o1 Hkey [lb Hlb]. specialize (Hkey lb Hlb).
  assert (∀ p', snat_packet (backend_key lb) reply p' →
    fld Ip_src_addr L3 p' = fld Ip_dst_addr L3 (skb s) ∧
    fld Tcp_source L4 p' = fld Tcp_dest L4 (skb s) ∧ reply_client p' = tcp_client (skb s)) as Hsn.
  { rewrite Hkey. intros p' Hsn. destruct (tcp_vip_wf (skb s)) as [Hk _].
    destruct (snat_packet_spec _ _ _ Hrep Hsn Hk) as (Hip & Hport & Hd & Ht & _ & _ & Hb' & _).
    destruct Hpkt as [Hb _]. split_and!; [..|by rewrite <-Hcl; unfold reply_client; rewrite Hd, Ht].
    - eapply (swap_inj 4); [by apply (fld_bound Ip_src_addr)|by apply (fld_bound Ip_dst_addr)|done].
    - eapply (swap_inj 2); [by apply (fld_bound Tcp_source)|by apply (fld_bound Tcp_dest)|].
      rewrite Hport. apply wrap_id, (swap_bytes_bound 2). }
  apply wp_handle_tcp_egress; cbn [skb set_skb LB_CONNECTIONS]; rewrite Hcl.
  - by destruct Hrep.
  - intros _ Hn. congruence.
  - intros lb' p' Hlb' _ Hp'. rewrite Hlb in Hlb'. injection Hlb' as <-. split.
    + intros m _. split; [done|by apply Hsn].
    + intros m e _ _ _. split; [done|by apply Hsn].
Qed.

(** ** ICMP *)

(** A header whose checksum verifies contributes nothing to a sum around it. *)
Lemma refreshed_message p p' :
  byte_list p → byte_list p' → length p' = length p → (INNER + 20 ≤ length p)%nat →
  take 8 (drop L4 p') = take 8 (drop L4 p) → drop (INNER + 20) p' = drop (INNER + 20) p →
  csum_valid (hdr_bytes Ipv4Hdr INNER p) → csum_valid (hdr_bytes Ipv4Hdr INNER p') →
  0 < hd 0 (drop L4 p) → csum_valid (drop L4 p) → csum_valid (drop L4 p').
Proof.
  intros Hp Hp' Hl Hlen Hi Hr Hv Hv' Hh.
  assert (∀ q, byte_list q → length q = length p →
    sum16 (drop L4 q) = sum16 (take 8 (drop L4 q)) + sum16 (hdr_bytes Ipv4Hdr INNER q) +
                        sum16 (drop (INNER + 20) q)) as Hsum.
  { intros q Hq Hlq. unfold hdr_bytes, INNER, L4 in *. autorewrite with layout in *. simpl in *.
    rewrite <-(take_drop 8 (drop 34 q)) at 1.
    rewrite sum16_app by (by rewrite length_take, length_drop, Nat.min_l by lia).
    rewrite drop_drop, <-(take_drop 20 (drop (34 + 8) q)) at 1.
    rewrite sum16_app by (by rewrite length_take, length_drop, Nat.min_l by lia).
    rewrite drop_drop. simpl. lia. }
  apply csum_valid_iff in Hv as [Hv _], Hv' as [Hv' _]; try by apply hdr_bytes_byte.
  apply csum_valid_cong; [by apply Forall_drop|by apply Forall_drop| |].
  - assert (hd 0 (drop L4 p') = hd 0 (drop L4 p)) as ->; [|done].
    destruct (drop L4 p'), (drop L4 p); by simplify_eq/=.
  - rewrite !Hsum, Hi, Hr by done.
    destruct (mod_65535_quotient _ _ (eq_trans (Zminus_mod _ _ _) (f_equal (λ x, x mod 65535)
       (f_equal2 Z.sub Hv' Hv)))) as [q Hq]. exists q. lia.
Qed.

(** Both headers after the two rewrites. *)
Lemma icmp_packet_spec addr p p1 p' :
  byte_list p → (INNER + 20 ≤ length p)%nat → fits 32 addr →
  fld Icmp_type L4 p = ICMP_PROTO_TYPE_UNREACH →
  ip_refreshed Ip_src_addr L3 (to_be32 addr) p p1 →
  ip_refreshed Ip_dst_addr INNER (to_be32 addr) p1 p' →
  from_be32 (fld Ip_src_addr L3 p') = addr ∧ from_be32 (fld Ip_dst_addr INNER p') = addr ∧
  fld Ip_dst_addr L3 p' = fld Ip_dst_addr L3 p ∧
  csum_valid (hdr_bytes Ipv4Hdr L3 p') ∧ csum_valid (hdr_bytes Ipv4Hdr INNER p') ∧
  (csum_valid (hdr_bytes Ipv4Hdr INNER p) → csum_valid (drop L4 p) → csum_valid (drop L4 p')).
Proof.
  intros Hp Hlen Ha Ht P1 P2.
  pose proof (ip_refreshed_length _ _ _ _ _ P1). pose proof (ip_refreshed_length _ _ _ _ _ P2).
  destruct (ip_refreshed_bytes _ _ _ _ _ P1 Hp) as [Hp1 V1].
  destruct (ip_refreshed_bytes _ _ _ _ _ P2 Hp1) as [Hp2 V2].
  pose proof (ip_refreshed_addr _ _ _ _ _ P1) as A1. pose proof (ip_refreshed_addr _ _ _ _ _ P2) as A2.
  rewrite offset_of_eq in A1, A2.
  rewrite <-(λ l, ip_refreshed_other _ _ _ _ _ Ip_src_addr L3 P2 l eq_refl) in A1
    by (unfold INNER, L3, L4; bounds).
  destruct P1 as (q1&q2&c& W1 & W2 & W3 & _), P2 as (r1&r2&d& W4 & W5 & W6 & _).
  assert (hdr_bytes Ipv4Hdr L3 p' = hdr_bytes Ipv4Hdr L3 p1) as Hh.
  { rewrite (hdr_bytes_other _ _ _ _ _ _ _ W6), (hdr_bytes_other _ _ _ _ _ _ _ W5),
      (hdr_bytes_other _ _ _ _ _ _ _ W4); [done|unfold INNER, L3, L4; bounds..]. }
  assert (∀ i, (L4 ≤ i)%nat → (i < INNER)%nat ∨ (INNER + 20 ≤ i)%nat → p' !! i = p !! i) as Hi.
  { intros i Hi1 Hi2. unfold INNER, L3, L4 in *. autorewrite with layout in *. simpl in *.
    rewrite (wr_lookup _ _ _ _ _ _ W6), (wr_lookup _ _ _ _ _ _ W5), (wr_lookup _ _ _ _ _ _ W4),
      (wr_lookup _ _ _ _ _ _ W3), (wr_lookup _ _ _ _ _ _ W2), (wr_lookup _ _ _ _ _ _ W1).
    repeat case_decide; done || lia. }
  split_and!; [rewrite A1; [by apply (swap_swap 4)|lia|apply (swap_bytes_bound 4)]
    |rewrite A2; [by apply (swap_swap 4)|lia|apply (swap_bytes_bound 4)]| |by rewrite Hh|done|].
  - unfold INNER in *. frame_fld. done.
  - intros Hv. apply refreshed_message; [done|done|congruence|done| | |done|done|].
    + apply list_eq. intros i. destruct (decide (i < 8)%nat); [|by rewrite !lookup_take_ge by lia].
      rewrite !lookup_take_lt, !lookup_drop by done. apply Hi; [lia|]. left. unfold INNER. bounds.
    + apply list_eq. intros i. rewrite !lookup_drop. apply Hi; unfold INNER in *; lia.
    + unfold fld, rd in Ht. rewrite offset_of_eq in Ht. cbn [field_size] in Ht.
      rewrite decide_True, Nat.add_0_r in Ht by (unfold INNER in *; bounds).
      destruct (drop L4 p) as [|t ?]; [done|]. unfold ICMP_PROTO_TYPE_UNREACH in Ht.
      simpl in *. unfold le_value in Ht. rewrite Z.add_0_r in Ht. lia.
Qed.

(** C21: an ICMP "unreachable" message to a client that used a UDP Gateway
    leaves as if the Gateway had sent it: the outer source and the destination
    quoted in the message are the Gateway's address, both IPv4 headers verify,
    a message whose quoted header verified keeps a valid ICMP checksum, and
    the client's entry is removed. *)
Theorem icmp_egress_unreachable s lb :
  maps_wf s → byte_list (skb s) → (INNER + 20 ≤ length (skb s))%nat →
  fld Icmp_type L4 (skb s) = ICMP_PROTO_TYPE_UNREACH →
  bpf_get (LB_CONNECTIONS s) (icmp_client (skb s)) = Some lb →
  wp handle_icmp_egress (λ s' o,
    o = Ret TC_ACT_PIPE ∧
    from_be32 (fld Ip_src_addr L3 (skb s')) = bk_ip (backend_key lb) ∧
    from_be32 (fld Ip_dst_addr INNER (skb s')) = bk_ip (backend_key lb) ∧
    icmp_client (skb s') = icmp_client (skb s) ∧
    csum_valid (hdr_bytes Ipv4Hdr L3 (skb s')) ∧
    csum_valid (hdr_bytes Ipv4Hdr INNER (skb s')) ∧
    (csum_valid (hdr_bytes Ipv4Hdr INNER (skb s)) →
     csum_valid (drop L4 (skb s)) → csum_valid (drop L4 (skb s'))) ∧
    bpf_get (LB_CONNECTIONS s') (icmp_client (skb s)) = None ∧
    egress_frame (icmp_client (skb s)) s s') s.
Proof.
  intros Hwf Hp Hlen Ht Hc.
  assert (lb_mapping_wf lb) as [_ [Hk _]] by (by eapply (proj2 (proj2 Hwf))).
  apply wp_handle_icmp_egress; [unfold INNER in *; bounds|done|by rewrite Hc|].
  intros lb' p1 _ _ Hlb addr P1. simplify_eq. split; [intros Hn; destruct Hn; rewrite size_of_eq; lia|].
  intros p' m _ P2 Hm. cbn [skb set_conns set_skb LB_CONNECTIONS].
  destruct (icmp_packet_spec _ _ _ _ Hp Hlen Hk Ht P1 P2) as (? & ? & Hd & ? & ? & ?).
  split_and!; [done..|unfold icmp_client; by rewrite Hd|done|done|done|by rewrite Hm, decide_True|].
  by split_and!; map_solve.
Qed.

(** The one partial rewrite.  When the quoted IPv4 header is truncated
    the run ends in an error after the outer header was rewritten; it is
    nevertheless a valid header, and no map has changed. *)
Theorem icmp_egress_truncated s lb :
  maps_wf s → byte_list (skb s) →
  (L4 + size_of IcmpHdr ≤ length (skb s) < INNER + 20)%nat →
  fld Icmp_type L4 (skb s) = ICMP_PROTO_TYPE_UNREACH →
  bpf_get (LB_CONNECTIONS s) (icmp_client (skb s)) = Some lb →
  wp handle_icmp_egress (λ s' o,
    o = Err TC_ACT_OK ∧ s' = set_skb (skb s') s ∧
    from_be32 (fld Ip_src_addr L3 (skb s')) = bk_ip (backend_key lb) ∧
    csum_valid (hdr_bytes Ipv4Hdr L3 (skb s')) ∧
    drop L4 (skb s') = drop L4 (skb s)) s.
Proof.
  intros Hwf Hp [Hlen Hshort] Ht Hc.
  assert (lb_mapping_wf lb) as [_ [Hk _]] by (by eapply (proj2 (proj2 Hwf))).
  apply wp_handle_icmp_egress; [done|done|by rewrite Hc|].
  intros lb' p1 _ _ Hlb addr P1. simplify_eq. split; [|intros p' m Hin; rewrite size_of_eq in Hin; lia].
  intros _. destruct (ip_refreshed_bytes _ _ _ _ _ P1 Hp) as [_ V1].
  split_and!; [done|done| |done|]; simpl.
  - rewrite (ip_refreshed_addr _ _ _ _ _ P1);
      [by apply (swap_swap 4)|rewrite offset_of_eq; lia|apply (swap_bytes_bound 4)].
  - destruct P1 as (q1&q2&c& W1 & W2 & W3 & _). apply list_eq. intros i. rewrite !lookup_drop.
    unfold L3, L4 in *. autorewrite with layout in *. simpl in *.
    rewrite (wr_lookup _ _ _ _ _ _ W3), (wr_lookup _ _ _ _ _ _ W2), (wr_lookup _ _ _ _ _ _ W1).
    repeat case_decide; done || lia.
Qed.
End props.

(** ** The theorems at concrete packets *)
#[local] Existing Instance rfc_types.
#[local] Existing Instance ref_ebpf.
#[local] Existing Instance ref_maps.

Definition demo_reply (st : TCPState) (flags : Z) : kstate :=
  demo_state (tcp_out flags) 1 {[demo_client := demo_mapping (Some st)]}.

Lemma demo_reply_packet flags :
  bool_decide (Forall (fits 8) (tcp_out flags)) = true → tcp_packet (tcp_out flags).
Proof. intros E%bool_decide_eq_true. split; [done|]. vm_compute. lia. Qed.

Lemma tcp_egress_snat_witness :
  wp handle_tcp_egress (λ s' o, o = Ret 3 ∧
    from_be32 (fld Ip_src_addr L3 (skb s')) = 0x0A000001 ∧
    from_be16 (fld Tcp_source L4 (skb s')) = 80 ∧
    bpf_get (LB_CONNECTIONS s') demo_client = Some (demo_mapping (Some TimeWait)))
    (demo_reply FinWait1 FIN_ACK).
Proof.
  eapply wp_mono.
  - apply (tcp_egress_snat (demo_reply FinWait1 FIN_ACK) (demo_mapping (Some FinWait1)));
      [by apply demo_wf_one|by apply demo_reply_packet|done|].
    intros [Hn|[[Hr _]|(st & [= <-] & Hcl & _)]]; [|by vm_compute in Hr|by vm_compute in Hcl].
    apply Hn, demo_conns_room. vm_compute. lia.
  - by intros s' o (Ho & Hs & Hp & _ & _ & _ & _ & Hc & _).
Defined.

Lemma tcp_egress_untracked_witness :
  handle_tcp_egress (demo_empty (tcp_out ACK)) = (demo_empty (tcp_out ACK), Err 3).
Proof. exact (tcp_egress_untracked (demo_empty (tcp_out ACK)) eq_refl). Defined.

(** The reply is an RST. *)
Lemma tcp_nat_roundtrip_witness :
  wp handle_tcp_ingress (λ s1 _, wp handle_tcp_egress (λ s2 _,
      from_be32 (fld Ip_src_addr L3 (skb s2)) = 0x0A000001 ∧
      from_be16 (fld Tcp_source L4 (skb s2)) = 80) (set_skb (tcp_out RST) s1))
    (demo_state (tcp_in SYN) 0 ∅).
Proof.
  assert (wp handle_tcp_ingress (λ s1 _, is_Some (bpf_get (LB_CONNECTIONS s1) demo_client))
    (demo_state (tcp_in SYN) 0 ∅)) as Htr by (vm_compute; by eexists).
  pose proof (tcp_nat_roundtrip (demo_state (tcp_in SYN) 0 ∅) (tcp_out RST)
    ltac:(by apply demo_wf) ltac:(by apply demo_tcp_packet) eq_refl
    ltac:(by apply demo_reply_packet) eq_refl) as Hrt.
  unfold wp in Htr. refine (wp_mono _ _ _ _ (Hrt Htr) _).
  intros s2 o2 (_ & Hs & Hp & _). rewrite Hs, Hp. by vm_compute.
Defined.

Definition demo_icmp (n : nat) : kstate :=
  demo_state (icmp_out n) 1 {[demo_udp_client := demo_mapping None]}.

Lemma icmp_egress_unreachable_witness :
  wp handle_icmp_egress (λ s' o, o = Ret 3 ∧
    from_be32 (fld Ip_src_addr L3 (skb s')) = 0x0A000001 ∧
    csum_valid (drop L4 (skb s')) ∧
    bpf_get (LB_CONNECTIONS s') demo_udp_client = None) (demo_icmp 28).
Proof.
  eapply wp_mono.
  - apply (icmp_egress_unreachable (demo_icmp 28) (demo_mapping None)); [by apply demo_wf_one| | |done|done].
    + by apply (bool_decide_eq_true_1 (Forall (fits 8) (icmp_out 28))).
    + vm_compute. lia.
  - intros s' o (Ho & Hs & _ & _ & _ & _ & Hm & Hc & _). split_and!; [done|done| |done].
    apply Hm; by vm_compute.
Defined.

Lemma icmp_egress_truncated_witness :
  wp handle_icmp_egress (λ s' o, o = Err 0 ∧ bpf_get (LB_CONNECTIONS s') demo_udp_client =
    Some (demo_mapping None)) (demo_icmp 4).
Proof.
  eapply wp_mono.
  - apply (icmp_egress_truncated (demo_icmp 4) (demo_mapping None)); [by apply demo_wf_one| | |done|done].
    + by apply (bool_decide_eq_true_1 (Forall (fits 8) (icmp_out 4))).
    + vm_compute. lia.
  - intros s' o (Ho & -> & _). by split.
Defined.
