(* ===== verification/Classifier.v ===== *)
(** * The classifier entry points

    Models [tc_ingress], [try_tc_ingress], [tc_egress] and [try_tc_egress] of
    [src/dataplane/ebpf/src/main.rs]. *)

From stdpp Require Import base list gmap.
From S2P Require Import Prelude Common Platform Csum PlatformRef TcpState Ebpf Ingress Demo IngressProps Egress EgressProps.

Section classifier.
Context `{NT : NetworkTypes, AE : AyaEbpf, MP : Maps}.

Definition try_tc_ingress : Prog Z :=
  eth_hdr ← ptr_at EthHdr 0;
  ether_type ← rd_field Eth_ether_type eth_hdr;
  if ether_type =? EtherType_Ipv4 then
    ipv4hdr ← ptr_at Ipv4Hdr (hdr_LEN EthHdr);
    proto ← rd_field Ip_proto ipv4hdr;
    if proto =? IpProto_Tcp then handle_tcp_ingress
    else if proto =? IpProto_Udp then handle_udp_ingress
    else mret TC_ACT_PIPE
  else mret TC_ACT_PIPE.

Definition try_tc_egress : Prog Z :=
  eth_hdr ← ptr_at EthHdr 0;
  ether_type ← rd_field Eth_ether_type eth_hdr;
  if ether_type =? EtherType_Ipv4 then
    ipv4hdr ← ptr_at Ipv4Hdr (hdr_LEN EthHdr);
    proto ← rd_field Ip_proto ipv4hdr;
    if proto =? IpProto_Icmp then handle_icmp_egress
    else if proto =? IpProto_Tcp then handle_tcp_egress
    else mret TC_ACT_PIPE
  else mret TC_ACT_PIPE.

(** The value of the [match] is discarded (it is followed by a semicolon);
    the programs cannot fail but can fault. *)
Definition discard_result (m : Prog Z) : Eff kstate Empty_set Z := λ s,
  match m s with
  | (s', Fault) => (s', Fault)
  | (s', Ret ret) => let _ := ret in (s', Ret TC_ACT_OK)
  | (s', Err _) => let _ := TC_ACT_SHOT in (s', Ret TC_ACT_OK)
  end.

Definition tc_ingress : Eff kstate Empty_set Z := discard_result try_tc_ingress.
Definition tc_egress : Eff kstate Empty_set Z := discard_result try_tc_egress.
End classifier.

Section props.
Context `{NT : NetworkTypes, AE : AyaEbpf, MP : Maps}.
Context `{NTS : !NetworkTypesSpec, AES : !AyaEbpfSpec, MS : !MapsSpec}.
Implicit Types s : kstate.

(** The protocol of an IPv4 frame, if it is one (specification). *)
Definition ipv4_proto (p : list Z) : option Z :=
  if decide (take 2 (drop 12 p) = [8; 0] ∧ (34 ≤ length p)%nat) then p !! 23%nat else None.

Lemma le_bytes_0800 l : byte_list l → length l = 2%nat → le_value l = to_be16 0x0800 ↔ l = [8; 0].
Proof.
  intros Hl Hn. split; [|by intros ->].
  intros E. rewrite <-(le_bytes_value l Hl), E, Hn. done.
Qed.

(** Both programs parse the frame the same way; [k] is what
    they do with the protocol. *)
Lemma wp_parse (k : Z → Prog Z) (Q : kstate → outcome Z Z → Prop) s :
  byte_list (skb s) →
  (∀ proto, ipv4_proto (skb s) = Some proto → wp (k proto) Q s) →
  (ipv4_proto (skb s) = None → Q s (Err TC_ACT_OK) ∧ Q s (Ret TC_ACT_PIPE)) →
  wp (eth_hdr ← ptr_at EthHdr 0;
      ether_type ← rd_field Eth_ether_type eth_hdr;
      if ether_type =? EtherType_Ipv4 then
        ipv4hdr ← ptr_at Ipv4Hdr (hdr_LEN EthHdr);
        proto ← rd_field Ip_proto ipv4hdr;
        k proto
      else mret TC_ACT_PIPE) Q s.
Proof.
  intros Hp HO HN. unfold ipv4_proto in *. wp_step. apply wp_ptr_at; intros He.
  2: { apply HN. rewrite decide_False; [done|]. autorewrite with layout in *. lia. }
  do 2 ebpf_step. match goal with R : rd _ _ _ = Some _ |- _ => apply rd_Some in R as [_ ->] end.
  autorewrite with layout in *. cbn [field_size] in *. simpl (0 + 12)%nat.
  assert (length (take 2 (drop 12 (skb s))) = 2%nat) as Hl by (rewrite length_take, length_drop; lia).
  pose proof (le_bytes_0800 (take 2 (drop 12 (skb s))) ltac:(by apply Forall_take, Forall_drop) Hl) as Hty.
  rewrite EtherType_Ipv4_eq. destruct (Z.eqb_spec (le_value (take 2 (drop 12 (skb s)))) (to_be16 0x0800)) as [E|E].
  2: { wp_step. apply HN. rewrite decide_False; [done|]. intros [? _]. naive_solver. }
  wp_step. apply wp_ptr_at; intros Hi; autorewrite with layout in Hi; simpl in Hi.
  2: { apply HN. rewrite decide_False; [done|]. intros [_ ?]. lia. }
  do 2 ebpf_step. match goal with R : rd _ _ _ = Some _ |- _ => apply rd_Some in R as [_ ->] end.
  autorewrite with layout. simpl (14 + 9)%nat. cbn [field_size]. apply HO. rewrite decide_True by naive_solver.
  destruct (lookup_lt_is_Some_2 (skb s) 23) as [b Hb]; [lia|].
  rewrite Hb. f_equal. rewrite (drop_S _ _ _ Hb). unfold le_value. simpl. lia.
Qed.

Lemma wp_self {A} (m : Prog A) (Q : kstate → outcome Z A → Prop) s :
  (∀ s' o, m s = (s', o) → Q s' o) → wp m Q s.
Proof. unfold wp. destruct (m s); simpl; eauto. Qed.

Lemma try_tc_ingress_spec s :
  byte_list (skb s) →
  wp try_tc_ingress (λ s' o,
    (ipv4_proto (skb s) = Some 6 ∧ handle_tcp_ingress s = (s', o)) ∨
    (ipv4_proto (skb s) = Some 17 ∧ handle_udp_ingress s = (s', o)) ∨
    (ipv4_proto (skb s) ≠ Some 6 ∧ ipv4_proto (skb s) ≠ Some 17 ∧ s' = s ∧ o ≠ Fault)) s.
Proof.
  intros Hp. apply (wp_parse (λ proto, if proto =? IpProto_Tcp then handle_tcp_ingress
    else if proto =? IpProto_Udp then handle_udp_ingress else mret TC_ACT_PIPE)); [done| |].
  - intros proto Hpr. rewrite IpProto_Tcp_eq, IpProto_Udp_eq, Hpr.
    destruct (Z.eqb_spec proto 6) as [->|]; [apply wp_self; by left; eauto|].
    destruct (Z.eqb_spec proto 17) as [->|]; [apply wp_self; by right; left; eauto|].
    wp_step. right; right. by split_and!; try congruence.
  - intros Hn. split; right; right; by split_and!; try congruence.
Qed.

Lemma try_tc_egress_spec s :
  byte_list (skb s) →
  wp try_tc_egress (λ s' o,
    (ipv4_proto (skb s) = Some 6 ∧ handle_tcp_egress s = (s', o)) ∨
    (ipv4_proto (skb s) = Some 1 ∧ handle_icmp_egress s = (s', o)) ∨
    (ipv4_proto (skb s) ≠ Some 6 ∧ ipv4_proto (skb s) ≠ Some 1 ∧ s' = s ∧ o ≠ Fault)) s.
Proof.
  intros Hp. apply (wp_parse (λ proto, if proto =? IpProto_Icmp then handle_icmp_egress
    else if proto =? IpProto_Tcp then handle_tcp_egress else mret TC_ACT_PIPE)); [done| |].
  - intros proto Hpr. rewrite IpProto_Tcp_eq, IpProto_Icmp_eq, Hpr.
    destruct (Z.eqb_spec proto 1) as [->|]; [apply wp_self; by right; left; eauto|].
    destruct (Z.eqb_spec proto 6) as [->|]; [apply wp_self; by left; eauto|].
    wp_step. right; right. by split_and!; try congruence.
  - intros Hn. split; right; right; by split_and!; try congruence.
Qed.

(** Dispatch.  On a frame of bytes, an IPv4 packet of protocol 6 (17) is
    handled by the TCP (UDP) ingress handler, one of protocol 6 (1) by the TCP
    (ICMP) egress handler; every other frame passes with the packet and all
    maps exactly as they were. *)
Theorem classifier_dispatch s :
  byte_list (skb s) →
  (if decide (ipv4_proto (skb s) = Some 6) then try_tc_ingress s = handle_tcp_ingress s
   else if decide (ipv4_proto (skb s) = Some 17) then try_tc_ingress s = handle_udp_ingress s
   else (try_tc_ingress s).1 = s) ∧
  (if decide (ipv4_proto (skb s) = Some 6) then try_tc_egress s = handle_tcp_egress s
   else if decide (ipv4_proto (skb s) = Some 1) then try_tc_egress s = handle_icmp_egress s
   else (try_tc_egress s).1 = s).
Proof.
  intros Hp. pose proof (try_tc_ingress_spec s Hp) as HI. pose proof (try_tc_egress_spec s Hp) as HE.
  unfold wp in HI, HE. destruct (try_tc_ingress s), (try_tc_egress s). simpl in *.
  split; repeat case_decide; naive_solver congruence.
Qed.

(** What one run of a program guarantees whatever the packet. *)
Lemma discard_result_ok (m : Prog Z) (P : kstate → Prop) s :
  wp m (λ s' o, o ≠ Fault ∧ P s') s → wp (discard_result m) (λ s' o, o = Ret TC_ACT_OK ∧ P s') s.
Proof. unfold wp, discard_result. destruct (m s) as [s' [r|e|]]; naive_solver. Qed.

Lemma tc_ingress_ok s :
  maps_wf s → byte_list (skb s) →
  wp tc_ingress (λ s' o, o = Ret TC_ACT_OK ∧ maps_wf s' ∧
    BACKENDS s' = BACKENDS s ∧
    ∃ key c, indexes_frame key s s' ∧ conns_frame c s s') s.
Proof.
  intros Hwf Hp. apply discard_result_ok. eapply wp_mono; [by apply try_tc_ingress_spec|].
  intros s' o [[_ E]|[[_ E]|(_ & _ & -> & ?)]].
  - pose proof (wp_run _ _ _ _ _ (tcp_ingress_safe s Hwf) E) as (? & ? & ? & ? & ?). eauto 10.
  - pose proof (wp_run _ _ _ _ _ (udp_ingress_safe s Hwf) E) as (? & ? & ? & ? & ?). eauto 10.
  - split_and!; [done..|]. exists (tcp_vip (skb s)), (tcp_client (skb s)). by split.
Qed.

Lemma tc_egress_ok s :
  maps_wf s → byte_list (skb s) →
  wp tc_egress (λ s' o, o = Ret TC_ACT_OK ∧ maps_wf s' ∧ ∃ c, egress_frame c s s') s.
Proof.
  intros Hwf Hp. apply discard_result_ok. eapply wp_mono; [by apply try_tc_egress_spec|].
  intros s' o [[_ E]|[[_ E]|(_ & _ & -> & ?)]].
  - pose proof (wp_run _ _ _ _ _ (tcp_egress_safe s Hwf) E) as (? & ? & ?). eauto.
  - pose proof (wp_run _ _ _ _ _ (icmp_egress_safe s Hwf) E) as (? & ? & ?). eauto.
  - split_and!; [done..|]. exists (icmp_client (skb s)). apply egress_frame_refl.
Qed.

(** C8: memory safety of the whole data plane program.  For every packet and
    every well-typed map content, neither program reads or writes outside the
    packet or the backend array; each ends with the verdict [TC_ACT_OK], keeps
    the maps well-typed, never changes a backend list, and changes at most one
    index (ingress only) and one connection. *)
Theorem classifier_safe s :
  maps_wf s → byte_list (skb s) →
  wp tc_ingress (λ s' o, o = Ret TC_ACT_OK ∧ maps_wf s' ∧
    BACKENDS s' = BACKENDS s ∧
    ∃ key c, indexes_frame key s s' ∧ conns_frame c s s') s ∧
  wp tc_egress (λ s' o, o = Ret TC_ACT_OK ∧ maps_wf s' ∧ ∃ c, egress_frame c s s') s.
Proof. intros. split; [by apply tc_ingress_ok|by apply tc_egress_ok]. Qed.

End props.

(** ** The theorems at concrete packets *)
#[local] Existing Instance rfc_types.
#[local] Existing Instance ref_ebpf.
#[local] Existing Instance ref_maps.

Lemma demo_bytes p : bool_decide (Forall (fits 8) p) = true → byte_list p.
Proof. by intros ?%bool_decide_eq_true. Qed.

Lemma classifier_dispatch_witness :
  try_tc_ingress (demo_state (tcp_in SYN) 0 ∅) = handle_tcp_ingress (demo_state (tcp_in SYN) 0 ∅) ∧
  try_tc_egress (demo_state (icmp_out 28) 0 ∅) = handle_icmp_egress (demo_state (icmp_out 28) 0 ∅).
Proof.
  split.
  - exact (proj1 (classifier_dispatch (demo_state (tcp_in SYN) 0 ∅) (demo_bytes (tcp_in SYN) eq_refl))).
  - exact (proj2 (classifier_dispatch (demo_state (icmp_out 28) 0 ∅) (demo_bytes (icmp_out 28) eq_refl))).
Defined.

Lemma classifier_safe_witness :
  wp tc_ingress (λ s' o, o = Ret 0 ∧ maps_wf s') (demo_state (tcp_in SYN) 0 ∅).
Proof.
  eapply wp_mono.
  - apply (classifier_safe (demo_state (tcp_in SYN) 0 ∅)); [by apply demo_wf|by apply demo_bytes].
  - by intros s' o (Ho & Hwf & _).
Defined.

(** The verdict of a handler is lost: it asks for a redirect (7), or reports
    an error, and the program answers [TC_ACT_OK]. *)
Example verdict_discarded :
  (try_tc_ingress (demo_state (tcp_in SYN) 0 ∅)).2 = Ret 7 ∧
  (tc_ingress (demo_state (tcp_in SYN) 0 ∅)).2 = Ret TC_ACT_OK ∧
  (try_tc_ingress (demo_empty (tcp_in SYN))).2 = Err TC_ACT_OK ∧
  (tc_ingress (demo_empty (tcp_in SYN))).2 = Ret TC_ACT_OK.
Proof. by vm_compute. Qed.
