(* ===== verification/NetUtils.v ===== *)
(** * Route lookup over netlink

    Models [if_index_for_routing_ip] of
    [src/dataplane/api-server/src/netutils.rs].  The netlink crates and the
    kernel behind the socket are the class [Netlink]: a socket is a value that
    carries what the kernel has to answer, so the function is a pure function
    of the address (the routing table does not change during one request). *)

From stdpp Require Import base list gmap strings pretty.
From S2P Require Import Prelude Common.

(** ** Error values of [anyhow] *)

(** Only [Display] of an [anyhow::Error] is used. *)
Record Error := Msg { to_string : string }.

(** [Ipv4Addr::from(u32)] and its [Display]. *)
Definition octets (ip : Z) : list Z := rev (le_bytes 4 ip).
Definition Ipv4Addr_to_string (ip : Z) : string :=
  match octets ip with
  | [a; b; c; d] => pretty a +:+ "." +:+ pretty b +:+ "." +:+ pretty c +:+ "." +:+ pretty d
  | _ => ""
  end.

(** ** Messages ([netlink_packet_core], [netlink_packet_route]) *)
Inductive AddressFamily := Inet | OtherFamily.
Inductive RouteAttribute :=
| Destination (ip : Z)
| Oif (index : Z)
| OtherAttribute.

Record RouteHeader := MkRouteHeader {
  address_family : AddressFamily;
  flag_lookup_table : bool;
  destination_prefix_length : Z;
  table : Z;
}.
Record RouteMessage := MkRouteMessage { rm_header : RouteHeader; attributes : list RouteAttribute }.
Inductive RouteNetlinkMessage := GetRoute (m : RouteMessage) | NewRoute (m : RouteMessage) | OtherMessage.
Inductive NetlinkPayload := InnerMessage (m : RouteNetlinkMessage) | OtherPayload.
Record NetlinkHeader := MkNetlinkHeader { nl_flags : Z; nl_length : nat }.
Record NetlinkMessage := MkNetlinkMessage { nl_header : NetlinkHeader; payload : NetlinkPayload }.

Class Netlink := {
  NLM_F_REQUEST : Z;
  RT_TABLE_MAIN : Z;
  Socket : Type;
  socket_new : outcome Error Socket;                  (* [Socket::new(NETLINK_ROUTE)] *)
  connect : Socket → outcome Error Socket;            (* to the kernel, address (0, 0) *)
  buffer_len : NetlinkMessage → nat;
  serialize : NetlinkMessage → list Z;
  send : Socket → list Z → outcome Error Socket;
  recv_from_full : Socket → outcome Error (list Z);
  deserialize : list Z → outcome Error NetlinkMessage;
}.

Section netutils.
Context `{NL : Netlink}.

Definition ERR_NO_IFINDEX : string := "no ifindex found to route".
Definition ERR_PACKET_CONSTRUCTION : string := "construct packet failed".

(** [packet.finalize()] records the length of the message in its header. *)
Definition finalize (m : NetlinkMessage) : NetlinkMessage :=
  MkNetlinkMessage (MkNetlinkHeader (nl_flags (nl_header m)) (buffer_len m)) (payload m).

Definition is_Oif (attr : RouteAttribute) : bool :=
  match attr with Oif _ => true | _ => false end.

(** The request for the route to an address. *)
Definition route_request (ip_addr : Z) : NetlinkMessage :=
  let route_header := MkRouteHeader Inet true 32 RT_TABLE_MAIN in
  let route_message := MkRouteMessage route_header [Destination ip_addr] in
  MkNetlinkMessage (MkNetlinkHeader NLM_F_REQUEST 0) (InnerMessage (GetRoute route_message)).

(** A [Result]-returning function without state of its own. *)
Definition lift {A} (r : outcome Error A) : Eff unit Error A := λ s, (s, r).

Definition if_index_for_routing_ip (ip_addr : Z) : outcome Error Z := snd ((
  socket ← lift socket_new;
  socket ← lift (connect socket);
  let packet := finalize (route_request ip_addr) in
  let buf := replicate (nl_length (nl_header packet)) 0 in
  if negb (length buf =? buffer_len packet)%nat then throw (Msg ERR_PACKET_CONSTRUCTION) else
  let buf := serialize packet in
  socket ← lift (send socket buf);
  raw_netlink_message ← lift (recv_from_full socket);
  recv_route_message ← lift (deserialize raw_netlink_message);
  match payload recv_route_message with
  | InnerMessage (NewRoute message) =>
      match List.find is_Oif (attributes message) with
      | Some (Oif idex_if) => mret idex_if
      | _ => throw (Msg (ERR_NO_IFINDEX +:+ " " +:+ Ipv4Addr_to_string ip_addr))
      end
  | _ => throw (Msg (ERR_NO_IFINDEX +:+ " " +:+ Ipv4Addr_to_string ip_addr))
  end) tt).
End netutils.

(** The crates' documented behaviour: they report errors instead of
    panicking, and the size of a message does not depend on its header's fields. *)
Class NetlinkSpec `{Netlink} : Prop := {
  netlink_no_fault : socket_new ≠ Fault ∧ (∀ s, connect s ≠ Fault) ∧ (∀ s b, send s b ≠ Fault) ∧
    (∀ s, recv_from_full s ≠ Fault) ∧ (∀ b, deserialize b ≠ Fault);
  buffer_len_header h h' pl :
    buffer_len (MkNetlinkMessage h pl) = buffer_len (MkNetlinkMessage h' pl);
}.

Section props.
Context `{NL : Netlink, NLS : !NetlinkSpec}.

(** The first [Oif] attribute of a message. *)
Lemma find_Oif pre i post :
  Forall (λ a, is_Oif a = false) pre → List.find is_Oif (pre ++ Oif i :: post) = Some (Oif i).
Proof. induction 1 as [|a pre Ha _ IH]; simpl; [done|]. by rewrite Ha. Qed.

Lemma find_no_Oif l : Forall (λ a, is_Oif a = false) l → List.find is_Oif l = None.
Proof. induction 1 as [|a l Ha _ IH]; simpl; [done|]. by rewrite Ha. Qed.

(** The value of the function once the packet is built. *)
Definition answer_index (ip : Z) (answer : NetlinkMessage) : outcome Error Z :=
  match payload answer with
  | InnerMessage (NewRoute message) =>
      match List.find is_Oif (attributes message) with
      | Some (Oif idex_if) => Ret idex_if
      | _ => Err (Msg (ERR_NO_IFINDEX +:+ " " +:+ Ipv4Addr_to_string ip))
      end
  | _ => Err (Msg (ERR_NO_IFINDEX +:+ " " +:+ Ipv4Addr_to_string ip))
  end.

Lemma if_index_eq ip :
  if_index_for_routing_ip ip = snd ((
    socket ← lift socket_new;
    socket ← lift (connect socket);
    socket ← lift (send socket (serialize (finalize (route_request ip))));
    raw ← lift (recv_from_full socket);
    answer ← lift (deserialize raw);
    lift (answer_index ip answer)) tt).
Proof.
  unfold if_index_for_routing_ip. f_equal. unfold mbind, eff_bind, lift.
  destruct socket_new as [sock| |]; try done. destruct (connect sock) as [sock'| |]; try done.
  assert (buffer_len (finalize (route_request ip)) =
          nl_length (nl_header (finalize (route_request ip)))) as Hlen by apply buffer_len_header.
  rewrite length_replicate, Hlen, Nat.eqb_refl. cbn [negb].
  destruct (send sock' _) as [sock''| |]; try done. destruct (recv_from_full sock'') as [raw| |]; try done.
  destruct (deserialize raw) as [answer| |]; try done. unfold answer_index. repeat case_match; done.
Qed.

Lemma if_index_no_fault ip : if_index_for_routing_ip ip ≠ Fault.
Proof.
  destruct netlink_no_fault as (Hn & Hc & Hs & Hr & Hd). rewrite if_index_eq.
  unfold mbind, eff_bind, lift. destruct socket_new as [sock| |]; try done.
  specialize (Hc sock). destruct (connect sock) as [sock'| |]; try done.
  match goal with |- context [send sock' ?b] => specialize (Hs sock' b); destruct (send sock' b) as [sock''| |] end;
    try done.
  specialize (Hr sock''). destruct (recv_from_full sock'') as [raw| |]; try done.
  specialize (Hd raw). destruct (deserialize raw) as [answer| |]; try done.
  simpl. unfold answer_index. repeat case_match; done.
Qed.

(** C40: the route lookup.  When the kernel answers, it returns the first
    output interface of a route answer; an answer without one is an error that
    names the address.  The length check before sending never fails, and the
    function never panics. *)
Theorem if_index_for_routing_ip_spec ip sock sock' sock'' raw answer :
  socket_new = Ret sock → connect sock = Ret sock' →
  send sock' (serialize (finalize (route_request ip))) = Ret sock'' →
  recv_from_full sock'' = Ret raw → deserialize raw = Ret answer →
  (∀ message pre i post, payload answer = InnerMessage (NewRoute message) →
     attributes message = pre ++ Oif i :: post → Forall (λ a, is_Oif a = false) pre →
     if_index_for_routing_ip ip = Ret i) ∧
  ((∀ message, payload answer = InnerMessage (NewRoute message) →
     Forall (λ a, is_Oif a = false) (attributes message)) →
   if_index_for_routing_ip ip =
     Err (Msg (ERR_NO_IFINDEX +:+ " " +:+ Ipv4Addr_to_string ip))) ∧
  ∀ ip', if_index_for_routing_ip ip' ≠ Fault.
Proof.
  intros Hn Hc Hs Hr Hd. split_and!; [| |intros; apply if_index_no_fault];
    rewrite if_index_eq; unfold mbind, eff_bind, lift; rewrite Hn, Hc, Hs, Hr, Hd; simpl; unfold answer_index.
  - intros message pre i post -> -> Hpre. by rewrite find_Oif.
  - intros Hno. repeat case_match; try done. simplify_eq.
    by rewrite find_no_Oif in * by eauto.
Qed.
End props.

(** ** A concrete kernel: every route leaves through interface 7. *)
Definition one_route : Netlink := {|
  NLM_F_REQUEST := 1; RT_TABLE_MAIN := 254; Socket := unit;
  socket_new := Ret tt; connect _ := Ret tt;
  buffer_len _ := 36%nat; serialize _ := replicate 36 0;
  send _ _ := Ret tt; recv_from_full _ := Ret [];
  deserialize _ := Ret (MkNetlinkMessage (MkNetlinkHeader 0 0)
    (InnerMessage (NewRoute (MkRouteMessage (MkRouteHeader Inet false 32 254)
       [Destination 0; Oif 7; Oif 9]))));
|}.

#[export] Instance one_route_spec : @NetlinkSpec one_route.
Proof. by split. Qed.

Lemma if_index_for_routing_ip_spec_witness :
  if_index_for_routing_ip (NL:=one_route) 0x0A010001 = Ret 7.
Proof.
  apply (proj1 (if_index_for_routing_ip_spec (NL:=one_route) 0x0A010001 tt tt tt [] _
    eq_refl eq_refl eq_refl eq_refl eq_refl) _ [Destination 0] 7 [Oif 9] eq_refl eq_refl).
  by repeat constructor.
Defined.

Example Ipv4Addr_to_string_ex : Ipv4Addr_to_string 0x0A010001 = "10.1.0.1".
Proof. by vm_compute. Qed.
