(* ===== verification/Server.v ===== *)
(** * The API server

    Models [BackendService] of [src/dataplane/api-server/src/server.rs] and
    the messages of its gRPC interface ([backends.rs]).  The service holds the
    three BPF maps of the data plane, so its methods act on the same [kstate]
    as the packet programs (they never touch the packet).  Each map sits
    behind its own mutex; a method is modelled as running alone. *)

From stdpp Require Import base list gmap strings pretty.
From S2P Require Import Prelude Common Platform Csum PlatformRef TcpState Ebpf Ingress Demo NetUtils.

(** ** Messages *)
Record Vip := MkVip { vip_ip : Z; vip_port : Z }.
Record Target := MkTarget { t_daddr : Z; t_dport : Z; t_ifindex : option Z }.
Record Targets := MkTargets { vip : option Vip; targets : list Target }.
Record Confirmation := MkConfirmation { confirmation : string }.
Record PodIp := MkPodIp { pod_ip : Z }.
Record InterfaceIndexConfirmation := MkInterfaceIndexConfirmation { iic_ifindex : Z }.

(** [tonic::Status]; an error never carries the code [Ok]. *)
Inductive Code :=
| Cancelled | Unknown | InvalidArgument | DeadlineExceeded | NotFound | AlreadyExists
| PermissionDenied | ResourceExhausted | FailedPrecondition | Aborted | OutOfRange
| Unimplemented | Internal | Unavailable | DataLoss | Unauthenticated.
Record Status := MkStatus { code : Code; message : string }.

#[export] Instance Code_eq_dec : EqDecision Code.
Proof. solve_decision. Defined.

Definition set_backends `{Maps} (m : backends_map) (s : kstate) : kstate :=
  KState (skb s) m (GATEWAY_INDEXES s) (LB_CONNECTIONS s).

(** [s.contains(needle)] *)
Definition contains (needle s : string) : bool :=
  match String.index 0 needle s with Some _ => true | None => false end.

Section server.
Context `{MP : Maps, AM : !AyaMaps, NL : Netlink}.

(** A call on one of the maps; [?] converts its [MapError]. *)
Definition on_map {M} (get : kstate → M) (set : M → kstate → kstate)
    (f : M → M * outcome MapError unit) : Eff kstate Error unit := λ s,
  let '(m, r) := f (get s) in
  (set m s, match r with
            | Ret u => Ret u
            | Err e => Err (Msg (MapError_to_string e))
            | Fault => Fault
            end).

(** ** Private methods *)
Definition service_insert (key : BackendKey) (bks : BackendList) : Eff kstate Error unit :=
  on_map BACKENDS set_backends (λ m, map_insert m key bks 0).

Definition insert_and_reset_index (key : BackendKey) (bks : BackendList) : Eff kstate Error unit :=
  _ ← service_insert key bks;
  on_map GATEWAY_INDEXES set_indexes (λ m, map_insert m key 0 0).

(** The loop over the collected items. *)
Fixpoint purge_conns (key : BackendKey)
    (items : list (outcome MapError (ClientKey * LoadBalancerMapping))) : Eff kstate Error unit :=
  match items with
  | [] => mret tt
  | item :: items =>
      match item with
      | Ret (client_key, mapping) =>
          _ ← (if decide (backend_key mapping = key)
               then on_map LB_CONNECTIONS set_conns (λ m, map_remove m client_key)
               else mret tt);
          purge_conns key items
      | Err err => throw (Msg (MapError_to_string err))
      | Fault => fault
      end
  end.

Definition service_remove (key : BackendKey) : Eff kstate Error unit :=
  _ ← on_map BACKENDS set_backends (λ m, map_remove m key);
  _ ← on_map GATEWAY_INDEXES set_indexes (λ m, map_remove m key);
  items ← gets (λ s, conns_iter (LB_CONNECTIONS s));
  purge_conns key items.

(** ** RPCs *)
Definition get_interface_index (request : PodIp) : Eff kstate Status InterfaceIndexConfirmation :=
  match if_index_for_routing_ip (pod_ip request) with
  | Ret ifindex => mret (MkInterfaceIndexConfirmation ifindex)
  | Err err => throw (MkStatus Internal (to_string err))
  | Fault => fault
  end.

(** The interface of a target: the one given, or the one its address is routed to. *)
Definition target_ifindex (backend_target : Target) : Eff kstate Status Z :=
  match t_ifindex backend_target with
  | Some ifindex => mret ifindex
  | None =>
      match if_index_for_routing_ip (t_daddr backend_target) with
      | Ret ifindex => mret ifindex
      | Err err => throw (MkStatus Internal ("failed to determine ifindex: " +:+ to_string err))
      | Fault => fault
      end
  end.

(** The loop over the targets; the array and [count] are its variables.
    Indexing the array outside its bounds panics. *)
Fixpoint fill_backends (backend_targets : list Target) (backends : list Backend) (count : Z) :
    Eff kstate Status (list Backend * Z) :=
  match backend_targets with
  | [] => mret (backends, count)
  | backend_target :: backend_targets =>
      ifindex ← target_ifindex backend_target;
      if count <? Z.of_nat BACKENDS_ARRAY_CAPACITY then
        let bk := MkBackend (t_daddr backend_target) (t_dport backend_target) (as_u16 ifindex) in
        if decide (Z.to_nat count < length backends)%nat then
          fill_backends backend_targets (<[Z.to_nat count := bk]> backends) (as_u16 (count + 1))
        else fault
      else throw (MkStatus ResourceExhausted
        "BPF map value capacity exceeded, only 128 backends supported per Gateway")
  end.

(** The [?] and [match] on a result with another error type. *)
Definition on_error {S E E' A} (m : Eff S E A) (h : E → Eff S E' A) : Eff S E' A := λ s,
  match m s with
  | (s', Ret a) => (s', Ret a)
  | (s', Err e) => h e s'
  | (s', Fault) => (s', Fault)
  end.

Definition service_update (request : Targets) : Eff kstate Status Confirmation :=
  match vip request with
  | None => throw (MkStatus InvalidArgument "missing vip ip and port")
  | Some vip =>
      let key := MkBackendKey (vip_ip vip) (vip_port vip) in
      '(backends, count) ←
        fill_backends (targets request) (replicate BACKENDS_ARRAY_CAPACITY Backend_default) 0;
      _ ← on_error (insert_and_reset_index key (MkBackendList backends count))
            (λ err, throw (MkStatus Internal ("failure: " +:+ to_string err)));
      mret (MkConfirmation ("success, vip " +:+ Ipv4Addr_to_string (vip_ip vip) +:+ ":" +:+
        pretty (vip_port vip) +:+ " was updated with " +:+ pretty count +:+ " backends"))
  end.

Definition service_delete (vip : Vip) : Eff kstate Status Confirmation :=
  let key := MkBackendKey (vip_ip vip) (vip_port vip) in
  let addr_ddn := Ipv4Addr_to_string (vip_ip vip) in
  on_error
    (_ ← service_remove key;
     mret (MkConfirmation
       ("success, vip " +:+ addr_ddn +:+ ":" +:+ pretty (vip_port vip) +:+ " was deleted")))
    (λ err,
      if contains "syscall failed with code -1" (to_string err) then
        mret (MkConfirmation
          ("success, vip " +:+ addr_ddn +:+ ":" +:+ pretty (vip_port vip) +:+ " did not exist"))
      else throw (MkStatus Internal ("failure: " +:+ to_string err))).
End server.

(** ** Specification of the target list *)
Section spec.
Context `{MP : Maps, AM : !AyaMaps, NL : Netlink}.

(** The backend of a target, if its interface is known. *)
Definition target_backend (t : Target) : option Backend :=
  (λ i, MkBackend (t_daddr t) (t_dport t) (as_u16 i)) <$>
  match t_ifindex t with
  | Some i => Some i
  | None => match if_index_for_routing_ip (t_daddr t) with Ret i => Some i | _ => None end
  end.

(** The array that holds [bs] and its number of entries. *)
Definition backend_array (bs : list Backend) : list Backend :=
  bs ++ replicate (BACKENDS_ARRAY_CAPACITY - length bs) Backend_default.
Definition backend_list_of (bs : list Backend) : BackendList :=
  MkBackendList (backend_array bs) (Z.of_nat (length bs)).

Definition vip_key (v : Vip) : BackendKey := MkBackendKey (vip_ip v) (vip_port v).

(** An entry of [key] can be written, whatever its value. *)
Definition update_room (key : BackendKey) (s : kstate) : Prop :=
  (∀ bl, (map_insert (Er:=MapError) (BACKENDS s) key bl 0).2 = Ret tt) ∧
  (map_insert (Er:=MapError) (GATEWAY_INDEXES s) key 0 0).2 = Ret tt.

Definition target_wf (t : Target) : Prop := fits 32 (t_daddr t) ∧ fits 32 (t_dport t).
Definition vip_wf (v : Vip) : Prop := fits 32 (vip_ip v) ∧ fits 32 (vip_port v).
End spec.

Section rules.
Context `{MP : Maps, AM : !AyaMaps, AMS : !AyaMapsSpec, NL : Netlink, NLS : !NetlinkSpec}.
Implicit Types s : kstate.

Lemma backend_array_insert bs b :
  (length bs < BACKENDS_ARRAY_CAPACITY)%nat →
  <[length bs := b]> (backend_array bs) = backend_array (bs ++ [b]).
Proof.
  intros Hl. unfold backend_array. rewrite insert_app_r_alt, Nat.sub_diag, length_app by done.
  destruct (BACKENDS_ARRAY_CAPACITY - length bs)%nat as [|n] eqn:En; [lia|].
  replace (BACKENDS_ARRAY_CAPACITY - (length bs + length [b]))%nat with n by (simpl; lia).
  by rewrite <-app_assoc.
Qed.

Lemma length_backend_array bs :
  (length bs ≤ BACKENDS_ARRAY_CAPACITY)%nat → length (backend_array bs) = BACKENDS_ARRAY_CAPACITY.
Proof. intros. unfold backend_array. rewrite length_app, length_replicate. lia. Qed.

Lemma target_ifindex_spec t s :
  (∃ i, target_ifindex t s = (s, Ret i) ∧
        target_backend t = Some (MkBackend (t_daddr t) (t_dport t) (as_u16 i))) ∨
  (∃ msg, target_ifindex t s = (s, Err (MkStatus Internal msg)) ∧ target_backend t = None).
Proof.
  unfold target_ifindex, target_backend. destruct (t_ifindex t) as [i|]; [left; by eexists|].
  pose proof (if_index_no_fault (t_daddr t)).
  destruct (if_index_for_routing_ip (t_daddr t)); [left|right|done]; by eexists.
Qed.

(** The loop computes the list of backends, or fails without an effect.  A
    target is resolved before the capacity is checked. *)
Lemma fill_backends_spec ts bs s :
  (length bs ≤ BACKENDS_ARRAY_CAPACITY)%nat →
  let room := (BACKENDS_ARRAY_CAPACITY - length bs)%nat in
  let run := fill_backends ts (backend_array bs) (Z.of_nat (length bs)) s in
  match mapM target_backend (take (S room) ts) with
  | Some new =>
      if decide (length ts ≤ room)%nat
      then run = (s, Ret (backend_array (bs ++ new), Z.of_nat (length (bs ++ new))))
      else ∃ msg, run = (s, Err (MkStatus ResourceExhausted msg))
  | None => ∃ msg, run = (s, Err (MkStatus Internal msg))
  end.
Proof.
  revert bs. induction ts as [|t ts IH]; intros bs Hl; cbv zeta; cbn [take mapM fill_backends].
  { simpl. by rewrite app_nil_r. }
  unfold mbind, eff_bind, option_bind.
  destruct (target_ifindex_spec t s) as [(i & -> & ->)|(msg & -> & ->)]; [|by eexists].
  set (b := MkBackend _ _ _). destruct (decide (length bs < BACKENDS_ARRAY_CAPACITY)%nat) as [Hlt|Hge].
  - rewrite (proj2 (Z.ltb_lt _ _)), Nat2Z.id, decide_True, backend_array_insert
      by (rewrite ?length_backend_array; lia).
    replace (as_u16 (Z.of_nat (length bs) + 1)) with (Z.of_nat (length (bs ++ [b])))
      by (rewrite wrap_id, length_app; unfold fits, BACKENDS_ARRAY_CAPACITY in *; simpl; lia).
    specialize (IH (bs ++ [b])). rewrite length_app in IH. cbn [length] in IH.
    replace (BACKENDS_ARRAY_CAPACITY - length bs)%nat
      with (S (BACKENDS_ARRAY_CAPACITY - (length bs + 1))) by lia.
    specialize (IH ltac:(lia)). cbv zeta in IH. rewrite length_app in *. cbn [length].
    destruct (mapM target_backend _) as [new|]; simpl; [|done].
    rewrite <-app_assoc in IH. simpl in IH.
    destruct (decide (length ts ≤ _)%nat), (decide (S (length ts) ≤ _)%nat); done || lia.
  - rewrite (proj2 (Z.ltb_ge _ _)) by lia.
    replace (BACKENDS_ARRAY_CAPACITY - length bs)%nat with 0%nat by lia.
    by eexists.
Qed.

(** ** Map calls *)
Lemma wp_on_map_insert `{EqDecision K, MapView M K V, MapOps MapError M K V}
    `{!MapOpsSpec MapError M K V} get set (k : K) (v : V)
    (Q : kstate → outcome Error unit → Prop) s :
  (∀ m, (∀ k', bpf_get m k' = if decide (k' = k) then Some v else bpf_get (get s : M) k') →
        Q (set m s) (Ret tt)) →
  (∀ m e, (map_insert (Er:=MapError) (get s : M) k v 0).2 ≠ Ret tt → map_equiv (get s) m →
          Q (set m s) (Err e)) →
  wp (on_map get set (λ m, map_insert m k v 0)) Q s.
Proof.
  intros HO HE. unfold wp, on_map. pose proof (insert_no_fault (get s : M) k v).
  destruct (map_insert (get s) k v 0) as [m [[]|e|]] eqn:Hi; simpl in *; [..|done].
  - apply HO. by eapply insert_ok.
  - apply HE; [done|]. intros k'. by eapply insert_err.
Qed.

Lemma wp_on_map_remove `{EqDecision K, MapView M K V, MapOps MapError M K V}
    `{!MapOpsSpec MapError M K V} get set (k : K)
    (Q : kstate → outcome Error unit → Prop) s :
  (∀ m, is_Some (bpf_get (get s : M) k) →
        (∀ k', bpf_get m k' = if decide (k' = k) then None else bpf_get (get s : M) k') →
        Q (set m s) (Ret tt)) →
  (∀ m e, bpf_get (get s : M) k = None →
          (map_remove (get s : M) k).2 = Err e → map_equiv (get s) m →
          Q (set m s) (Err (Msg (MapError_to_string e)))) →
  wp (on_map get set (λ m, map_remove m k)) Q s.
Proof.
  intros HO HE. unfold wp, on_map. pose proof (remove_no_fault (get s : M) k).
  destruct (map_remove (get s) k) as [m [[]|e|]] eqn:Hi; simpl in *; [..|done].
  - apply remove_ok in Hi as [? ?]. by apply HO.
  - pose proof (remove_err _ _ _ _ Hi) as [? ?]. by apply HE.
Qed.

Lemma wp_on_error {E E' A} (m : Eff kstate E A) (h : E → Eff kstate E' A)
    (Q : kstate → outcome E' A → Prop) s :
  wp m (λ s' o, match o with
                | Ret a => Q s' (Ret a)
                | Err e => wp (h e) Q s'
                | Fault => Q s' Fault end) s → wp (on_error m h) Q s.
Proof. unfold wp, on_error. by destruct (m s) as [s' [a|e|]]. Qed.

(** What the two insertions leave behind, in the order they are made. *)
Lemma wp_insert_and_reset_index key bks (Q : kstate → outcome Error unit → Prop) s :
  (∀ mb mi,
     (∀ k', bpf_get mb k' = if decide (k' = key) then Some bks else bpf_get (BACKENDS s) k') →
     (∀ k', bpf_get mi k' = if decide (k' = key) then Some 0
                            else bpf_get (GATEWAY_INDEXES s) k') →
     Q (set_indexes mi (set_backends mb s)) (Ret tt)) →
  (∀ mb e, ¬ update_room key s → map_equiv (BACKENDS s) mb → Q (set_backends mb s) (Err e)) →
  (∀ mb mi e, ¬ update_room key s →
     (∀ k', bpf_get mb k' = if decide (k' = key) then Some bks else bpf_get (BACKENDS s) k') →
     map_equiv (GATEWAY_INDEXES s) mi → Q (set_indexes mi (set_backends mb s)) (Err e)) →
  wp (insert_and_reset_index key bks) Q s.
Proof.
  intros HO HB HI. unfold insert_and_reset_index, service_insert. wp_step.
  apply wp_on_map_insert; [|intros m e Hr He; apply HB; [intros [Hb _]; by apply Hr|done]].
  intros mb Hmb. apply wp_on_map_insert; simpl.
  - intros mi Hmi. by apply HO.
  - intros mi e Hr He. apply HI; [intros [_ Hi]; by apply Hr|done|done].
Qed.

(** The loop of [service_remove] removes the connections of [key] that were
    collected; every one of them is still there when its turn comes. *)
Lemma purge_conns_spec key (l : list (ClientKey * LoadBalancerMapping)) s :
  NoDup l.*1 → (∀ c lb, (c, lb) ∈ l → bpf_get (LB_CONNECTIONS s) c = Some lb) →
  wp (purge_conns key (Ret <$> l)) (λ s' o, o = Ret tt ∧
    ∃ m, s' = set_conns m s ∧
    ∀ c, bpf_get m c =
      match bpf_get (LB_CONNECTIONS s) c with
      | Some lb => if decide ((c, lb) ∈ l ∧ backend_key lb = key) then None else Some lb
      | None => None
      end) s.
Proof.
  revert s. induction l as [|[c lb] l IH]; intros s Hnd Hin; cbn [fmap list_fmap purge_conns].
  { wp_step. split; [done|]. exists (LB_CONNECTIONS s). split; [by destruct s|].
    intros c. destruct (bpf_get _ c); [|done]. rewrite decide_False; [done|].
    intros [?%elem_of_nil _]. done. }
  apply NoDup_cons in Hnd as [Hc Hnd].
  assert (∀ lb', (c, lb') ∉ l) as Hcl.
  { intros lb' Hx. apply Hc. by apply (list_elem_of_fmap_2 fst) in Hx. }
  wp_step. destruct (decide (backend_key lb = key)) as [Hk|Hk].
  - apply wp_on_map_remove; [|intros m e Hn; by rewrite (Hin c lb) in Hn by constructor].
    intros m _ Hm. eapply wp_mono; [apply (IH (set_conns m s)); [done|]|].
    + intros c' lb' Hx. simpl. rewrite Hm, decide_False; [apply Hin; by constructor|].
      intros ->. by eapply Hcl.
    + intros s' o (-> & m' & -> & Hm'). split; [done|]. exists m'. split; [done|]. simpl in Hm'.
      intros c'. rewrite Hm', Hm. destruct (decide (c' = c)) as [->|Hne].
      * rewrite (Hin c lb) by constructor. rewrite decide_True; [done|]. by split; [constructor|].
      * destruct (bpf_get (LB_CONNECTIONS s) c') as [lb'|]; [|done].
        apply decide_ext. rewrite elem_of_cons. naive_solver.
  - wp_step. eapply wp_mono; [apply (IH s); [done|]|].
    + intros c' lb' Hx. apply Hin. by constructor.
    + intros s' o (-> & m' & -> & Hm'). split; [done|]. exists m'. split; [done|].
      intros c'. rewrite Hm'. destruct (bpf_get (LB_CONNECTIONS s) c') as [lb'|] eqn:Hg; [|done].
      apply decide_ext. rewrite elem_of_cons. naive_solver.
Qed.
End rules.
