(* ===== verification/ServerProps.v ===== *)
(** * Properties of the API server

    Requests that are rejected leave no trace; [update] installs exactly the
    requested backends and restarts the rotation; [delete] forgets a Gateway
    and its connections and nothing else. *)

From stdpp Require Import base list gmap strings pretty.
From S2P Require Import Prelude Common Platform Csum PlatformRef TcpState Ebpf Ingress Demo NetUtils Server.

Section rules.
Context `{MP : Maps, AM : !AyaMaps, AMS : !AyaMapsSpec, NL : Netlink, NLS : !NetlinkSpec}.
Implicit Types s : kstate.

(** Every way [service_update] can end. *)
Lemma wp_service_update request (Q : kstate → outcome Status Confirmation → Prop) s :
  let cap := BACKENDS_ARRAY_CAPACITY in
  let ts := targets request in
  (vip request = None → Q s (Err (MkStatus InvalidArgument "missing vip ip and port"))) →
  (∀ v msg, vip request = Some v → mapM target_backend (take (S cap) ts) = None →
     Q s (Err (MkStatus Internal msg))) →
  (∀ v bs msg, vip request = Some v → mapM target_backend (take (S cap) ts) = Some bs →
     (cap < length ts)%nat → Q s (Err (MkStatus ResourceExhausted msg))) →
  (∀ v bs, vip request = Some v → mapM target_backend ts = Some bs → (length ts ≤ cap)%nat →
     let key := vip_key v in
     (∀ mb mi,
        (∀ k', bpf_get mb k' = if decide (k' = key) then Some (backend_list_of bs)
                               else bpf_get (BACKENDS s) k') →
        (∀ k', bpf_get mi k' = if decide (k' = key) then Some 0
                               else bpf_get (GATEWAY_INDEXES s) k') →
        Q (set_indexes mi (set_backends mb s))
          (Ret (MkConfirmation ("success, vip " +:+ Ipv4Addr_to_string (vip_ip v) +:+ ":" +:+
             pretty (vip_port v) +:+ " was updated with " +:+ pretty (Z.of_nat (length ts)) +:+
             " backends")))) ∧
     (∀ mb msg, ¬ update_room key s → map_equiv (BACKENDS s) mb →
        Q (set_backends mb s) (Err (MkStatus Internal msg))) ∧
     (∀ mb mi msg, ¬ update_room key s →
        (∀ k', bpf_get mb k' = if decide (k' = key) then Some (backend_list_of bs)
                               else bpf_get (BACKENDS s) k') →
        map_equiv (GATEWAY_INDEXES s) mi →
        Q (set_indexes mi (set_backends mb s)) (Err (MkStatus Internal msg)))) →
  wp (service_update request) Q s.
Proof.
  intros cap ts HN HR HC HO. unfold service_update. destruct (vip request) as [v|]; [|by apply HN].
  wp_step. fold ts. clearbody ts. pose proof (fill_backends_spec ts [] s) as Hf. cbn [length] in Hf.
  specialize (Hf ltac:(lia)). cbv zeta in Hf. rewrite Nat.sub_0_r in Hf. fold cap in Hf.
  change (backend_array []) with (replicate BACKENDS_ARRAY_CAPACITY Backend_default) in Hf.
  change (Z.of_nat 0) with 0 in Hf.
  destruct (mapM target_backend (take (S cap) ts)) as [bs|] eqn:Hm; cycle 1.
  { destruct Hf as [msg Hf]. unfold wp. rewrite Hf. simpl. by eapply HR. }
  destruct (decide (length ts ≤ cap)%nat); cycle 1.
  { destruct Hf as [msg Hf]. unfold wp. rewrite Hf. simpl. eapply HC; [done|done|lia]. }
  rewrite take_ge in Hm by lia. destruct (HO v bs eq_refl Hm ltac:(done)) as (HO1 & HO2 & HO3).
  assert (length bs = length ts) as Hlen by (by eapply length_mapM in Hm).
  unfold wp at 1. rewrite Hf. cbn [fst snd app]. wp_step. apply wp_on_error, wp_insert_and_reset_index.
  - intros mb mi Hb Hi. wp_step. rewrite Hlen. by apply HO1.
  - intros mb e Hr He. wp_step. by apply HO2.
  - intros mb mi e Hr Hb Hi. wp_step. by apply HO3.
Qed.

(** The list [update] installs is well-typed. *)
Lemma backend_list_of_wf ts bs :
  Forall target_wf ts → mapM target_backend ts = Some bs →
  (length ts ≤ BACKENDS_ARRAY_CAPACITY)%nat → backend_list_wf (backend_list_of bs).
Proof.
  intros Hts Hbs Hlen.
  assert (length bs = length ts) as Hl by (by eapply length_mapM in Hbs).
  split_and!; simpl; [apply length_backend_array; lia|lia|lia|].
  apply Forall_app. split; [|apply Forall_replicate, Backend_default_wf].
  eapply mapM_Some_1, Forall2_Forall_r in Hbs; [done|].
  eapply Forall_impl; [done|]. intros t [Ha Hd] b Hb. unfold target_backend in Hb.
  apply fmap_Some in Hb as (i & _ & ->). split_and!; [done|done|by apply wrap_fits].
Qed.

(** Iterating over the connections meets no error. *)
Definition iter_ok (m : conns_map) : Prop := ∃ l, conns_iter m = Ret <$> l.

(** The connections without those of [key]. *)
Definition purged (key : BackendKey) (M m : conns_map) : Prop :=
  ∀ c, bpf_get m c = match bpf_get M c with
                     | Some lb => if decide (backend_key lb = key) then None else Some lb
                     | None => None
                     end.

Lemma wp_purge_conns key s :
  iter_ok (LB_CONNECTIONS s) →
  wp (purge_conns key (conns_iter (LB_CONNECTIONS s))) (λ s' o, o = Ret tt ∧
    ∃ m, s' = set_conns m s ∧ purged key (LB_CONNECTIONS s) m) s.
Proof.
  intros [l Hl]. rewrite Hl. eapply wp_mono.
  - apply purge_conns_spec; [by eapply conns_iter_nodup|]. intros c lb Hin.
    apply conns_iter_elem. rewrite Hl. by apply (list_elem_of_fmap_2 Ret).
  - intros s' o (-> & m & -> & Hm). split; [done|]. exists m. split; [done|]. intros c. rewrite Hm.
    destruct (bpf_get _ c) as [lb|] eqn:Hc; [|done]. apply decide_ext.
    pose proof (conns_iter_complete _ _ _ _ Hl Hc). naive_solver.
Qed.

(** In general the loop may stop early; it only ever removes connections of [key]. *)
Lemma wp_purge_conns_any key items (Q : kstate → outcome Error unit → Prop) s :
  Fault ∉ items → (∀ c lb, Ret (c, lb) ∈ items → bpf_get (LB_CONNECTIONS s) c = Some lb) →
  (∀ m o, o ≠ Fault →
     (∀ c, bpf_get m c = bpf_get (LB_CONNECTIONS s) c ∨
           (bpf_get m c = None ∧ ∃ lb, bpf_get (LB_CONNECTIONS s) c = Some lb ∧ backend_key lb = key)) →
     Q (set_conns m s) o) →
  wp (purge_conns key items) Q s.
Proof.
  intros Hnf Hin HQ.
  enough (∀ m0, (∀ c, bpf_get m0 c = bpf_get (LB_CONNECTIONS s) c ∨
     (bpf_get m0 c = None ∧ ∃ lb, bpf_get (LB_CONNECTIONS s) c = Some lb ∧ backend_key lb = key)) →
     wp (purge_conns key items) Q (set_conns m0 s)) as Hgen.
  { replace s with (set_conns (LB_CONNECTIONS s) s) at 1 by (by destruct s). apply Hgen. by left. }
  induction items as [|item items IH]; intros m0 Hm0; cbn [purge_conns]; [by wp_step; apply HQ|].
  assert (∀ m0, (∀ c, bpf_get m0 c = bpf_get (LB_CONNECTIONS s) c ∨
     (bpf_get m0 c = None ∧ ∃ lb, bpf_get (LB_CONNECTIONS s) c = Some lb ∧ backend_key lb = key)) →
     wp (purge_conns key items) Q (set_conns m0 s)) as IH'.
  { apply IH; [set_solver|]. intros c lb Hx. apply Hin. by constructor. }
  destruct item as [[c lb]|e|]; [|wp_step; by apply HQ|set_solver].
  specialize (Hin c lb ltac:(constructor)). wp_step.
  destruct (decide (backend_key lb = key)) as [Hk|Hk]; [|wp_step; by apply IH'].
  apply wp_on_map_remove.
  - intros m _ Hm. change (set_conns m (set_conns m0 s)) with (set_conns m s). apply IH'.
    intros c'. rewrite Hm. destruct (decide (c' = c)) as [->|]; [right; eauto|apply Hm0].
  - intros m e _ _ He. change (set_conns m (set_conns m0 s)) with (set_conns m s). apply HQ; [done|].
    intros c'. rewrite (He c'). apply Hm0.
Qed.

(** Every way [service_delete] can end; the result when a removal fails
    depends on the text of the error. *)
Definition delete_failed (v : Vip) (e : Error) : outcome Status Confirmation :=
  if contains "syscall failed with code -1" (to_string e) then
    Ret (MkConfirmation ("success, vip " +:+ Ipv4Addr_to_string (vip_ip v) +:+ ":" +:+
           pretty (vip_port v) +:+ " did not exist"))
  else Err (MkStatus Internal ("failure: " +:+ to_string e)).

Definition delete_done (v : Vip) : outcome Status Confirmation :=
  Ret (MkConfirmation ("success, vip " +:+ Ipv4Addr_to_string (vip_ip v) +:+ ":" +:+
         pretty (vip_port v) +:+ " was deleted")).

Lemma wp_service_delete v (Q : kstate → outcome Status Confirmation → Prop) s :
  let key := vip_key v in
  (∀ mb e, bpf_get (BACKENDS s) key = None → (map_remove (BACKENDS s) key).2 = Err e →
     map_equiv (BACKENDS s) mb →
     Q (set_backends mb s) (delete_failed v (Msg (MapError_to_string e)))) →
  (∀ mb, is_Some (bpf_get (BACKENDS s) key) →
     (∀ k', bpf_get mb k' = if decide (k' = key) then None else bpf_get (BACKENDS s) k') →
     (∀ mi e, bpf_get (GATEWAY_INDEXES s) key = None →
        (map_remove (GATEWAY_INDEXES s) key).2 = Err e → map_equiv (GATEWAY_INDEXES s) mi →
        Q (set_indexes mi (set_backends mb s)) (delete_failed v (Msg (MapError_to_string e)))) ∧
     (∀ mi, is_Some (bpf_get (GATEWAY_INDEXES s) key) →
        (∀ k', bpf_get mi k' = if decide (k' = key) then None else bpf_get (GATEWAY_INDEXES s) k') →
        wp (purge_conns key (conns_iter (LB_CONNECTIONS s))) (λ s' o,
          match o with
          | Ret _ => Q s' (delete_done v)
          | Err e => Q s' (delete_failed v e)
          | Fault => Q s' Fault
          end) (set_indexes mi (set_backends mb s)))) →
  wp (service_delete v) Q s.
Proof.
  intros key HN HS. unfold service_delete, service_remove. change (MkBackendKey _ _) with key.
  apply wp_on_error. wp_step. wp_step.
  assert (∀ e s', Q s' (delete_failed v e) → wp (if contains "syscall failed with code -1" (to_string e)
    then mret (MkConfirmation ("success, vip " +:+ Ipv4Addr_to_string (vip_ip v) +:+ ":" +:+
           pretty (vip_port v) +:+ " did not exist"))
    else throw (MkStatus Internal ("failure: " +:+ to_string e))) Q s') as Hfail.
  { intros e s'. unfold delete_failed. by case_match. }
  apply wp_on_map_remove; [|intros mb e Hn He Hm; by apply Hfail, HN].
  intros mb Hb Hmb. destruct (HS mb Hb Hmb) as [HI HP]. wp_step.
  apply wp_on_map_remove; [|intros mi e Hn He Hm; by apply Hfail, HI].
  intros mi Hi Hmi. wp_step. wp_step. eapply wp_mono; [by apply (HP mi)|].
  intros s' [[]|e|] HQ; [by wp_step|by apply Hfail|done].
Qed.
End rules.

Section props.
Context `{MP : Maps, AM : !AyaMaps, AMS : !AyaMapsSpec, NL : Netlink, NLS : !NetlinkSpec}.
Implicit Types s : kstate.

(** ** Safety *)
Lemma maps_wf_backends mb s :
  maps_wf s → (∀ k bl, bpf_get mb k = Some bl → backend_list_wf bl) → maps_wf (set_backends mb s).
Proof. intros (?&?&?) ?. by split_and!. Qed.

Lemma update_safe request v s :
  maps_wf s → vip request = Some v → Forall target_wf (targets request) →
  wp (service_update request) (λ s' o, o ≠ Fault ∧ maps_wf s' ∧ skb s' = skb s ∧
    LB_CONNECTIONS s' = LB_CONNECTIONS s ∧
    ∀ k, k ≠ vip_key v → bpf_get (BACKENDS s') k = bpf_get (BACKENDS s) k ∧
                         bpf_get (GATEWAY_INDEXES s') k = bpf_get (GATEWAY_INDEXES s) k) s.
Proof.
  intros Hwf Hv Hts. pose proof Hwf as (Hwb & Hwi & Hwc).
  apply wp_service_update; [congruence|done|done|]. intros v' bs Hv' Hbs Hlen. simplify_eq. cbv zeta.
  pose proof (backend_list_of_wf _ _ Hts Hbs Hlen) as Hbl.
  assert (∀ mb, (∀ k', bpf_get mb k' = if decide (k' = vip_key v) then Some (backend_list_of bs)
                       else bpf_get (BACKENDS s) k') → maps_wf (set_backends mb s)) as Hmbwf.
  { intros mb Hmb. apply maps_wf_backends; [done|]. intros k bl. rewrite Hmb.
    case_decide; [naive_solver|apply Hwb]. }
  split_and!.
  - intros mb mi Hmb Hmi. split_and!; [done|..|done|done|].
    + apply maps_wf_set_indexes; [by apply Hmbwf|]. intros k i. rewrite Hmi.
      case_decide; [by intros [= <-]|apply Hwi].
    + intros k Hk. simpl. by rewrite Hmb, Hmi, !decide_False.
  - intros mb msg _ Hmb. split_and!; [done| |done|done|intros k _; simpl; by rewrite (Hmb k)].
    apply maps_wf_backends; [done|]. intros k bl. rewrite (Hmb k). apply Hwb.
  - intros mb mi msg _ Hmb Hmi. split_and!; [done|..|done|done|].
    + apply maps_wf_set_indexes; [by apply Hmbwf|]. intros k i. rewrite (Hmi k). apply Hwi.
    + intros k Hk. simpl. by rewrite Hmb, (Hmi k), decide_False.
Qed.

Lemma delete_safe v s :
  maps_wf s →
  wp (service_delete v) (λ s' o, o ≠ Fault ∧ maps_wf s' ∧ skb s' = skb s ∧
    (∀ k, k ≠ vip_key v → bpf_get (BACKENDS s') k = bpf_get (BACKENDS s) k ∧
                          bpf_get (GATEWAY_INDEXES s') k = bpf_get (GATEWAY_INDEXES s) k) ∧
    (∀ c, bpf_get (LB_CONNECTIONS s') c = bpf_get (LB_CONNECTIONS s) c ∨
          (bpf_get (LB_CONNECTIONS s') c = None ∧
           ∃ lb, bpf_get (LB_CONNECTIONS s) c = Some lb ∧ backend_key lb = vip_key v))) s.
Proof.
  intros Hwf. pose proof Hwf as (Hwb & Hwi & Hwc).
  assert (∀ e, delete_failed v e ≠ Fault) as Hnf by (intros e; unfold delete_failed; by case_match).
  apply wp_service_delete.
  { intros mb e _ _ Hmb. split_and!; [done| |done|intros k _; simpl; by rewrite (Hmb k)|by left].
    apply maps_wf_backends; [done|]. intros k bl. rewrite (Hmb k). apply Hwb. }
  intros mb _ Hmb.
  assert (maps_wf (set_backends mb s)) as Hwf1.
  { apply maps_wf_backends; [done|]. intros k bl. rewrite Hmb. case_decide; [done|apply Hwb]. }
  split.
  - intros mi e _ _ Hmi. split_and!; [done| |done| |by left].
    + apply maps_wf_set_indexes; [done|]. intros k i. rewrite (Hmi k). apply Hwi.
    + intros k Hk. simpl. by rewrite Hmb, (Hmi k), decide_False.
  - intros mi _ Hmi.
    assert (maps_wf (set_indexes mi (set_backends mb s))) as Hwf2.
    { apply maps_wf_set_indexes; [done|]. intros k i. rewrite Hmi. case_decide; [done|apply Hwi]. }
    apply wp_purge_conns_any; [apply conns_iter_no_fault|apply conns_iter_elem|].
    intros m o Ho Hm.
    assert (maps_wf (set_conns m (set_indexes mi (set_backends mb s)))) as Hwf3.
    { apply maps_wf_set_conns; [done|]. intros c lb Hc. destruct (Hm c) as [Heq|[Hn _]]; [|congruence].
      apply (Hwc c). simpl in Heq. congruence. }
    assert (∀ k, k ≠ vip_key v → bpf_get mb k = bpf_get (BACKENDS s) k ∧
                                 bpf_get mi k = bpf_get (GATEWAY_INDEXES s) k) as Hk.
    { intros k Hk. by rewrite Hmb, Hmi, !decide_False. }
    destruct o as [[]|e|]; [by split_and!|by split_and!|done].
Qed.

(** C16: [update] installs what was requested.  A request with a VIP, at most
    128 targets and a known interface for each, when the maps accept the
    writes: the Gateway's list holds exactly the targets in order (interfaces
    truncated to 16 bits), its index restarts at 0, no other Gateway and no
    connection is touched, and the answer names the VIP and the count. *)
Theorem update_establishes request v bs s :
  vip request = Some v → mapM target_backend (targets request) = Some bs →
  (length (targets request) ≤ 128)%nat → update_room (vip_key v) s →
  wp (service_update request) (λ s' o,
    o = Ret (MkConfirmation ("success, vip " +:+ Ipv4Addr_to_string (vip_ip v) +:+ ":" +:+
          pretty (vip_port v) +:+ " was updated with " +:+
          pretty (Z.of_nat (length (targets request))) +:+ " backends")) ∧
    (∃ bl, bpf_get (BACKENDS s') (vip_key v) = Some bl ∧
           backends_len bl = Z.of_nat (length (targets request)) ∧
           take (length bs) (backends bl) = bs ∧ length (backends bl) = 128%nat) ∧
    bpf_get (GATEWAY_INDEXES s') (vip_key v) = Some 0 ∧
    (∀ k, k ≠ vip_key v → bpf_get (BACKENDS s') k = bpf_get (BACKENDS s) k ∧
                          bpf_get (GATEWAY_INDEXES s') k = bpf_get (GATEWAY_INDEXES s) k) ∧
    LB_CONNECTIONS s' = LB_CONNECTIONS s) s.
Proof.
  intros Hv Hbs Hlen Hroom. apply wp_service_update; try congruence.
  - intros v' msg _. rewrite take_ge by (unfold BACKENDS_ARRAY_CAPACITY; lia). congruence.
  - intros v' bs' msg _ _ Hc. unfold BACKENDS_ARRAY_CAPACITY in Hc. lia.
  - intros v' bs' Hv' Hbs' _. simplify_eq. split_and!; [|done..]. intros mb mi Hmb Hmi.
    assert (length bs = length (targets request)) as Hl by (by eapply length_mapM in Hbs).
    split_and!; [done| |simpl; by rewrite Hmi, decide_True| |done].
    + exists (backend_list_of bs). simpl. rewrite Hmb, decide_True by done.
      split_and!; [done|by rewrite Hl|unfold backend_array; by apply take_app_length|].
      apply length_backend_array. unfold BACKENDS_ARRAY_CAPACITY. lia.
    + intros k Hk. simpl. by rewrite Hmb, Hmi, !decide_False.
Qed.

(** C23: rejected requests leave no trace.  Without a VIP, with a target whose
    interface cannot be determined among the first 129, or with more than 128
    targets, [update] fails with the corresponding status and no map changes
    at all. *)
Theorem update_rejected request s :
  match vip request, mapM target_backend (take 129 (targets request)) with
  | None, _ => service_update request s =
      (s, Err (MkStatus InvalidArgument "missing vip ip and port"))
  | Some _, None => ∃ msg, service_update request s = (s, Err (MkStatus Internal msg))
  | Some _, Some _ => (128 < length (targets request))%nat →
      ∃ msg, service_update request s = (s, Err (MkStatus ResourceExhausted msg))
  end.
Proof.
  unfold service_update. destruct (vip request) as [v|]; [|done].
  pose proof (fill_backends_spec (targets request) [] s ltac:(simpl; lia)) as Hf. cbv zeta in Hf.
  change (S (BACKENDS_ARRAY_CAPACITY - _)) with 129%nat in Hf.
  destruct (mapM target_backend (take 129 (targets request))) as [bs|].
  - intros Hlen. rewrite decide_False in Hf by (unfold BACKENDS_ARRAY_CAPACITY; simpl; lia).
    destruct Hf as [msg Hf]. exists msg. by apply bind_Err.
  - destruct Hf as [msg Hf]. exists msg. by apply bind_Err.
Qed.

(** C17: [delete] forgets the Gateway and its connections, and nothing else. *)
Theorem delete_purges v s :
  is_Some (bpf_get (BACKENDS s) (vip_key v)) →
  is_Some (bpf_get (GATEWAY_INDEXES s) (vip_key v)) → iter_ok (LB_CONNECTIONS s) →
  wp (service_delete v) (λ s' o, o = delete_done v ∧
    (∀ k, bpf_get (BACKENDS s') k =
       if decide (k = vip_key v) then None else bpf_get (BACKENDS s) k) ∧
    (∀ k, bpf_get (GATEWAY_INDEXES s') k =
       if decide (k = vip_key v) then None else bpf_get (GATEWAY_INDEXES s) k) ∧
    (∀ c lb, bpf_get (LB_CONNECTIONS s') c = Some lb ↔
       bpf_get (LB_CONNECTIONS s) c = Some lb ∧ backend_key lb ≠ vip_key v)) s.
Proof.
  intros Hb Hi Hit. apply wp_service_delete.
  { intros mb e Hn. by rewrite Hn in Hb; destruct Hb. }
  intros mb _ Hmb. split; [intros mi e Hn; by rewrite Hn in Hi; destruct Hi|].
  intros mi _ Hmi. eapply wp_mono; [by apply (wp_purge_conns (vip_key v) (set_indexes mi (set_backends mb s)))|].
  intros s' o (-> & m & -> & Hm). split_and!; [done|done|done|]. intros c lb. simpl. rewrite (Hm c). simpl.
  destruct (bpf_get (LB_CONNECTIONS s) c) as [lb'|]; [case_decide; naive_solver|naive_solver].
Qed.

(** The service is safe.  For requests of [u32]s and whatever the map
    calls answer, no RPC panics, the maps stay well-typed and the packet is not
    touched; [update] changes at most the Gateway it names and no connection;
    [delete] changes at most the Gateway it names and removes only connections
    of that Gateway. *)
Theorem service_safe s :
  maps_wf s →
  (∀ request v, vip request = Some v → Forall target_wf (targets request) →
     wp (service_update request) (λ s' o, o ≠ Fault ∧ maps_wf s' ∧ skb s' = skb s ∧
       LB_CONNECTIONS s' = LB_CONNECTIONS s ∧
       ∀ k, k ≠ vip_key v → bpf_get (BACKENDS s') k = bpf_get (BACKENDS s) k ∧
                            bpf_get (GATEWAY_INDEXES s') k = bpf_get (GATEWAY_INDEXES s) k) s) ∧
  (∀ v, wp (service_delete v) (λ s' o, o ≠ Fault ∧ maps_wf s' ∧ skb s' = skb s ∧
       (∀ k, k ≠ vip_key v → bpf_get (BACKENDS s') k = bpf_get (BACKENDS s) k ∧
                             bpf_get (GATEWAY_INDEXES s') k = bpf_get (GATEWAY_INDEXES s) k) ∧
       (∀ c, bpf_get (LB_CONNECTIONS s') c = bpf_get (LB_CONNECTIONS s) c ∨
             (bpf_get (LB_CONNECTIONS s') c = None ∧
              ∃ lb, bpf_get (LB_CONNECTIONS s) c = Some lb ∧ backend_key lb = vip_key v))) s).
Proof.
  intros Hwf. split.
  - intros request v Hv Hts. by apply update_safe.
  - intros v. by apply delete_safe.
Qed.

(** Deleting an unknown Gateway changes nothing; the answer is a success
    exactly when the text of the map error contains the expected words. *)
Theorem delete_missing v s :
  bpf_get (BACKENDS s) (vip_key v) = None →
  wp (service_delete v) (λ s' o, same_maps s s' ∧ skb s' = skb s ∧
    ∃ e, (map_remove (BACKENDS s) (vip_key v)).2 = Err e ∧
    if contains "syscall failed with code -1" (MapError_to_string e)
    then o = Ret (MkConfirmation ("success, vip " +:+ Ipv4Addr_to_string (vip_ip v) +:+ ":" +:+
                    pretty (vip_port v) +:+ " did not exist"))
    else o = Err (MkStatus Internal ("failure: " +:+ MapError_to_string e))) s.
Proof.
  intros Hn. apply wp_service_delete; [|intros mb [? ?]; congruence].
  intros mb e _ He Hm. split_and!; [by split_and!|done|]. exists e. split; [done|].
  unfold delete_failed. simpl. by case_match.
Qed.

(** The answer for an unknown Gateway does not mean that nothing happened.  A
    Gateway that has backends but no index (an earlier [update] failed between
    its two writes) loses its backends, its connections stay in the map, and
    the answer is the same as for an unknown Gateway. *)
Theorem delete_without_index v s :
  is_Some (bpf_get (BACKENDS s) (vip_key v)) →
  bpf_get (GATEWAY_INDEXES s) (vip_key v) = None →
  wp (service_delete v) (λ s' o,
    bpf_get (BACKENDS s') (vip_key v) = None ∧ LB_CONNECTIONS s' = LB_CONNECTIONS s ∧
    ∃ e, (map_remove (GATEWAY_INDEXES s) (vip_key v)).2 = Err e ∧
         o = delete_failed v (Msg (MapError_to_string e))) s.
Proof.
  intros Hb Hi. apply wp_service_delete; [intros mb e Hn; by rewrite Hn in Hb; destruct Hb|].
  intros mb _ Hmb. split; [|intros mi [? ?]; congruence]. intros mi e _ He Hm.
  split_and!; [simpl; by rewrite Hmb, decide_True|done|by exists e].
Qed.

(** C28: [delete] undoes [update].  For a Gateway that is not configured and
    has no connections, an accepted [update] followed by [delete] answers
    "was deleted" and leaves all maps as they were before. *)
Theorem update_delete_roundtrip request v bs s :
  vip request = Some v → mapM target_backend (targets request) = Some bs →
  (length (targets request) ≤ 128)%nat → update_room (vip_key v) s →
  bpf_get (BACKENDS s) (vip_key v) = None → bpf_get (GATEWAY_INDEXES s) (vip_key v) = None →
  (∀ c lb, bpf_get (LB_CONNECTIONS s) c = Some lb → backend_key lb ≠ vip_key v) →
  iter_ok (LB_CONNECTIONS s) →
  wp (service_update request) (λ s1 o1, (∃ c, o1 = Ret c) ∧
    wp (service_delete v) (λ s2 o2, o2 = delete_done v ∧ same_maps s s2) s1) s.
Proof.
  intros Hv Hbs Hlen Hroom Hb Hi Hc Hit. apply wp_service_update; try congruence.
  - intros v' msg _. rewrite take_ge by (unfold BACKENDS_ARRAY_CAPACITY; lia). congruence.
  - intros v' bs' msg _ _ Hcap. unfold BACKENDS_ARRAY_CAPACITY in Hcap. lia.
  - intros v' bs' Hv' Hbs' _. simplify_eq. split_and!; [|done..]. intros mb mi Hmb Hmi.
    split; [by eexists|]. apply wp_service_delete; simpl.
    { intros mb' e. by rewrite Hmb, decide_True. }
    intros mb' _ Hmb'. split; [intros mi' e; by rewrite Hmi, decide_True|]. intros mi' _ Hmi'.
    eapply wp_mono; [by apply (wp_purge_conns (vip_key v) (set_indexes mi' (set_backends mb' s)))|].
    intros s' o (-> & m & -> & Hm). split; [done|]. split_and!; intros k; simpl.
    + rewrite Hmb', Hmb. case_decide; by subst.
    + rewrite Hmi', Hmi. case_decide; by subst.
    + rewrite (Hm k). simpl. destruct (bpf_get (LB_CONNECTIONS s) k) eqn:Hk; [|done].
      rewrite decide_False; [done|by eapply Hc].
Qed.
End props.

(** ** The theorems at concrete requests *)
#[local] Existing Instance rfc_types.
#[local] Existing Instance ref_ebpf.
#[local] Existing Instance ref_maps.
#[local] Existing Instance ref_user_maps.
#[local] Existing Instance one_route.

Definition demo_gateway : Vip := MkVip 0x0A000001 80.
Definition demo_targets : list Target :=
  [MkTarget 0x0A010001 8080 (Some 3); MkTarget 0x0A010002 8081 None].
Definition demo_request : Targets := MkTargets (Some demo_gateway) demo_targets.
(** The second backend's interface comes from the route lookup. *)
Definition demo_installed : list Backend := [demo_b0; MkBackend 0x0A010002 8081 7].

Lemma demo_iter_ok conns : iter_ok (LB_CONNECTIONS (demo_state [] 0 conns)).
Proof. by eexists. Qed.

Lemma update_establishes_witness :
  wp (service_update demo_request) (λ s' o,
    o = Ret (MkConfirmation "success, vip 10.0.0.1:80 was updated with 2 backends") ∧
    bpf_get (GATEWAY_INDEXES s') demo_vip = Some 0 ∧
    ∃ bl, bpf_get (BACKENDS s') demo_vip = Some bl ∧ take 2 (backends bl) = demo_installed)
    (demo_state [] 1 ∅).
Proof.
  eapply wp_mono.
  - apply (update_establishes demo_request demo_gateway demo_installed (demo_state [] 1 ∅));
      [done|by vm_compute|simpl; lia|by split; [intros bl|]; vm_compute].
  - intros s' o (-> & (bl & Hbl & _ & Ht & _) & Hi & _). split_and!; [by vm_compute|done|].
    exists bl. split; [exact Hbl|exact Ht].
Defined.

Example update_rejected_too_many :
  ∃ msg, service_update (MkTargets (Some demo_gateway) (replicate 129 (MkTarget 1 1 (Some 1))))
           (demo_state [] 1 ∅) = (demo_state [] 1 ∅, Err (MkStatus ResourceExhausted msg)).
Proof.
  apply (update_rejected (MkTargets (Some demo_gateway) (replicate 129 (MkTarget 1 1 (Some 1))))).
  simpl. lia.
Defined.

Lemma delete_purges_witness :
  wp (service_delete demo_gateway) (λ s' o,
    o = Ret (MkConfirmation "success, vip 10.0.0.1:80 was deleted") ∧
    bpf_get (BACKENDS s') demo_vip = None ∧ bpf_get (LB_CONNECTIONS s') demo_client = None)
    (demo_state [] 0 {[demo_client := demo_mapping (Some Established)]}).
Proof.
  eapply wp_mono.
  - apply (delete_purges demo_gateway (demo_state [] 0 {[demo_client := demo_mapping (Some Established)]}));
      [by eexists|by eexists|apply demo_iter_ok].
  - intros s' o (-> & Hb & _ & Hc). split_and!; [by vm_compute|by rewrite Hb|].
    destruct (bpf_get (LB_CONNECTIONS s') demo_client) as [lb|] eqn:Hg; [|done].
    apply Hc in Hg as [Hg Hne]. vm_compute in Hg. injection Hg as <-. by destruct Hne.
Defined.

Lemma service_safe_witness :
  wp (service_update demo_request) (λ s' o, o ≠ Fault ∧ maps_wf s') (demo_state [] 1 ∅) ∧
  wp (service_delete demo_gateway) (λ s' o, o ≠ Fault ∧ maps_wf s') (demo_state [] 1 ∅).
Proof.
  assert (maps_wf (demo_state [] 1 ∅)) as Hwf by (by apply demo_wf).
  split.
  - eapply wp_mono.
    + apply (proj1 (service_safe (demo_state [] 1 ∅) Hwf) demo_request demo_gateway);
        [done|by repeat constructor].
    + by intros s' o (? & ? & _).
  - eapply wp_mono; [apply (proj2 (service_safe (demo_state [] 1 ∅) Hwf) demo_gateway)|].
    by intros s' o (? & ? & _).
Defined.

Lemma delete_missing_witness :
  wp (service_delete demo_gateway) (λ s' o,
    o = Err (MkStatus Internal "failure: `bpf_map_delete_elem` failed")) (demo_empty []).
Proof.
  eapply wp_mono.
  - apply (delete_missing demo_gateway (demo_empty [])). done.
  - intros s' o (_ & _ & e & He & Ho). vm_compute in He. injection He as <-.
    vm_compute in Ho. by rewrite Ho.
Defined.

(** A Gateway without an index, with a connection. *)
Definition demo_half : kstate :=
  KState [] (RefMap {[demo_vip := demo_list]}) (RefMap (∅ : gmap BackendKey Z))
    (RefMap {[demo_client := demo_mapping (Some Established)]}).

Lemma delete_without_index_witness :
  wp (service_delete demo_gateway) (λ s' o,
    o = Err (MkStatus Internal "failure: `bpf_map_delete_elem` failed") ∧
    bpf_get (BACKENDS s') demo_vip = None ∧
    is_Some (bpf_get (LB_CONNECTIONS s') demo_client)) demo_half.
Proof.
  eapply wp_mono.
  - apply (delete_without_index demo_gateway demo_half); [by eexists|done].
  - intros s' o (Hb & Hc & e & He & ->). vm_compute in He. injection He as <-.
    split_and!; [by vm_compute|exact Hb|rewrite Hc; by eexists].
Defined.

Lemma update_delete_roundtrip_witness :
  wp (service_update demo_request) (λ s1 o1, (∃ c, o1 = Ret c) ∧
    wp (service_delete demo_gateway) (λ s2 o2, o2 = delete_done demo_gateway ∧
      same_maps (demo_empty []) s2) s1) (demo_empty []).
Proof.
  apply (update_delete_roundtrip demo_request demo_gateway demo_installed (demo_empty []));
    [done|by vm_compute|simpl; lia|by split; [intros bl|]; vm_compute|done|done| |by eexists].
  intros c lb Hc. vm_compute in Hc. done.
Defined.
