(* ===== verification/System.v ===== *)
(** * The data plane as a whole

    Packets and RPCs act on the same maps.  A step of the system is one run of
    a classifier program on some packet or one request to the API server, and
    the invariant relates the three maps to each other: every Gateway with
    backends has an index, the index points into the list, and every tracked
    connection belongs to a configured Gateway.  RPCs that fail half-way break
    this for the Gateway they name, so the steps carry the set of the Gateways
    with such an RPC behind them.  Steps do not interleave here ([Conc]). *)

From stdpp Require Import base list gmap strings relations.
From S2P Require Import Prelude Common Platform Csum PlatformRef TcpState Ebpf Ingress Demo IngressProps Egress EgressProps Classifier NetUtils Server ServerProps.

Section system.
Context `{NT : NetworkTypes, AE : AyaEbpf, MP : Maps, AM : !AyaMaps, NL : Netlink}.
Implicit Types s : kstate.

(** The Gateways an RPC may have left half done.  An [update] that answers
    [Internal] may have failed between its two writes, and a [delete] of a
    Gateway with backends that does not answer that it was deleted has stopped
    somewhere on its way; the next [update] or [delete] that succeeds repairs
    the Gateway. *)
Definition after_update (request : Targets) (o : outcome Status Confirmation)
    (D : gset BackendKey) : gset BackendKey :=
  match vip request, o with
  | Some v, Ret _ => D ∖ {[vip_key v]}
  | Some v, Err e => if decide (code e = Internal) then D ∪ {[vip_key v]} else D
  | _, _ => D
  end.

Definition deleted (v : Vip) (o : outcome Status Confirmation) : bool :=
  match o, delete_done v with
  | Ret a, Ret b => bool_decide (confirmation a = confirmation b)
  | _, _ => false
  end.

Definition after_delete (v : Vip) (before : option BackendList) (o : outcome Status Confirmation)
    (D : gset BackendKey) : gset BackendKey :=
  if deleted v o then D ∖ {[vip_key v]}
  else match before with Some _ => D ∪ {[vip_key v]} | None => D end.

(** One step: any packet, in either direction, and any RPC, whatever it
    answers.  Requests carry [u32]s. *)
Inductive sys_step : kstate * gset BackendKey → kstate * gset BackendKey → Prop :=
| step_ingress p s s' o D :
    byte_list p → tc_ingress (set_skb p s) = (s', o) → sys_step (s, D) (s', D)
| step_egress p s s' o D :
    byte_list p → tc_egress (set_skb p s) = (s', o) → sys_step (s, D) (s', D)
| step_update request s s' o D :
    Forall target_wf (targets request) → service_update request s = (s', o) →
    sys_step (s, D) (s', after_update request o D)
| step_delete v s s' o D :
    service_delete v s = (s', o) →
    sys_step (s, D) (s', after_delete v (bpf_get (BACKENDS s) (vip_key v)) o D)
| step_get_interface_index request s s' o D :
    get_interface_index request s = (s', o) → sys_step (s, D) (s', D).

(** The maps when the programs are loaded. *)
Definition sys_init s : Prop :=
  (∀ k, bpf_get (BACKENDS s) k = None) ∧ (∀ k, bpf_get (GATEWAY_INDEXES s) k = None) ∧
  (∀ c, bpf_get (LB_CONNECTIONS s) c = None).

(** Backends and index of a Gateway. *)
Definition gateway_ok (bl : option BackendList) (i : option Z) : Prop :=
  match bl, i with
  | Some bl, Some i => i = 0 ∨ i < backends_len bl
  | None, None => True
  | _, _ => False
  end.
Definition gateways_ok (D : gset BackendKey) s : Prop := ∀ k,
  (is_Some (bpf_get (GATEWAY_INDEXES s) k) → is_Some (bpf_get (BACKENDS s) k)) ∧
  (k ∉ D → gateway_ok (bpf_get (BACKENDS s) k) (bpf_get (GATEWAY_INDEXES s) k)).

(** No connection outlives its Gateway. *)
Definition conns_ok (D : gset BackendKey) s : Prop :=
  ∀ c lb, bpf_get (LB_CONNECTIONS s) c = Some lb → backend_key lb ∉ D →
    is_Some (bpf_get (BACKENDS s) (backend_key lb)).

Definition sys_inv (x : kstate * gset BackendKey) : Prop :=
  maps_wf x.1 ∧ gateways_ok x.2 x.1 ∧ conns_ok x.2 x.1.
End system.

Section preservation.
Context `{NT : NetworkTypes, AE : AyaEbpf, MP : Maps, AM : !AyaMaps, NL : Netlink}.
Context `{NTS : !NetworkTypesSpec, AES : !AyaEbpfSpec, MS : !MapsSpec, AMS : !AyaMapsSpec}.
Context `{NLS : !NetlinkSpec}.
Implicit Types s : kstate.

Implicit Types D : gset BackendKey.

Lemma gateways_ok_equiv D m s :
  gateways_ok D s → map_equiv (GATEWAY_INDEXES s) m → gateways_ok D (set_indexes m s).
Proof. intros Hg Hm k. simpl. rewrite Hm. apply Hg. Qed.

(** Moving the index of a Gateway on. *)
Lemma gateways_ok_next D s k bl i m :
  backend_list_wf bl → gateways_ok D s → bpf_get (BACKENDS s) k = Some bl → 0 ≤ i < backends_len bl →
  (∀ k', bpf_get m k' = if decide (k' = k) then Some (next_index bl i)
                        else bpf_get (GATEWAY_INDEXES s) k') →
  gateways_ok D (set_indexes m s).
Proof.
  intros Hwb Hg Hb Hi Hm k'. simpl. rewrite Hm. case_decide; [subst|apply Hg].
  rewrite Hb. split; [done|]. intros _. simpl. right. by apply next_index_bound.
Qed.

(** The Gateway of a connection that may be recorded. *)
Definition conn_gateway_ok D s (lb : LoadBalancerMapping) : Prop :=
  backend_key lb ∉ D → is_Some (bpf_get (BACKENDS s) (backend_key lb)).

Lemma conns_ok_tracked D hdr c lb s m :
  conns_ok D s → conn_gateway_ok D s lb → tracked hdr c lb s m → conns_ok D (set_conns m s).
Proof.
  intros Hc Hb Hm c' x. simpl. rewrite Hm. case_decide; [|apply Hc].
  unfold conn_gateway_ok in Hb. intros [->|Hx]%track_entry_key; [done|by eapply Hc].
Qed.

Lemma conns_ok_insert D c lb s m :
  conns_ok D s → conn_gateway_ok D s lb →
  (∀ k', bpf_get m k' = if decide (k' = c) then Some lb else bpf_get (LB_CONNECTIONS s) k') →
  conns_ok D (set_conns m s).
Proof. intros Hc Hb Hm c' x. simpl. rewrite Hm. case_decide; [naive_solver|apply Hc]. Qed.

(** Losing entries is harmless. *)
Lemma conns_ok_lost D s m :
  conns_ok D s →
  (∀ c, bpf_get m c = bpf_get (LB_CONNECTIONS s) c ∨ bpf_get m c = None) →
  conns_ok D (set_conns m s).
Proof. intros Hc Hm c x. simpl. destruct (Hm c) as [->| ->]; [apply Hc|done]. Qed.

Lemma conns_ok_frame D c s m :
  conns_ok D s → conns_frame c s (set_conns m s) →
  (bpf_get m c = bpf_get (LB_CONNECTIONS s) c ∨ bpf_get m c = None) → conns_ok D (set_conns m s).
Proof.
  intros Hc Hf Hor. apply conns_ok_lost; [done|]. intros c'.
  destruct (decide (c' = c)) as [->|Hne]; [done|left; by apply Hf].
Qed.

Lemma tcp_ingress_inv D s :
  sys_inv (s, D) → wp handle_tcp_ingress (λ s' o, gateways_ok D s' ∧ conns_ok D s') s.
Proof.
  intros (Hwf & Hg & Hc). simpl in *.
  assert (∀ s1 lb new, tcp_connection_of s s1 lb new →
    gateways_ok D s1 ∧ conns_ok D s1 ∧ conn_gateway_ok D s1 lb) as Hconn.
  { intros s1 lb new [lb' Hlb|bl i b m Hn Hbl Hi Hlt Hb Hm].
    - split_and!; [done|done|]. intros HD. by eapply Hc.
    - split_and!; [|done|intros _; by eexists].
      eapply gateways_ok_next; [by eapply (proj1 Hwf)|done..]. }
  apply wp_handle_tcp_ingress; try done.
  - intros bl i m e _ _ _ _ _ He. split; [by apply gateways_ok_equiv|done].
  - intros s1 lb new m e Hcn _ Hf Hor. destruct (Hconn _ _ _ Hcn) as (? & ? & ?).
    split; [done|by eapply conns_ok_frame].
  - intros s1 lb new m p' Hcn Hm _. destruct (Hconn _ _ _ Hcn) as (? & ? & ?).
    split; [done|by eapply (conns_ok_tracked _ _ _ lb s1)].
  - intros s1 lb new m p' Hcn Hm _ _. destruct (Hconn _ _ _ Hcn) as (? & ? & Hgw).
    assert (conns_ok D (set_skb p' (set_conns m s1))) by (by eapply (conns_ok_tracked _ _ _ lb s1)).
    cbv zeta. destruct new; [|done]. split.
    + intros m' Hm'. split; [done|]. eapply conns_ok_insert; [done| |done].
      unfold conn_gateway_ok. by rewrite track_mapping_key.
    + intros m' e _ He. split; [done|]. apply conns_ok_lost; [done|]. intros c. left. apply He.
Qed.

Lemma udp_ingress_inv D s :
  sys_inv (s, D) → wp handle_udp_ingress (λ s' o, gateways_ok D s' ∧ conns_ok D s') s.
Proof.
  intros (Hwf & Hg & Hc). simpl in *. apply wp_handle_udp_ingress; try done.
  intros bl i b q (Hbl & Hi & Hlt & Hb) _. split.
  - intros m e _ He. split; [done|]. apply (conns_ok_lost D (set_skb q s)); [done|]. intros c. left. apply He.
  - intros m Hm.
    assert (∀ p', conns_ok D (set_conns m (set_skb p' s))) as Hcm.
    { intros p'. eapply (conns_ok_insert D _ _ (set_skb p' s)); [done| |done]. intros _. by eexists. }
    split; [done|]. intros p' _ _. split.
    + intros mi Hmi. split; [|apply (Hcm p')].
      eapply (gateways_ok_next D (set_conns m (set_skb p' s))); [by eapply (proj1 Hwf)|done..].
    + intros mi e _ He. split; [by apply gateways_ok_equiv|apply (Hcm p')].
Qed.

Lemma egress_inv D s :
  sys_inv (s, D) →
  wp handle_tcp_egress (λ s' o, gateways_ok D s' ∧ conns_ok D s') s ∧
  wp handle_icmp_egress (λ s' o, gateways_ok D s' ∧ conns_ok D s') s.
Proof.
  intros (Hwf & Hg & Hc). simpl in *. split.
  - apply wp_handle_tcp_egress; [done|done|]. intros lb p' Hlb _ _. split.
    + intros m Hm. split; [done|].
      eapply (conns_ok_tracked D _ _ lb (set_skb p' s)); [done|intros HD; by eapply Hc|done].
    + intros m e _ Hf Hor. split; [done|].
      eapply (conns_ok_frame D _ (set_skb p' s)); [done|done|]. simpl. by rewrite Hlb.
  - apply wp_handle_icmp_egress; [done..|]. intros lb p1 _ _ Hlb addr _. split; [done|].
    intros p' m _ _ Hm. split; [done|]. apply (conns_ok_lost D (set_skb p' s)); [done|].
    intros c. simpl. rewrite Hm. case_decide; auto.
Qed.

Lemma tc_ingress_inv D s :
  sys_inv (s, D) → byte_list (skb s) → wp tc_ingress (λ s' o, sys_inv (s', D)) s.
Proof.
  intros Hinv Hp. pose proof Hinv as (Hwf & Hg & Hc). simpl in *.
  eapply wp_mono; [apply (discard_result_ok _ (λ s', sys_inv (s', D)))|naive_solver].
  eapply wp_mono; [by apply try_tc_ingress_spec|].
  intros s' o [[_ E]|[[_ E]|(_ & _ & -> & ?)]]; [..|done].
  - pose proof (wp_run _ _ _ _ _ (tcp_ingress_safe s Hwf) E) as (? & ? & _).
    pose proof (wp_run _ _ _ _ _ (tcp_ingress_inv D s Hinv) E). by split.
  - pose proof (wp_run _ _ _ _ _ (udp_ingress_safe s Hwf) E) as (? & ? & _).
    pose proof (wp_run _ _ _ _ _ (udp_ingress_inv D s Hinv) E). by split.
Qed.

Lemma tc_egress_inv D s :
  sys_inv (s, D) → byte_list (skb s) → wp tc_egress (λ s' o, sys_inv (s', D)) s.
Proof.
  intros Hinv Hp. pose proof Hinv as (Hwf & Hg & Hc). simpl in *.
  eapply wp_mono; [apply (discard_result_ok _ (λ s', sys_inv (s', D)))|naive_solver].
  eapply wp_mono; [by apply try_tc_egress_spec|].
  intros s' o [[_ E]|[[_ E]|(_ & _ & -> & ?)]]; [..|done].
  - pose proof (wp_run _ _ _ _ _ (tcp_egress_safe s Hwf) E) as (? & ? & _).
    pose proof (wp_run _ _ _ _ _ (proj1 (egress_inv D s Hinv)) E). by split.
  - pose proof (wp_run _ _ _ _ _ (icmp_egress_safe s Hwf) E) as (? & ? & _).
    pose proof (wp_run _ _ _ _ _ (proj2 (egress_inv D s Hinv)) E). by split.
Qed.

(** An RPC that touches one Gateway [key] only has to account for that one. *)
Lemma sys_inv_local key D D' s s' :
  sys_inv (s, D) → maps_wf s' →
  (∀ k, k ≠ key → k ∈ D' ↔ k ∈ D) →
  (∀ k, k ≠ key → bpf_get (BACKENDS s') k = bpf_get (BACKENDS s) k ∧
                  bpf_get (GATEWAY_INDEXES s') k = bpf_get (GATEWAY_INDEXES s) k) →
  (∀ c, bpf_get (LB_CONNECTIONS s') c = bpf_get (LB_CONNECTIONS s) c ∨
        bpf_get (LB_CONNECTIONS s') c = None) →
  (is_Some (bpf_get (GATEWAY_INDEXES s') key) → is_Some (bpf_get (BACKENDS s') key)) →
  (key ∉ D' → gateway_ok (bpf_get (BACKENDS s') key) (bpf_get (GATEWAY_INDEXES s') key) ∧
     ∀ c lb, bpf_get (LB_CONNECTIONS s') c = Some lb → backend_key lb = key →
       is_Some (bpf_get (BACKENDS s') key)) →
  sys_inv (s', D').
Proof.
  intros (Hwf & Hg & Hc) Hwf' HD Hkeys Hconns Hix Hkey. simpl in *. split_and!; [done|..]; simpl.
  - intros k. destruct (decide (k = key)) as [->|Hk]; [naive_solver|].
    destruct (Hkeys k Hk) as [-> ->]. destruct (Hg k) as [? ?]. split; [done|]. by rewrite HD.
  - intros c lb Hlb Hn. destruct (decide (backend_key lb = key)) as [Hk|Hk].
    + rewrite Hk in Hn |- *. destruct (Hkey Hn) as [_ Hx]. by eapply Hx.
    + rewrite (proj1 (Hkeys _ Hk)). destruct (Hconns c) as [Heq|Heq]; [|congruence].
      eapply Hc; [by rewrite <-Heq|]. by rewrite <-HD.
Qed.

Lemma after_update_other request v o D k :
  vip request = Some v → k ≠ vip_key v → k ∈ after_update request o D ↔ k ∈ D.
Proof. unfold after_update. intros -> ?. repeat case_match; set_solver. Qed.

Lemma after_delete_other v before o D k :
  k ≠ vip_key v → k ∈ after_delete v before o D ↔ k ∈ D.
Proof. unfold after_delete. intros ?. repeat case_match; set_solver. Qed.

(** What an [update] leaves of its Gateway. *)
Lemma update_key request v s :
  vip request = Some v →
  (is_Some (bpf_get (GATEWAY_INDEXES s) (vip_key v)) → is_Some (bpf_get (BACKENDS s) (vip_key v))) →
  wp (service_update request) (λ s' o,
    (is_Some (bpf_get (GATEWAY_INDEXES s') (vip_key v)) →
     is_Some (bpf_get (BACKENDS s') (vip_key v))) ∧
    match o with
    | Ret _ => is_Some (bpf_get (BACKENDS s') (vip_key v)) ∧
               bpf_get (GATEWAY_INDEXES s') (vip_key v) = Some 0
    | Err e => code e = Internal ∨ s' = s
    | Fault => False
    end) s.
Proof.
  intros Hv Hs. apply wp_service_update; [auto|auto|auto|].
  intros v' bs Hv' _ _. simplify_eq. cbv zeta. split_and!.
  - intros mb mi Hb Hi. simpl. rewrite Hb, Hi, !decide_True by done. split_and!; by eexists.
  - intros mb msg _ Hb. simpl. rewrite (Hb (vip_key v)). auto.
  - intros mb mi msg _ Hb Hi. simpl. rewrite Hb, decide_True by done. split; [by eexists|auto].
Qed.

Lemma service_update_inv request D s :
  sys_inv (s, D) → Forall target_wf (targets request) →
  wp (service_update request) (λ s' o, sys_inv (s', after_update request o D)) s.
Proof.
  intros Hinv Hts. pose proof Hinv as (Hwf & Hg & Hc). simpl in *.
  destruct (vip request) as [v|] eqn:Hv; cycle 1.
  { unfold service_update, wp. rewrite Hv. unfold after_update. by rewrite Hv. }
  unfold wp. destruct (service_update request s) as [s' o] eqn:E. simpl.
  pose proof (wp_run _ _ _ _ _ (update_safe request v s Hwf Hv Hts) E) as (_ & Hwf' & _ & Hcn & Hk).
  pose proof (wp_run _ _ _ _ _ (update_key request v s Hv (proj1 (Hg _))) E) as [Hix Ho].
  eapply (sys_inv_local (vip_key v)); [done|done| |done|intros c; left; by rewrite Hcn|done|].
  { intros k. by apply after_update_other. }
  unfold after_update. rewrite Hv. destruct o as [a|e|]; [| |done]; intros HD.
  - destruct Ho as [[bl Hb] Hi]. rewrite Hb, Hi. split; [by left|]. intros. by eexists.
  - case_decide; [set_solver|]. destruct Ho as [?| ->]; [done|].
    split; [by apply Hg|]. intros c lb Hlb Hkey. rewrite <-Hkey in *. by eapply Hc.
Qed.

(** The purge only loses connections, and if it ends without an error none of
    the Gateway is left. *)
Lemma wp_purge_conns_done key s :
  wp (purge_conns key (conns_iter (LB_CONNECTIONS s))) (λ s' o, o ≠ Fault ∧
    ∃ m, s' = set_conns m s ∧ (o = Ret tt → purged key (LB_CONNECTIONS s) m)) s.
Proof.
  assert (∀ items s s', purge_conns key items s = (s', Ret tt) → ∃ l, items = Ret <$> l) as Hok.
  { intros items. induction items as [|[[c lb]|e|] items IH]; intros s0 s1; [by exists []| |done..].
    cbn [purge_conns]. unfold mbind, eff_bind.
    generalize (if decide (backend_key lb = key) then
      on_map LB_CONNECTIONS set_conns (λ m, map_remove m c) else mret tt). intros step.
    destruct (step s0) as [s2 [[]|e|]]; [|done..]. intros [l ->]%IH. by exists ((c, lb) :: l). }
  unfold wp. destruct (purge_conns key _ s) as [s' o] eqn:E. simpl.
  assert (o ≠ Fault ∧ ∃ m, s' = set_conns m s) as [Hnf [m ->]].
  { refine (wp_run _ (λ s' o, o ≠ Fault ∧ ∃ m, s' = set_conns m s) _ _ _ _ E).
    apply wp_purge_conns_any; [apply conns_iter_no_fault|apply conns_iter_elem|].
    intros m o' Ho' _. split; [done|]. by eexists. }
  split; [done|]. destruct o as [[]|e|]; [|exists m; by split..].
  destruct (wp_run _ _ _ _ _ (wp_purge_conns key s (Hok _ _ _ E)) E) as (_ & m' & Heq & Hp).
  exists m'. by split.
Qed.

Lemma deleted_done v : deleted v (delete_done v) = true.
Proof. by apply bool_decide_eq_true. Qed.

Lemma deleted_failed v e : deleted v (delete_failed v e) = false.
Proof.
  unfold delete_failed. case_match; [|done]. apply bool_decide_eq_false. simpl. intros Heq.
  repeat apply (inj (String.append _)) in Heq. done.
Qed.

(** What a [delete] leaves of its Gateway. *)
Lemma delete_key v s :
  wp (service_delete v) (λ s' o,
    (is_Some (bpf_get (GATEWAY_INDEXES s') (vip_key v)) →
       is_Some (bpf_get (GATEWAY_INDEXES s) (vip_key v)) ∧
       bpf_get (BACKENDS s) (vip_key v) = None) ∧
    (if deleted v o then
       bpf_get (BACKENDS s') (vip_key v) = None ∧ bpf_get (GATEWAY_INDEXES s') (vip_key v) = None ∧
       ∀ c lb, bpf_get (LB_CONNECTIONS s') c = Some lb → backend_key lb ≠ vip_key v
     else bpf_get (BACKENDS s) (vip_key v) = None →
       bpf_get (BACKENDS s') (vip_key v) = None ∧
       GATEWAY_INDEXES s' = GATEWAY_INDEXES s ∧ LB_CONNECTIONS s' = LB_CONNECTIONS s)) s.
Proof.
  apply wp_service_delete.
  - intros mb e Hn _ Hm. rewrite deleted_failed. simpl. rewrite (Hm (vip_key v)). by rewrite Hn.
  - intros mb Hb Hmb. split.
    + intros mi e Hi _ Hm. rewrite deleted_failed. simpl. rewrite (Hm (vip_key v)), Hi.
      split; [by intros []|]. intros Hn. rewrite Hn in Hb. by destruct Hb.
    + intros mi Hi Hmi.
      eapply wp_mono; [apply (wp_purge_conns_done (vip_key v) (set_indexes mi (set_backends mb s)))|].
      intros s' o (Hnf & m & -> & Hp). destruct o as [[]|e|]; [| |done].
      * rewrite deleted_done. simpl. rewrite Hmi, Hmb, !decide_True by done. split; [by intros []|].
        split_and!; [done..|]. intros c lb. rewrite (Hp eq_refl c). simpl.
        case_match; [case_decide|]; naive_solver.
      * rewrite deleted_failed. simpl. rewrite Hmi, decide_True by done. split; [by intros []|].
        intros Hn. rewrite Hn in Hb. by destruct Hb.
Qed.

Lemma service_delete_inv v D s :
  sys_inv (s, D) →
  wp (service_delete v) (λ s' o,
    sys_inv (s', after_delete v (bpf_get (BACKENDS s) (vip_key v)) o D)) s.
Proof.
  intros Hinv. pose proof Hinv as (Hwf & Hg & Hc). simpl in *.
  unfold wp. destruct (service_delete v s) as [s' o] eqn:E. simpl.
  pose proof (wp_run _ _ _ _ _ (delete_safe v s Hwf) E) as (_ & Hwf' & _ & Hk & Hcn).
  pose proof (wp_run _ _ _ _ _ (delete_key v s) E) as [Hix Ho].
  eapply (sys_inv_local (vip_key v)); [done|done| |done| | |].
  { intros k. by apply after_delete_other. }
  { intros c. destruct (Hcn c) as [?|[? _]]; auto. }
  { intros [Hi Hb]%Hix. apply Hg in Hi. rewrite Hb in Hi. by destruct Hi. }
  unfold after_delete. destruct (deleted v o).
  - destruct Ho as (-> & -> & Hno). intros _. split; [done|]. intros c lb Hlb ?. by destruct (Hno c lb).
  - destruct (bpf_get (BACKENDS s) (vip_key v)) as [bl|] eqn:Hb; [set_solver|]. intros HD.
    destruct (Ho eq_refl) as (-> & -> & ->). destruct (Hg (vip_key v)) as [_ Hgk]. rewrite Hb in Hgk.
    split; [by apply Hgk|]. intros c lb Hlb Hkey.
    rewrite <-Hkey in HD, Hb. specialize (Hc c lb Hlb HD). by rewrite Hb in Hc.
Qed.

(** Every step keeps the invariant. *)
Lemma sys_step_inv x x' : sys_step x x' → sys_inv x → sys_inv x'.
Proof.
  intros [p s0 s1 o D Hp E|p s0 s1 o D Hp E|request s0 s1 o D Hts E|v s0 s1 o D E
         |request s0 s1 o D E] Hinv.
  - by apply (wp_run _ _ _ _ _ (tc_ingress_inv D (set_skb p s0) Hinv Hp) E).
  - by apply (wp_run _ _ _ _ _ (tc_egress_inv D (set_skb p s0) Hinv Hp) E).
  - by apply (wp_run _ _ _ _ _ (service_update_inv request D s0 Hinv Hts) E).
  - by apply (wp_run _ _ _ _ _ (service_delete_inv v D s0 Hinv) E).
  - unfold get_interface_index in E. pose proof (if_index_no_fault (pod_ip request)).
    destruct (if_index_for_routing_ip (pod_ip request)); [..|done]; by injection E as <- _.
Qed.

Lemma sys_init_inv s : sys_init s → sys_inv (s, ∅).
Proof.
  intros (Hb & Hi & Hc). split_and!; [split_and!|..]; simpl; try (intros ??; rewrite ?Hb, ?Hi, ?Hc; done).
  intros k. rewrite Hb, Hi. split; [by intros []|done].
Qed.

Lemma sys_reach_inv s0 x : sys_init s0 → rtc sys_step (s0, ∅) x → sys_inv x.
Proof.
  intros Hi%sys_init_inv Hr. induction Hr; [done|]. eauto using sys_step_inv.
Qed.

(** C1: the invariant of the data plane.  From empty maps, after any sequence
    of packets and RPCs, failed ones included: the maps are well-typed and no
    Gateway has an index without backends; and for every Gateway that no RPC
    has left half done (outside [D]: no [update] that answered [Internal] and
    no [delete] of it that stopped early since its last [update] or [delete]
    that succeeded), it has an index exactly when it has backends, a list that
    is not empty is indexed within its bounds, and a connection that is tracked
    for it means that it is still configured. *)
Theorem system_invariant s0 s D :
  sys_init s0 → rtc sys_step (s0, ∅) (s, D) →
  maps_wf s ∧
  (∀ k, is_Some (bpf_get (GATEWAY_INDEXES s) k) → is_Some (bpf_get (BACKENDS s) k)) ∧
  (∀ k, k ∉ D →
     (is_Some (bpf_get (BACKENDS s) k) ↔ is_Some (bpf_get (GATEWAY_INDEXES s) k)) ∧
     (∀ bl i, bpf_get (BACKENDS s) k = Some bl → bpf_get (GATEWAY_INDEXES s) k = Some i →
        0 < backends_len bl → 0 ≤ i < backends_len bl) ∧
     (∀ c lb, bpf_get (LB_CONNECTIONS s) c = Some lb → backend_key lb = k →
        is_Some (bpf_get (BACKENDS s) k))).
Proof.
  intros Hi Hr. destruct (sys_reach_inv _ _ Hi Hr) as (Hwf & Hg & Hc). simpl in *.
  split_and!; [done|intros k; apply Hg|]. intros k HD. specialize (proj2 (Hg k) HD) as Hk. split_and!.
  - unfold gateway_ok in Hk. repeat case_match; naive_solver.
  - intros bl i Hb Hix Hpos. rewrite Hb, Hix in Hk. simpl in Hk.
    assert (fits 16 i) by (by eapply (proj1 (proj2 Hwf))). unfold fits in *. lia.
  - intros c lb Hlb <-. by eapply Hc.
Qed.

(** C2: a configured Gateway serves.  After any sequence of packets and RPCs
    from empty maps: a TCP packet without RST of a new client, to a Gateway that
    has at least one backend and that no RPC has left half done, is redirected
    to one of the backends in use of the Gateway's list and the connection is
    recorded, provided both maps accept the entries to be written and the kernel's
    packet helpers succeed.  The early returns of the handler for a missing or
    stale index are never taken. *)
Theorem configured_gateway_serves s0 s D p bl :
  HelpersSucceed → sys_init s0 → rtc sys_step (s0, ∅) (s, D) → tcp_packet p →
  tcp_vip p ∉ D → bpf_get (BACKENDS s) (tcp_vip p) = Some bl → 0 < backends_len bl →
  bpf_get (LB_CONNECTIONS s) (tcp_client p) = None →
  is_rst (hdr_bytes TcpHdr L4 p) = false →
  indexes_room (tcp_vip p) (GATEWAY_INDEXES s) → conns_room (tcp_client p) (LB_CONNECTIONS s) →
  wp handle_tcp_ingress (λ s' o, ∃ j b,
    0 ≤ j < backends_len bl ∧ backends bl !! Z.to_nat j = Some b ∧
    o = Ret (as_i32 (bpf_redirect_neigh (ifindex b) 0 0)) ∧
    fld Ip_dst_addr L3 (skb s') = to_be32 (daddr b) ∧
    ∃ m, bpf_get (LB_CONNECTIONS s') (tcp_client p) = Some m ∧ backend m = b) (set_skb p s).
Proof.
  intros HH Hi Hr Hp HD Hb Hpos Hc Hrst Hri Hrc.
  destruct (sys_reach_inv _ _ Hi Hr) as (Hwf & Hg & _). simpl in *.
  specialize (proj2 (Hg (tcp_vip p)) HD) as Hk. rewrite Hb in Hk.
  destruct (bpf_get (GATEWAY_INDEXES s) (tcp_vip p)) as [i|] eqn:Hix; [|done]. simpl in Hk.
  assert (0 ≤ i < backends_len bl) as Hlt.
  { assert (fits 16 i) by (by eapply (proj1 (proj2 Hwf))). unfold fits in *. lia. }
  eapply wp_mono; [eapply (tcp_new_connection_run (set_skb p s) bl i); try done; lia|].
  intros s' o (b & Hsel & -> & _ & Hcn & Hd & _). exists i, b. split_and!; [lia..|done|done|done|].
  by eexists.
Qed.
End preservation.

(** ** The theorems at a concrete run *)
#[local] Existing Instance rfc_types.
#[local] Existing Instance ref_ebpf.
#[local] Existing Instance ref_maps.
#[local] Existing Instance ref_user_maps.
#[local] Existing Instance one_route.

(** A Gateway is configured, a client connects. *)
Definition demo_configured : kstate := (service_update demo_request (demo_empty [])).1.
Definition demo_connected : kstate := (tc_ingress (set_skb (tcp_in SYN) demo_configured)).1.

Lemma demo_init : sys_init (demo_empty []).
Proof. by split_and!. Qed.

Lemma demo_reach_configured : rtc sys_step (demo_empty [], ∅) (demo_configured, ∅).
Proof.
  apply rtc_once.
  assert (after_update demo_request (service_update demo_request (demo_empty [])).2 ∅ = ∅) as Hd
    by (vm_compute; reflexivity).
  rewrite <-Hd at 2. apply step_update; [by repeat constructor|apply surjective_pairing].
Qed.

Lemma demo_reach_connected : rtc sys_step (demo_empty [], ∅) (demo_connected, ∅).
Proof.
  eapply rtc_r; [apply demo_reach_configured|]. eapply step_ingress; [|apply surjective_pairing].
  by apply (bool_decide_eq_true_1 (Forall (fits 8) (tcp_in SYN))).
Qed.

Lemma system_invariant_witness :
  bpf_get (GATEWAY_INDEXES demo_connected) demo_vip = Some 1 ∧
  (∀ c lb, bpf_get (LB_CONNECTIONS demo_connected) c = Some lb → backend_key lb = demo_vip →
     is_Some (bpf_get (BACKENDS demo_connected) demo_vip)).
Proof.
  split; [by vm_compute|].
  apply (system_invariant (demo_empty []) demo_connected ∅ demo_init demo_reach_connected). set_solver.
Defined.

Lemma configured_gateway_serves_witness :
  wp handle_tcp_ingress (λ s' o, o = Ret 7 ∧
    ∃ m, bpf_get (LB_CONNECTIONS s') demo_client = Some m) (set_skb (tcp_in SYN) demo_configured).
Proof.
  eapply wp_mono.
  - apply (configured_gateway_serves (demo_empty []) demo_configured ∅ (tcp_in SYN)
             (backend_list_of demo_installed));
      [apply _|apply demo_init|apply demo_reach_configured|by apply demo_tcp_packet|
       set_solver|by vm_compute|done|by vm_compute|by vm_compute|..].
    + apply demo_indexes_room. vm_compute. lia.
    + apply demo_conns_room. vm_compute. lia.
  - intros s' o (j & b & _ & _ & -> & _ & m & Hm & _). split; [by vm_compute|]. exists m. exact Hm.
Defined.
