(* ===== verification/Threads.v ===== *)
(** * Threads on the shared maps

    The packet programs run on every CPU while the API server answers
    requests on its own threads, so the operations on the maps of one run are
    interleaved with those of others.  A [thread] is a run cut at its
    operations: each step reads and changes the state at once, and taking and
    releasing the mutexes of the API server are steps of their own.  A thread
    that is not interrupted computes what [run_thread] says, which connects
    threads with the sequential definitions ([runs]).  A [config] is a set of
    threads with their own packets, the shared maps and the mutexes. *)

From stdpp Require Import base list gmap relations.
From S2P Require Import Prelude Common Platform Csum TcpState Ebpf.

(** The mutexes of [BackendService], in the order of its fields. *)
Inductive lock := LBackends | LIndexes | LConns.
#[export] Instance lock_eq_dec : EqDecision lock.
Proof. solve_decision. Defined.
Definition rank (l : lock) : nat :=
  match l with LBackends => 0 | LIndexes => 1 | LConns => 2 end.

Section threads.
Context `{MP : Maps}.
Implicit Types s : kstate.

(** [TStep upd next] changes the state to [upd s] and goes on with [next s]. *)
Inductive thread (R : Type) : Type :=
| TDone (r : R)
| TStep (upd : kstate → kstate) (next : kstate → thread R)
| TLock (l : lock) (t : thread R)
| TUnlock (l : lock) (t : thread R).

Fixpoint tbind {R R'} (t : thread R) (k : R → thread R') : thread R' :=
  match t with
  | TDone _ r => k r
  | TStep _ upd next => TStep _ upd (λ s, tbind (next s) k)
  | TLock _ l t => TLock _ l (tbind t k)
  | TUnlock _ l t => TUnlock _ l (tbind t k)
  end.

(** Threads of functions that may fail. *)
Definition Thr (E A : Type) : Type := thread (outcome E A).

#[global] Instance thr_ret E : MRet (Thr E) := λ A a, TDone _ (Ret a).
#[global] Instance thr_bind E : MBind (Thr E) := λ A B k t,
  tbind t (λ o, match o with
                | Ret a => k a
                | Err e => TDone _ (Err e)
                | Fault => TDone _ Fault
                end).

(** One step that does all of [m]. *)
Definition atom {E A} (m : Eff kstate E A) : Thr E A :=
  TStep _ (λ s, (m s).1) (λ s, TDone _ (m s).2).

Definition thr_throw {E A} (e : E) : Thr E A := TDone _ (Err e).
Definition thr_fault {E A} : Thr E A := TDone _ Fault.
Definition thr_ok_or {E A} (o : option A) (e : E) : Thr E A :=
  match o with Some a => mret a | None => thr_throw e end.

(** [?], [return] and function bodies, as for [Eff]. *)
Definition thr_try {E R A} (t : Thr E A) : Thr (ctl E R) A :=
  tbind t (λ o, TDone _ (match o with
                         | Ret a => Ret a
                         | Err e => Err (Throw e)
                         | Fault => Fault
                         end)).
Definition thr_return {E R A} (r : R) : Thr (ctl E R) A := thr_throw (Return r).
Definition thr_body {E R} (t : Thr (ctl E R) R) : Thr E R :=
  tbind t (λ o, TDone _ (match o with
                         | Ret r | Err (Return r) => Ret r
                         | Err (Throw e) => Err e
                         | Fault => Fault
                         end)).

(** The guard of a mutex lives until the block ends, however it ends. *)
Definition with_lock {R} (l : lock) (t : thread R) : thread R :=
  TLock _ l (tbind t (λ r, TUnlock _ l (TDone _ r))).

(** ** A thread that is not interrupted

    The mutexes do not change what it computes, only when it may run: see
    [run_free] and [run_alone] of [Progress] for the steps of a configuration. *)
Fixpoint run_thread {R} (t : thread R) (s : kstate) : kstate * R :=
  match t with
  | TDone _ r => (s, r)
  | TStep _ upd next => run_thread (next s) (upd s)
  | TLock _ _ t | TUnlock _ _ t => run_thread t s
  end.

Definition runs {E A} (t : Thr E A) (m : Eff kstate E A) : Prop := ∀ s, run_thread t s = m s.

(** ** Several threads *)

(** A thread and its packet. *)
Record task (R : Type) := Task { task_packet : list Z; task_code : thread R }.
Arguments Task {R} task_packet task_code.
Arguments task_packet {R} t.
Arguments task_code {R} t.

Record config (R : Type) := Config {
  shared : kstate;                    (* its packet is not used *)
  holder : lock → option nat;
  tasks : list (task R);
}.
Arguments Config {R} shared holder tasks.
Arguments shared {R} c.
Arguments holder {R} c.
Arguments tasks {R} c.

Definition set_holder (h : lock → option nat) (l : lock) (o : option nat) : lock → option nat :=
  λ l', if decide (l' = l) then o else h l'.

(** Let thread [i] take a step: [None] if it is done, waits, or releases a
    mutex it does not hold. *)
Definition sched {R} (i : nat) (c : config R) : option (config R) :=
  match tasks c !! i with
  | Some (Task p (TStep _ upd next)) =>
      let s := set_skb p (shared c) in
      Some (Config (upd s) (holder c) (<[i := Task (skb (upd s)) (next s)]> (tasks c)))
  | Some (Task p (TLock _ l t)) =>
      match holder c l with
      | None => Some (Config (shared c) (set_holder (holder c) l (Some i)) (<[i := Task p t]> (tasks c)))
      | Some _ => None
      end
  | Some (Task p (TUnlock _ l t)) =>
      if decide (holder c l = Some i)
      then Some (Config (shared c) (set_holder (holder c) l None) (<[i := Task p t]> (tasks c)))
      else None
  | _ => None
  end.

Fixpoint exec {R} (schedule : list nat) (c : config R) : option (config R) :=
  match schedule with
  | [] => Some c
  | i :: schedule => c' ← sched i c; exec schedule c'
  end.

Definition pstep {R} (c c' : config R) : Prop := ∃ i, sched i c = Some c'.

Definition finished {R} (t : task R) : Prop := match task_code t with TDone _ _ => True | _ => False end.

(** The start: threads that hold nothing. *)
Definition start_config {R} (s : kstate) (ts : list (task R)) : config R := Config s (λ _, None) ts.
End threads.
Arguments TDone {MP R} r.
Arguments TStep {MP R} upd next.
Arguments TLock {MP R} l t.
Arguments TUnlock {MP R} l t.
Arguments Task {MP R} task_packet task_code.
Arguments task_packet {MP R} t.
Arguments task_code {MP R} t.
Arguments Config {MP R} shared holder tasks.
Arguments shared {MP R} c.
Arguments holder {MP R} c.
Arguments tasks {MP R} c.

(** ** Threads and the sequential definitions *)
Create HintDb runs.

Section runs_laws.
Context `{MP : Maps}.

Lemma run_tbind {R R'} (t : thread R) (k : R → thread R') s :
  run_thread (tbind t k) s = let '(s', r) := run_thread t s in run_thread (k r) s'.
Proof. revert s. induction t as [r|upd next IH|l t IH|l t IH]; intros s; simpl; auto. Qed.

Lemma runs_atom {E A} (m : Eff kstate E A) : runs (atom m) m.
Proof. intros s. simpl. by destruct (m s). Qed.

Lemma runs_ret {E A} (a : A) : runs (E:=E) (mret a) (mret a).
Proof. done. Qed.

Lemma runs_throw {E A} (e : E) : runs (A:=A) (thr_throw e) (throw e).
Proof. done. Qed.

Lemma runs_fault {E A} : runs (E:=E) (A:=A) thr_fault fault.
Proof. done. Qed.

Lemma runs_return {E R A} (r : R) : runs (E:=ctl E R) (A:=A) (thr_return r) (return_ r).
Proof. done. Qed.

Lemma runs_ok_or {E A} (o : option A) (e : E) : runs (thr_ok_or o e) (ok_or o e).
Proof. by destruct o. Qed.

Lemma runs_bind {E A B} (t : Thr E A) (k : A → Thr E B) m k' :
  runs t m → (∀ a, runs (k a) (k' a)) → runs (t ≫= k) (m ≫= k').
Proof.
  intros Ht Hk s. unfold mbind, thr_bind, eff_bind. rewrite run_tbind, Ht.
  destruct (m s) as [s' [a|e|]]; [apply Hk|done|done].
Qed.

Lemma runs_try {E R A} (t : Thr E A) m : runs t m → runs (E:=ctl E R) (thr_try t) (try_ m).
Proof.
  intros Ht s. unfold thr_try, try_. rewrite run_tbind, Ht. by destruct (m s) as [s' [a|e|]].
Qed.

Lemma runs_body {E R} (t : Thr (ctl E R) R) m : runs t m → runs (thr_body t) (fn_body m).
Proof.
  intros Ht s. unfold thr_body, fn_body. rewrite run_tbind, Ht. by destruct (m s) as [s' [a|[e|r]|]].
Qed.

Lemma runs_with_lock {E A} l (t : Thr E A) m : runs t m → runs (with_lock l t) m.
Proof.
  intros Ht s. unfold with_lock. simpl. rewrite run_tbind, Ht. by destruct (m s).
Qed.

Lemma runs_if {E A} (b : bool) (t1 t2 : Thr E A) m1 m2 :
  runs t1 m1 → runs t2 m2 → runs (if b then t1 else t2) (if b then m1 else m2).
Proof. by destruct b. Qed.
End runs_laws.

#[export] Hint Resolve runs_atom runs_ret runs_throw runs_fault runs_return runs_ok_or runs_bind
  runs_try runs_body runs_with_lock runs_if : runs.

(** ** Invariants of all interleavings

    [keeps I Q p t]: whatever the other threads do in between, as long as they
    keep [I], every step of [t] from packet [p] keeps [I] too, and [t] ends
    with a result that satisfies [Q]. *)
Section invariants.
Context `{MP : Maps}.
Implicit Types s : kstate.

Fixpoint keeps {R} (I : kstate → Prop) (Q : list Z → R → Prop) (p : list Z) (t : thread R) : Prop :=
  match t with
  | TDone r => Q p r
  | TStep upd next => ∀ s, I s → skb s = p → I (upd s) ∧ keeps I Q (skb (upd s)) (next s)
  | TLock _ t | TUnlock _ t => keeps I Q p t
  end.

Lemma keeps_bind {R R'} I Q (t : thread R) (k : R → thread R') p :
  keeps I (λ p' r, keeps I Q p' (k r)) p t → keeps I Q p (tbind t k).
Proof.
  revert p. induction t as [r|upd next IH|l t IH|l t IH]; intros p; simpl; auto.
  intros Ht s Hs Hp. destruct (Ht s Hs Hp). auto.
Qed.

Lemma keeps_mono {R} I (Q Q' : list Z → R → Prop) (t : thread R) p :
  (∀ p r, Q p r → Q' p r) → keeps I Q p t → keeps I Q' p t.
Proof.
  intros HQ. revert p. induction t as [r|upd next IH|l t IH|l t IH]; intros p; simpl; auto.
  intros Ht s Hs Hp. destruct (Ht s Hs Hp). auto.
Qed.

(** The rules the threads of this development need. *)
Lemma keeps_seq {E A B} I Q (t : Thr E A) (k : A → Thr E B) p :
  keeps I (λ p' o, match o with
                   | Ret a => keeps I Q p' (k a)
                   | Err e => Q p' (Err e)
                   | Fault => Q p' Fault end) p t →
  keeps I Q p (t ≫= k).
Proof. intros Ht. apply keeps_bind. eapply keeps_mono; [|exact Ht]. by intros p' [a|e|]. Qed.

Lemma keeps_atom {E A} I Q (m : Eff kstate E A) p :
  (∀ s, I s → skb s = p → wp m (λ s' o, I s' ∧ Q (skb s') o) s) → keeps I Q p (atom m).
Proof. intros Hm s Hs Hp. exact (Hm s Hs Hp). Qed.

Lemma keeps_ret {E A} I Q (a : A) p : Q p (Ret a) → keeps I Q p (mret a : Thr E A).
Proof. done. Qed.

Lemma keeps_throw {E A} I Q (e : E) p : Q p (Err e) → keeps I Q p (thr_throw e : Thr E A).
Proof. done. Qed.

Lemma keeps_return {E R A} I Q (r : R) p :
  Q p (Err (Return r)) → keeps I Q p (thr_return r : Thr (ctl E R) A).
Proof. done. Qed.

Lemma keeps_ok_or {E A} I Q (o : option A) (e : E) p :
  match o with Some a => Q p (Ret a) | None => Q p (Err e) end → keeps I Q p (thr_ok_or o e).
Proof. by destruct o. Qed.

Lemma keeps_try {E R A} I Q (t : Thr E A) p :
  keeps I (λ p' o, Q p' (match o with
                         | Ret a => Ret a | Err e => Err (Throw e) | Fault => Fault end)) p t →
  keeps I Q p (thr_try t : Thr (ctl E R) A).
Proof. intros Ht. apply keeps_bind. exact Ht. Qed.

Lemma keeps_body {E R} I Q (t : Thr (ctl E R) R) p :
  keeps I (λ p' o, Q p' (match o with
                         | Ret r | Err (Return r) => Ret r
                         | Err (Throw e) => Err e | Fault => Fault end)) p t →
  keeps I Q p (thr_body t).
Proof. intros Ht. apply keeps_bind. exact Ht. Qed.

Lemma keeps_with_lock {R} I Q l (t : thread R) p : keeps I Q p t → keeps I Q p (with_lock l t).
Proof. intros Ht. simpl. apply keeps_bind. exact Ht. Qed.

(** All threads of a configuration. *)
Definition config_keeps {R} (I : kstate → Prop) (Q : list Z → R → Prop) (c : config R) : Prop :=
  I (shared c) ∧ Forall (λ t, keeps I Q (task_packet t) (task_code t)) (tasks c).

(** [I] does not depend on the packet. *)
Definition packet_free (I : kstate → Prop) : Prop := ∀ s p, I s → I (set_skb p s).

Lemma pstep_keeps {R} I Q (c c' : config R) :
  packet_free I → pstep c c' → config_keeps I Q c → config_keeps I Q c'.
Proof.
  intros Hpf [i Hi] [HI HF]. unfold sched in Hi.
  destruct (tasks c !! i) as [[p t]|] eqn:Ht; [|done].
  pose proof (proj1 (Forall_lookup _ _) HF i _ Ht) as Hk. simpl in Hk.
  destruct t as [r|upd next|l t|l t]; simplify_eq/=.
  - destruct (Hk (set_skb p (shared c)) (Hpf _ _ HI) eq_refl). split; [done|].
    by apply Forall_insert.
  - case_match; simplify_eq. split; [done|]. by apply Forall_insert.
  - case_decide; simplify_eq. split; [done|]. by apply Forall_insert.
Qed.

(** [I] holds at every point of every interleaving, and so does [Q] of the
    results. *)
Lemma interleaving_keeps {R} I Q (c c' : config R) :
  packet_free I → rtc pstep c c' → config_keeps I Q c →
  I (shared c') ∧
  ∀ i p r, tasks c' !! i = Some (Task p (TDone r)) → Q p r.
Proof.
  intros Hpf Hr Hc. assert (config_keeps I Q c') as [HI HF].
  { induction Hr; [done|]. eauto using pstep_keeps. }
  split; [done|]. intros i p r Ht. exact (proj1 (Forall_lookup _ _) HF i _ Ht).
Qed.
End invariants.

(** A schedule that can be executed is a sequence of steps. *)
Lemma exec_steps `{MP : Maps} {R} (schedule : list nat) (c : config R) :
  is_Some (exec schedule c) → rtc pstep c (default c (exec schedule c)).
Proof.
  enough (∀ c', exec schedule c = Some c' → rtc pstep c c') as He.
  { intros [c' Hc']. rewrite Hc'. by apply He. }
  revert c. induction schedule as [|i schedule IH]; intros c c'; simpl; [by intros [= ->]|].
  destruct (sched i c) as [c1|] eqn:Hs; simpl; [|done]. intros Hc'.
  eapply rtc_l; [by exists i|]. by apply IH.
Qed.
