(* ===== verification/Progress.v ===== *)
(** * Threads make progress

    A thread that takes mutexes in one order and releases them in reverse
    ([ordered]) cannot take part in a deadlock, and threads are finite trees,
    so every schedule of such threads ends with all of them finished and no
    mutex locked.  No fairness is needed. *)

From stdpp Require Import base list gmap relations.
From S2P Require Import Prelude Common Platform Csum TcpState Ebpf Threads.

Section ordered.
Context `{MP : Maps}.

(** [held] are the mutexes the thread holds, the last taken first. *)
Fixpoint ordered {R} (held : list lock) (t : thread R) : Prop :=
  match t with
  | TDone _ => held = []
  | TStep upd next => ∀ s, ordered held (next s)
  | TLock l t => Forall (λ h, (rank h < rank l)%nat) held ∧ ordered (l :: held) t
  | TUnlock l t => match held with h :: held => h = l ∧ ordered held t | [] => False end
  end.

(** The thread [t] uses further mutexes only in balanced blocks above [held]. *)
Fixpoint balanced {R} (held : list lock) (inner : list lock) (t : thread R) : Prop :=
  match t with
  | TDone _ => inner = []
  | TStep upd next => ∀ s, balanced held inner (next s)
  | TLock l t => Forall (λ h, (rank h < rank l)%nat) (inner ++ held) ∧ balanced held (l :: inner) t
  | TUnlock l t => match inner with h :: inner => h = l ∧ balanced held inner t | [] => False end
  end.

Lemma balanced_bind {R R'} held inner (t : thread R) (k : R → thread R') :
  balanced held inner t → (∀ r, balanced held [] (k r)) → balanced held inner (tbind t k).
Proof.
  intros Ht Hk. revert inner Ht. induction t as [r|upd next IH|l t IH|l t IH]; intros inner; simpl.
  - intros ->. apply Hk.
  - auto.
  - intros [??]. auto.
  - destruct inner as [|h inner]; [done|]. intros [-> ?]. auto.
Qed.

Lemma balanced_ordered {R} (t : thread R) : balanced [] [] t → ordered [] t.
Proof.
  enough (∀ inner, balanced [] inner t → ordered inner t) by auto.
  induction t as [r|upd next IH|l t IH|l t IH]; intros inner; simpl; auto.
  - rewrite app_nil_r. intros [??]. auto.
  - destruct inner as [|h inner]; [done|]. intros [-> ?]. auto.
Qed.

(** More mutexes around a thread that is balanced above them. *)
Lemma balanced_shift {R} held l inner (t : thread R) :
  balanced (l :: held) inner t → ∀ k : R → thread R, (∀ r, k r = TUnlock l (TDone r)) →
  balanced held (inner ++ [l]) (tbind t k).
Proof.
  intros Ht k Hk. revert inner Ht. induction t as [r|upd next IH|l' t IH|l' t IH]; intros inner; simpl.
  - intros ->. by rewrite Hk.
  - auto.
  - intros [Hr Hb]. split; [by rewrite <-app_assoc|]. by apply (IH (l' :: inner)).
  - destruct inner as [|h inner]; [done|]. intros [-> ?]. simpl. auto.
Qed.

Lemma balanced_with_lock {R} held l (t : thread R) :
  Forall (λ h, (rank h < rank l)%nat) held → balanced (l :: held) [] t →
  balanced held [] (with_lock l t).
Proof. intros Hl Ht. split; [done|]. by apply (balanced_shift _ _ []). Qed.

Lemma balanced_done {R} held (r : R) : balanced held [] (TDone r).
Proof. done. Qed.

Lemma balanced_atom {E A} held (m : Eff kstate E A) : balanced held [] (atom m).
Proof. done. Qed.

Lemma balanced_seq {E A B} held (t : Thr E A) (k : A → Thr E B) :
  balanced held [] t → (∀ a, balanced held [] (k a)) → balanced held [] (t ≫= k).
Proof. intros Ht Hk. apply balanced_bind; [done|]. by intros [a|e|]. Qed.

Lemma balanced_try {E R A} held (t : Thr E A) :
  balanced held [] t → balanced held [] (thr_try t : Thr (ctl E R) A).
Proof. intros Ht. by apply balanced_bind. Qed.

Lemma balanced_body {E R} held (t : Thr (ctl E R) R) :
  balanced held [] t → balanced held [] (thr_body t).
Proof. intros Ht. by apply balanced_bind. Qed.

Lemma balanced_ok_or {E A} held (o : option A) (e : E) : balanced held [] (thr_ok_or o e).
Proof. by destruct o. Qed.

Lemma balanced_if {R} held (b : bool) (t1 t2 : thread R) :
  balanced held [] t1 → balanced held [] t2 → balanced held [] (if b then t1 else t2).
Proof. by destruct b. Qed.
End ordered.

Create HintDb locks.
#[export] Hint Resolve balanced_with_lock balanced_done balanced_atom balanced_seq balanced_try
  balanced_body balanced_ok_or balanced_if : locks.

(** ** No deadlock *)
Section progress.
Context `{MP : Maps} {R : Type}.
Implicit Types c : config R.

#[global] Instance finished_dec (t : task R) : Decision (finished t).
Proof. destruct t as [p []]; solve_decision. Defined.

(** [helds] lists the mutexes of every thread. *)
Definition locks_ok_with (helds : list (list lock)) c : Prop :=
  Forall2 (λ held t, NoDup held ∧ ordered held (task_code t)) helds (tasks c) ∧
  ∀ l i, holder c l = Some i ↔ ∃ held, helds !! i = Some held ∧ l ∈ held.
Definition locks_ok c : Prop := ∃ helds, locks_ok_with helds c.

Lemma start_locks_ok s (ts : list (task R)) :
  Forall (λ t, ordered [] (task_code t)) ts → locks_ok (start_config s ts).
Proof.
  intros Hts. exists (replicate (length ts) []). split.
  - apply Forall2_replicate_l; [done|]. simpl.
    eapply Forall_impl; [exact Hts|]. intros t Ht. split; [constructor|done].
  - simpl. intros l i. split; [done|]. intros (held & [-> _]%lookup_replicate & []%elem_of_nil).
Qed.

(** A change of the mutexes of thread [i]. *)
Lemma holder_insert (helds : list (list lock)) h i (held : list lock) l (held' : list lock) o l' j :
  (∀ l i, h l = Some i ↔ ∃ held, helds !! i = Some held ∧ l ∈ held) →
  helds !! i = Some held →
  (∀ x, x ≠ l → (x ∈ held' ↔ x ∈ held)) →
  (∀ k, o = Some k ↔ k = i ∧ l ∈ held') → (h l = None ∨ h l = Some i) →
  set_holder h l o l' = Some j ↔ ∃ held, <[i := held']> helds !! j = Some held ∧ l' ∈ held.
Proof.
  intros Hh Hi Hsame Ho Hl. unfold set_holder. pose proof (lookup_lt_Some _ _ _ Hi) as Hlt.
  destruct (decide (l' = l)) as [->|Hne].
  - rewrite Ho. destruct (decide (i = j)) as [<-|Hij].
    + rewrite list_lookup_insert_eq by done. naive_solver.
    + rewrite list_lookup_insert_ne by done. split; [naive_solver|].
      intros Hx%Hh. destruct Hl; congruence.
  - rewrite Hh. destruct (decide (i = j)) as [<-|Hij].
    + rewrite list_lookup_insert_eq by done. rewrite Hi. naive_solver.
    + by rewrite list_lookup_insert_ne.
Qed.

Lemma pstep_locks_ok c c' : pstep c c' → locks_ok c → locks_ok c'.
Proof.
  intros [i Hi] (helds & HF & Hh). unfold sched in Hi.
  destruct (tasks c !! i) as [[p t]|] eqn:Ht; [|done].
  destruct (Forall2_lookup_r _ _ _ _ _ HF Ht) as (held & Hheld & Hnd & Ho). simpl in Ho.
  destruct t as [r|upd next|l t|l t]; simplify_eq/=.
  - exists helds. split; [|done]. simpl. rewrite <-(list_insert_id helds i held) by done.
    apply Forall2_insert; [done|]. split; [done|apply Ho].
  - destruct (holder c l) eqn:Hl; simplify_eq. destruct Ho as [Hr Ho].
    assert (l ∉ held) as Hn.
    { intros Hx. rewrite Forall_forall in Hr. specialize (Hr _ Hx). lia. }
    exists (<[i := l :: held]> helds). split; simpl.
    + apply Forall2_insert; [done|]. split; [by constructor|done].
    + intros l' j. eapply holder_insert; [done|done| | |by left].
      * intros x Hx. rewrite elem_of_cons. naive_solver.
      * intros k. rewrite elem_of_cons. naive_solver.
  - case_decide as Hl; simplify_eq. destruct held as [|h held]; [done|]. destruct Ho as [-> Ho].
    apply NoDup_cons in Hnd as [Hn Hnd].
    exists (<[i := held]> helds). split; simpl.
    + apply Forall2_insert; [done|]. done.
    + intros l' j. eapply holder_insert; [done|done| | |by right].
      * intros x Hx. rewrite elem_of_cons. naive_solver.
      * intros k. naive_solver.
Qed.

Lemma waiting_progress n c i p t :
  locks_ok c → tasks c !! i = Some (Task p t) → ¬ finished (Task p t) →
  match t with TLock l _ => (3 - rank l ≤ n)%nat | _ => True end → ∃ c', pstep c c'.
Proof.
  intros (helds & HF & Hh). revert i p t. induction n as [|n IH]; intros i p t Ht Hnf Hn.
  all: destruct (Forall2_lookup_r _ _ _ _ _ HF Ht) as (held & Hheld & _ & Ho); simpl in Ho.
  all: destruct t as [r|upd next|l t|l t]; [done|..].
  all: try (eexists; exists i; unfold sched; by rewrite Ht).
  all: try (destruct held as [|h held]; [done|]; destruct Ho as [-> _];
    assert (holder c l = Some i) as Hl by (apply Hh; eexists; split; [done|by constructor]);
    eexists; exists i; unfold sched; rewrite Ht, Hl; by rewrite decide_True by done).
  - destruct l; simpl in Hn; lia.
  - destruct (holder c l) as [j|] eqn:Hl; [|eexists; exists i; unfold sched; by rewrite Ht, Hl].
    apply Hh in Hl as (held' & Hj & Hin).
    destruct (Forall2_lookup_l _ _ _ _ _ HF Hj) as ([p' t'] & Ht' & _ & Ho'). simpl in Ho'.
    apply (IH j p' t'); [done|..].
    + destruct t'; [|done..]. simpl in Ho'. subst. by apply elem_of_nil in Hin.
    + destruct t' as [| |l' t'|]; [done|done| |done]. destruct Ho' as [Hr _].
      rewrite Forall_forall in Hr. specialize (Hr _ Hin). lia.
Qed.

(** ** Termination *)

Inductive tsub : thread R → thread R → Prop :=
| tsub_step upd next s : tsub (next s) (TStep upd next)
| tsub_lock l t : tsub t (TLock l t)
| tsub_unlock l t : tsub t (TUnlock l t).

Definition lstep (ts' ts : list (task R)) : Prop :=
  ∃ i p t p' t', ts !! i = Some (Task p t) ∧ ts' = <[i := Task p' t']> ts ∧ tsub t' t.

Lemma lstep_cons t : ∀ p ts, Acc lstep ts → Acc lstep (Task p t :: ts).
Proof.
  assert (Acc tsub t) as Ht.
  { induction t as [r|upd next IH|l t IH|l t IH]; constructor; intros t' Hs; inversion Hs; subst; auto. }
  induction Ht as [t _ IHt]. intros p ts Hts. induction Hts as [ts Hacc IHts].
  constructor. intros ts' ([|i] & p0 & t0 & p' & t' & Hi & -> & Hs); simplify_eq/=.
  - apply IHt; [done|]. by constructor.
  - apply IHts. by exists i, p0, t0, p', t'.
Qed.

Lemma lstep_acc ts : Acc lstep ts.
Proof.
  induction ts as [|[p t] ts IH]; [|by apply lstep_cons].
  constructor. intros ts' (i & p & t & p' & t' & Hi & _). by rewrite lookup_nil in Hi.
Qed.

Lemma pstep_lstep c c' : pstep c c' → lstep (tasks c') (tasks c).
Proof.
  intros [i Hi]. unfold sched in Hi. destruct (tasks c !! i) as [[p t]|] eqn:Ht; [|done].
  destruct t as [r|upd next|l t|l t]; repeat case_match; simplify_eq/=;
    eexists i, p, _, _, _; (split; [done|split; [done|constructor]]).
Qed.

Lemma pstep_sn c : sn pstep c.
Proof.
  pose proof (lstep_acc (tasks c)) as Hacc. remember (tasks c) as ts eqn:Hts.
  revert c Hts. induction Hacc as [ts _ IH]. intros c ->. constructor. intros c' Hs.
  eapply IH; [|done]. by apply pstep_lstep.
Qed.

(** A finished thread holds nothing. *)
Lemma holder_unfinished c l i :
  locks_ok c → holder c l = Some i → ∃ t, tasks c !! i = Some t ∧ ¬ finished t.
Proof.
  intros (helds & HF & Hh) (held & Hi & Hl)%Hh.
  destruct (Forall2_lookup_l _ _ _ _ _ HF Hi) as ([p t] & Ht & _ & Ho). exists (Task p t).
  split; [done|]. destruct t; simpl in *; [|by intros []..]. subst. by apply elem_of_nil in Hl.
Qed.

Lemma unfinished_or_free c :
  locks_ok c →
  (∃ c', pstep c c') ∨ (Forall finished (tasks c) ∧ ∀ l, holder c l = None).
Proof.
  intros Hok. destruct (decide (Forall finished (tasks c))) as [Hf|Hf].
  - right. split; [done|]. intros l. destruct (holder c l) as [i|] eqn:Hl; [|done].
    destruct (holder_unfinished _ _ _ Hok Hl) as (t & Ht & []). by eapply Forall_lookup in Hf.
  - left. apply not_Forall_Exists, Exists_exists in Hf as ([p t] & [i Ht]%list_elem_of_lookup_1 & Hn);
      [|apply _]. eapply (waiting_progress 3); [done|done|done|]. destruct t as [| |[]|]; simpl; lia || done.
Qed.

Lemma reach_locks_ok c c' : rtc pstep c c' → locks_ok c → locks_ok c'.
Proof. intros Hr. induction Hr; eauto using pstep_locks_ok. Qed.

(** Every run ends, with all threads finished and no mutex locked; on the way,
    a mutex is only held by a thread that is still running. *)
Lemma all_complete s (ts : list (task R)) :
  Forall (λ t, ordered [] (task_code t)) ts →
  sn pstep (start_config s ts) ∧
  ∀ c, rtc pstep (start_config s ts) c →
    ((∃ c', pstep c c') ∨ (Forall finished (tasks c) ∧ ∀ l, holder c l = None)) ∧
    ∀ l i, holder c l = Some i → ∃ t, tasks c !! i = Some t ∧ ¬ finished t.
Proof.
  intros Hts. split; [apply pstep_sn|]. intros c Hr.
  assert (locks_ok c) by (eapply reach_locks_ok; [done|by apply start_locks_ok]).
  split; [by apply unfinished_or_free|]. intros l i. by apply holder_unfinished.
Qed.

(** ** Running one thread

    A thread that gets all the steps goes where [run_thread] says: without any
    condition on the mutexes when it takes none, and otherwise when no other
    thread holds one. *)
Definition ran c i s' (r : R) c' : Prop :=
  rtc pstep c c' ∧ tasks c' = <[i := Task (skb s') (TDone r)]> (tasks c) ∧
  set_skb (skb s') (shared c') = s'.

Lemma ran_step c c1 i p1 t1 s' r c' :
  pstep c c1 → tasks c1 = <[i := Task p1 t1]> (tasks c) → ran c1 i s' r c' → ran c i s' r c'.
Proof.
  intros Hs Ht (Hr & Ht' & Hsh). split_and!; [by eapply rtc_l| |done].
  by rewrite Ht', Ht, list_insert_insert_eq.
Qed.

Lemma run_free (t : thread R) : ∀ c i p s' r,
  balanced [LConns] [] t → tasks c !! i = Some (Task p t) →
  run_thread t (set_skb p (shared c)) = (s', r) →
  ∃ c', ran c i s' r c' ∧ holder c' = holder c.
Proof.
  induction t as [r0|upd next IH|l t IH|l t IH]; intros c i p s' r Hb Ht Hrun; simpl in *.
  - simplify_eq. exists c. split; [|done]. split_and!; [done| |done]. by rewrite list_insert_id.
  - set (s := set_skb p (shared c)) in *.
    set (c1 := Config (upd s) (holder c) (<[i := Task (skb (upd s)) (next s)]> (tasks c))).
    destruct (IH s c1 i (skb (upd s)) s' r) as (c' & Hran & Hh); [done|..].
    + apply list_lookup_insert_eq. by eapply lookup_lt_Some.
    + by destruct (upd s).
    + exists c'. split; [|done]. eapply (ran_step c c1); [|done|done].
      exists i. unfold sched. by rewrite Ht.
  - exfalso. destruct Hb as [Hr _]. apply Forall_inv in Hr. destruct l; simpl in Hr; lia.
  - done.
Qed.

Lemma run_alone (t : thread R) : ∀ c i p held s' r,
  ordered held t → NoDup held →
  (∀ l, holder c l = if decide (l ∈ held) then Some i else None) →
  tasks c !! i = Some (Task p t) → run_thread t (set_skb p (shared c)) = (s', r) →
  ∃ c', ran c i s' r c' ∧ ∀ l, holder c' l = None.
Proof.
  induction t as [r0|upd next IH|l t IH|l t IH]; intros c i p held s' r Ho Hnd Hh Ht Hrun; simpl in *.
  - simplify_eq. exists c. split; [|intros l; by rewrite Hh].
    split_and!; [done| |done]. by rewrite list_insert_id.
  - set (s := set_skb p (shared c)) in *.
    set (c1 := Config (upd s) (holder c) (<[i := Task (skb (upd s)) (next s)]> (tasks c))).
    destruct (IH s c1 i (skb (upd s)) held s' r) as (c' & Hran & Hh'); [done..| | |].
    + apply list_lookup_insert_eq. by eapply lookup_lt_Some.
    + by destruct (upd s).
    + exists c'. split; [|done]. eapply (ran_step c c1); [|done|done].
      exists i. unfold sched. by rewrite Ht.
  - destruct Ho as [Hr Ho].
    assert (l ∉ held) as Hn.
    { intros Hx. rewrite Forall_forall in Hr. specialize (Hr _ Hx). lia. }
    set (c1 := Config (shared c) (set_holder (holder c) l (Some i)) (<[i := Task p t]> (tasks c))).
    destruct (IH c1 i p (l :: held) s' r) as (c' & Hran & Hh'); [done|by constructor| | |done|].
    + intros l'. simpl. unfold set_holder. rewrite Hh. repeat case_decide; set_solver.
    + apply list_lookup_insert_eq. by eapply lookup_lt_Some.
    + exists c'. split; [|done]. eapply (ran_step c c1); [|done|done].
      exists i. unfold sched. by rewrite Ht, Hh, decide_False.
  - destruct held as [|h held]; [done|]. destruct Ho as [-> Ho]. apply NoDup_cons in Hnd as [Hn Hnd].
    set (c1 := Config (shared c) (set_holder (holder c) l None) (<[i := Task p t]> (tasks c))).
    destruct (IH c1 i p held s' r) as (c' & Hran & Hh'); [done|done| | |done|].
    + intros l'. simpl. unfold set_holder. rewrite Hh. repeat case_decide; set_solver.
    + apply list_lookup_insert_eq. by eapply lookup_lt_Some.
    + exists c'. split; [|done]. eapply (ran_step c c1); [|done|done].
      exists i. unfold sched. rewrite Ht, Hh, (decide_True (P:=l ∈ l :: held)) by set_solver.
      by rewrite decide_True.
Qed.

Lemma lone_holder_runs c i p t s' r :
  locks_ok c → (∀ l j, holder c l = Some j → j = i) → tasks c !! i = Some (Task p t) →
  run_thread t (set_skb p (shared c)) = (s', r) → ∃ c', ran c i s' r c'.
Proof.
  intros (helds & HF & Hh) Hi Ht Hrun.
  destruct (Forall2_lookup_r _ _ _ _ _ HF Ht) as (held & Hheld & Hnd & Ho).
  destruct (run_alone t c i p held s' r) as (c' & Hc' & _); [done..| |done|done|by exists c'].
  intros l. case_decide as Hl; [apply Hh; by eexists|].
  destruct (holder c l) as [j|] eqn:Hj; [|done]. exfalso. apply Hl.
  pose proof (Hi _ _ Hj) as ->. apply Hh in Hj as (held' & ? & ?). by simplify_eq.
Qed.
End progress.
