(* ===== verification/Conc.v ===== *)
(** * The programs and RPCs as threads

    The handlers of [src/dataplane/ebpf/src/ingress], [egress] and [main.rs]
    and the methods of [BackendService] ([api-server/src/server.rs]), cut at
    every access to the maps.  A mutex is held as long as its guard is in
    scope in the source; the packet programs take none.  The iteration that
    collects the connections in [remove] is one step, as if the kernel's map
    stood still while it is read.  Each thread, run without interruption, is
    the sequential definition of [Ingress], [Egress], [Classifier] and
    [Server]. *)

From stdpp Require Import base list gmap strings pretty.
From S2P Require Import Prelude Common Platform Csum PlatformRef TcpState Ebpf Ingress Demo IngressProps Egress EgressProps Classifier NetUtils Server ServerProps Threads.

(** ** Packet programs *)
Section packets.
Context `{NT : NetworkTypes, AE : AyaEbpf, MP : Maps}.

Definition ThrBody (A : Type) : Type := Thr (ctl Z Z) A.

Definition update_tcp_conns_thr (hdr : list Z) (client_key : ClientKey)
    (lb_mapping : LoadBalancerMapping) : Thr Z LoadBalancerMapping :=
  match tcp_state lb_mapping with
  | Some st =>
      let '(st', transitioned) := process_tcp_state_transition hdr st in
      let lb_mapping :=
        MkMapping (backend lb_mapping) (backend_key lb_mapping) (Some st') in
      match st' with
      | Closed => _ ← atom (conns_remove client_key); mret lb_mapping
      | _ => if transitioned
             then _ ← atom (conns_insert client_key lb_mapping); mret lb_mapping
             else mret lb_mapping
      end
  | None => mret lb_mapping
  end.

Definition track_packet_thr (hdr : list Z) (client_key : ClientKey)
    (lb_mapping : LoadBalancerMapping) : ThrBody LoadBalancerMapping :=
  _ ← (if TcpHdr_rst hdr =? 1 then thr_try (atom (conns_remove client_key)) else mret tt);
  thr_try (update_tcp_conns_thr hdr client_key lb_mapping).

Definition tcp_new_connection_thr (original_daddr original_dport : Z) :
    ThrBody (Backend * BackendKey) :=
  let backend_key := MkBackendKey (from_be32 original_daddr) (from_be16 original_dport) in
  found ← atom (backends_get backend_key);
  backend_list ← thr_ok_or found (Throw TC_ACT_OK);
  found ← atom (indexes_get backend_key);
  backend_index ← thr_ok_or found (Throw TC_ACT_OK);
  if backends_len backend_list <=? backend_index then thr_return TC_ACT_OK else
  if Z.of_nat BACKENDS_ARRAY_CAPACITY <=? backend_index then thr_return TC_ACT_OK else
  backend ← atom (select_backend backend_list backend_index);
  _ ← thr_try (atom (indexes_insert backend_key (next_index backend_list backend_index)));
  mret (backend, backend_key).

Definition tcp_connection_thr (client_key : ClientKey) (original_daddr original_dport : Z) :
    ThrBody (LoadBalancerMapping * bool) :=
  found ← atom (conns_get client_key);
  match found with
  | Some val => mret (MkMapping (backend val) (backend_key val) (tcp_state val), false)
  | None =>
      '(backend, backend_key) ← tcp_new_connection_thr original_daddr original_dport;
      mret (MkMapping backend backend_key (Some TCPState_default), true)
  end.

Definition tcp_track_thr (tcp_hdr : nat) (client_key : ClientKey)
    (lb_mapping : LoadBalancerMapping) : ThrBody LoadBalancerMapping :=
  end_ ← atom (gets ctx_data_end);
  start ← atom (gets ctx_data);
  if (end_ <? start + hdr_LEN EthHdr + hdr_LEN Ipv4Hdr)%nat then thr_return TC_ACT_OK else
  tcp_hdr_ref ← thr_ok_or (as_ref tcp_hdr) (Throw TC_ACT_OK);
  hdr ← atom (rd_hdr TcpHdr tcp_hdr_ref);
  track_packet_thr hdr client_key lb_mapping.

Definition handle_tcp_ingress_thr : Thr Z Z := thr_body (
  ip_hdr ← thr_try (atom (ptr_at Ipv4Hdr (hdr_LEN EthHdr)));
  tcp_hdr ← thr_try (atom (ptr_at TcpHdr (hdr_LEN EthHdr + hdr_LEN Ipv4Hdr)));
  original_daddr ← atom (rd_field Ip_dst_addr ip_hdr);
  original_dport ← atom (rd_field Tcp_dest tcp_hdr);
  src_addr ← atom (rd_field Ip_src_addr ip_hdr);
  source ← atom (rd_field Tcp_source tcp_hdr);
  let client_key := MkClientKey (from_be32 src_addr) (from_be16 source) in
  '(lb_mapping, new_conn) ← tcp_connection_thr client_key original_daddr original_dport;
  lb_mapping ← tcp_track_thr tcp_hdr client_key lb_mapping;
  action ← atom (dnat_redirect TCP_CSUM_OFF TC_ACT_OK (backend lb_mapping)
                   original_daddr original_dport);
  if (new_conn : bool) then
    _ ← thr_try (atom (conns_insert client_key lb_mapping));
    thr_return (as_i32 action)
  else mret (as_i32 action)).

Definition handle_udp_ingress_thr : Thr Z Z := thr_body (
  ip_hdr ← thr_try (atom (ptr_at Ipv4Hdr (hdr_LEN EthHdr)));
  udp_hdr ← thr_try (atom (ptr_at UdpHdr (hdr_LEN EthHdr + hdr_LEN Ipv4Hdr)));
  original_daddr ← atom (rd_field Ip_dst_addr ip_hdr);
  original_dport ← atom (rd_field Udp_dest udp_hdr);
  let backend_key := MkBackendKey (from_be32 original_daddr) (from_be16 original_dport) in
  found ← atom (backends_get backend_key);
  backend_list ← thr_ok_or found (Throw TC_ACT_PIPE);
  found ← atom (indexes_get backend_key);
  backend_index ← thr_ok_or found (Throw TC_ACT_PIPE);
  if backends_len backend_list <=? backend_index then thr_return TC_ACT_PIPE else
  if Z.of_nat BACKENDS_ARRAY_CAPACITY <=? backend_index then thr_return TC_ACT_PIPE else
  backend ← atom (select_backend backend_list backend_index);
  _ ← atom (wr_field Ip_dst_addr ip_hdr (to_be32 (daddr backend)));
  _ ← atom (wr_field Udp_dest udp_hdr (to_be16 (as_u16 (dport backend))));
  src_addr ← atom (rd_field Ip_src_addr ip_hdr);
  let client_key := MkClientKey (from_be32 src_addr) 0 in
  _ ← thr_try (atom (conns_insert client_key (MkMapping backend backend_key None)));
  end_ ← atom (gets ctx_data_end);
  start ← atom (gets ctx_data);
  if (end_ <? start + hdr_LEN EthHdr + hdr_LEN Ipv4Hdr)%nat then thr_return TC_ACT_PIPE else
  action ← atom (dnat_redirect UDP_CSUM_OFF TC_ACT_PIPE backend original_daddr original_dport);
  _ ← thr_try (atom (indexes_insert backend_key (next_index backend_list backend_index)));
  mret (as_i32 action)).

Definition handle_tcp_egress_thr : Thr Z Z := thr_body (
  ip_hdr ← thr_try (atom (ptr_at Ipv4Hdr (hdr_LEN EthHdr)));
  tcp_hdr ← thr_try (atom (ptr_at TcpHdr (hdr_LEN EthHdr + hdr_LEN Ipv4Hdr)));
  client_addr ← atom (rd_field Ip_dst_addr ip_hdr);
  dest_port ← atom (rd_field Tcp_dest tcp_hdr);
  let client_key := MkClientKey (from_be32 client_addr) (from_be16 dest_port) in
  found ← atom (conns_get client_key);
  lb_mapping ← thr_ok_or found (Throw TC_ACT_PIPE);
  _ ← atom (wr_field Ip_src_addr ip_hdr (to_be32 (bk_ip (backend_key lb_mapping))));
  _ ← atom (wr_field Tcp_source tcp_hdr (from_be16 (as_u16 (bk_port (backend_key lb_mapping)))));
  end_ ← atom (gets ctx_data_end);
  start ← atom (gets ctx_data);
  if (end_ <? start + hdr_LEN EthHdr + hdr_LEN Ipv4Hdr)%nat then thr_return TC_ACT_OK else
  _ ← atom (wr_field Ip_check ip_hdr 0);
  _ ← atom (fill_ip_check ip_hdr);
  _ ← atom (wr_field Tcp_check tcp_hdr 0);
  tcp_hdr_ref ← thr_ok_or (as_ref tcp_hdr) (Throw TC_ACT_OK);
  hdr ← atom (rd_hdr TcpHdr tcp_hdr_ref);
  _ ← track_packet_thr hdr client_key lb_mapping;
  mret TC_ACT_PIPE).

Definition handle_icmp_egress_thr : Thr Z Z := thr_body (
  ip_hdr ← thr_try (atom (ptr_at Ipv4Hdr (hdr_LEN EthHdr)));
  let icmp_header_offset := (hdr_LEN EthHdr + hdr_LEN Ipv4Hdr)%nat in
  icmp_hdr ← thr_try (atom (ptr_at IcmpHdr icmp_header_offset));
  type_ ← atom (rd_field Icmp_type icmp_hdr);
  if negb (type_ =? ICMP_PROTO_TYPE_UNREACH) then thr_return TC_ACT_PIPE else
  dest_addr ← atom (rd_field Ip_dst_addr ip_hdr);
  let client_key := MkClientKey (to_be32 dest_addr) 0 in
  found ← atom (conns_get client_key);
  lb_mapping ← thr_ok_or found (Throw TC_ACT_PIPE);
  _ ← atom (wr_field Ip_src_addr ip_hdr (to_be32 (bk_ip (backend_key lb_mapping))));
  _ ← atom (wr_field Ip_check ip_hdr 0);
  _ ← atom (fill_ip_check ip_hdr);
  icmp_inner_ip_hdr ← thr_try (atom (ptr_at Ipv4Hdr (icmp_header_offset + hdr_LEN IcmpHdr)));
  _ ← atom (wr_field Ip_dst_addr icmp_inner_ip_hdr (to_be32 (bk_ip (backend_key lb_mapping))));
  _ ← atom (wr_field Ip_check icmp_inner_ip_hdr 0);
  _ ← atom (fill_ip_check icmp_inner_ip_hdr);
  _ ← thr_try (atom (conns_remove client_key));
  mret TC_ACT_PIPE).

Definition try_tc_ingress_thr : Thr Z Z :=
  eth_hdr ← atom (ptr_at EthHdr 0);
  ether_type ← atom (rd_field Eth_ether_type eth_hdr);
  if ether_type =? EtherType_Ipv4 then
    ipv4hdr ← atom (ptr_at Ipv4Hdr (hdr_LEN EthHdr));
    proto ← atom (rd_field Ip_proto ipv4hdr);
    if proto =? IpProto_Tcp then handle_tcp_ingress_thr
    else if proto =? IpProto_Udp then handle_udp_ingress_thr
    else mret TC_ACT_PIPE
  else mret TC_ACT_PIPE.

Definition try_tc_egress_thr : Thr Z Z :=
  eth_hdr ← atom (ptr_at EthHdr 0);
  ether_type ← atom (rd_field Eth_ether_type eth_hdr);
  if ether_type =? EtherType_Ipv4 then
    ipv4hdr ← atom (ptr_at Ipv4Hdr (hdr_LEN EthHdr));
    proto ← atom (rd_field Ip_proto ipv4hdr);
    if proto =? IpProto_Icmp then handle_icmp_egress_thr
    else if proto =? IpProto_Tcp then handle_tcp_egress_thr
    else mret TC_ACT_PIPE
  else mret TC_ACT_PIPE.

(** The match of [tc_ingress] and [tc_egress], whose value is discarded. *)
Definition discard_result_thr (t : Thr Z Z) : Thr Empty_set Z :=
  tbind t (λ o, TDone (match o with Fault => Fault | _ => Ret TC_ACT_OK end)).

Definition tc_ingress_thr : Thr Empty_set Z := discard_result_thr try_tc_ingress_thr.
Definition tc_egress_thr : Thr Empty_set Z := discard_result_thr try_tc_egress_thr.
End packets.

(** ** RPCs *)
Section rpcs.
Context `{MP : Maps, AM : !AyaMaps, NL : Netlink}.

Definition service_insert_thr (key : BackendKey) (bks : BackendList) : Thr Error unit :=
  with_lock LBackends (atom (on_map BACKENDS set_backends (λ m, map_insert m key bks 0))).

Definition insert_and_reset_index_thr (key : BackendKey) (bks : BackendList) : Thr Error unit :=
  _ ← service_insert_thr key bks;
  with_lock LIndexes (atom (on_map GATEWAY_INDEXES set_indexes (λ m, map_insert m key 0 0))).

Fixpoint purge_conns_thr (key : BackendKey)
    (items : list (outcome MapError (ClientKey * LoadBalancerMapping))) : Thr Error unit :=
  match items with
  | [] => mret tt
  | item :: items =>
      match item with
      | Ret (client_key, mapping) =>
          _ ← (if decide (backend_key mapping = key)
               then atom (on_map LB_CONNECTIONS set_conns (λ m, map_remove m client_key))
               else mret tt);
          purge_conns_thr key items
      | Err err => thr_throw (Msg (MapError_to_string err))
      | Fault => thr_fault
      end
  end.

Definition service_remove_thr (key : BackendKey) : Thr Error unit :=
  with_lock LBackends (
    _ ← atom (on_map BACKENDS set_backends (λ m, map_remove m key));
    with_lock LIndexes (
      _ ← atom (on_map GATEWAY_INDEXES set_indexes (λ m, map_remove m key));
      with_lock LConns (
        items ← atom (gets (λ s, conns_iter (LB_CONNECTIONS s)));
        purge_conns_thr key items))).

Definition on_error_thr {E E' A} (t : Thr E A) (h : E → Thr E' A) : Thr E' A :=
  tbind t (λ o, match o with
                | Ret a => TDone (Ret a)
                | Err e => h e
                | Fault => TDone Fault
                end).

(** The loop over the targets uses no map. *)
Definition service_update_thr (request : Targets) : Thr Status Confirmation :=
  match vip request with
  | None => thr_throw (MkStatus InvalidArgument "missing vip ip and port")
  | Some vip =>
      let key := MkBackendKey (vip_ip vip) (vip_port vip) in
      '(backends, count) ←
        atom (fill_backends (targets request) (replicate BACKENDS_ARRAY_CAPACITY Backend_default) 0);
      _ ← on_error_thr (insert_and_reset_index_thr key (MkBackendList backends count))
            (λ err, thr_throw (MkStatus Internal ("failure: " +:+ to_string err)));
      mret (MkConfirmation ("success, vip " +:+ Ipv4Addr_to_string (vip_ip vip) +:+ ":" +:+
        pretty (vip_port vip) +:+ " was updated with " +:+ pretty count +:+ " backends"))
  end.

Definition service_delete_thr (vip : Vip) : Thr Status Confirmation :=
  let key := MkBackendKey (vip_ip vip) (vip_port vip) in
  let addr_ddn := Ipv4Addr_to_string (vip_ip vip) in
  on_error_thr
    (_ ← service_remove_thr key;
     mret (MkConfirmation
       ("success, vip " +:+ addr_ddn +:+ ":" +:+ pretty (vip_port vip) +:+ " was deleted")))
    (λ err,
      if contains "syscall failed with code -1" (to_string err) then
        mret (MkConfirmation
          ("success, vip " +:+ addr_ddn +:+ ":" +:+ pretty (vip_port vip) +:+ " did not exist"))
      else thr_throw (MkStatus Internal ("failure: " +:+ to_string err))).
End rpcs.

(** ** Uninterrupted threads *)
Section sequential.
Context `{NT : NetworkTypes, AE : AyaEbpf, MP : Maps, AM : !AyaMaps, NL : Netlink}.

Lemma runs_on_error {E E' A} (t : Thr E A) m (h : E → Thr E' A) h' :
  runs t m → (∀ e, runs (h e) (h' e)) → runs (on_error_thr t h) (on_error m h').
Proof.
  intros Ht Hh s. unfold on_error_thr, on_error. rewrite run_tbind, Ht.
  destruct (m s) as [s' [a|e|]]; [done|apply Hh|done].
Qed.

Lemma runs_discard t m : runs t m → runs (discard_result_thr t) (discard_result m).
Proof.
  intros Ht s. unfold discard_result_thr, discard_result. rewrite run_tbind, Ht.
  by destruct (m s) as [s' [a|e|]].
Qed.

Create HintDb runs_threads.

Ltac runs_solve :=
  repeat first
  [ progress intros | progress cbv zeta
  | match goal with |- runs (match ?x with _ => _ end) _ => destruct x end
  | solve [auto with runs runs_threads nocore]
  | apply runs_bind | apply runs_body | apply runs_try | apply runs_with_lock
  | apply runs_on_error | apply runs_discard ].

Lemma runs_update_tcp_conns hdr c lb :
  runs (update_tcp_conns_thr hdr c lb) (update_tcp_conns hdr c lb).
Proof. unfold update_tcp_conns_thr, update_tcp_conns. runs_solve. Qed.
Hint Resolve runs_update_tcp_conns : runs_threads.

Lemma runs_track_packet hdr c lb : runs (track_packet_thr hdr c lb) (track_packet hdr c lb).
Proof. unfold track_packet_thr, track_packet. runs_solve. Qed.
Hint Resolve runs_track_packet : runs_threads.

Lemma runs_tcp_new_connection a p : runs (tcp_new_connection_thr a p) (tcp_new_connection a p).
Proof. unfold tcp_new_connection_thr, tcp_new_connection. runs_solve. Qed.
Hint Resolve runs_tcp_new_connection : runs_threads.

Lemma runs_tcp_connection c a p : runs (tcp_connection_thr c a p) (tcp_connection c a p).
Proof. unfold tcp_connection_thr, tcp_connection. runs_solve. Qed.
Hint Resolve runs_tcp_connection : runs_threads.

Lemma runs_tcp_track h c lb : runs (tcp_track_thr h c lb) (tcp_track h c lb).
Proof. unfold tcp_track_thr, tcp_track. runs_solve. Qed.
Hint Resolve runs_tcp_track : runs_threads.

Lemma runs_handle_tcp_ingress : runs handle_tcp_ingress_thr handle_tcp_ingress.
Proof. unfold handle_tcp_ingress_thr, handle_tcp_ingress. runs_solve. Qed.

Lemma runs_handle_udp_ingress : runs handle_udp_ingress_thr handle_udp_ingress.
Proof. unfold handle_udp_ingress_thr, handle_udp_ingress. runs_solve. Qed.

Lemma runs_handle_tcp_egress : runs handle_tcp_egress_thr handle_tcp_egress.
Proof. unfold handle_tcp_egress_thr, handle_tcp_egress. runs_solve. Qed.

Lemma runs_handle_icmp_egress : runs handle_icmp_egress_thr handle_icmp_egress.
Proof. unfold handle_icmp_egress_thr, handle_icmp_egress. runs_solve. Qed.
Hint Resolve runs_handle_tcp_ingress runs_handle_udp_ingress runs_handle_tcp_egress
  runs_handle_icmp_egress : runs_threads.

Lemma runs_tc_ingress : runs tc_ingress_thr tc_ingress.
Proof. apply runs_discard. unfold try_tc_ingress_thr, try_tc_ingress. runs_solve. Qed.

Lemma runs_tc_egress : runs tc_egress_thr tc_egress.
Proof. apply runs_discard. unfold try_tc_egress_thr, try_tc_egress. runs_solve. Qed.

Lemma runs_purge_conns key items : runs (purge_conns_thr key items) (purge_conns key items).
Proof.
  induction items as [|[[c lb]|e|] items IH]; simpl; [auto with runs..| |auto with runs|auto with runs].
  apply runs_bind; [|done]. case_decide; auto with runs.
Qed.
Hint Resolve runs_purge_conns : runs_threads.

Lemma runs_service_update request : runs (service_update_thr request) (service_update request).
Proof.
  unfold service_update_thr, service_update, insert_and_reset_index_thr, insert_and_reset_index,
    service_insert_thr, service_insert. runs_solve.
Qed.

Lemma runs_service_delete v : runs (service_delete_thr v) (service_delete v).
Proof.
  unfold service_delete_thr, service_delete, service_remove_thr, service_remove. runs_solve.
Qed.

(** Threads refine the sequential definitions.  A packet program or an RPC
    that is not interrupted changes the state and answers exactly as the
    sequential definition of it says; the mutexes only decide when it may run. *)
Theorem threads_sequential (s : kstate) request v :
  run_thread tc_ingress_thr s = tc_ingress s ∧ run_thread tc_egress_thr s = tc_egress s ∧
  run_thread (service_update_thr request) s = service_update request s ∧
  run_thread (service_delete_thr v) s = service_delete v s.
Proof.
  split_and!; [apply runs_tc_ingress|apply runs_tc_egress|apply runs_service_update
              |apply runs_service_delete].
Qed.
End sequential.
