(* ===== verification/ConcProps.v ===== *)
(** * All interleavings of packets and RPCs

    Any number of packet programs and RPCs, interleaved at the level of single
    map operations: no interleaving faults or leaves an ill-typed map, and
    every one comes to an end with all requests answered. *)

From stdpp Require Import base list gmap strings relations pretty.
From S2P Require Import Prelude Common Platform Csum PlatformRef TcpState Ebpf Ingress Demo IngressProps Egress EgressProps Classifier NetUtils Server ServerProps System Threads Progress Conc.

(** ** Jobs *)
Inductive answer :=
| PacketAnswer (o : outcome Empty_set Z)
| RpcAnswer (o : outcome Status Confirmation).

Inductive job :=
| JIngress (p : list Z)
| JEgress (p : list Z)
| JUpdate (request : Targets)
| JDelete (v : Vip).

Section jobs.
Context `{NT : NetworkTypes, AE : AyaEbpf, MP : Maps, AM : !AyaMaps, NL : Netlink}.

Definition job_task (j : job) : task answer :=
  match j with
  | JIngress p => Task p (tbind tc_ingress_thr (λ o, TDone (PacketAnswer o)))
  | JEgress p => Task p (tbind tc_egress_thr (λ o, TDone (PacketAnswer o)))
  | JUpdate request => Task [] (tbind (service_update_thr request) (λ o, TDone (RpcAnswer o)))
  | JDelete v => Task [] (tbind (service_delete_thr v) (λ o, TDone (RpcAnswer o)))
  end.

Definition jobs_config (s : kstate) (js : list job) : config answer :=
  start_config s (job_task <$> js).

(** Requests carry [u32]s. *)
Definition job_wf (j : job) : Prop :=
  match j with JUpdate request => Forall target_wf (targets request) | _ => True end.

(** The Gateway an RPC changes. *)
Definition job_key (j : job) : option BackendKey :=
  match j with
  | JUpdate request => vip_key <$> vip request
  | JDelete v => Some (vip_key v)
  | _ => None
  end.

(** What survives every interleaving: the maps are well-typed, and no index
    lies outside the array. *)
Definition conc_inv (s : kstate) : Prop :=
  maps_wf s ∧ ∀ k i, bpf_get (GATEWAY_INDEXES s) k = Some i → i < Z.of_nat BACKENDS_ARRAY_CAPACITY.

Definition answer_ok (a : answer) : Prop :=
  match a with
  | PacketAnswer o => o = Ret TC_ACT_OK
  | RpcAnswer o => o ≠ Fault
  end.
End jobs.

(** ** Invariants of the steps

    What a predicate on the maps must satisfy to be kept by every step of
    every thread.  [GL k bl] is what is known of a list [bl] a thread has read
    for [k], possibly long ago; [RK] are the Gateways RPCs may address. *)
Class MapsInv `{MP : Maps} (I : kstate → Prop) (GL : BackendKey → BackendList → Prop)
    (RK : BackendKey → Prop) : Prop := {
  mi_free : packet_free I;
  mi_wf s : I s → conc_inv s;
  mi_list s k bl : I s → bpf_get (BACKENDS s) k = Some bl → GL k bl;
  mi_next s k bl i m : I s → GL k bl → backend_list_wf bl → 0 ≤ i < backends_len bl →
    (∀ k', bpf_get m k' = if decide (k' = k) then Some (next_index bl i)
                          else bpf_get (GATEWAY_INDEXES s) k') → I (set_indexes m s);
  mi_indexes s m : I s → map_equiv (GATEWAY_INDEXES s) m → I (set_indexes m s);
  mi_conns s m : I s → conc_inv (set_conns m s) → I (set_conns m s);
  mi_rpc_backends s key m : I s → RK key →
    (∀ k, k ≠ key → bpf_get m k = bpf_get (BACKENDS s) k) →
    conc_inv (set_backends m s) → I (set_backends m s);
  mi_rpc_indexes s key m : I s → RK key →
    (∀ k, k ≠ key → bpf_get m k = bpf_get (GATEWAY_INDEXES s) k) →
    conc_inv (set_indexes m s) → I (set_indexes m s);
}.

(** ** Rules for the steps of the threads *)
Section rules.
Context `{NT : NetworkTypes, AE : AyaEbpf, MP : Maps}.
Context `{NTS : !NetworkTypesSpec, AES : !AyaEbpfSpec, MS : !MapsSpec}.
Context {I : kstate → Prop} {GL : BackendKey → BackendList → Prop} {RK : BackendKey → Prop}.
Context `{MI : !MapsInv I GL RK}.
Implicit Types p : list Z.

Lemma keeps_gets {E A} Q (f : kstate → A) p :
  (∀ s, I s → skb s = p → Q p (Ret (f s))) → keeps I Q p (atom (gets f) : Thr E A).
Proof. intros HQ s Hs <-. split; [done|]. by apply HQ. Qed.

Lemma keeps_ptr_at T off Q p :
  ((off + size_of T ≤ length p)%nat → Q p (Ret off)) →
  Q p (Err TC_ACT_OK) → keeps I Q p (atom (ptr_at T off)).
Proof. intros HO HE. apply keeps_atom. intros s Hs <-. by apply wp_ptr_at; auto. Qed.

Lemma keeps_rd_field {E} f hdr Q p :
  (hdr + size_of (field_hdr f) ≤ length p)%nat → (∀ v, Q p (Ret v)) →
  keeps I Q p (atom (rd_field (E:=E) f hdr)).
Proof. intros Hb HQ. apply keeps_atom. intros s Hs <-. apply wp_rd_field; [done|]. auto. Qed.

Lemma keeps_wr_field {E} f hdr v Q p :
  (hdr + size_of (field_hdr f) ≤ length p)%nat →
  (∀ p', length p' = length p → Q p' (Ret tt)) →
  keeps I Q p (atom (wr_field (E:=E) f hdr v)).
Proof.
  intros Hb HQ. apply keeps_atom. intros s Hs <-. apply wp_wr_field; [done|].
  intros p' _ Hl. split; [by apply mi_free|auto].
Qed.

Lemma keeps_rd_hdr {E} T hdr Q p :
  (hdr + size_of T ≤ length p)%nat → (∀ l, Q p (Ret l)) →
  keeps I Q p (atom (rd_hdr (E:=E) T hdr)).
Proof. intros Hb HQ. apply keeps_atom. intros s Hs <-. apply wp_rd_hdr; [done|]. auto. Qed.

Lemma keeps_fill_ip_check {E} h Q p :
  (h + size_of Ipv4Hdr ≤ length p)%nat → (∀ p', length p' = length p → Q p' (Ret tt)) →
  keeps I Q p (atom (fill_ip_check (E:=E) h)).
Proof.
  intros Hb HQ. apply keeps_atom. intros s Hs <-. apply wp_fill_ip_check; [done|].
  intros p' _ _ Hl _. split; [by apply mi_free|auto].
Qed.

Lemma keeps_select_backend bl i Q p :
  backend_list_wf bl → 0 ≤ i < Z.of_nat BACKENDS_ARRAY_CAPACITY →
  (∀ b, backend_wf b → Q p (Ret b)) → keeps I Q p (atom (select_backend bl i)).
Proof.
  intros Hbl Hi HQ. apply keeps_atom. intros s Hs <-. apply wp_select_backend; [done|done|].
  intros b Hb. split; [done|]. eauto with blixt.
Qed.

Lemma keeps_dnat_redirect off err b a d Q p :
  (∀ p' o, o ≠ Fault → Q p' o) → keeps I Q p (atom (dnat_redirect off err b a d)).
Proof.
  intros HQ. apply keeps_atom. intros s Hs <-.
  apply wp_dnat_redirect; intros p' _; (split; [by apply mi_free|by apply HQ]).
Qed.

(** Reading a map: what is found may be out of date by the next step. *)
Lemma keeps_backends_get {E} k Q p :
  Q p (Ret None) → (∀ bl, backend_list_wf bl → GL k bl → Q p (Ret (Some bl))) →
  keeps I Q p (atom (backends_get (E:=E) k)).
Proof.
  intros HN HS. apply keeps_gets. intros s Hs _. pose proof (mi_wf s Hs) as [(Hb & _) _].
  destruct (bpf_get (BACKENDS s) k) as [bl|] eqn:E0; [|done].
  apply HS; [by eapply Hb|by eapply mi_list].
Qed.

Lemma keeps_indexes_get {E} k Q p :
  Q p (Ret None) → (∀ i, 0 ≤ i < Z.of_nat BACKENDS_ARRAY_CAPACITY → Q p (Ret (Some i))) →
  keeps I Q p (atom (indexes_get (E:=E) k)).
Proof.
  intros HN HS. apply keeps_gets. intros s [(_ & Hi & _) Hlt]%mi_wf _.
  destruct (bpf_get (GATEWAY_INDEXES s) k) as [i|] eqn:E0; [|done]. apply HS.
  specialize (Hi _ _ E0). specialize (Hlt _ _ E0). unfold fits in Hi. lia.
Qed.

Lemma keeps_conns_get {E} k Q p :
  Q p (Ret None) → (∀ lb, lb_mapping_wf lb → Q p (Ret (Some lb))) →
  keeps I Q p (atom (conns_get (E:=E) k)).
Proof.
  intros HN HS. apply keeps_gets. intros s [(_ & _ & Hc) _]%mi_wf _.
  destruct (bpf_get (LB_CONNECTIONS s) k) as [lb|] eqn:E0; [|done]. by eapply HS, Hc.
Qed.

Lemma keeps_conns_insert k v Q p :
  lb_mapping_wf v → Q p (Ret tt) → (∀ e, Q p (Err e)) → keeps I Q p (atom (conns_insert k v)).
Proof.
  intros Hv HO HE. apply keeps_atom. intros s Hs <-. pose proof (mi_wf s Hs) as [Hwf Hi].
  apply wp_conns_insert.
  - intros m Hm. split; [|done]. apply mi_conns; [done|]. split; [by eapply maps_wf_conns_insert|done].
  - intros m e _ Hm. split; [|apply HE]. apply mi_conns; [done|].
    split; [by apply maps_wf_conns_equiv|done].
Qed.

Lemma keeps_conns_remove k Q p :
  Q p (Ret tt) → (∀ e, Q p (Err e)) → keeps I Q p (atom (conns_remove k)).
Proof.
  intros HO HE. apply keeps_atom. intros s Hs <-. pose proof (mi_wf s Hs) as [Hwf Hi].
  apply wp_conns_remove.
  - intros m _ Hm. split; [|done]. apply mi_conns; [done|]. split; [by eapply maps_wf_conns_remove|done].
  - intros m e _ Hm. split; [|apply HE]. apply mi_conns; [done|].
    split; [by apply maps_wf_conns_equiv|done].
Qed.

Lemma keeps_next_index k bl i Q p :
  GL k bl → backend_list_wf bl → 0 ≤ i < backends_len bl → Q p (Ret tt) → (∀ e, Q p (Err e)) →
  keeps I Q p (atom (indexes_insert k (next_index bl i))).
Proof.
  intros Hgl Hbl Hi HO HE. apply keeps_atom. intros s Hs <-. apply wp_indexes_insert.
  - intros m Hm. split; [|done]. by eapply mi_next.
  - intros m e _ Hm. split; [|apply HE]. by apply mi_indexes.
Qed.

Lemma vip_of_wf a d : backend_key_wf (vip_of a d).
Proof.
  split; [apply (swap_bytes_bound 4)|]. simpl.
  pose proof (swap_bytes_bound 2 d) as Hb. unfold fits. simpl in Hb. lia.
Qed.
End rules.

Ltac keeps_step :=
  match goal with
  | |- keeps _ _ _ (thr_body _) => apply keeps_body
  | |- keeps _ _ _ (mbind _ _) => apply keeps_seq
  | |- keeps _ _ _ (thr_try _) => apply keeps_try
  | |- keeps _ _ _ (thr_ok_or _ _) => apply keeps_ok_or
  | |- keeps _ _ _ (mret _) => apply keeps_ret
  | |- keeps _ _ _ (thr_throw _) => apply keeps_throw
  | |- keeps _ _ _ (thr_return _) => apply keeps_return
  | |- keeps _ _ _ (atom (gets _)) => apply keeps_gets; intros ? _ ?
  | |- keeps _ _ _ (atom (ptr_at _ _)) => apply keeps_ptr_at; [intros ?|]
  | |- keeps _ _ _ (atom (rd_field _ _)) => apply keeps_rd_field; [bounds|intros ?]
  | |- keeps _ _ _ (atom (wr_field _ _ _)) => apply keeps_wr_field; [bounds|intros ? ?]
  | |- keeps _ _ _ (atom (rd_hdr _ _)) => apply keeps_rd_hdr; [bounds|intros ?]
  | |- keeps _ _ _ (atom (fill_ip_check _)) => apply keeps_fill_ip_check; [bounds|intros ? ?]
  | |- keeps _ _ _ (atom (dnat_redirect _ _ _ _ _)) => apply keeps_dnat_redirect; intros ? [?|[?|?]|] ?
  | |- keeps _ _ _ (atom (backends_get _)) => apply keeps_backends_get; [|intros ? ? ?]
  | |- keeps _ _ _ (atom (indexes_get _)) => apply keeps_indexes_get; [|intros ? ?]
  | |- keeps _ _ _ (atom (conns_get _)) => apply keeps_conns_get; [|intros ? ?]
  | |- keeps _ _ _ (atom (conns_insert _ _)) => apply keeps_conns_insert; [|..|intros ?]
  | |- keeps _ _ _ (atom (conns_remove _)) => apply keeps_conns_remove; [|intros ?]
  | |- keeps _ _ _ (atom (indexes_insert _ (next_index _ _))) =>
      apply keeps_next_index; [done|done|lia|..|intros ?]
  | |- keeps _ _ _ (if ?b then _ else _) => destruct b eqn:?
  end.

Ltac keeps_run := repeat first [ done | progress cbn [as_ref] | keeps_step ].

Section safety.
Context `{NT : NetworkTypes, AE : AyaEbpf, MP : Maps}.
Context `{NTS : !NetworkTypesSpec, AES : !AyaEbpfSpec, MS : !MapsSpec}.
Context {I : kstate → Prop} {GL : BackendKey → BackendList → Prop} {RK : BackendKey → Prop}.
Context `{MI : !MapsInv I GL RK}.

(** The outcome of a thread of a packet program. *)
Definition no_fault {E A} (p : list Z) (o : outcome E A) : Prop := o ≠ Fault.

Lemma keeps_update_tcp_conns hdr c lb Q p :
  lb_mapping_wf lb → (∀ lb', lb_mapping_wf lb' → Q p (Ret lb')) → (∀ e, Q p (Err e)) →
  keeps I Q p (update_tcp_conns_thr hdr c lb).
Proof.
  intros Hlb HO HE. unfold update_tcp_conns_thr.
  destruct (tcp_state lb) as [st|]; [|by apply HO].
  destruct (process_tcp_state_transition hdr st) as [st' moved].
  destruct st'; try (destruct moved); repeat keeps_step; auto.
Qed.

Lemma keeps_track_packet hdr c lb Q p :
  lb_mapping_wf lb → (∀ lb', lb_mapping_wf lb' → Q p (Ret lb')) → (∀ e, Q p (Err (Throw e))) →
  keeps I Q p (track_packet_thr hdr c lb).
Proof.
  intros Hlb HO HE. unfold track_packet_thr. keeps_step.
  assert (keeps I Q p (thr_try (update_tcp_conns_thr hdr c lb))) as Hu.
  { keeps_step. by apply keeps_update_tcp_conns. }
  destruct (TcpHdr_rst hdr =? 1); repeat first [exact Hu | apply HE | keeps_step].
Qed.

Lemma keeps_tcp_connection c a d Q p :
  (∀ lb new, lb_mapping_wf lb → Q p (Ret (lb, new))) → (∀ e, Q p (Err e)) →
  keeps I Q p (tcp_connection_thr c a d).
Proof.
  intros HO HE. unfold tcp_connection_thr, tcp_new_connection_thr. keeps_step. keeps_step.
  - repeat keeps_step; auto.
    + match goal with Hb : backend_list_wf ?bl |- _ =>
        apply keeps_select_backend; [done|lia|]; intros b Hb0 end.
      repeat keeps_step; auto. apply HO. split; [done|apply vip_of_wf].
  - apply keeps_ret, HO. done.
Qed.

Lemma keeps_tcp_ingress p : keeps I no_fault p handle_tcp_ingress_thr.
Proof.
  unfold handle_tcp_ingress_thr. keeps_run. apply keeps_tcp_connection; [|by intros []].
  intros lb new Hlb. unfold tcp_track_thr. keeps_run.
  apply keeps_track_packet; [done| |done]. intros lb' Hlb'. keeps_run.
Qed.

Lemma keeps_udp_ingress p : keeps I no_fault p handle_udp_ingress_thr.
Proof.
  unfold handle_udp_ingress_thr. keeps_run.
  apply keeps_select_backend; [done|lia|]. intros b Hb. keeps_run. by split; [|apply vip_of_wf].
Qed.

Lemma keeps_tcp_egress p : keeps I no_fault p handle_tcp_egress_thr.
Proof.
  unfold handle_tcp_egress_thr. keeps_run. apply keeps_track_packet; [done| |done].
  intros lb' Hlb'. keeps_run.
Qed.

Lemma keeps_icmp_egress p : keeps I no_fault p handle_icmp_egress_thr.
Proof. unfold handle_icmp_egress_thr. keeps_run. Qed.

Lemma keeps_discard t p :
  keeps I no_fault p t →
  keeps I (λ _ o, o = Ret TC_ACT_OK) p (discard_result_thr t).
Proof. intros Ht. apply keeps_bind. eapply keeps_mono; [|exact Ht]. intros p' [r|e|] Ho; done. Qed.

Lemma keeps_tc_ingress p : keeps I (λ _ o, o = Ret TC_ACT_OK) p tc_ingress_thr.
Proof.
  apply keeps_discard. unfold try_tc_ingress_thr. keeps_run; [apply keeps_tcp_ingress|apply keeps_udp_ingress].
Qed.

Lemma keeps_tc_egress p : keeps I (λ _ o, o = Ret TC_ACT_OK) p tc_egress_thr.
Proof.
  apply keeps_discard. unfold try_tc_egress_thr. keeps_run; [apply keeps_icmp_egress|apply keeps_tcp_egress].
Qed.
End safety.

(** ** RPCs *)
Lemma keeps_on_error `{MP : Maps} {E E' A} I Q (t : Thr E A) (h : E → Thr E' A) p :
  keeps I (λ p' o, match o with
                   | Ret a => Q p' (Ret a)
                   | Err e => keeps I Q p' (h e)
                   | Fault => Q p' Fault end) p t → keeps I Q p (on_error_thr t h).
Proof. intros Ht. apply keeps_bind. eapply keeps_mono; [|exact Ht]. by intros p' [a|e|]. Qed.

Section rpc_safety.
Context `{NT : NetworkTypes, AE : AyaEbpf, MP : Maps, AM : !AyaMaps, NL : Netlink}.
Context `{NTS : !NetworkTypesSpec, AES : !AyaEbpfSpec, MS : !MapsSpec, AMS : !AyaMapsSpec}.
Context `{NLS : !NetlinkSpec}.
Context {I : kstate → Prop} {GL : BackendKey → BackendList → Prop} {RK : BackendKey → Prop}.
Context `{MI : !MapsInv I GL RK}.
Implicit Types p : list Z.

Lemma conc_inv_backends mb s :
  conc_inv s → (∀ k bl, bpf_get mb k = Some bl → backend_list_wf bl) → conc_inv (set_backends mb s).
Proof. intros [Hwf Hi] Hb. split; [by apply maps_wf_backends|done]. Qed.

Lemma conc_inv_indexes mi s :
  conc_inv s → (∀ k i, bpf_get mi k = Some i → i = 0 ∨ bpf_get (GATEWAY_INDEXES s) k = Some i) →
  conc_inv (set_indexes mi s).
Proof.
  intros [Hwf Hi] Hm. split.
  - apply maps_wf_set_indexes; [done|]. intros k i [->|Hg]%Hm; [done|by eapply (proj1 (proj2 Hwf))].
  - intros k i [->|Hg]%Hm; [done|by eapply Hi].
Qed.

Lemma conc_inv_conns m s :
  conc_inv s → (∀ c lb, bpf_get m c = Some lb → bpf_get (LB_CONNECTIONS s) c = Some lb) →
  conc_inv (set_conns m s).
Proof.
  intros [Hwf Hi] Hm. split; [|done]. apply maps_wf_set_conns; [done|].
  intros c lb Hc%Hm. by eapply (proj2 (proj2 Hwf)).
Qed.

Lemma keeps_insert_backends key bl Q p :
  RK key → backend_list_wf bl → Q p (Ret tt) → (∀ e, Q p (Err e)) →
  keeps I Q p (atom (on_map BACKENDS set_backends (λ m, map_insert m key bl 0))).
Proof.
  intros Hk Hbl HO HE. apply keeps_atom. intros s Hs <-.
  pose proof (mi_wf s Hs) as Hc. pose proof Hc as [[Hb _] _].
  apply wp_on_map_insert.
  - intros m Hm. split; [|exact HO]. eapply mi_rpc_backends; [done|done| |].
    + intros k Hne. by rewrite Hm, decide_False.
    + apply conc_inv_backends; [exact Hc|]. intros k bl'. rewrite Hm.
      case_decide; [by intros [= <-]|apply Hb].
  - intros m e _ Hm. split; [|apply HE]. eapply mi_rpc_backends; [done|done|by intros; apply Hm|].
    apply conc_inv_backends; [exact Hc|]. intros k bl'. rewrite (Hm k). apply Hb.
Qed.

Lemma keeps_reset_index key Q p :
  RK key → Q p (Ret tt) → (∀ e, Q p (Err e)) →
  keeps I Q p (atom (on_map GATEWAY_INDEXES set_indexes (λ m, map_insert m key 0 0))).
Proof.
  intros Hk HO HE. apply keeps_atom. intros s Hs <-. pose proof (mi_wf s Hs) as Hc.
  apply wp_on_map_insert.
  - intros m Hm. split; [|exact HO]. eapply mi_rpc_indexes; [done|done| |].
    + intros k Hne. by rewrite Hm, decide_False.
    + apply conc_inv_indexes; [exact Hc|]. intros k i. rewrite Hm.
      case_decide; [intros [= <-]; by left|by right].
  - intros m e _ Hm. split; [|apply HE]. by apply mi_indexes.
Qed.

Lemma keeps_remove_backends key Q p :
  RK key → Q p (Ret tt) → (∀ e, Q p (Err e)) →
  keeps I Q p (atom (on_map BACKENDS set_backends (λ m, map_remove m key))).
Proof.
  intros Hk HO HE. apply keeps_atom. intros s Hs <-.
  pose proof (mi_wf s Hs) as Hc. pose proof Hc as [[Hb _] _].
  apply wp_on_map_remove.
  - intros m _ Hm. split; [|exact HO]. eapply mi_rpc_backends; [done|done| |].
    + intros k Hne. by rewrite Hm, decide_False.
    + apply conc_inv_backends; [exact Hc|]. intros k bl. rewrite Hm.
      case_decide; [done|apply Hb].
  - intros m e _ _ Hm. split; [|apply HE]. eapply mi_rpc_backends; [done|done|by intros; apply Hm|].
    apply conc_inv_backends; [exact Hc|]. intros k bl. rewrite (Hm k). apply Hb.
Qed.

Lemma keeps_remove_index key Q p :
  RK key → Q p (Ret tt) → (∀ e, Q p (Err e)) →
  keeps I Q p (atom (on_map GATEWAY_INDEXES set_indexes (λ m, map_remove m key))).
Proof.
  intros Hk HO HE. apply keeps_atom. intros s Hs <-. pose proof (mi_wf s Hs) as Hc.
  apply wp_on_map_remove.
  - intros m _ Hm. split; [|exact HO]. eapply mi_rpc_indexes; [done|done| |].
    + intros k Hne. by rewrite Hm, decide_False.
    + apply conc_inv_indexes; [exact Hc|]. intros k i. rewrite Hm. case_decide; [done|by right].
  - intros m e _ _ Hm. split; [|apply HE]. by apply mi_indexes.
Qed.

Lemma keeps_remove_conn c Q p :
  Q p (Ret tt) → (∀ e, Q p (Err e)) →
  keeps I Q p (atom (on_map LB_CONNECTIONS set_conns (λ m, map_remove m c))).
Proof.
  intros HO HE. apply keeps_atom. intros s Hs <-. pose proof (mi_wf s Hs) as Hc.
  apply wp_on_map_remove; [intros m _ Hm|intros m e _ _ Hm]; (split; [|exact HO || apply HE]);
    (apply mi_conns; [exact Hs|]; apply conc_inv_conns; [exact Hc|]); intros c' lb.
  - rewrite Hm. by case_decide.
  - by rewrite (Hm c').
Qed.

Lemma keeps_purge_conns key items Q p :
  Fault ∉ items → (∀ o, o ≠ Fault → Q p o) → keeps I Q p (purge_conns_thr key items).
Proof.
  intros Hf HQ. induction items as [|[[c lb]|e|] items IH]; simpl; [by apply HQ| |by apply HQ|set_solver].
  apply keeps_seq. case_decide; [|apply IH; set_solver].
  apply keeps_remove_conn; [apply IH; set_solver|by intros; apply HQ].
Qed.

(** The loop over the targets yields a well-typed list. *)
Lemma keeps_fill_backends ts Q p :
  Forall target_wf ts →
  (∀ bs n, backend_list_wf (MkBackendList bs n) → Q p (Ret (bs, n))) → (∀ e, Q p (Err e)) →
  keeps I Q p (atom (fill_backends ts (replicate BACKENDS_ARRAY_CAPACITY Backend_default) 0)).
Proof.
  intros Hts HO HE. apply keeps_atom. intros s Hs <-.
  pose proof (fill_backends_spec ts [] s) as Hf. cbn [length] in Hf. specialize (Hf ltac:(lia)).
  cbv zeta in Hf. rewrite Nat.sub_0_r in Hf.
  change (backend_array []) with (replicate BACKENDS_ARRAY_CAPACITY Backend_default) in Hf.
  change (Z.of_nat 0) with 0 in Hf. unfold wp.
  destruct (mapM target_backend (take _ ts)) as [bs|] eqn:Hm; [|destruct Hf as [msg ->]; split; [exact Hs|apply HE]].
  case_decide as Hlen; [|destruct Hf as [msg ->]; split; [exact Hs|apply HE]].
  rewrite Hf. split; [done|]. apply HO. rewrite take_ge in Hm by lia.
  by apply (backend_list_of_wf ts).
Qed.

Lemma keeps_service_update request p :
  Forall target_wf (targets request) → (∀ v, vip request = Some v → RK (vip_key v)) →
  keeps I no_fault p (service_update_thr request).
Proof.
  intros Hts Hk. unfold service_update_thr. destruct (vip request) as [v|]; [|done].
  specialize (Hk v eq_refl).
  apply keeps_seq, keeps_fill_backends; [done| |done]. intros bs n Hbl. apply keeps_seq, keeps_on_error.
  apply keeps_seq, keeps_with_lock, keeps_insert_backends; [done|done| |done].
  by apply keeps_with_lock, keeps_reset_index.
Qed.

Lemma keeps_service_delete v p : RK (vip_key v) → keeps I no_fault p (service_delete_thr v).
Proof.
  intros Hk. unfold service_delete_thr.
  match goal with |- keeps _ _ _ (on_error_thr _ ?h) =>
    assert (∀ p e, keeps I no_fault p (h e)) as He by (intros p' e; simpl; by case_match) end.
  apply keeps_on_error, keeps_seq.
  unfold service_remove_thr.
  apply keeps_with_lock, keeps_seq, keeps_remove_backends; [done| |apply He].
  apply keeps_with_lock, keeps_seq, keeps_remove_index; [done| |apply He].
  apply keeps_with_lock, keeps_seq, keeps_gets. intros s Hs _.
  apply keeps_purge_conns; [apply conns_iter_no_fault|]. intros [[]|e|] Ho; [done|apply He|done].
Qed.

Lemma jobs_keep js s :
  Forall job_wf js → Forall (λ j, ∀ k, job_key j = Some k → RK k) js → I s →
  config_keeps I (λ _ a, answer_ok a) (jobs_config s js).
Proof.
  intros Hjs Hks Hs. split; [done|]. unfold jobs_config, start_config. cbn [tasks].
  apply Forall_fmap. apply Forall_forall. intros j Hj. rewrite Forall_forall in Hjs, Hks.
  specialize (Hjs j Hj). specialize (Hks j Hj).
  destruct j as [p|p|request|v]; unfold compose; cbn [job_task task_packet task_code]; apply keeps_bind.
  - apply keeps_tc_ingress.
  - apply keeps_tc_egress.
  - apply keeps_service_update; [done|]. intros v Hv. apply Hks. simpl. by rewrite Hv.
  - apply keeps_service_delete. by apply Hks.
Qed.

Lemma interleaving_inv js s c :
  Forall job_wf js → Forall (λ j, ∀ k, job_key j = Some k → RK k) js → I s →
  rtc pstep (jobs_config s js) c →
  I (shared c) ∧ ∀ i p a, tasks c !! i = Some (Task p (TDone a)) → answer_ok a.
Proof.
  intros Hjs Hks Hs Hr.
  exact (interleaving_keeps _ (λ _ a, answer_ok a) _ _ mi_free Hr (jobs_keep js s Hjs Hks Hs)).
Qed.
End rpc_safety.

(** ** Theorems on all interleavings *)
Section theorems.
Context `{NT : NetworkTypes, AE : AyaEbpf, MP : Maps, AM : !AyaMaps, NL : Netlink}.
Context `{NTS : !NetworkTypesSpec, AES : !AyaEbpfSpec, MS : !MapsSpec, AMS : !AyaMapsSpec}.
Context `{NLS : !NetlinkSpec}.

Lemma next_index_range bl i :
  backend_list_wf bl → 0 ≤ i < backends_len bl →
  0 ≤ next_index bl i < Z.of_nat BACKENDS_ARRAY_CAPACITY.
Proof. intros Hbl Hi. destruct (next_index_bound bl i Hbl Hi). destruct Hbl as (_ & ? & _). lia. Qed.

Lemma conc_inv_next s k bl i m :
  conc_inv s → backend_list_wf bl → 0 ≤ i < backends_len bl →
  (∀ k', bpf_get m k' = if decide (k' = k) then Some (next_index bl i)
                        else bpf_get (GATEWAY_INDEXES s) k') → conc_inv (set_indexes m s).
Proof.
  intros [Hwf Hi] Hbl Hlt Hm. pose proof (next_index_range bl i Hbl Hlt). split.
  - eapply maps_wf_indexes_insert; [done|apply next_index_fits|done].
  - intros k' j. simpl. rewrite Hm. case_decide; [intros [= <-]; lia|apply Hi].
Qed.

Lemma conc_inv_indexes_equiv s m :
  conc_inv s → map_equiv (GATEWAY_INDEXES s) m → conc_inv (set_indexes m s).
Proof. intros Hs Hm. apply conc_inv_indexes; [done|]. intros k i. rewrite (Hm k). by right. Qed.

#[local] Instance conc_inv_maps : MapsInv conc_inv (λ _ _, True) (λ _, True).
Proof.
  split; try done.
  - intros s p Hs. exact Hs.
  - intros s k bl i m Hs _. by apply conc_inv_next.
  - intros s m. apply conc_inv_indexes_equiv.
Qed.

Lemma interleavings_run js s c :
  Forall job_wf js → conc_inv s → rtc pstep (jobs_config s js) c →
  conc_inv (shared c) ∧
  ∀ i p a, tasks c !! i = Some (Task p (TDone a)) → answer_ok a.
Proof. intros Hjs. apply interleaving_inv; [done|]. by apply Forall_true. Qed.

(** C3: safety of every interleaving.  Any number of packets and RPCs, started
    together on well-typed maps and interleaved at every map operation: at
    every point the maps are well-typed and every index lies inside the
    backend array, and no program accesses memory outside its packet or the
    array, no RPC panics, and every program ends in TC_ACT_OK. *)
Theorem interleavings_safe js s c :
  Forall job_wf js → conc_inv s → rtc pstep (jobs_config s js) c →
  conc_inv (shared c) ∧
  ∀ i p a, tasks c !! i = Some (Task p (TDone a)) → answer_ok a.
Proof. apply interleavings_run. Qed.

(** The Gateway [k0] is configured with [bl0], and its index points into it. *)
Definition serving (k0 : BackendKey) (bl0 : BackendList) (s : kstate) : Prop :=
  conc_inv s ∧ bpf_get (BACKENDS s) k0 = Some bl0 ∧
  ∃ i, bpf_get (GATEWAY_INDEXES s) k0 = Some i ∧ 0 ≤ i < backends_len bl0.

#[local] Instance serving_maps k0 bl0 :
  MapsInv (serving k0 bl0) (λ k bl, k = k0 → bl = bl0) (λ k, k ≠ k0).
Proof.
  split.
  - intros s p Hs. exact Hs.
  - by intros s [? _].
  - intros s k bl (_ & Hb & _) Hk ->. congruence.
  - intros s k bl i m (Hc & Hb & j & Hj & Hlt) Hgl Hbl Hi Hm.
    split; [by eapply conc_inv_next|]. split; [done|]. simpl. rewrite Hm. case_decide as Hk; [|by eauto].
    eexists. split; [done|]. rewrite <-(Hgl (eq_sym Hk)). by apply next_index_bound.
  - intros s m (Hc & Hb & j & Hj & Hlt) Hm. split; [by apply conc_inv_indexes_equiv|].
    split; [done|]. exists j. simpl. by rewrite (Hm k0).
  - intros s m (Hc & Hb & Hi) Hc'. done.
  - intros s key m (Hc & Hb & Hi) Hk Hm Hc'. split; [done|]. simpl. by rewrite Hm.
  - intros s key m (Hc & Hb & Hi) Hk Hm Hc'. split; [done|]. simpl. by rewrite Hm.
Qed.

(** C5: isolation.  Whatever packets and RPCs run concurrently, as long as no
    RPC addresses this Gateway: at every point it has its list of backends, and
    its index points to one of them. *)
Theorem gateway_isolation k0 bl0 js s c :
  Forall job_wf js → Forall (λ j, job_key j ≠ Some k0) js → serving k0 bl0 s →
  rtc pstep (jobs_config s js) c →
  bpf_get (BACKENDS (shared c)) k0 = Some bl0 ∧
  ∃ i, bpf_get (GATEWAY_INDEXES (shared c)) k0 = Some i ∧ 0 ≤ i < backends_len bl0.
Proof.
  intros Hjs Hks Hs Hr. eapply (interleaving_inv js s c) in Hr as [(_ & ? & ?) _]; [done|done| |done].
  eapply Forall_impl; [exact Hks|]. intros j Hj k Hk ->. by apply Hj.
Qed.
End theorems.

(** ** Completion *)
Section completion.
Context `{NT : NetworkTypes, AE : AyaEbpf, MP : Maps, AM : !AyaMaps, NL : Netlink}.

Lemma balanced_on_error {E E' A} held (t : Thr E A) (h : E → Thr E' A) :
  balanced held [] t → (∀ e, balanced held [] (h e)) → balanced held [] (on_error_thr t h).
Proof. intros Ht Hh. apply balanced_bind; [done|]. by intros [a|e|]. Qed.

Lemma balanced_ret {E A} held (a : A) : balanced held [] (mret a : Thr E A).
Proof. done. Qed.

Lemma balanced_throw {E A} held (e : E) : balanced held [] (thr_throw e : Thr E A).
Proof. done. Qed.

Lemma balanced_return {E R A} held (r : R) : balanced held [] (thr_return r : Thr (ctl E R) A).
Proof. done. Qed.

Ltac balanced_solve :=
  repeat first
  [ progress intros | progress cbv zeta
  | match goal with |- balanced _ _ (match ?x with _ => _ end) => destruct x end
  | solve [auto with locks nocore]
  | apply balanced_ret | apply balanced_throw | apply balanced_return
  | apply balanced_seq | apply balanced_body | apply balanced_try | apply balanced_on_error
  | apply balanced_with_lock; [by repeat constructor|] ].

(** The packet programs take no mutex, so they run whatever is held. *)
Lemma balanced_track hdr c lb held : balanced held [] (track_packet_thr hdr c lb).
Proof. unfold track_packet_thr, update_tcp_conns_thr. balanced_solve. Qed.
Hint Resolve balanced_track : locks.

Lemma balanced_tcp_ingress held : balanced held [] handle_tcp_ingress_thr.
Proof.
  unfold handle_tcp_ingress_thr, tcp_connection_thr, tcp_new_connection_thr, tcp_track_thr.
  balanced_solve.
Qed.

Lemma balanced_udp_ingress held : balanced held [] handle_udp_ingress_thr.
Proof. unfold handle_udp_ingress_thr. balanced_solve. Qed.

Lemma balanced_tcp_egress held : balanced held [] handle_tcp_egress_thr.
Proof. unfold handle_tcp_egress_thr. balanced_solve. Qed.

Lemma balanced_icmp_egress held : balanced held [] handle_icmp_egress_thr.
Proof. unfold handle_icmp_egress_thr. balanced_solve. Qed.
Hint Resolve balanced_tcp_ingress balanced_udp_ingress balanced_tcp_egress
  balanced_icmp_egress : locks.

Lemma balanced_tc_ingress held : balanced held [] tc_ingress_thr.
Proof.
  unfold tc_ingress_thr, discard_result_thr. apply balanced_bind; [|done].
  unfold try_tc_ingress_thr. balanced_solve.
Qed.

Lemma balanced_tc_egress held : balanced held [] tc_egress_thr.
Proof.
  unfold tc_egress_thr, discard_result_thr. apply balanced_bind; [|done].
  unfold try_tc_egress_thr. balanced_solve.
Qed.

Lemma balanced_service_update request : balanced [] [] (service_update_thr request).
Proof.
  unfold service_update_thr, insert_and_reset_index_thr, service_insert_thr. balanced_solve.
Qed.

Lemma balanced_purge key held items : balanced held [] (purge_conns_thr key items).
Proof.
  induction items as [|[[c lb]|e|] items IH]; simpl; [done| |done|done].
  apply balanced_seq; [by case_decide|]. intros _. apply IH.
Qed.
Hint Resolve balanced_purge : locks.

(** [remove] takes its mutexes in the order of the fields. *)
Lemma balanced_service_delete v : balanced [] [] (service_delete_thr v).
Proof. unfold service_delete_thr, service_remove_thr. balanced_solve. Qed.

Lemma jobs_ordered js : Forall (λ t, ordered [] (task_code t)) (job_task <$> js).
Proof.
  apply Forall_fmap, Forall_true. intros [p|p|request|v]; unfold compose; cbn [job_task task_code];
    apply balanced_ordered, balanced_bind; try done.
  - apply balanced_tc_ingress.
  - apply balanced_tc_egress.
  - apply balanced_service_update.
  - apply balanced_service_delete.
Qed.

(** C4: completion.  Any number of packets and RPCs started together, under
    any schedule: there are only finitely many steps; in every configuration on
    the way either some task can take a step (no deadlock), or every packet is
    finished, every request answered and all three mutexes are free; and a mutex
    is never held by a task that has finished. *)
Theorem jobs_complete js s :
  sn pstep (jobs_config s js) ∧
  ∀ c, rtc pstep (jobs_config s js) c →
    ((∃ c', pstep c c') ∨ (Forall finished (tasks c) ∧ ∀ l, holder c l = None)) ∧
    ∀ l i, holder c l = Some i → ∃ t, tasks c !! i = Some t ∧ ¬ finished t.
Proof. apply all_complete, jobs_ordered. Qed.
End completion.
