(* ===== verification/ConcRaces.v ===== *)
(** * Interleavings that break the invariant

    [System] shows that packets and RPCs that run one after the other keep a
    Gateway's index within its list and leave no connection of a deleted
    Gateway.  Concurrent ones do not.  What a Gateway with a stale index is
    like, and that a purge overtaken by an RST leaves connections behind, hold
    on every platform; three schedules are executed on the reference one. *)

From stdpp Require Import base list gmap strings relations pretty.
From S2P Require Import Prelude Common Platform Csum PlatformRef TcpState Ebpf Ingress Demo IngressProps Egress EgressProps Classifier NetUtils Server ServerProps System Threads Progress Conc ConcProps.

Section stale.
Context `{NT : NetworkTypes, AE : AyaEbpf, MP : Maps, AM : !AyaMaps, NL : Netlink}.
Context `{NTS : !NetworkTypesSpec, AES : !AyaEbpfSpec, MS : !MapsSpec}.
Implicit Types s : kstate.

(** The index of [k] points behind its list. *)
Definition stale (k : BackendKey) (s : kstate) : Prop :=
  maps_wf s ∧ ∃ bl i, bpf_get (BACKENDS s) k = Some bl ∧ bpf_get (GATEWAY_INDEXES s) k = Some i ∧
                      backends_len bl ≤ i.

(** One packet, in either direction. *)
Inductive packet_step : kstate → kstate → Prop :=
| packet_ingress p s s' o : byte_list p → tc_ingress (set_skb p s) = (s', o) → packet_step s s'
| packet_egress p s s' o : byte_list p → tc_egress (set_skb p s) = (s', o) → packet_step s s'.

Lemma stale_frame k s s' :
  stale k s → maps_wf s' → BACKENDS s' = BACKENDS s →
  bpf_get (GATEWAY_INDEXES s') k = bpf_get (GATEWAY_INDEXES s) k → stale k s'.
Proof.
  intros (_ & bl & i & Hb & Hi & Hle) Hwf EB EI. split; [done|]. exists bl, i. by rewrite EB, EI.
Qed.

(** The handlers do not move an index that points behind the list. *)
Lemma tcp_ingress_stale k s :
  stale k s → wp handle_tcp_ingress (λ s' _, bpf_get (GATEWAY_INDEXES s') k =
                                             bpf_get (GATEWAY_INDEXES s) k) s.
Proof.
  intros (Hwf & bl & i & Hb & Hi & Hle).
  assert (∀ s1 lb new, tcp_connection_of s s1 lb new →
    bpf_get (GATEWAY_INDEXES s1) k = bpf_get (GATEWAY_INDEXES s) k) as Hc.
  { intros s1 lb new [lb' _|bl' i' b m _ Hb' Hi' Hlt _ Hm]; [done|]. simpl. rewrite Hm.
    case_decide; [|done]. subst. exfalso. rewrite Hb' in Hb. rewrite Hi' in Hi. simplify_eq. lia. }
  apply wp_handle_tcp_ingress; try done.
  - intros s1 lb new m e Hcn _ _ _. exact (Hc _ _ _ Hcn).
  - intros s1 lb new m p' Hcn _ _. exact (Hc _ _ _ Hcn).
  - intros s1 lb new m p' Hcn _ _ _. cbv zeta.
    destruct new; [split; intros|]; exact (Hc _ _ _ Hcn).
Qed.

Lemma udp_ingress_stale k s :
  stale k s → wp handle_udp_ingress (λ s' _, bpf_get (GATEWAY_INDEXES s') k =
                                             bpf_get (GATEWAY_INDEXES s) k) s.
Proof.
  intros (Hwf & bl & i & Hb & Hi & Hle). apply wp_handle_udp_ingress; try done.
  intros bl' i' b q (Hb' & Hi' & Hlt & _) _. split; [done|]. intros m Hm. split; [done|].
  intros p' _ _. split.
  - intros mi Hmi. simpl. rewrite Hmi. case_decide; [|done]. subst. exfalso.
    rewrite Hb' in Hb. rewrite Hi' in Hi. simplify_eq. lia.
  - intros mi e _ He. apply He.
Qed.

Lemma packet_step_stale k s s' : packet_step s s' → stale k s → stale k s'.
Proof.
  intros [p s0 s1 o Hp E|p s0 s1 o Hp E] Hst; pose proof Hst as [Hwf _].
  - change (maps_wf (set_skb p s0)) in Hwf. change (stale k (set_skb p s0)) in Hst.
    unfold tc_ingress, discard_result in E.
    destruct (try_tc_ingress (set_skb p s0)) as [s2 o2] eqn:E2.
    assert (s1 = s2) as -> by (by destruct o2; simplify_eq).
    pose proof (wp_run _ _ _ _ _ (try_tc_ingress_spec (set_skb p s0) Hp) E2)
      as [[_ E3]|[[_ E3]|(_ & _ & -> & _)]]; [| |done].
    + pose proof (wp_run _ _ _ _ _ (tcp_ingress_safe _ Hwf) E3) as (_ & Hwf' & EB & _).
      eapply stale_frame; [done..|]. exact (wp_run _ _ _ _ _ (tcp_ingress_stale k _ Hst) E3).
    + pose proof (wp_run _ _ _ _ _ (udp_ingress_safe _ Hwf) E3) as (_ & Hwf' & EB & _).
      eapply stale_frame; [done..|]. exact (wp_run _ _ _ _ _ (udp_ingress_stale k _ Hst) E3).
  - change (maps_wf (set_skb p s0)) in Hwf. change (stale k (set_skb p s0)) in Hst.
    unfold tc_egress, discard_result in E.
    destruct (try_tc_egress (set_skb p s0)) as [s2 o2] eqn:E2.
    assert (s1 = s2) as -> by (by destruct o2; simplify_eq).
    pose proof (wp_run _ _ _ _ _ (try_tc_egress_spec (set_skb p s0) Hp) E2)
      as [[_ E3]|[[_ E3]|(_ & _ & -> & _)]]; [| |done].
    + pose proof (wp_run _ _ _ _ _ (tcp_egress_safe _ Hwf) E3) as (_ & Hwf' & EB & EI & _).
      eapply stale_frame; [done..|]. by rewrite EI.
    + pose proof (wp_run _ _ _ _ _ (icmp_egress_safe _ Hwf) E3) as (_ & Hwf' & EB & EI & _).
      eapply stale_frame; [done..|]. by rewrite EI.
Qed.

Lemma packet_steps_stale k s s' : rtc packet_step s s' → stale k s → stale k s'.
Proof. intros Hr. induction Hr; [done|]. eauto using packet_step_stale. Qed.

(** A new client of such a Gateway is not served. *)
Lemma stale_unserved k s p :
  stale k s → tcp_packet p → tcp_vip p = k → bpf_get (LB_CONNECTIONS s) (tcp_client p) = None →
  handle_tcp_ingress (set_skb p s) = (set_skb p s, Ret TC_ACT_OK).
Proof.
  intros (Hwf & bl & i & Hb & Hi & Hle) [_ Hlen] <- Hc.
  cut (wp handle_tcp_ingress (λ s' o, (s', o) = (set_skb p s, Ret TC_ACT_OK)) (set_skb p s)).
  { unfold wp. by destruct (handle_tcp_ingress (set_skb p s)). }
  assert (∀ s1 lb new, ¬ tcp_connection_of (set_skb p s) s1 lb new) as Hno.
  { intros s1 lb new [lb' Hlb|bl' i' b m _ Hb' Hi' Hlt _ _]; simpl in *; [congruence|].
    rewrite Hb in Hb'. rewrite Hi in Hi'. simplify_eq. lia. }
  apply wp_handle_tcp_ingress; simpl; try done.
  - intros _ [?|?]; congruence.
  - intros bl' i' m e _ Hb' Hi' Hlt. rewrite Hb in Hb'. rewrite Hi in Hi'. simplify_eq. lia.
  - intros s1 lb new m e []%Hno.
  - intros s1 lb new m p' []%Hno.
  - intros s1 lb new m p' []%Hno.
Qed.
End stale.

(** ** A purge that is overtaken *)
Section leak.
Context `{NT : NetworkTypes, AE : AyaEbpf, MP : Maps, AM : !AyaMaps, NL : Netlink}.
Context `{NTS : !NetworkTypesSpec, AES : !AyaEbpfSpec, MS : !MapsSpec, AMS : !AyaMapsSpec}.
Implicit Types s : kstate.

(** An RST (without FIN) of the client of an established connection. *)
Definition resets (p : list Z) (c : ClientKey) : Prop :=
  tcp_packet p ∧ ipv4_proto p = Some 6 ∧ tcp_client p = c ∧
  is_rst (hdr_bytes TcpHdr L4 p) = true ∧ fin (hdr_bytes TcpHdr L4 p) = false.

Lemma resets_entry s lb :
  maps_wf s → resets (skb s) (tcp_client (skb s)) →
  bpf_get (LB_CONNECTIONS s) (tcp_client (skb s)) = Some lb → tcp_state lb = Some Established →
  conns_room (tcp_client (skb s)) (LB_CONNECTIONS s) →
  wp tc_ingress (λ s' _, BACKENDS s' = BACKENDS s ∧ GATEWAY_INDEXES s' = GATEWAY_INDEXES s ∧
    ∀ c, bpf_get (LB_CONNECTIONS s') c =
         if decide (c = tcp_client (skb s)) then None else bpf_get (LB_CONNECTIONS s) c) s.
Proof.
  intros Hwf ([Hp Hlen] & Hproto & _ & Hrst & Hfin) Hc Hst Hroom.
  set (P := λ s' : kstate, BACKENDS s' = BACKENDS s ∧ GATEWAY_INDEXES s' = GATEWAY_INDEXES s ∧
    ∀ c, bpf_get (LB_CONNECTIONS s') c =
         if decide (c = tcp_client (skb s)) then None else bpf_get (LB_CONNECTIONS s) c).
  assert (wp handle_tcp_ingress (λ s' o, P s') s) as Hh.
  { assert (∀ m p', tracked (hdr_bytes TcpHdr L4 (skb s)) (tcp_client (skb s)) lb s m →
      P (set_skb p' (set_conns m s))) as HP.
    { intros m p' Hm. split_and!; [done..|]. intros c. simpl. rewrite Hm. case_decide; [|done].
      unfold track_entry. rewrite Hst, Hrst. unfold process_tcp_state_transition. by rewrite Hfin. }
    apply wp_handle_tcp_ingress; try done; try (intros; congruence).
    - intros s1 lb' new m e [lb1 Hlb|] Herr _ _; [simplify_eq|congruence].
      exfalso. destruct Herr as [?|[[_ ?]|(st & Hs & Hcl & _)]]; [done|congruence|].
      rewrite Hst in Hs. simplify_eq. unfold process_tcp_state_transition in Hcl. by rewrite Hfin in Hcl.
    - intros s1 lb' new m p' [lb1 Hlb|] Hm _; [simplify_eq; by apply HP|congruence].
    - intros s1 lb' new m p' [lb1 Hlb|] Hm _ _; [simplify_eq; by apply HP|congruence]. }
  pose proof (try_tc_ingress_spec s Hp) as Ht. unfold tc_ingress, discard_result, wp in Ht |- *.
  destruct (try_tc_ingress s) as [s' o] eqn:E. simpl in Ht.
  assert (P s') as HPs.
  { destruct Ht as [[_ E']|[[? _]|(? & _)]]; [exact (wp_run _ _ _ _ _ Hh E')|congruence..]. }
  by destruct o.
Qed.

Lemma purge_conns_app key items items' s :
  purge_conns key (items ++ items') s = (purge_conns key items ≫= λ _, purge_conns key items') s.
Proof.
  revert s. induction items as [|[[c lb]|e|] items IH]; intros s; [done| |done|done].
  cbn [app purge_conns]. unfold mbind, eff_bind in *.
  generalize (if decide (backend_key lb = key) then
    on_map LB_CONNECTIONS set_conns (λ m, map_remove m c) else mret tt). intros step.
  destruct (step s) as [s' [[]|e|]]; [apply IH|done|done].
Qed.

Lemma nodup_other {A B} (l1 l2 : list (A * B)) c1 lb1 c lb :
  NoDup (l1 ++ (c1, lb1) :: l2).*1 → (c, lb) ∈ l1 ++ l2 → c ≠ c1.
Proof.
  rewrite fmap_app. intros (_ & Hdis & Hnd)%NoDup_app Hin ->. apply NoDup_cons in Hnd as [Hn _].
  apply elem_of_app in Hin as [Hx|Hx]; apply (list_elem_of_fmap_2 fst) in Hx; [|done].
  apply (Hdis c1); [done|]. by constructor.
Qed.

(** A collected connection that is gone ends the purge: the ones after it stay. *)
Lemma purge_conns_missing key l1 c1 lb1 l2 s :
  NoDup (l1 ++ (c1, lb1) :: l2).*1 →
  (∀ c lb, (c, lb) ∈ l1 ++ l2 → bpf_get (LB_CONNECTIONS s) c = Some lb) →
  bpf_get (LB_CONNECTIONS s) c1 = None → backend_key lb1 = key →
  wp (purge_conns key (Ret <$> (l1 ++ (c1, lb1) :: l2))) (λ s' o, (∃ e, o = Err e) ∧
    BACKENDS s' = BACKENDS s ∧ GATEWAY_INDEXES s' = GATEWAY_INDEXES s ∧
    ∀ c lb, (c, lb) ∈ l2 → bpf_get (LB_CONNECTIONS s') c = Some lb) s.
Proof.
  rewrite !fmap_app. intros (Hnd1 & Hdis & Hnd2)%NoDup_app Hin Hc1 Hk.
  unfold wp. rewrite purge_conns_app. apply wp_bind.
  eapply wp_mono; [apply purge_conns_spec; [done|]; intros; apply Hin, elem_of_app; by left|].
  intros s1 o (-> & m & -> & Hm). cbn [seq_post fmap list_fmap purge_conns]. wp_step.
  rewrite decide_True by done. apply wp_on_map_remove.
  - intros m' [x Hx]. simpl in Hx. rewrite Hm, Hc1 in Hx. done.
  - intros m' e _ _ He. split_and!; [by eexists|done..|]. intros c lb Hl2. simpl. rewrite (He c). simpl.
    rewrite Hm, (Hin c lb) by (apply elem_of_app; by right). apply decide_False. intros [Hl1 _].
    apply (list_elem_of_fmap_2 fst) in Hl1, Hl2. apply (Hdis c); [done|]. by constructor.
Qed.

(** The state when [delete] has removed the Gateway and not yet its connections. *)
Definition unconfigured (v : Vip) s s1 : Prop :=
  LB_CONNECTIONS s1 = LB_CONNECTIONS s ∧
  (∀ k, bpf_get (BACKENDS s1) k = if decide (k = vip_key v) then None else bpf_get (BACKENDS s) k) ∧
  (∀ k, bpf_get (GATEWAY_INDEXES s1) k =
        if decide (k = vip_key v) then None else bpf_get (GATEWAY_INDEXES s) k).

(** What is left of a [delete] that has collected [items]: the purge and the answer. *)
Definition delete_rest (v : Vip) items (t : thread answer) : Prop :=
  ∀ s, run_thread t s =
    let '(s', o) := purge_conns (vip_key v) items s in
    (s', RpcAnswer (match o with
                    | Ret _ => delete_done v
                    | Err e => delete_failed v e
                    | Fault => Fault
                    end)).

(** [delete] can be brought to the point where it has collected the
    connections. *)
Lemma delete_collects v s p items :
  is_Some (bpf_get (BACKENDS s) (vip_key v)) → is_Some (bpf_get (GATEWAY_INDEXES s) (vip_key v)) →
  conns_iter (LB_CONNECTIONS s) = items →
  ∃ c s1 p1 t1, rtc pstep (jobs_config s [JIngress p; JDelete v]) c ∧ shared c = s1 ∧
    unconfigured v s s1 ∧ tasks c = [job_task (JIngress p); Task p1 t1] ∧
    (∀ l, holder c l = Some 1%nat) ∧
    delete_rest v items t1.
Proof.
  intros [bl Hb] [i Hi] Hit.
  destruct (map_remove (Er:=MapError) (BACKENDS s) (vip_key v)) as [mb [[]|e|]] eqn:Eb; cycle 1.
  { apply remove_err in Eb as [? _]. congruence. }
  { pose proof (remove_no_fault (Er:=MapError) (BACKENDS s) (vip_key v)). by rewrite Eb in *. }
  destruct (map_remove (Er:=MapError) (GATEWAY_INDEXES s) (vip_key v)) as [mi [[]|e|]] eqn:Ei; cycle 1.
  { apply remove_err in Ei as [? _]. congruence. }
  { pose proof (remove_no_fault (Er:=MapError) (GATEWAY_INDEXES s) (vip_key v)). by rewrite Ei in *. }
  apply remove_ok in Eb as Hmb; destruct Hmb as [_ Hmb]. apply remove_ok in Ei as Hmi; destruct Hmi as [_ Hmi].
  enough (∀ t0 : task answer, ∃ c s1 p1 t1,
    rtc pstep (start_config s [t0; job_task (JDelete v)]) c ∧ shared c = s1 ∧
    unconfigured v s s1 ∧ tasks c = [t0; Task p1 t1] ∧ (∀ l, holder c l = Some 1%nat) ∧
    delete_rest v items t1)
    as Hx by (exact (Hx (job_task (JIngress p)))).
  intros t0. do 4 eexists. split.
  { unfold job_task, service_delete_thr, service_remove_thr. change (MkBackendKey _ _) with (vip_key v).
    eapply rtc_l; [exists 1%nat; unfold sched; simpl; reflexivity|].
    eapply rtc_l; [exists 1%nat; unfold sched, on_map; simpl; rewrite Eb; reflexivity|].
    eapply rtc_l; [exists 1%nat; unfold sched; simpl; reflexivity|].
    eapply rtc_l; [exists 1%nat; unfold sched, on_map; simpl; rewrite Ei; reflexivity|].
    eapply rtc_l; [exists 1%nat; unfold sched; simpl; reflexivity|].
    apply rtc_once. exists 1%nat. unfold sched. simpl. rewrite Hit. reflexivity. }
  split; [reflexivity|]. split; [by split_and!|]. split; [reflexivity|]. split; [by intros []|].
  intros s2. simpl. rewrite !run_tbind. rewrite (runs_purge_conns (vip_key v) items s2).
  destruct (purge_conns (vip_key v) items s2) as [s3 [[]|e|]]; simpl; [done| |done].
  unfold delete_failed. by destruct (contains _ _).
Qed.

Lemma unconfigured_wf v s s1 p : maps_wf s → unconfigured v s s1 → maps_wf (set_skb p s1).
Proof.
  intros (Hwb & Hwi & Hwc) (Hc & HB & HI). split_and!; simpl.
  - intros k bl. rewrite HB. case_decide; [done|apply Hwb].
  - intros k i. rewrite HI. case_decide; [done|apply Hwi].
  - intros c lb. rewrite Hc. apply Hwc.
Qed.

(** When [delete] has collected the connections, the RST can run: the packet
    programs take no mutex. *)
Lemma delete_overtaken v s p c1 lb1 items :
  maps_wf s →
  is_Some (bpf_get (BACKENDS s) (vip_key v)) → is_Some (bpf_get (GATEWAY_INDEXES s) (vip_key v)) →
  conns_iter (LB_CONNECTIONS s) = items → bpf_get (LB_CONNECTIONS s) c1 = Some lb1 →
  tcp_state lb1 = Some Established → resets p c1 → conns_room c1 (LB_CONNECTIONS s) →
  ∃ c p0 a p1 t1, rtc pstep (jobs_config s [JIngress p; JDelete v]) c ∧
    tasks c = [Task p0 (TDone a); Task p1 t1] ∧ (∀ l, holder c l = Some 1%nat) ∧
    bpf_get (BACKENDS (shared c)) (vip_key v) = None ∧
    bpf_get (GATEWAY_INDEXES (shared c)) (vip_key v) = None ∧
    (∀ x, bpf_get (LB_CONNECTIONS (shared c)) x =
          if decide (x = c1) then None else bpf_get (LB_CONNECTIONS s) x) ∧
    delete_rest v items t1.
Proof.
  intros Hwf Hb Hi Hit Hc1 Hst Hp Hroom.
  destruct (delete_collects v s p _ Hb Hi Hit) as (c6 & s1 & p1 & t1 & Hr6 & Hs1 & Hun & Ht6 & Hh6 & Hrun).
  destruct (tc_ingress (set_skb p s1)) as [s2 o] eqn:E.
  assert (maps_wf (set_skb p s1)) as Hwf1 by (by eapply unconfigured_wf).
  pose proof Hp as (Hpk & _ & Hcl & _). destruct Hun as (Hc & HB & HI). subst c1.
  destruct (wp_run _ _ _ _ _ (resets_entry _ lb1 Hwf1 Hp ltac:(simpl; by rewrite Hc) Hst
    ltac:(simpl; by rewrite Hc)) E) as (HB2 & HI2 & Hc2).
  destruct (run_free (tbind tc_ingress_thr (λ o, TDone (PacketAnswer o))) c6 0 p s2 (PacketAnswer o))
    as (c7 & (Hr7 & Ht7 & Hs7) & Hh7).
  { apply balanced_bind; [apply balanced_tc_ingress|done]. }
  { by rewrite Ht6. }
  { by rewrite run_tbind, Hs1, runs_tc_ingress, E. }
  rewrite Ht6 in Ht7. simpl in *. exists c7, (skb s2), (PacketAnswer o), p1, t1.
  rewrite <-Hs7 in HB2, HI2, Hc2. simpl in *. rewrite HB2, HI2, HB, HI, !decide_True by done.
  split_and!; [by etrans|done|intros l; by rewrite Hh7|done|done| |done].
  intros x. by rewrite Hc2, Hc.
Qed.

(** C34: an interrupted purge.  Take any Gateway that is configured and any of
    its established connections, with the others in the order in which the
    connection map lists them.  There is an interleaving of a delete of the
    Gateway with an RST of that connection's client, at the end of which both
    are finished and the Gateway is gone, but every connection listed after
    that one is still tracked, those of the deleted Gateway included; the
    delete has answered as it does when a map entry to be removed is not
    there.  (The map has to be well-typed, iterable without an error, and to
    have room for the client's entry.) *)
Theorem delete_race_leaks_connection v s p l1 c1 lb1 l2 :
  maps_wf s →
  is_Some (bpf_get (BACKENDS s) (vip_key v)) → is_Some (bpf_get (GATEWAY_INDEXES s) (vip_key v)) →
  conns_iter (LB_CONNECTIONS s) = Ret <$> (l1 ++ (c1, lb1) :: l2) →
  backend_key lb1 = vip_key v → tcp_state lb1 = Some Established →
  resets p c1 → conns_room c1 (LB_CONNECTIONS s) →
  ∃ c, rtc pstep (jobs_config s [JIngress p; JDelete v]) c ∧
    Forall finished (tasks c) ∧
    (∃ p' e, tasks c !! 1%nat = Some (Task p' (TDone (RpcAnswer (delete_failed v e))))) ∧
    bpf_get (BACKENDS (shared c)) (vip_key v) = None ∧
    bpf_get (GATEWAY_INDEXES (shared c)) (vip_key v) = None ∧
    ∀ c2 lb2, (c2, lb2) ∈ l2 → bpf_get (LB_CONNECTIONS (shared c)) c2 = Some lb2.
Proof.
  intros Hwf Hb Hi Hit Hk Hst Hp Hroom.
  pose proof (conns_iter_nodup _ _ Hit) as Hnd.
  assert (∀ c lb, (c, lb) ∈ l1 ++ (c1, lb1) :: l2 → bpf_get (LB_CONNECTIONS s) c = Some lb) as Hin.
  { intros c lb Hx. apply conns_iter_elem. rewrite Hit. by apply (list_elem_of_fmap_2 Ret). }
  destruct (delete_overtaken v s p c1 lb1 _ Hwf Hb Hi Hit ltac:(apply Hin; set_solver) Hst Hp Hroom)
    as (c & p0 & a & p1 & t1 & Hr & Ht & Hh & HB & HI & Hc & Hrest).
  destruct (purge_conns (vip_key v) (Ret <$> (l1 ++ (c1, lb1) :: l2)) (set_skb p1 (shared c)))
    as [s3 o3] eqn:E3.
  pose proof (wp_run _ _ _ _ _ (purge_conns_missing (vip_key v) l1 c1 lb1 l2 (set_skb p1 (shared c))
    Hnd ltac:(simpl; intros x lb Hx; rewrite Hc, decide_False;
              [apply Hin; set_solver|by eapply nodup_other])
    ltac:(simpl; by rewrite Hc, decide_True) Hk) E3) as ([e ->] & HB3 & HI3 & Hc3).
  destruct (lone_holder_runs c 1 p1 t1 s3 (RpcAnswer (delete_failed v e))) as (c8 & Hr8 & Ht8 & Hs8).
  - eapply reach_locks_ok; [done|]. apply start_locks_ok, jobs_ordered.
  - intros l j. rewrite Hh. congruence.
  - by rewrite Ht.
  - by rewrite Hrest, E3.
  - rewrite Ht in Ht8. simpl in Ht8. exists c8. rewrite <-Hs8 in HB3, HI3, Hc3. simpl in *.
    rewrite Ht8, HB3, HI3. split_and!; [by etrans|by repeat constructor|by eauto|done..].
Qed.
End leak.

(** ** Schedules on the reference platform *)
#[local] Existing Instance rfc_types.
#[local] Existing Instance ref_ebpf.
#[local] Existing Instance ref_maps.
#[local] Existing Instance ref_user_maps.
#[local] Existing Instance one_route.

(** The configuration a schedule leads to. *)
Definition outcome_of (s : kstate) (js : list job) (schedule : list nat) : config answer :=
  default (jobs_config s js) (exec schedule (jobs_config s js)).

Lemma outcome_reachable s js schedule :
  (if exec schedule (jobs_config s js) then true else false) = true →
  rtc pstep (jobs_config s js) (outcome_of s js schedule).
Proof. intros Hs. apply exec_steps. by destruct (exec schedule _). Qed.

(** The answer of an RPC. *)
Definition rpc_answer (c : config answer) (i : nat) : option (outcome Status string) :=
  match tasks c !! i with
  | Some (Task _ (TDone (RpcAnswer o))) =>
      Some (match o with Ret a => Ret (confirmation a) | Err e => Err e | Fault => Fault end)
  | _ => None
  end.

Definition all_finished (c : config answer) : bool :=
  forallb (λ t, match task_code t with TDone _ => true | _ => false end) (tasks c).

Lemma all_finished_ok c : all_finished c = true → Forall finished (tasks c).
Proof.
  unfold all_finished. intros HF. apply Is_true_eq_left in HF.
  rewrite forallb_True in HF. eapply Forall_impl; [exact HF|]. intros [p t]. unfold finished. simpl.
  by destruct t.
Qed.

Lemma demo_conc_inv p idx conns :
  0 ≤ idx < 128 → map_Forall (λ _ m, lb_mapping_wf m) conns → conc_inv (demo_state p idx conns).
Proof.
  intros Hi Hc. split; [apply demo_wf; [unfold fits; lia|done]|].
  unfold bpf_get; simpl; unfold ref_view; simpl. intros k i [_ <-]%lookup_singleton_Some.
  unfold BACKENDS_ARRAY_CAPACITY. lia.
Qed.

(** One backend instead of two. *)
Definition smaller_request : Targets :=
  MkTargets (Some demo_gateway) [MkTarget 0x0A010001 8080 (Some 3)].

(** The packet of a new client has read list and index; the update runs; the
    packet moves the index on. *)
Definition race_index : config answer :=
  outcome_of (demo_state [] 0 ∅) [JIngress (tcp_in SYN); JUpdate smaller_request]
    (replicate 12 0%nat ++ replicate 7 1%nat ++ replicate 8 0%nat).

(** C33: a lost update of the index.  There is an interleaving of one packet
    with one update that both end regularly, after which the index of the
    Gateway points behind its list; and then, whatever packets follow, it
    stays there and no new TCP client of the Gateway is served. *)
Theorem update_race_blocks_gateway :
  rtc pstep (jobs_config (demo_state [] 0 ∅) [JIngress (tcp_in SYN); JUpdate smaller_request]) race_index ∧
  Forall finished (tasks race_index) ∧
  rpc_answer race_index 1 = Some (Ret "success, vip 10.0.0.1:80 was updated with 1 backends") ∧
  ∀ s, rtc packet_step (shared race_index) s →
    stale demo_vip s ∧
    ∀ p, tcp_packet p → tcp_vip p = demo_vip → bpf_get (LB_CONNECTIONS s) (tcp_client p) = None →
      handle_tcp_ingress (set_skb p s) = (set_skb p s, Ret TC_ACT_OK).
Proof.
  assert (rtc pstep (jobs_config (demo_state [] 0 ∅) [JIngress (tcp_in SYN); JUpdate smaller_request])
            race_index) as Hr by (apply outcome_reachable; vm_compute; reflexivity).
  split; [done|]. split; [apply all_finished_ok; vm_compute; reflexivity|]. split; [vm_compute; reflexivity|].
  assert (stale demo_vip (shared race_index)) as Hst.
  { split.
    - eapply (interleavings_run [JIngress (tcp_in SYN); JUpdate smaller_request] (demo_state [] 0 ∅)); [..|exact Hr].
      + by repeat constructor.
      + by apply demo_conc_inv.
    - exists (backend_list_of [MkBackend 0x0A010001 8080 3]), 1.
      split; [vm_compute; reflexivity|]. split; [vm_compute; reflexivity|]. simpl. lia. }
  intros s Hs. pose proof (packet_steps_stale _ _ _ Hs Hst) as Hst'.
  split; [exact Hst'|]. intros p. by apply stale_unserved.
Qed.

(** A client other than [demo_client], and both tracked. *)
Definition other_client : ClientKey := MkClientKey 0xC0A80010 5555.
Definition two_conns : gmap ClientKey LoadBalancerMapping :=
  {[demo_client := demo_mapping (Some TCPState_default);
    other_client := demo_mapping (Some TCPState_default)]}.

Lemma two_conns_wf : map_Forall (λ _ m, lb_mapping_wf m) two_conns.
Proof.
  apply map_Forall_insert_2; [apply demo_mapping_wf|]. apply map_Forall_singleton, demo_mapping_wf.
Qed.

(** The delete has collected the connections; an RST of one client runs; the
    delete goes on. *)
Definition race_purge : config answer :=
  outcome_of (demo_state [] 0 two_conns) [JIngress (tcp_in RST); JDelete demo_gateway]
    (replicate 6 1%nat ++ replicate 16 0%nat ++ replicate 4 1%nat).

Lemma delete_race_leaks_connection_witness :
  ∃ c, rtc pstep (jobs_config (demo_state [] 0 two_conns) [JIngress (tcp_in RST); JDelete demo_gateway]) c ∧
    bpf_get (BACKENDS (shared c)) demo_vip = None ∧
    bpf_get (LB_CONNECTIONS (shared c)) other_client = Some (demo_mapping (Some TCPState_default)).
Proof.
  destruct (delete_race_leaks_connection demo_gateway (demo_state [] 0 two_conns) (tcp_in RST) []
    demo_client (demo_mapping (Some TCPState_default))
    [(other_client, demo_mapping (Some TCPState_default))]) as (c & Hr & _ & _ & Hb & _ & Hc).
  - apply demo_conc_inv; [done|apply two_conns_wf].
  - by eexists.
  - by eexists.
  - vm_compute. reflexivity.
  - done.
  - done.
  - split_and!; [by apply demo_tcp_packet|by vm_compute..].
  - apply demo_conns_room. vm_compute. lia.
  - exists c. split; [done|]. split; [exact Hb|]. apply Hc. by constructor.
Defined.

(** The update has written the backends; the delete runs; the update writes
    the index. *)
Definition race_delete : config answer :=
  outcome_of (demo_state [] 0 ∅) [JUpdate demo_request; JDelete demo_gateway]
    (replicate 4 0%nat ++ replicate 9 1%nat ++ replicate 3 0%nat).

(** Update and delete are not atomic.  There is an interleaving of an
    update with a delete of the same Gateway in which both report success, and
    which leaves an index without backends: neither order of the two RPCs
    leaves the maps like that. *)
Theorem update_delete_not_atomic :
  rtc pstep (jobs_config (demo_state [] 0 ∅) [JUpdate demo_request; JDelete demo_gateway]) race_delete ∧
  Forall finished (tasks race_delete) ∧
  rpc_answer race_delete 0 = Some (Ret "success, vip 10.0.0.1:80 was updated with 2 backends") ∧
  rpc_answer race_delete 1 = Some (Ret "success, vip 10.0.0.1:80 was deleted") ∧
  (∀ s, (s = (service_delete demo_gateway (service_update demo_request (demo_state [] 0 ∅)).1).1 ∨
         s = (service_update demo_request (service_delete demo_gateway (demo_state [] 0 ∅)).1).1) →
     is_Some (bpf_get (BACKENDS s) demo_vip) ↔ is_Some (bpf_get (GATEWAY_INDEXES s) demo_vip)) ∧
  bpf_get (BACKENDS (shared race_delete)) demo_vip = None ∧
  bpf_get (GATEWAY_INDEXES (shared race_delete)) demo_vip = Some 0.
Proof.
  split; [apply outcome_reachable; vm_compute; reflexivity|].
  split; [apply all_finished_ok; vm_compute; reflexivity|].
  split; [by vm_compute|]. split; [by vm_compute|]. split; [|by vm_compute].
  intros s [->| ->]; vm_compute; split; intros [x Hx]; (done || by eexists).
Qed.

(** ** The other theorems at concrete schedules *)
Lemma interleavings_safe_witness :
  conc_inv (shared race_purge) ∧
  ∀ i p a, tasks race_purge !! i = Some (Task p (TDone a)) → answer_ok a.
Proof.
  apply (interleavings_safe [JIngress (tcp_in RST); JDelete demo_gateway] (demo_state [] 0 two_conns)).
  - by repeat constructor.
  - apply demo_conc_inv; [done|apply two_conns_wf].
  - apply outcome_reachable. vm_compute. reflexivity.
Defined.

(** An RPC on another Gateway and two packets to this one. *)
Definition other_gateway : Vip := MkVip 0x0A000002 443.
Definition mixed_jobs : list job :=
  [JIngress (tcp_in SYN); JDelete other_gateway; JIngress udp_in].
Definition mixed_schedule : list nat :=
  replicate 12 0%nat ++ replicate 2 1%nat ++ replicate 9 2%nat ++ replicate 2 0%nat.

Lemma gateway_isolation_witness :
  ∃ i, bpf_get (GATEWAY_INDEXES (shared (outcome_of (demo_state [] 0 ∅) mixed_jobs mixed_schedule)))
         demo_vip = Some i ∧ 0 ≤ i < 2.
Proof.
  refine (proj2 (gateway_isolation demo_vip demo_list mixed_jobs (demo_state [] 0 ∅)
    (outcome_of (demo_state [] 0 ∅) mixed_jobs mixed_schedule) _ _ _ _)).
  - by repeat constructor.
  - by repeat constructor.
  - split; [by apply demo_conc_inv|]. split; [done|]. by exists 0.
  - apply outcome_reachable. vm_compute. reflexivity.
Defined.
