(* ===== verification/GatewayApi.v ===== *)
(** * Kubernetes objects of the control plane

    The fields of the Gateway API and Kubernetes objects that
    [src/controlplane/src/gateway_utils.rs] and [gateway_controller.rs] read
    or write, and the error type of [src/controlplane/src/lib.rs].  The string
    constants of the [gateway-api] crate are a parameter ([GatewayConstants])
    with the one fact the code relies on: the condition types are distinct. *)

From stdpp Require Import base list gmap strings.
From S2P Require Import Prelude.

(** ** Errors ([kube::Error], [controlplane::Error]) *)
Inductive KubeError := Api (code : Z) | OtherKubeError.

Inductive Error :=
| KubeErr (e : KubeError)
| InvalidConfigError (msg : string)
| LoadBalancerError (msg : string)
| CRDNotFoundError (e : KubeError).

Definition GATEWAY_CLASS_CONTROLLER_NAME : string := "gateway.networking.k8s.io/blixt".
Definition BLIXT_FIELD_MANAGER : string := "blixt-field-manager".
Definition GATEWAY_SERVICE_LABEL : string := "blixt.gateway.networking.k8s.io/owned-by-gateway".

Record NamespacedName := MkNamespacedName { nn_name : string; nn_namespace : string }.

(** ** Metadata and conditions ([k8s_openapi], [kube]) *)
Record ObjectMeta := MkObjectMeta {
  om_name : option string;
  om_namespace : option string;
  om_generate_name : option string;
  om_generation : option Z;
  om_labels : option (gmap string string);
}.
Definition ObjectMeta_default : ObjectMeta := MkObjectMeta None None None None None.

Record Condition := MkCondition {
  type_ : string;
  cond_status : string;
  reason : string;
  observed_generation : option Z;
  last_transition_time : Z;
  cond_message : string;
}.

(** ** Gateway ([gateway_api]) *)
Record AllowedRoutesKind := MkRouteKind { rgk_group : option string; rgk_kind : string }.
Record AllowedRoutes := MkAllowedRoutes { kinds : option (list AllowedRoutesKind) }.
Record GatewayListener := MkListener {
  listener_name : string;
  listener_port : Z;
  protocol : string;
  allowed_routes : option AllowedRoutes;
}.
Record GatewayAddress := MkAddress { addr_type : option string; addr_value : string }.
Record GatewaySpec := MkGatewaySpec {
  gateway_class_name : string;
  listeners : list GatewayListener;
  addresses : option (list GatewayAddress);
}.
Record SupportedKind := MkSupportedKind { sk_group : option string; sk_kind : string }.
Record ListenerStatus := MkListenerStatus {
  ls_name : string;
  attached_routes : Z;
  supported_kinds : list SupportedKind;
  ls_conditions : list Condition;
}.
Record GatewayStatus := MkGatewayStatus {
  st_addresses : option (list GatewayAddress);
  st_conditions : option (list Condition);
  st_listeners : option (list ListenerStatus);
}.
Definition GatewayStatus_default : GatewayStatus := MkGatewayStatus None None None.
Record Gateway := MkGateway {
  gw_metadata : ObjectMeta;
  gw_spec : GatewaySpec;
  gw_status : option GatewayStatus;
}.

(** ** Service and Endpoints *)
Record ServicePort := MkServicePort {
  sp_name : option string;
  sp_port : Z;
  sp_protocol : option string;
  sp_node_port : option Z;
}.
Definition ServicePort_default : ServicePort := MkServicePort None 0 None None.
Record ServiceSpec := MkServiceSpec {
  load_balancer_ip : option string;
  svc_type : option string;
  ports : option (list ServicePort);
  cluster_ip : option string;
}.
Definition ServiceSpec_default : ServiceSpec := MkServiceSpec None None None None.
Record LoadBalancerIngress := MkIngress { ing_ip : option string }.
Record LoadBalancerStatus := MkLoadBalancerStatus { ingress : option (list LoadBalancerIngress) }.
Record ServiceStatus := MkServiceStatus { load_balancer : option LoadBalancerStatus }.
Definition ServiceStatus_default : ServiceStatus := MkServiceStatus None.
Record Service := MkService {
  svc_metadata : ObjectMeta;
  svc_spec : option ServiceSpec;
  svc_status : option ServiceStatus;
}.

Record EndpointPort := MkEndpointPort { ep_port : Z; ep_protocol : option string }.
Record Endpoints := MkEndpoints {
  ep_metadata : ObjectMeta;
  ep_addresses : list string;
  ep_ports : list EndpointPort;
}.

(** ** Constants of the Gateway API *)
Class GatewayConstants := {
  GatewayConditionType_Accepted : string;
  GatewayConditionType_Programmed : string;
  GatewayConditionReason_Accepted : string;
  GatewayConditionReason_ListenersNotValid : string;
  GatewayConditionReason_UnsupportedAddress : string;
  GatewayConditionReason_Programmed : string;
  GatewayConditionReason_AddressNotAssigned : string;
  ListenerConditionType_ResolvedRefs : string;
  ListenerConditionType_Accepted : string;
  ListenerConditionType_Programmed : string;
  ListenerConditionReason_ResolvedRefs : string;
  ListenerConditionReason_Accepted : string;
  ListenerConditionReason_InvalidRouteKinds : string;
  ListenerConditionReason_UnsupportedProtocol : string;
  ListenerConditionReason_Invalid : string;
}.

Class GatewayConstantsSpec `{GatewayConstants} : Prop := {
  listener_types_distinct :
    NoDup [ListenerConditionType_ResolvedRefs; ListenerConditionType_Accepted;
           ListenerConditionType_Programmed];
  gateway_types_distinct : GatewayConditionType_Accepted ≠ GatewayConditionType_Programmed;
}.

(** The names of the Gateway API specification. *)
Definition gateway_v1 : GatewayConstants := {|
  GatewayConditionType_Accepted := "Accepted";
  GatewayConditionType_Programmed := "Programmed";
  GatewayConditionReason_Accepted := "Accepted";
  GatewayConditionReason_ListenersNotValid := "ListenersNotValid";
  GatewayConditionReason_UnsupportedAddress := "UnsupportedAddress";
  GatewayConditionReason_Programmed := "Programmed";
  GatewayConditionReason_AddressNotAssigned := "AddressNotAssigned";
  ListenerConditionType_ResolvedRefs := "ResolvedRefs";
  ListenerConditionType_Accepted := "Accepted";
  ListenerConditionType_Programmed := "Programmed";
  ListenerConditionReason_ResolvedRefs := "ResolvedRefs";
  ListenerConditionReason_Accepted := "Accepted";
  ListenerConditionReason_InvalidRouteKinds := "InvalidRouteKinds";
  ListenerConditionReason_UnsupportedProtocol := "UnsupportedProtocol";
  ListenerConditionReason_Invalid := "Invalid";
|}.

#[export] Instance gateway_v1_spec : @GatewayConstantsSpec gateway_v1.
Proof.
  split; [|done]. apply (bool_decide_unpack _). by vm_compute.
Qed.
