(* ===== verification/GatewayUtils.v ===== *)
(** * Control plane: desired state of a Gateway

    Models the pure functions of [src/controlplane/src/gateway_utils.rs]: the
    Service a Gateway needs, and the conditions reported in its status.  A
    function with a [&mut] argument is a computation on that object; the
    clock ([Utc::now()]) is an argument. *)

From stdpp Require Import base list gmap strings.
From S2P Require Import Prelude GatewayApi.

Section gateway_utils.
Context `{GC : GatewayConstants}.

Definition set_gw_status (st : option GatewayStatus) (gw : Gateway) : Gateway :=
  MkGateway (gw_metadata gw) (gw_spec gw) st.
Definition set_svc_spec (sp : ServiceSpec) (svc : Service) : Service :=
  MkService (svc_metadata svc) (Some sp) (svc_status svc).

(** ** Status addresses *)
Definition set_gateway_status_addresses (gateway : Gateway) (svc_status : ServiceStatus) : Gateway :=
  let gw_addrs :=
    match load_balancer svc_status with
    | Some load_balancer =>
        match ingress load_balancer with
        | Some ingress =>
            foldl (λ gw_addrs addr,
              match ing_ip addr with
              | Some ip => gw_addrs ++ [MkAddress (Some "IPAddress") ip]
              | None => gw_addrs
              end) [] ingress
        | None => []
        end
    | None => []
    end in
  match gw_status gateway with
  | Some status =>
      set_gw_status (Some (MkGatewayStatus (Some gw_addrs) (st_conditions status) (st_listeners status)))
        gateway
  | None =>
      set_gw_status (Some (MkGatewayStatus (Some gw_addrs) (st_conditions GatewayStatus_default)
                             (st_listeners GatewayStatus_default))) gateway
  end.

Definition check_if_not_found_err (error : KubeError) : bool :=
  match error with Api code => code =? 404 | OtherKubeError => false end.

Definition get_ingress_ip_len (svc_status : ServiceStatus) : nat :=
  match load_balancer svc_status with
  | Some lb => match ingress lb with Some ingress => length ingress | None => 0 end
  | None => 0
  end.

Definition get_service_key (service : Service) : outcome Error NamespacedName :=
  match om_name (svc_metadata service) with
  | None => Err (LoadBalancerError "Loadbalancer service name not found")
  | Some svc_name =>
      match om_namespace (svc_metadata service) with
      | None => Err (LoadBalancerError "Loadblancer service namespace not found")
      | Some svc_ns => Ret (MkNamespacedName svc_name svc_ns)
      end
  end.

(** ** The LoadBalancer Service *)

(** The ports of the Service: the loop over the listeners. *)
Definition listener_ports (ls : list GatewayListener) : list ServicePort :=
  foldl (λ ports listener,
    let port p := MkServicePort (Some (listener_name listener)) (listener_port listener) (Some p)
                    (sp_node_port ServicePort_default) in
    if bool_decide (protocol listener = "TCP") || bool_decide (protocol listener = "HTTP") ||
       bool_decide (protocol listener = "HTTPS")
    then ports ++ [port "TCP"]
    else if bool_decide (protocol listener = "UDP") then ports ++ [port "UDP"]
    else ports) [] ls.

(** The requested address: the first one, if it is of type IPAddress. *)
Definition requested_address (gateway : Gateway) : outcome Error (option GatewayAddress) :=
  match addresses (gw_spec gateway) with
  | Some (addr :: _) =>
      match addr_type addr with
      | Some t =>
          if bool_decide (t ≠ "IPAddress")
          then Err (InvalidConfigError ("addresses of type " +:+ t +:+
                 " are not supported; only type IPAddress is supported"))
          else Ret (Some addr)
      | None => Ret (Some addr)
      end
  | _ => Ret None
  end.

Definition ServicePort_differs (p1 p2 : ServicePort) : bool :=
  negb (bool_decide (sp_name p1 = sp_name p2)) || negb (sp_port p1 =? sp_port p2) ||
  negb (bool_decide (sp_protocol p1 = sp_protocol p2)).

(** The comparison of the ports: lengths, then pairs until one differs. *)
Definition ports_differ (svc_ports ports : list ServicePort) : bool :=
  negb (length svc_ports =? length ports)%nat ||
  existsb (λ '(p1, p2), ServicePort_differs p1 p2) (combine svc_ports ports).

(** The statements on [svc_spec], in order; [updated] is threaded through. *)
Definition update_lb_ip (address : option GatewayAddress) (sp : ServiceSpec) (updated : bool) :
    ServiceSpec * bool :=
  let set ip := MkServiceSpec ip (svc_type sp) (ports sp) (cluster_ip sp) in
  let lb_ip := load_balancer_ip sp in
  match address, lb_ip with
  | Some addr, Some ip => if bool_decide (ip ≠ addr_value addr)
                          then (set (Some (addr_value addr)), true) else (sp, updated)
  | None, Some _ => (set None, true)
  | _, None => (sp, updated)
  end.

Definition update_svc_type (sp : ServiceSpec) (updated : bool) : ServiceSpec * bool :=
  let set t := MkServiceSpec (load_balancer_ip sp) t (ports sp) (cluster_ip sp) in
  match svc_type sp with
  | Some t => if bool_decide (t ≠ "LoadBalancer")
              then (set (Some "LoadBalancer"), true) else (sp, updated)
  | None => (set (Some "LoadBalancer"), updated)
  end.

Definition update_svc_ports (new_ports : list ServicePort) (sp : ServiceSpec) (updated : bool) :
    ServiceSpec * bool :=
  let set ps := MkServiceSpec (load_balancer_ip sp) (svc_type sp) ps (cluster_ip sp) in
  match ports sp with
  | Some svc_ports => if ports_differ svc_ports new_ports
                      then (set (Some new_ports), true) else (sp, updated)
  | None => (set (Some new_ports), updated)
  end.

Definition update_service_for_gateway (gateway : Gateway) : Eff Service Error bool := λ svc,
  let new_ports := listener_ports (listeners (gw_spec gateway)) in
  match requested_address gateway with
  | Err e => (svc, Err e)
  | Fault => (svc, Fault)
  | Ret address =>
      match svc_spec svc with
      | None => (svc, Err (LoadBalancerError "Loadbalancer service does not have a spec"))
      | Some sp =>
          let '(sp, updated) := update_lb_ip address sp false in
          let '(sp, updated) := update_svc_type sp updated in
          let '(sp, updated) := update_svc_ports new_ports sp updated in
          (set_svc_spec sp svc, Ret updated)
      end
  end.

(** The Service [create_svc_for_gateway] submits; [name_any] is the accessor of
    the [kube] crate. *)
Definition service_for_gateway (name_any : ObjectMeta → string) (gateway : Gateway) :
    outcome Error Service :=
  let ns := default "default" (om_namespace (gw_metadata gateway)) in
  let svc_meta := MkObjectMeta None (Some ns)
    (Some ("service-for-gateway-" +:+ name_any (gw_metadata gateway) +:+ "-")) None
    (Some {[GATEWAY_SERVICE_LABEL := name_any (gw_metadata gateway)]}) in
  let svc := MkService svc_meta (Some ServiceSpec_default) (Some ServiceStatus_default) in
  match update_service_for_gateway gateway svc with
  | (svc, Ret _) => Ret svc
  | (_, Err e) => Err e
  | (_, Fault) => Fault
  end.

(** ** Conditions of the Gateway *)

(** The loop over the existing conditions; [None] when none has the type. *)
Fixpoint update_condition (new_cond : Condition) (conditions : list Condition) :
    option (list Condition) :=
  match conditions with
  | [] => None
  | condition :: conditions =>
      if bool_decide (type_ condition = type_ new_cond) then
        if bool_decide (cond_status condition = cond_status new_cond) then
          Some (MkCondition (type_ condition) (cond_status condition) (reason condition)
                  (observed_generation new_cond) (last_transition_time condition)
                  (cond_message condition) :: conditions)
        else Some (new_cond :: conditions)
      else cons condition <$> update_condition new_cond conditions
  end.

Definition set_condition (gateway : Gateway) (new_cond : Condition) : Gateway :=
  match gw_status gateway with
  | Some status =>
      let set conds := set_gw_status
        (Some (MkGatewayStatus (st_addresses status) (Some conds) (st_listeners status))) gateway in
      match st_conditions status with
      | Some conditions =>
          set (default (conditions ++ [new_cond]) (update_condition new_cond conditions))
      | None => set [new_cond]
      end
  | None => gateway
  end.

(** The assignments to [accepted] in the two loops. *)
Definition reject (accepted : Condition) (reason message : string) : Condition :=
  MkCondition (type_ accepted) "False" reason (observed_generation accepted)
    (last_transition_time accepted) message.

Fixpoint check_addresses (addrs : list GatewayAddress) (accepted : Condition) : Condition :=
  match addrs with
  | [] => accepted
  | addr :: addrs =>
      match addr_type addr with
      | Some addr_type =>
          if bool_decide (addr_type ≠ "IPAddress")
          then reject accepted GatewayConditionReason_UnsupportedAddress
                 ("found an addres of type " +:+ addr_type +:+ ", only type IPAddress is supported")
          else check_addresses addrs accepted
      | None => check_addresses addrs accepted
      end
  end.

Definition check_listeners (ls : list ListenerStatus) (accepted : Condition) : Condition :=
  foldl (λ accepted listener,
    foldl (λ accepted condition,
      if bool_decide (cond_status condition = "False")
      then reject accepted GatewayConditionReason_ListenersNotValid
             ("listener " +:+ ls_name listener +:+ " is invalid")
      else accepted) accepted (ls_conditions listener)) accepted ls.

Definition get_accepted_condition (now : Z) (gateway : Gateway) : Condition :=
  let accepted := MkCondition GatewayConditionType_Accepted "True" GatewayConditionReason_Accepted
    (om_generation (gw_metadata gateway)) now "Blixt accepts responsibility for this Gateway" in
  let accepted :=
    match gw_status gateway with
    | Some status =>
        match st_listeners status with
        | Some listeners => check_listeners listeners accepted
        | None => accepted
        end
    | None => accepted
    end in
  match addresses (gw_spec gateway) with
  | Some addrs => check_addresses addrs accepted
  | None => accepted
  end.

(** ** Status of the listeners *)
Definition check_route_kinds (kind : option string) (rgks : list AllowedRoutesKind) : option string :=
  match rgks with
  | [] => None
  | rgk :: rest =>
      if (1 <? length (rgk :: rest))%nat
      then Some "Multiple route kinds for a single listener is unsupported" else
      let group_check :=
        match rgk_group rgk with
        | Some group => if bool_decide (group ≠ "gateway.networking.k8s.io")
                        then Some ("Unsupported API group: " +:+ group) else None
        | None => None
        end in
      match kind with
      | Some k => if bool_decide (rgk_kind rgk ≠ k)
                  then Some ("Unsupported route kind " +:+ rgk_kind rgk +:+ "; only " +:+ k +:+
                             " is supported")
                  else group_check
      | None => if bool_decide (rgk_kind rgk ≠ "TCPRoute") || bool_decide (rgk_kind rgk ≠ "UDPRoute")
                then Some ("Unsupported route kind " +:+ rgk_kind rgk +:+
                           "; can be one of TCPRoute or UDPRoute")
                else group_check
      end
  end.

(** The closure [update_listener_condition]. *)
Definition update_listener_condition (status reason message : string) (idx : nat)
    (conditions : list Condition) : list Condition :=
  alter (λ c, MkCondition (type_ c) status reason (observed_generation c)
                (last_transition_time c) message) idx conditions.

(** The route kinds a listener allows, if it lists any. *)
Definition route_kinds_error (kind : string) (listener : GatewayListener) : option string :=
  match allowed_routes listener with
  | Some routes =>
      match kinds routes with
      | Some rgks => check_route_kinds (Some kind) rgks
      | None => None
      end
  | None => None
  end.

(** The three updates for unsupported route kinds. *)
Definition invalid_route_kinds (msg : string) (conditions : list Condition) : list Condition :=
  let conditions := update_listener_condition "False" ListenerConditionReason_InvalidRouteKinds msg 0
    conditions in
  let conditions := update_listener_condition "False" ListenerConditionReason_InvalidRouteKinds msg 1
    conditions in
  update_listener_condition "False" ListenerConditionReason_Invalid msg 2 conditions.

Definition get_listener_status (now : Z) (listener : GatewayListener) (generation : Z) :
    list SupportedKind * list Condition :=
  let conditions := [
    MkCondition ListenerConditionType_ResolvedRefs "True" ListenerConditionReason_ResolvedRefs
      (Some generation) now "All references resolved";
    MkCondition ListenerConditionType_Accepted "True" ListenerConditionReason_Accepted
      (Some generation) now "Listener is valid";
    MkCondition ListenerConditionType_Programmed "True" ListenerConditionType_Programmed
      (Some generation) now "Listener is valid"] in
  let supported kind :=
    ([MkSupportedKind (Some "gateway.networking.k8s.io") kind],
     match route_kinds_error kind listener with
     | Some msg => invalid_route_kinds msg conditions
     | None => conditions
     end) in
  if bool_decide (protocol listener = "TCP") || bool_decide (protocol listener = "HTTP") ||
     bool_decide (protocol listener = "HTTPS")
  then supported "TCPRoute"
  else if bool_decide (protocol listener = "UDP") then supported "UDPRoute"
  else
    let unsupported := "Unsupported protocol: " +:+ protocol listener +:+
      ", must be one of TCP or UDP" in
    let conditions := update_listener_condition "False" ListenerConditionReason_UnsupportedProtocol
      unsupported 1 conditions in
    let conditions :=
      match route_kinds_error "UDPRoute" listener with
      | Some msg => update_listener_condition "False" ListenerConditionReason_InvalidRouteKinds
                      msg 0 conditions
      | None => conditions
      end in
    ([], update_listener_condition "False" ListenerConditionReason_Invalid unsupported 2 conditions).

(** One pass over the current conditions of a listener for a new condition. *)
Definition merge_condition (generation : option Z) (current : list Condition)
    (condition : Condition) : list Condition :=
  let '(final, present) := foldl (λ '(final, present) current_condition,
    if bool_decide (type_ condition = type_ current_condition) then
      (final ++ [if bool_decide (cond_status condition = cond_status current_condition)
                 then MkCondition (type_ current_condition) (cond_status current_condition)
                        (reason current_condition) generation
                        (last_transition_time current_condition) (cond_message current_condition)
                 else condition], true)
    else (final, present)) ([], false) current in
  if present then final else final ++ [condition].

(** The status of one listener, given the statuses recorded so far. *)
Definition listener_status (now gen : Z) (generation : option Z)
    (current : gmap string ListenerStatus) (listener : GatewayListener) : ListenerStatus :=
  let '(supported_kinds, conditions) := get_listener_status now listener gen in
  let final_conditions :=
    match current !! listener_name listener with
    | Some status => concat (map (merge_condition generation (ls_conditions status)) conditions)
    | None => conditions
    end in
  MkListenerStatus (listener_name listener) 0 supported_kinds final_conditions.

(** A later listener of the same name replaces an earlier one. *)
Definition current_statuses (gateway : Gateway) : gmap string ListenerStatus :=
  match gw_status gateway with
  | Some gw_status =>
      match st_listeners gw_status with
      | Some listeners => foldl (λ m listener, <[ls_name listener := listener]> m) ∅ listeners
      | None => ∅
      end
  | None => ∅
  end.

Definition set_listener_status (now : Z) : Eff Gateway Error unit := λ gateway,
  match om_generation (gw_metadata gateway) with
  | None => (gateway, Err (InvalidConfigError "Gateway generation not found"))
  | Some gen =>
      let statuses := map (listener_status now gen (om_generation (gw_metadata gateway))
                             (current_statuses gateway)) (listeners (gw_spec gateway)) in
      (match gw_status gateway with
       | Some status => set_gw_status (Some (MkGatewayStatus (st_addresses status)
                          (st_conditions status) (Some statuses))) gateway
       | None => gateway
       end, Ret tt)
  end.
End gateway_utils.
