(* ===== verification/GatewayProps.v ===== *)
(** * Properties of the control plane's pure functions

    The Service converges to what the Gateway asks for; conditions are
    recorded once per type and do not flap; a Gateway is accepted exactly when
    its listeners and addresses are supported; and two gaps: a requested
    address that is never written, and Gateways without a status. *)

From stdpp Require Import base list gmap strings.
From S2P Require Import Prelude GatewayApi GatewayUtils.

#[export] Instance ServicePort_eq_dec : EqDecision ServicePort.
Proof. solve_decision. Defined.

(** ** Specification *)

(** The transport protocol of a listener. *)
Definition svc_protocol (l : GatewayListener) : option string :=
  if decide (protocol l ∈ ["TCP"; "HTTP"; "HTTPS"]) then Some "TCP"
  else if decide (protocol l = "UDP") then Some "UDP" else None.

(** The port of the Service for a listener. *)
Definition desired_port (l : GatewayListener) : option ServicePort :=
  (λ p, MkServicePort (Some (listener_name l)) (listener_port l) (Some p) None) <$> svc_protocol l.

(** Ports that agree in what the Gateway determines (not the node port). *)
Definition same_port (p q : ServicePort) : Prop :=
  sp_name p = sp_name q ∧ sp_port p = sp_port q ∧ sp_protocol p = sp_protocol q.

(** A listener that allows only routes the data plane implements. *)
Definition kinds_ok (kind : string) (l : GatewayListener) : Prop :=
  match allowed_routes l ≫= kinds with
  | None | Some [] => True
  | Some [rgk] => rgk_kind rgk = kind ∧
      (rgk_group rgk = None ∨ rgk_group rgk = Some "gateway.networking.k8s.io")
  | Some _ => False
  end.
Definition listener_valid (l : GatewayListener) : Prop :=
  match svc_protocol l with
  | Some p => kinds_ok (p +:+ "Route") l
  | None => False
  end.

(** Addresses of type IPAddress, or without a type. *)
Definition address_ok (a : GatewayAddress) : Prop :=
  addr_type a = None ∨ addr_type a = Some "IPAddress".

(** ** The LoadBalancer Service *)
Section service.
Context `{GC : GatewayConstants}.

Lemma protocol_cases (l : GatewayListener) {A} (a b c : A) :
  (if bool_decide (protocol l = "TCP") || bool_decide (protocol l = "HTTP") ||
      bool_decide (protocol l = "HTTPS") then a
   else if bool_decide (protocol l = "UDP") then b else c) =
  match svc_protocol l with
  | Some p => if decide (p = "TCP") then a else b
  | None => c
  end.
Proof.
  unfold svc_protocol.
  destruct (decide (protocol l ∈ ["TCP"; "HTTP"; "HTTPS"])) as [Hin|Hin].
  - rewrite !elem_of_cons, elem_of_nil in Hin. repeat case_bool_decide; simpl; try done; naive_solver.
  - rewrite !elem_of_cons, elem_of_nil in Hin.
    rewrite !bool_decide_eq_false_2 by naive_solver. simpl. case_bool_decide; [by rewrite decide_True|by rewrite decide_False].
Qed.

Lemma listener_ports_eq ls : listener_ports ls = omap desired_port ls.
Proof.
  unfold listener_ports. match goal with |- foldl ?f _ _ = _ => set (step := f) end.
  assert (∀ acc l, step acc l = acc ++ option_list (desired_port l)) as Hstep.
  { intros acc l. unfold step. rewrite protocol_cases. unfold desired_port, svc_protocol.
    repeat case_decide; simpl; rewrite ?app_nil_r; done. }
  enough (∀ acc, foldl step acc ls = acc ++ omap desired_port ls) by done.
  induction ls as [|l ls IH]; intros acc; cbn [foldl]; [by rewrite app_nil_r|].
  rewrite IH, Hstep, <-app_assoc. cbn [omap list_omap]. by destruct (desired_port l).
Qed.

Lemma ServicePort_differs_false p q : ServicePort_differs p q = false ↔ same_port p q.
Proof.
  unfold ServicePort_differs, same_port. rewrite !orb_false_iff, !negb_false_iff, Z.eqb_eq.
  rewrite !bool_decide_eq_true. tauto.
Qed.

Lemma ports_differ_false ps qs : ports_differ ps qs = false ↔ Forall2 same_port ps qs.
Proof.
  unfold ports_differ. revert qs. induction ps as [|p ps IH]; intros [|q qs]; simpl.
  - split; [by constructor|done].
  - split; [done|by inversion 1].
  - split; [done|by inversion 1].
  - rewrite !orb_false_iff, ServicePort_differs_false. specialize (IH qs).
    rewrite orb_false_iff in IH. rewrite Forall2_cons. tauto.
Qed.

#[global] Instance same_port_refl : Reflexive same_port.
Proof. by intros p. Qed.

(** Which drift is detected. *)
Definition drift (a : option GatewayAddress) (ls : list GatewayListener) (sp : ServiceSpec) : Prop :=
  (∃ ip, load_balancer_ip sp = Some ip ∧ addr_value <$> a ≠ Some ip) ∨
  (∃ t, svc_type sp = Some t ∧ t ≠ "LoadBalancer") ∨
  (∃ ps, ports sp = Some ps ∧ ¬ Forall2 same_port ps (omap desired_port ls)).

(** The three statements on the spec, each with its share of the drift. *)
Lemma update_lb_ip_spec a sp u :
  ∃ sp' u', update_lb_ip a sp u = (sp', u') ∧
    load_balancer_ip sp' = (load_balancer_ip sp ≫= λ _, addr_value <$> a) ∧
    svc_type sp' = svc_type sp ∧ ports sp' = ports sp ∧ cluster_ip sp' = cluster_ip sp ∧
    (u' = true ↔ u = true ∨ ∃ ip, load_balancer_ip sp = Some ip ∧ addr_value <$> a ≠ Some ip).
Proof.
  unfold update_lb_ip. destruct a as [a|], (load_balancer_ip sp) as [ip|] eqn:Hip; simpl;
    [case_bool_decide|..]; do 2 eexists; (split; [reflexivity|]); simpl; rewrite ?Hip; naive_solver.
Qed.

Lemma update_svc_type_spec sp u :
  ∃ sp' u', update_svc_type sp u = (sp', u') ∧
    load_balancer_ip sp' = load_balancer_ip sp ∧ svc_type sp' = Some "LoadBalancer" ∧
    ports sp' = ports sp ∧ cluster_ip sp' = cluster_ip sp ∧
    (u' = true ↔ u = true ∨ ∃ t, svc_type sp = Some t ∧ t ≠ "LoadBalancer").
Proof.
  unfold update_svc_type. destruct (svc_type sp) as [t|] eqn:Ht; [case_bool_decide|];
    do 2 eexists; (split; [reflexivity|]); simpl; rewrite ?Ht; naive_solver.
Qed.

Lemma update_svc_ports_spec qs sp u :
  ∃ sp' u' ps, update_svc_ports qs sp u = (sp', u') ∧
    load_balancer_ip sp' = load_balancer_ip sp ∧ svc_type sp' = svc_type sp ∧
    cluster_ip sp' = cluster_ip sp ∧ ports sp' = Some ps ∧ Forall2 same_port ps qs ∧
    (∀ ps0, ports sp = Some ps0 → Forall2 same_port ps0 qs → ps = ps0) ∧
    (u' = true ↔ u = true ∨ ∃ ps0, ports sp = Some ps0 ∧ ¬ Forall2 same_port ps0 qs).
Proof.
  unfold update_svc_ports. pose proof (reflexivity (R:=Forall2 same_port) qs).
  destruct (ports sp) as [ps0|] eqn:Hp.
  - pose proof (ports_differ_false ps0 qs) as Hd. destruct (ports_differ ps0 qs); do 3 eexists;
      (split; [reflexivity|]); simpl; rewrite ?Hp; naive_solver.
  - do 3 eexists; (split; [reflexivity|]); simpl; naive_solver.
Qed.

Lemma update_service_run gw svc sp a :
  requested_address gw = Ret a → svc_spec svc = Some sp →
  ∃ sp' u ps, update_service_for_gateway gw svc = (set_svc_spec sp' svc, Ret u) ∧
    svc_type sp' = Some "LoadBalancer" ∧
    load_balancer_ip sp' = (load_balancer_ip sp ≫= λ _, addr_value <$> a) ∧
    cluster_ip sp' = cluster_ip sp ∧
    ports sp' = Some ps ∧ Forall2 same_port ps (omap desired_port (listeners (gw_spec gw))) ∧
    (∀ ps0, ports sp = Some ps0 →
       Forall2 same_port ps0 (omap desired_port (listeners (gw_spec gw))) → ps = ps0) ∧
    (u = true ↔ drift a (listeners (gw_spec gw)) sp).
Proof.
  intros Ha Hs. unfold update_service_for_gateway. rewrite Ha, Hs, listener_ports_eq.
  destruct (update_lb_ip_spec a sp false) as (s1 & u1 & -> & L1 & T1 & P1 & C1 & U1).
  destruct (update_svc_type_spec s1 u1) as (s2 & u2 & -> & L2 & T2 & P2 & C2 & U2).
  destruct (update_svc_ports_spec (omap desired_port (listeners (gw_spec gw))) s2 u2)
    as (s3 & u3 & ps & -> & L3 & T3 & C3 & P3 & F3 & K3 & U3).
  exists s3, u3, ps. rewrite P2, P1 in *. rewrite T1 in U2.
  split_and!; [done|congruence|congruence|congruence|done|done|done|].
  unfold drift. rewrite U3, U2, U1. naive_solver.
Qed.

(** A Service in the desired state is left alone. *)
Lemma update_service_stable gw svc sp a ps :
  requested_address gw = Ret a → svc_spec svc = Some sp →
  svc_type sp = Some "LoadBalancer" →
  load_balancer_ip sp = (load_balancer_ip sp ≫= λ _, addr_value <$> a) →
  ports sp = Some ps → Forall2 same_port ps (omap desired_port (listeners (gw_spec gw))) →
  update_service_for_gateway gw svc = (svc, Ret false).
Proof.
  intros Ha Hs T L P F.
  destruct (update_service_run gw svc sp a Ha Hs) as (sp' & u & ps' & -> & T' & L' & C' & P' & _ & K & U).
  specialize (K ps P F) as ->. f_equal.
  - destruct sp, sp', svc. simpl in *. unfold set_svc_spec. simpl. congruence.
  - f_equal. destruct u; [|done]. destruct (proj1 U eq_refl) as [(ip & E & N)|[(t & E & N)|(ps0 & E & N)]].
    + rewrite E in L. simpl in L. congruence.
    + congruence.
    + by simplify_eq.
Qed.

(** C31: the Service a Gateway needs.  For a Gateway whose first address is
    supported and a Service with a spec, the update succeeds; afterwards the
    Service is of type LoadBalancer and its ports are those of the listeners
    with a supported protocol, in order (ports that already agree keep their
    node ports); an assigned load balancer address follows the requested one;
    the cluster address is untouched; and drift is reported exactly when an
    assigned field differed. *)
Theorem update_service_desired gw svc sp a :
  requested_address gw = Ret a → svc_spec svc = Some sp →
  ∃ sp' u ps, update_service_for_gateway gw svc = (set_svc_spec sp' svc, Ret u) ∧
    svc_type sp' = Some "LoadBalancer" ∧
    load_balancer_ip sp' = (load_balancer_ip sp ≫= λ _, addr_value <$> a) ∧
    cluster_ip sp' = cluster_ip sp ∧
    ports sp' = Some ps ∧ Forall2 same_port ps (omap desired_port (listeners (gw_spec gw))) ∧
    (∀ ps0, ports sp = Some ps0 →
       Forall2 same_port ps0 (omap desired_port (listeners (gw_spec gw))) → ps = ps0) ∧
    (u = true ↔ drift a (listeners (gw_spec gw)) sp).
Proof. apply update_service_run. Qed.

(** The update converges.  Applied to its own result it changes nothing
    and reports no drift, so a reconciled Service is not patched again. *)
Theorem update_service_idempotent gw svc svc' u :
  update_service_for_gateway gw svc = (svc', Ret u) →
  update_service_for_gateway gw svc' = (svc', Ret false).
Proof.
  intros Hrun.
  destruct (requested_address gw) as [a|e|] eqn:Ha;
    [|by unfold update_service_for_gateway in Hrun; rewrite Ha in Hrun..].
  destruct (svc_spec svc) as [sp|] eqn:Hs;
    [|by unfold update_service_for_gateway in Hrun; rewrite Ha, Hs in Hrun].
  destruct (update_service_run gw svc sp a Ha Hs) as (sp' & u' & ps & Hr & T & L & _ & P & F & _).
  rewrite Hr in Hrun. injection Hrun as <- _. apply (update_service_stable gw _ sp' a ps); try done.
  rewrite L. by destruct (load_balancer_ip sp), a.
Qed.

(** A requested address is never written.  The Service created for a
    Gateway that asks for an address has no load balancer address, and later
    updates neither set it nor report drift. *)
Theorem requested_address_ignored name_any gw a :
  requested_address gw = Ret (Some a) →
  ∃ svc sp, service_for_gateway name_any gw = Ret svc ∧ svc_spec svc = Some sp ∧
    load_balancer_ip sp = None ∧ update_service_for_gateway gw svc = (svc, Ret false).
Proof.
  intros Ha. unfold service_for_gateway.
  match goal with |- context [update_service_for_gateway gw ?x] => set (svc := x) end.
  destruct (update_service_run gw svc ServiceSpec_default (Some a) Ha eq_refl)
    as (sp' & u & ps & -> & T & L & _ & P & F & _).
  do 2 eexists. split_and!; [done|done|done|]. apply (update_service_stable gw _ sp' (Some a) ps);
    try done. by rewrite L.
Qed.
End service.

(** ** Conditions of the Gateway *)
Section conditions.
Context `{GC : GatewayConstants}.

Definition with_generation (g : option Z) (c : Condition) : Condition :=
  MkCondition (type_ c) (cond_status c) (reason c) g (last_transition_time c) (cond_message c).

Lemma update_condition_None new conds :
  update_condition new conds = None ↔ type_ new ∉ type_ <$> conds.
Proof.
  induction conds as [|c conds IH]; simpl; [set_solver|]. rewrite not_elem_of_cons.
  case_bool_decide as Ht; [case_bool_decide; naive_solver|].
  rewrite fmap_None, IH. naive_solver.
Qed.

(** The condition of the type is replaced in place, the others are kept. *)
Lemma update_condition_Some new conds conds' :
  update_condition new conds = Some conds' →
  ∃ pre old post, conds = pre ++ old :: post ∧ type_ old = type_ new ∧
    conds' = pre ++ (if decide (cond_status old = cond_status new)
                     then with_generation (observed_generation new) old else new) :: post.
Proof.
  revert conds'. induction conds as [|c conds IH]; intros conds'; simpl; [done|].
  case_bool_decide as Ht.
  - exists [], c, conds. case_bool_decide; simplify_eq; [rewrite decide_True|rewrite decide_False]; done.
  - intros (conds1 & Hu & ->)%fmap_Some. destruct (IH _ Hu) as (pre & old & post & -> & ? & ->).
    by exists (c :: pre), old, post.
Qed.

Lemma set_condition_run gw st new :
  gw_status gw = Some st → NoDup (type_ <$> default [] (st_conditions st)) →
  ∃ conds', set_condition gw new =
      set_gw_status (Some (MkGatewayStatus (st_addresses st) (Some conds') (st_listeners st))) gw ∧
    NoDup (type_ <$> conds') ∧
    (∀ c, type_ c ≠ type_ new → c ∈ conds' ↔ c ∈ default [] (st_conditions st)) ∧
    ∃ c, c ∈ conds' ∧ type_ c = type_ new ∧ cond_status c = cond_status new ∧
      observed_generation c = observed_generation new ∧
      ∀ old, old ∈ default [] (st_conditions st) → type_ old = type_ new →
        c = if decide (cond_status old = cond_status new)
            then with_generation (observed_generation new) old else new.
Proof.
  intros Hst Hnd. unfold set_condition. rewrite Hst.
  destruct (st_conditions st) as [conds|]; simpl in *; cycle 1.
  { exists [new]. split_and!; [done|apply NoDup_singleton|set_solver|]. exists new. set_solver. }
  destruct (update_condition new conds) as [conds'|] eqn:Hu; simpl.
  - apply update_condition_Some in Hu as (pre & old & post & -> & Ht & ->).
    set (c := if decide _ then _ else _).
    assert (type_ c = type_ new ∧ cond_status c = cond_status new ∧
            observed_generation c = observed_generation new) as (Hct & Hcs & Hcg)
      by (unfold c; case_decide; by subst).
    rewrite fmap_app, fmap_cons in Hnd. exists (pre ++ c :: post). split_and!; [done|..].
    + rewrite fmap_app, fmap_cons. by rewrite Hct, <-Ht.
    + intros x Hx. rewrite !elem_of_app, !elem_of_cons. naive_solver.
    + exists c. split_and!; [set_solver|done..|]. intros old' Hold' Ht'.
      enough (old' = old) as -> by done.
      apply NoDup_app in Hnd as (Hpre & Hdis & Hpost). apply NoDup_cons in Hpost as [Hpost _].
      rewrite elem_of_app, elem_of_cons in Hold'. destruct Hold' as [Hin|[->|Hin]]; [|done|].
      * destruct (Hdis (type_ old')); [by apply list_elem_of_fmap_2|]. rewrite Ht', Ht. constructor.
      * destruct Hpost. rewrite Ht, <-Ht'. by apply list_elem_of_fmap_2.
  - apply update_condition_None in Hu. exists (conds ++ [new]). split_and!; [done|..].
    + rewrite fmap_app. apply NoDup_app. split_and!; [done|set_solver|apply NoDup_singleton].
    + intros c Hc. rewrite elem_of_app, list_elem_of_singleton. naive_solver.
    + exists new. split_and!; [set_solver|done..|]. intros old Hold Ht. destruct Hu.
      rewrite <-Ht. by apply list_elem_of_fmap_2.
Qed.

(** Conditions are recorded once per type and do not flap.  On a Gateway
    with a status whose conditions have distinct types, [set_condition]
    records exactly one condition of the new type, with the new status and
    observed generation; if the status did not change, the reason, message and
    transition time of the old condition stay; conditions of other types, the
    addresses and the listeners are untouched. *)
Theorem set_condition_spec gw st new :
  gw_status gw = Some st → NoDup (type_ <$> default [] (st_conditions st)) →
  ∃ conds', set_condition gw new =
      set_gw_status (Some (MkGatewayStatus (st_addresses st) (Some conds') (st_listeners st))) gw ∧
    NoDup (type_ <$> conds') ∧
    (∀ c, type_ c ≠ type_ new → c ∈ conds' ↔ c ∈ default [] (st_conditions st)) ∧
    ∃ c, c ∈ conds' ∧ type_ c = type_ new ∧ cond_status c = cond_status new ∧
      observed_generation c = observed_generation new ∧
      ∀ old, old ∈ default [] (st_conditions st) → type_ old = type_ new →
        c = if decide (cond_status old = cond_status new)
            then with_generation (observed_generation new) old else new.
Proof. apply set_condition_run. Qed.

(** ** Listeners *)

(** What is wrong with the route kinds of a listener. *)
Lemma route_kinds_error_None kind l : route_kinds_error kind l = None ↔ kinds_ok kind l.
Proof.
  unfold route_kinds_error, kinds_ok. destruct (allowed_routes l) as [r|]; simpl; [|done].
  destruct (kinds r) as [[|rgk [|? ?]]|]; simpl; try done.
  unfold check_route_kinds. simpl. destruct (decide (rgk_kind rgk = kind)) as [->|Hk].
  2: { rewrite bool_decide_eq_true_2 by done. naive_solver. }
  rewrite bool_decide_eq_false_2 by (intros Hn; by apply Hn).
  destruct (rgk_group rgk) as [g|]; [|naive_solver].
  destruct (decide (g = "gateway.networking.k8s.io")) as [->|Hg].
  - rewrite bool_decide_eq_false_2 by (intros Hn; by apply Hn). naive_solver.
  - rewrite bool_decide_eq_true_2 by done. naive_solver.
Qed.

(** Statements about the three conditions of a listener. *)
Ltac three_conditions :=
  unfold invalid_route_kinds, update_listener_condition; simpl; split; [done|]; split; [|split; [|intros ?; rewrite ?elem_of_cons, ?elem_of_nil; naive_solver]];
  rewrite ?Forall_cons, ?Forall_nil; naive_solver.

Lemma get_listener_status_run now l gen ks cs :
  get_listener_status now l gen = (ks, cs) →
  type_ <$> cs = [ListenerConditionType_ResolvedRefs; ListenerConditionType_Accepted;
                  ListenerConditionType_Programmed] ∧
  Forall (λ c, observed_generation c = Some gen ∧ last_transition_time c = now ∧
               (cond_status c = "True" ∨ cond_status c = "False")) cs ∧
  (Forall (λ c, cond_status c = "True") cs ↔ listener_valid l) ∧
  (∀ c, c ∈ tail cs → cond_status c = "False" ↔ ¬ listener_valid l).
Proof.
  unfold get_listener_status. rewrite protocol_cases. unfold listener_valid.
  destruct (svc_protocol l) as [p|] eqn:Hp.
  - assert (p = "TCP" ∨ p = "UDP") as Hpp.
    { unfold svc_protocol in Hp. repeat case_decide; naive_solver. }
    assert ((if decide (p = "TCP") then "TCPRoute" else "UDPRoute") = p +:+ "Route") as Hk
      by (by destruct Hpp as [->| ->]).
    intros Hs. pose proof (route_kinds_error_None (p +:+ "Route") l) as Hok. rewrite <-Hk in *.
    destruct Hpp as [->| ->]; simpl in *; simplify_eq;
      destruct (route_kinds_error _ l) as [msg|]; rewrite <-Hok; three_conditions.
  - intros Hs. simplify_eq. destruct (route_kinds_error _ l) as [msg|]; three_conditions.
Qed.

(** The status of a listener.  It always consists of the three listener
    conditions; all of them are "True" exactly when the listener's protocol
    is supported and it allows only the matching route kind, otherwise
    "Programmed" and "Accepted" are "False". *)
Theorem get_listener_status_spec now l gen ks cs :
  get_listener_status now l gen = (ks, cs) →
  type_ <$> cs = [ListenerConditionType_ResolvedRefs; ListenerConditionType_Accepted;
                  ListenerConditionType_Programmed] ∧
  Forall (λ c, observed_generation c = Some gen ∧ last_transition_time c = now ∧
               (cond_status c = "True" ∨ cond_status c = "False")) cs ∧
  (Forall (λ c, cond_status c = "True") cs ↔ listener_valid l) ∧
  (∀ c, c ∈ tail cs → cond_status c = "False" ↔ ¬ listener_valid l).
Proof. apply get_listener_status_run. Qed.

(** The merge with the recorded conditions: those of the same type, or the
    new condition if there is none. *)
Definition merged (g : option Z) (c old : Condition) : Condition :=
  if decide (cond_status c = cond_status old) then with_generation g old else c.

Lemma merge_condition_eq g cur c :
  merge_condition g cur c =
  match filter (λ x, type_ c = type_ x) cur with
  | [] => [c]
  | olds => merged g c <$> olds
  end.
Proof.
  unfold merge_condition. match goal with |- context [foldl ?f _ _] => set (step := f) end.
  assert (∀ acc p x, step (acc, p) x =
    if decide (type_ c = type_ x) then (acc ++ [merged g c x], true) else (acc, p)) as Hstep.
  { intros acc p x. unfold step, merged. repeat case_bool_decide; repeat case_decide; done. }
  assert (∀ acc p, foldl step (acc, p) cur =
    (acc ++ (merged g c <$> filter (λ x, type_ c = type_ x) cur),
     p || negb (bool_decide (filter (λ x, type_ c = type_ x) cur = [])))) as Hf.
  { induction cur as [|x cur IH]; intros acc p; cbn [foldl].
    - by rewrite app_nil_r, orb_false_r.
    - rewrite Hstep, filter_cons. case_decide; rewrite IH; [|done].
      simpl. by rewrite <-app_assoc, orb_true_r. }
  rewrite Hf. simpl. by destruct (filter _ cur).
Qed.

Lemma merge_condition_status g cur c :
  merge_condition g cur c ≠ [] ∧
  Forall (λ x, cond_status x = cond_status c) (merge_condition g cur c).
Proof.
  rewrite merge_condition_eq. destruct (filter _ cur) as [|o os]; [by repeat constructor|].
  split; [done|]. apply Forall_fmap, Forall_true. intros x. simpl. unfold merged. by case_decide.
Qed.

(** With one recorded condition per type the result is one condition. *)
Lemma merge_condition_one g cur c :
  NoDup (type_ <$> cur) → observed_generation c = g →
  ∃ c', merge_condition g cur c = [c'] ∧ type_ c' = type_ c ∧ cond_status c' = cond_status c ∧
    observed_generation c' = g ∧
    ∀ old, old ∈ cur → type_ old = type_ c → c' = merged g c old.
Proof.
  intros Hnd Hg. rewrite merge_condition_eq.
  destruct (filter (λ x, type_ c = type_ x) cur) as [|o os] eqn:Hf.
  { exists c. split_and!; try done. intros old Hin Ht.
    assert (old ∈ filter (λ x, type_ c = type_ x) cur) as Hx by (by apply list_elem_of_filter).
    rewrite Hf in Hx. by apply elem_of_nil in Hx. }
  assert (∀ x, x ∈ o :: os → type_ x = type_ c ∧ x ∈ cur) as Hos.
  { intros x. rewrite <-Hf, list_elem_of_filter. naive_solver. }
  assert (NoDup (type_ <$> o :: os)) as Hnd'.
  { rewrite <-Hf. eapply sublist_NoDup; [done|apply fmap_sublist, sublist_filter]. }
  destruct os as [|o' os]; cycle 1.
  { rewrite !fmap_cons in Hnd'. apply NoDup_cons in Hnd' as [[] _].
    rewrite (proj1 (Hos o' ltac:(set_solver))), (proj1 (Hos o ltac:(set_solver))). constructor. }
  destruct (Hos o ltac:(set_solver)) as [Ho _].
  exists (merged g c o). split_and!; [done|unfold merged; case_decide; done..|].
  intros old Hin Ht. f_equal.
  assert (old ∈ filter (λ x, type_ c = type_ x) cur) as Hx by (by apply list_elem_of_filter).
  rewrite Hf in Hx. symmetry. by apply list_elem_of_singleton.
Qed.

(** The recorded status of a listener. *)
Lemma current_statuses_lookup gw st (ls : ListenerStatus) :
  gw_status gw = Some st → NoDup (ls_name <$> default [] (st_listeners st)) →
  current_statuses gw !! ls_name ls = Some ls ↔ ls ∈ default [] (st_listeners st).
Proof.
  intros Hst Hnd. unfold current_statuses. rewrite Hst. destruct (st_listeners st) as [l|]; simpl in *;
    [|rewrite lookup_empty; set_solver].
  enough (∀ m : gmap string ListenerStatus,
    foldl (λ m x, <[ls_name x := x]> m) m l !! ls_name ls = Some ls ↔
    ls ∈ l ∨ (ls_name ls ∉ ls_name <$> l ∧ m !! ls_name ls = Some ls)) as Hm.
  { rewrite Hm, lookup_empty. naive_solver. }
  induction l as [|x l IH]; intros m; cbn [foldl]; [set_solver|].
  rewrite fmap_cons in *. apply NoDup_cons in Hnd as [Hx Hnd]. rewrite (IH Hnd), elem_of_cons, not_elem_of_cons.
  destruct (decide (ls_name x = ls_name ls)) as [Heq|Hne].
  - rewrite Heq, lookup_insert_eq. rewrite Heq in Hx. split; [|naive_solver].
    intros [?|[? [= ->]]]; auto.
  - rewrite lookup_insert_ne by done. split; [naive_solver|]. intros [[->|?]|[[_ ?] ?]]; naive_solver.
Qed.

Lemma current_statuses_recorded gw st n (ls : ListenerStatus) :
  gw_status gw = Some st → current_statuses gw !! n = Some ls →
  ls_name ls = n ∧ ls ∈ default [] (st_listeners st).
Proof.
  intros Hst. unfold current_statuses. rewrite Hst. destruct (st_listeners st) as [l|]; simpl;
    [|by rewrite lookup_empty].
  enough (∀ m : gmap string ListenerStatus,
    foldl (λ m x, <[ls_name x := x]> m) m l !! n = Some ls →
    (ls_name ls = n ∧ ls ∈ l) ∨ m !! n = Some ls) as Hm.
  { intros [?|E]%Hm; [done|]. by rewrite lookup_empty in E. }
  induction l as [|x l IH]; intros m; cbn [foldl]; [by right|]. intros [[? ?]|E]%IH; [set_solver|].
  apply lookup_insert_Some in E as [[<- <-]|[_ ?]]; [left; set_solver|by right].
Qed.

(** An unknown listener is treated like one without recorded conditions. *)
Lemma listener_status_merge now gen g cur l :
  listener_status now gen g cur l =
  MkListenerStatus (listener_name l) 0 (get_listener_status now l gen).1
    (concat (map (merge_condition g (default [] (ls_conditions <$> cur !! listener_name l)))
               (get_listener_status now l gen).2)).
Proof.
  unfold listener_status. destruct (get_listener_status now l gen) as [ks cs]. simpl.
  destruct (cur !! listener_name l); simpl; [done|]. f_equal.
  induction cs as [|c cs IH]; simpl; [done|]. rewrite <-IH. done.
Qed.

(** A reported status of a listener: the conditions computed for it, with
    unchanged ones taken from the recorded status [olds]. *)
Definition reported (now gen : Z) (l : GatewayListener) (olds : list Condition)
    (s : ListenerStatus) : Prop :=
  ls_name s = listener_name l ∧ attached_routes s = 0 ∧
  Forall2 (λ new c, type_ c = type_ new ∧ cond_status c = cond_status new ∧
                    observed_generation c = Some gen ∧
                    ∀ old, old ∈ olds → type_ old = type_ new →
                      cond_status old = cond_status new → c = with_generation (Some gen) old)
    (get_listener_status now l gen).2 (ls_conditions s).

(** C30: listener conditions do not flap.  With a generation and a status whose
    listeners have distinct names and conditions of distinct types, the new
    status has one entry per listener of the spec, in order; each entry has
    the three listener conditions with the computed statuses and the current
    generation, and a condition whose status is unchanged keeps its reason,
    message and transition time. *)
Theorem set_listener_status_spec now gw st gen :
  gw_status gw = Some st → om_generation (gw_metadata gw) = Some gen →
  NoDup (ls_name <$> default [] (st_listeners st)) →
  Forall (λ s, NoDup (type_ <$> ls_conditions s)) (default [] (st_listeners st)) →
  ∃ statuses, set_listener_status now gw =
      (set_gw_status (Some (MkGatewayStatus (st_addresses st) (st_conditions st) (Some statuses))) gw,
       Ret tt) ∧
    Forall2 (λ l s, reported now gen l [] s ∧
       ∀ old, old ∈ default [] (st_listeners st) → ls_name old = listener_name l →
         reported now gen l (ls_conditions old) s) (listeners (gw_spec gw)) statuses.
Proof.
  intros Hst Hgen Hnames Htypes. unfold set_listener_status. rewrite Hgen, Hst.
  eexists. split; [done|]. apply Forall2_fmap_r, Forall_Forall2_diag, Forall_true. intros l.
  assert (∀ olds, NoDup (type_ <$> olds) →
    Forall2 (λ new c, type_ c = type_ new ∧ cond_status c = cond_status new ∧
                    observed_generation c = Some gen ∧
                    ∀ old, old ∈ olds → type_ old = type_ new →
                      cond_status old = cond_status new → c = with_generation (Some gen) old)
      (get_listener_status now l gen).2
      (concat (map (merge_condition (Some gen) olds) (get_listener_status now l gen).2))) as Hmerge.
  { intros olds Hnd. destruct (get_listener_status now l gen) as [ks cs] eqn:Hs.
    apply get_listener_status_run in Hs as (_ & Hs & _). simpl. induction Hs as [|c cs [Hg _] _ IH]; [constructor|].
    simpl. destruct (merge_condition_one (Some gen) olds c Hnd Hg) as (c' & -> & ? & ? & ? & Hold).
    constructor; [|done]. split_and!; [done..|]. intros old Hin Ht Hst'. rewrite (Hold old Hin Ht).
    unfold merged. by rewrite decide_True. }
  unfold compose. rewrite listener_status_merge. unfold reported. cbn [ls_name attached_routes ls_conditions].
  destruct (current_statuses gw !! listener_name l) as [cur|] eqn:Hcur.
  - destruct (current_statuses_recorded gw st _ _ Hst Hcur) as [Hn Hin].
    rewrite Forall_forall in Htypes. specialize (Hmerge _ (Htypes _ Hin)).
    split; [split_and!; [done|done|]|].
    + eapply Forall2_impl; [done|]. naive_solver set_solver.
    + intros old Hold Hno. assert (old = cur) as -> by
        (rewrite <-Hno in Hcur; apply (current_statuses_lookup gw st) in Hold; [congruence|done|done]).
      by split_and!.
  - specialize (Hmerge [] (NoDup_nil_2)). split; [done|]. intros old Hold Hno.
    apply (current_statuses_lookup gw st) in Hold; [congruence|done|done].
Qed.

(** ** Acceptance *)
Definition is_False (c : Condition) : Prop := cond_status c = "False".

Lemma check_listeners_status ls acc :
  cond_status acc = "True" →
  (cond_status (check_listeners ls acc) = "True" ∨ cond_status (check_listeners ls acc) = "False") ∧
  (cond_status (check_listeners ls acc) = "True" ↔
   Forall (λ l, Forall (λ c, ¬ is_False c) (ls_conditions l)) ls).
Proof.
  intros Hacc.
  assert (∀ l cs acc, cond_status acc = "True" ∨ cond_status acc = "False" →
    let acc' := foldl (λ accepted condition,
      if bool_decide (cond_status condition = "False")
      then reject accepted GatewayConditionReason_ListenersNotValid
             ("listener " +:+ ls_name l +:+ " is invalid") else accepted) acc cs in
    (cond_status acc' = "True" ∨ cond_status acc' = "False") ∧
    (cond_status acc' = "True" ↔ cond_status acc = "True" ∧ Forall (λ c, ¬ is_False c) cs)) as Hin.
  { intros l cs. induction cs as [|c cs IH]; intros a Ha; cbn [foldl]; [naive_solver|].
    rewrite Forall_cons. unfold is_False at 1. case_bool_decide as Hc; [|by specialize (IH a Ha); naive_solver].
    destruct (IH (reject a GatewayConditionReason_ListenersNotValid
      ("listener " +:+ ls_name l +:+ " is invalid")) ltac:(by right)) as [? ?]. simpl in *. naive_solver. }
  enough (∀ a, cond_status a = "True" ∨ cond_status a = "False" →
    (cond_status (check_listeners ls a) = "True" ∨ cond_status (check_listeners ls a) = "False") ∧
    (cond_status (check_listeners ls a) = "True" ↔ cond_status a = "True" ∧
     Forall (λ l, Forall (λ c, ¬ is_False c) (ls_conditions l)) ls)) as Hout.
  { destruct (Hout acc) as [? ?]; naive_solver. }
  unfold check_listeners. induction ls as [|l ls IH]; intros a Ha; cbn [foldl]; [naive_solver|].
  rewrite Forall_cons. destruct (Hin l (ls_conditions l) a Ha) as [H1 H2].
  destruct (IH _ H1) as [H3 H4]. naive_solver.
Qed.

Lemma check_addresses_status addrs acc :
  (Forall address_ok addrs ∧ check_addresses addrs acc = acc) ∨
  (¬ Forall address_ok addrs ∧ cond_status (check_addresses addrs acc) = "False").
Proof.
  unfold address_ok. induction addrs as [|a addrs IH]; [by left|]. rewrite Forall_cons. simpl.
  destruct (addr_type a) as [t|]; [|naive_solver].
  destruct (decide (t = "IPAddress")) as [->|Ht].
  - rewrite bool_decide_eq_false_2 by (intros Hn; by apply Hn). naive_solver.
  - rewrite bool_decide_eq_true_2 by done. right. split; [naive_solver|done].
Qed.

(** The listener statuses just computed decide like the listeners themselves. *)
Lemma listener_status_valid now gen g cur l :
  Forall (λ c, ¬ is_False c) (ls_conditions (listener_status now gen g cur l)) ↔ listener_valid l.
Proof.
  rewrite listener_status_merge. cbn [ls_conditions].
  set (olds := default [] _). clearbody olds.
  destruct (get_listener_status now l gen) as [ks cs] eqn:Hs.
  apply get_listener_status_run in Hs as (_ & Hs & <- & _). simpl.
  induction Hs as [|c cs (_ & _ & Hc) _ IH]; simpl; [done|].
  rewrite Forall_app, Forall_cons, IH.
  destruct (merge_condition_status g olds c) as [Hne Hall].
  enough (Forall (λ c, ¬ is_False c) (merge_condition g olds c) ↔ cond_status c = "True") by tauto.
  unfold is_False. split; [|intros Ht; eapply Forall_impl; [done|]; simpl; congruence].
  intros Hf. destruct Hc as [|Hc]; [done|]. destruct (merge_condition g olds c) as [|x xs]; [done|].
  apply Forall_cons in Hf as [Hf _]. apply Forall_cons in Hall as [Hall _]. congruence.
Qed.

Lemma accepted_status now gw ls :
  (∀ st, gw_status gw = Some st → st_listeners st = Some ls) →
  let accepted := get_accepted_condition now gw in
  let ok := (gw_status gw = None ∨ Forall (λ l, Forall (λ c, ¬ is_False c) (ls_conditions l)) ls) ∧
            Forall address_ok (default [] (addresses (gw_spec gw))) in
  (cond_status accepted = "True" ∧ ok) ∨ (cond_status accepted = "False" ∧ ¬ ok).
Proof.
  intros Hls. cbv zeta. unfold get_accepted_condition.
  match goal with |- context [check_listeners _ ?a] => set (acc := a) end.
  pose proof (check_listeners_status ls acc eq_refl) as [Hcl Hiff].
  assert (∀ a, (cond_status a = "True" ∧ (gw_status gw = None ∨
                 Forall (λ l, Forall (λ c, ¬ is_False c) (ls_conditions l)) ls)) ∨
               (cond_status a = "False" ∧ ¬ (gw_status gw = None ∨
                 Forall (λ l, Forall (λ c, ¬ is_False c) (ls_conditions l)) ls)) →
    let r := match addresses (gw_spec gw) with Some addrs => check_addresses addrs a | None => a end in
    (cond_status r = "True" ∧ (gw_status gw = None ∨
       Forall (λ l, Forall (λ c, ¬ is_False c) (ls_conditions l)) ls) ∧
       Forall address_ok (default [] (addresses (gw_spec gw)))) ∨
    (cond_status r = "False" ∧ ¬ ((gw_status gw = None ∨
       Forall (λ l, Forall (λ c, ¬ is_False c) (ls_conditions l)) ls) ∧
       Forall address_ok (default [] (addresses (gw_spec gw)))))) as Haddr.
  { intros a Ha. destruct (addresses (gw_spec gw)) as [addrs|]; simpl; [|naive_solver].
    destruct (check_addresses_status addrs a) as [[? ->]|[? ?]]; naive_solver. }
  destruct (gw_status gw) as [st|] eqn:Hst; [rewrite (Hls st eq_refl)|]; apply Haddr; [|by left; auto].
  destruct Hcl as [Hcl|Hcl]; [left; split; [done|right; by apply Hiff]|].
  right. split; [done|]. intros [?|Hf]; [done|]. apply Hiff in Hf. congruence.
Qed.

Lemma accepted_meta now gw :
  type_ (get_accepted_condition now gw) = GatewayConditionType_Accepted ∧
  observed_generation (get_accepted_condition now gw) = om_generation (gw_metadata gw).
Proof.
  assert (∀ ls a, type_ (check_listeners ls a) = type_ a ∧
                  observed_generation (check_listeners ls a) = observed_generation a) as Hl.
  { unfold check_listeners. induction ls as [|l ls IH]; intros a; cbn [foldl]; [done|].
    destruct (IH (foldl (λ accepted condition, if bool_decide (cond_status condition = "False")
      then reject accepted GatewayConditionReason_ListenersNotValid
        ("listener " +:+ ls_name l +:+ " is invalid") else accepted) a (ls_conditions l))) as [-> ->].
    clear. revert a. induction (ls_conditions l) as [|c cs IH]; intros a; cbn [foldl]; [done|].
    destruct (IH (if bool_decide (cond_status c = "False") then reject a
      GatewayConditionReason_ListenersNotValid ("listener " +:+ ls_name l +:+ " is invalid") else a))
      as [-> ->]. by case_bool_decide. }
  assert (∀ addrs a, type_ (check_addresses addrs a) = type_ a ∧
                     observed_generation (check_addresses addrs a) = observed_generation a) as Ha.
  { intros addrs a. induction addrs as [|x addrs IH]; simpl; [done|]. repeat case_match; done. }
  unfold get_accepted_condition. repeat case_match; rewrite ?(proj1 (Ha _ _)), ?(proj2 (Ha _ _)),
    ?(proj1 (Hl _ _)), ?(proj2 (Hl _ _)); done.
Qed.

Lemma accepted_iff_run now now' gw st gen :
  gw_status gw = Some st → om_generation (gw_metadata gw) = Some gen →
  let gw' := (set_listener_status now gw).1 in
  let accepted := get_accepted_condition now' gw' in
  type_ accepted = GatewayConditionType_Accepted ∧ observed_generation accepted = Some gen ∧
  (cond_status accepted = "True" ↔
     Forall listener_valid (listeners (gw_spec gw)) ∧
     Forall address_ok (default [] (addresses (gw_spec gw)))) ∧
  (cond_status accepted = "True" ∨ cond_status accepted = "False").
Proof.
  intros Hst Hgen. unfold set_listener_status. rewrite Hgen, Hst. cbv zeta. cbn [fst].
  match goal with |- context [set_gw_status ?x gw] => set (gw' := set_gw_status x gw) end.
  split_and!; [apply accepted_meta|by rewrite (proj2 (accepted_meta _ _))|..];
    pose proof (accepted_status now' gw' _ ltac:(intros st' [= <-]; done)) as Ha; cbv zeta in Ha.
  - rewrite Forall_fmap in Ha. unfold compose in Ha.
    setoid_rewrite listener_status_valid in Ha. cbn [gw_status gw_spec gw' set_gw_status] in Ha.
    destruct Ha as [[-> [[?|?] ?]]|[-> Hn]]; [done|done|]. split; [done|]. intros [? ?]. destruct Hn; auto.
  - destruct Ha as [[-> _]|[-> _]]; auto.
Qed.

(** C29: acceptance.  For a Gateway with a status and a generation, after
    [set_listener_status] the "Accepted" condition is "True" exactly when
    every listener is valid and every address is an IP address, and "False"
    otherwise, whatever was recorded before. *)
Theorem accepted_iff_valid now now' gw st gen :
  gw_status gw = Some st → om_generation (gw_metadata gw) = Some gen →
  let gw' := (set_listener_status now gw).1 in
  let accepted := get_accepted_condition now' gw' in
  type_ accepted = GatewayConditionType_Accepted ∧ observed_generation accepted = Some gen ∧
  (cond_status accepted = "True" ↔
     Forall listener_valid (listeners (gw_spec gw)) ∧
     Forall address_ok (default [] (addresses (gw_spec gw)))) ∧
  (cond_status accepted = "True" ∨ cond_status accepted = "False").
Proof. apply accepted_iff_run. Qed.

(** Without a status nothing is recorded or checked.  For a Gateway
    without a status, the listener statuses and conditions are dropped, and it
    is accepted whatever its listeners, provided its addresses are supported. *)
Theorem accepted_without_status now gw gen :
  gw_status gw = None → om_generation (gw_metadata gw) = Some gen →
  set_listener_status now gw = (gw, Ret tt) ∧
  (∀ c, set_condition gw c = gw) ∧
  (cond_status (get_accepted_condition now gw) = "True" ↔
     Forall address_ok (default [] (addresses (gw_spec gw)))).
Proof.
  intros Hst Hgen. split_and!.
  - unfold set_listener_status. by rewrite Hgen, Hst.
  - intros c. unfold set_condition. by rewrite Hst.
  - pose proof (accepted_status now gw [] ltac:(intros st; by rewrite Hst)) as Ha. cbv zeta in Ha.
    destruct Ha as [[-> [_ Ha]]|[-> Hn]]; [done|]. split; [done|]. intros Ha. destruct Hn; auto.
Qed.
End conditions.

(** ** The theorems at concrete objects *)
#[local] Existing Instance gateway_v1.

Definition tcp_listener : GatewayListener := MkListener "web" 8080 "TCP" None.
Definition bad_listener : GatewayListener := MkListener "mail" 25 "SMTP" None.
Definition demo_meta : ObjectMeta := MkObjectMeta (Some "gw") (Some "ns") None (Some 3) None.
Definition demo_gw (ls : list GatewayListener) (st : option GatewayStatus) : Gateway :=
  MkGateway demo_meta (MkGatewaySpec "blixt" ls
    (Some [MkAddress (Some "IPAddress") "10.0.0.1"])) st.
Definition demo_svc (sp : ServiceSpec) : Service := MkService ObjectMeta_default (Some sp) None.
Definition demo_port : ServicePort := MkServicePort (Some "web") 8080 (Some "TCP") (Some 30001).

Lemma update_service_desired_witness :
  ∃ sp' u ps, update_service_for_gateway (demo_gw [tcp_listener; bad_listener] None)
      (demo_svc (MkServiceSpec (Some "1.2.3.4") (Some "ClusterIP") (Some [demo_port]) None)) =
      (demo_svc sp', Ret u) ∧ load_balancer_ip sp' = Some "10.0.0.1" ∧ u = true ∧
    ports sp' = Some ps ∧ ps = [demo_port].
Proof.
  destruct (update_service_desired (demo_gw [tcp_listener; bad_listener] None)
    (demo_svc (MkServiceSpec (Some "1.2.3.4") (Some "ClusterIP") (Some [demo_port]) None))
    (MkServiceSpec (Some "1.2.3.4") (Some "ClusterIP") (Some [demo_port]) None)
    (Some (MkAddress (Some "IPAddress") "10.0.0.1")) eq_refl eq_refl)
    as (sp' & u & ps & Hr & _ & Hl & _ & Hp & _ & Hk & Hu).
  exists sp', u, ps. split_and!; [exact Hr|exact Hl| |exact Hp|].
  - apply Hu. left. by exists "1.2.3.4".
  - apply Hk; [done|]. by repeat constructor.
Defined.

Lemma update_service_idempotent_witness :
  let svc' := (update_service_for_gateway (demo_gw [tcp_listener] None)
                 (demo_svc ServiceSpec_default)).1 in
  update_service_for_gateway (demo_gw [tcp_listener] None) svc' = (svc', Ret false).
Proof.
  eapply (update_service_idempotent (demo_gw [tcp_listener] None) (demo_svc ServiceSpec_default)).
  vm_compute. reflexivity.
Defined.

Lemma requested_address_ignored_witness :
  ∃ svc sp, service_for_gateway (λ m, default "" (om_name m)) (demo_gw [tcp_listener] None) = Ret svc ∧
    svc_spec svc = Some sp ∧ load_balancer_ip sp = None ∧
    update_service_for_gateway (demo_gw [tcp_listener] None) svc = (svc, Ret false).
Proof.
  exact (requested_address_ignored (λ m, default "" (om_name m)) (demo_gw [tcp_listener] None)
           (MkAddress (Some "IPAddress") "10.0.0.1") eq_refl).
Defined.

Definition old_accepted : Condition := MkCondition "Accepted" "True" "Accepted" (Some 2) 100 "ok".
Definition old_status : GatewayStatus := MkGatewayStatus None (Some [old_accepted]) (Some [
  MkListenerStatus "web" 0 [] [MkCondition "Accepted" "True" "Accepted" (Some 2) 50 "fine"]]).

Lemma set_condition_spec_witness :
  ∃ conds', st_conditions <$> gw_status (set_condition (demo_gw [] (Some old_status))
      (MkCondition "Accepted" "True" "Other" (Some 3) 200 "again")) = Some (Some conds') ∧
    with_generation (Some 3) old_accepted ∈ conds'.
Proof.
  destruct (set_condition_spec (demo_gw [] (Some old_status)) old_status
    (MkCondition "Accepted" "True" "Other" (Some 3) 200 "again") eq_refl)
    as (conds' & Heq & _ & _ & c & Hc & _ & _ & _ & Hold).
  { apply NoDup_singleton. }
  exists conds'. split; [by rewrite Heq|].
  rewrite (Hold old_accepted) in Hc; [exact Hc|constructor|done].
Defined.

Lemma get_listener_status_spec_witness :
  listener_valid tcp_listener ∧
  Forall (λ c, cond_status c = "True") (get_listener_status 7 tcp_listener 3).2.
Proof.
  split; [done|].
  apply (get_listener_status_spec 7 tcp_listener 3 (get_listener_status 7 tcp_listener 3).1
    (get_listener_status 7 tcp_listener 3).2 eq_refl). done.
Defined.

Lemma set_listener_status_spec_witness :
  ∃ statuses, set_listener_status 7 (demo_gw [tcp_listener] (Some old_status)) =
      (demo_gw [tcp_listener] (Some (MkGatewayStatus None (Some [old_accepted]) (Some statuses))), Ret tt) ∧
    length statuses = 1%nat.
Proof.
  destruct (set_listener_status_spec 7 (demo_gw [tcp_listener] (Some old_status)) old_status 3
    eq_refl eq_refl) as (statuses & Heq & Hf).
  - apply NoDup_singleton.
  - apply Forall_singleton, NoDup_singleton.
  - exists statuses. split; [exact Heq|]. apply Forall2_length in Hf. exact (eq_sym Hf).
Defined.

Lemma accepted_iff_valid_witness :
  cond_status (get_accepted_condition 8
    (set_listener_status 7 (demo_gw [tcp_listener] (Some old_status))).1) = "True" ∧
  cond_status (get_accepted_condition 8
    (set_listener_status 7 (demo_gw [bad_listener] (Some old_status))).1) ≠ "True".
Proof.
  split.
  - apply (accepted_iff_valid 7 8 (demo_gw [tcp_listener] (Some old_status)) old_status 3 eq_refl eq_refl).
    split; apply Forall_singleton; [exact I|by right].
  - intros Ht. apply (accepted_iff_valid 7 8 (demo_gw [bad_listener] (Some old_status)) old_status 3
      eq_refl eq_refl) in Ht as [Ht _]. by apply Forall_cons in Ht as [Ht _].
Defined.

(** An unsupported listener, accepted. *)
Lemma accepted_without_status_witness :
  cond_status (get_accepted_condition 7 (demo_gw [bad_listener] None)) = "True".
Proof.
  apply (accepted_without_status 7 (demo_gw [bad_listener] None) 3 eq_refl eq_refl).
  apply Forall_singleton. by right.
Defined.
