(* ===== verification/Reconcile.v ===== *)
(** * The reconciler

    Models [reconcile], [error_policy] of
    [src/controlplane/src/gateway_controller.rs] and the functions of
    [gateway_utils.rs] that call the Kubernetes API.  The API server is the
    class [Kube]: reads and writes of an abstract cluster, any of which may
    fail.  Next to the cluster the model keeps the list of the writes that
    were attempted, in order, with their arguments, so that theorems can speak
    about what a run asked for. *)

From stdpp Require Import base list gmap strings.
From S2P Require Import Prelude GatewayApi GatewayUtils.

(** The body of the status patch, which [patch_status] sends as a forced apply
    of [BLIXT_FIELD_MANAGER]. *)
Record StatusPatch := MkStatusPatch {
  p_listeners : list ListenerStatus;
  p_conditions : list Condition;
  p_addresses : list GatewayAddress;
}.

Inductive write :=
| CreateService (ns : string) (svc : Service)
| PatchService (ns name : string) (svc : Service)
| CreateEndpoints (ns : string) (ep : Endpoints)
| PatchStatus (ns name : string) (p : StatusPatch).

Class Kube := {
  Cluster : Type;
  KubeError_to_string : KubeError → string;
  name_any : ObjectMeta → string;                     (* [ResourceExt::name_any] *)
  get_controller_name : string → Cluster → outcome KubeError string;
  list_services : string → string → Cluster → outcome KubeError (list Service);
  get_endpoints : string → string → Cluster → outcome KubeError unit;
  (** A write and, for a creation, the object the API server returns. *)
  api_create_service : string → Service → Cluster → Cluster * outcome KubeError Service;
  api_write : write → Cluster → Cluster * outcome KubeError unit;
}.

(** The client reports errors instead of panicking. *)
Class KubeSpec `{Kube} : Prop := {
  kube_no_fault :
    (∀ n c, get_controller_name n c ≠ Fault) ∧ (∀ ns l c, list_services ns l c ≠ Fault) ∧
    (∀ ns n c, get_endpoints ns n c ≠ Fault) ∧
    (∀ ns svc c, (api_create_service ns svc c).2 ≠ Fault) ∧ (∀ w c, (api_write w c).2 ≠ Fault);
}.

Inductive Action := await_change | requeue (secs : Z).

Section reconcile.
Context `{GC : GatewayConstants, KU : Kube}.

Record world := MkWorld { cluster : Cluster; writes : list write }.

(** [map_err(Error::KubeError)] *)
Definition kube_err {A} (r : outcome KubeError A) : outcome Error A :=
  match r with Ret a => Ret a | Err e => Err (KubeErr e) | Fault => Fault end.

Definition do_read {A} (f : Cluster → outcome KubeError A) : Eff world Error A := λ w,
  (w, kube_err (f (cluster w))).
Definition do_write (wr : write) : Eff world Error unit := λ w,
  let '(c, r) := api_write wr (cluster w) in (MkWorld c (writes w ++ [wr]), kube_err r).

Definition Error_to_string (e : Error) : string :=
  match e with
  | KubeErr e => "kube error: " +:+ KubeError_to_string e
  | InvalidConfigError m => "invalid configuration: `" +:+ m +:+ "`"
  | LoadBalancerError m => "error reconciling loadbalancer service: `" +:+ m +:+ "`"
  | CRDNotFoundError e =>
      "error querying Gateway API CRDs: `" +:+ KubeError_to_string e +:+ "`; are the CRDs installed?"
  end.

(** ** API calls of [gateway_utils.rs] *)

(** The first ingress that has an address. *)
Fixpoint first_ip (l : list LoadBalancerIngress) : option string :=
  match l with
  | [] => None
  | addr :: l => match ing_ip addr with Some ip => Some ip | None => first_ip l end
  end.

Definition endpoint_ports (svc_spec : ServiceSpec) : list EndpointPort :=
  match ports svc_spec with
  | Some ports => map (λ port, MkEndpointPort (sp_port port) (sp_protocol port)) ports
  | None => []
  end.

Definition create_endpoint_if_not_exists (key : NamespacedName) (svc_spec : ServiceSpec)
    (svc_status : ServiceStatus) : Eff world Error unit :=
  lb_status ← ok_or (load_balancer svc_status)
    (LoadBalancerError "Load balancer not found in service status");
  ingress ← ok_or (ingress lb_status) (LoadBalancerError "Ingress not found in service status");
  lb_addr_ip ← ok_or (first_ip ingress)
    (LoadBalancerError "LoadBalancer ingress ip not found in service status");
  found ← gets (λ w, get_endpoints (nn_namespace key) (nn_name key) (cluster w));
  match found with
  | Err err =>
      if check_if_not_found_err err then
        let obj_meta := MkObjectMeta (Some (nn_name key)) (Some (nn_namespace key)) None None None in
        do_write (CreateEndpoints (nn_namespace key)
          (MkEndpoints obj_meta [lb_addr_ip] (endpoint_ports svc_spec)))
      else mret tt
  | Ret _ => mret tt
  | Fault => fault
  end.

Definition create_svc_for_gateway (gateway : Gateway) : Eff world Error Service := λ w,
  let ns := default "default" (om_namespace (gw_metadata gateway)) in
  match service_for_gateway name_any gateway with
  | Ret svc =>
      let '(c, r) := api_create_service ns svc (cluster w) in
      (MkWorld c (writes w ++ [CreateService ns svc]), kube_err r)
  | Err e => (w, Err e)
  | Fault => (w, Fault)
  end.

Definition patch_status (ns name : string) (status : GatewayStatus) : Eff world Error unit :=
  do_write (PatchStatus ns name (MkStatusPatch (default [] (st_listeners status))
    (default [] (st_conditions status)) (default [] (st_addresses status)))).

(** ** The reconciler *)

(** A computation on a local object. *)
Definition on_local {S A} (m : Eff S Error A) (x : S) : Eff world Error (S * A) := λ w,
  match m x with
  | (x', Ret a) => (w, Ret (x', a))
  | (_, Err e) => (w, Err e)
  | (_, Fault) => (w, Fault)
  end.

(** The error exits after a Service was found to be unusable. *)
Definition report_invalid_lb (ns name : string) (gw : Gateway) (cond : Condition) (msg : string)
    (error : Error) {A} : Eff world (ctl Error Action) A :=
  let cond := MkCondition (type_ cond) (cond_status cond) (reason cond) (observed_generation cond)
                (last_transition_time cond) msg in
  let gw := set_condition gw cond in
  _ ← try_ (patch_status ns name (default GatewayStatus_default (gw_status gw)));
  throw (Throw error).

(** Find the Service of the Gateway and correct its drift, or create it. *)
Definition ensure_service (ns : string) (gateway : Gateway) (services : list Service) :
    Eff world (ctl Error Action) Service :=
  match services with
  | val :: _ =>
      '(service, updated) ← try_ (on_local (update_service_for_gateway gateway) val);
      _ ← (if (updated : bool)
           then try_ (do_write (PatchService ns (name_any (svc_metadata val)) service))
           else mret tt);
      mret service
  | [] => try_ (create_svc_for_gateway gateway)
  end.

(** From the Service to the status of the Gateway. *)
Definition program_gateway (clock : nat → Z) (ns name : string) (gateway gw : Gateway)
    (service : Service) : Eff world (ctl Error Action) Action :=
  let generation := om_generation (gw_metadata gateway) in
  let invalid_lb_condition := MkCondition GatewayConditionType_Programmed "False"
    GatewayConditionReason_AddressNotAssigned generation (clock 2%nat) "" in
  match svc_spec service with
  | None =>
      let error := LoadBalancerError "Loadbalancer service spec not found" in
      report_invalid_lb ns name gw invalid_lb_condition (Error_to_string error) error
  | Some svc_spec =>
      match svc_status service with
      | None =>
          let error := LoadBalancerError "Loadbalancer service status not found" in
          report_invalid_lb ns name gw invalid_lb_condition (Error_to_string error) error
      | Some svc_status =>
          svc_key ← try_ (λ w, (w, get_service_key service));
          if (get_ingress_ip_len svc_status =? 0)%nat || bool_decide (cluster_ip svc_spec = None) then
            let msg := "LoadBalancer does not have a ingress IP address" in
            report_invalid_lb ns name gw invalid_lb_condition msg (LoadBalancerError msg)
          else
          _ ← try_ (create_endpoint_if_not_exists svc_key svc_spec svc_status);
          let gw := set_gateway_status_addresses gw svc_status in
          let programmed_cond := MkCondition GatewayConditionType_Programmed "True"
            GatewayConditionReason_Programmed generation (clock 3%nat)
            "Dataplane configured for gateway" in
          let gw := set_condition gw programmed_cond in
          _ ← try_ (patch_status ns name (default GatewayStatus_default (gw_status gw)));
          mret (requeue 60)
      end
  end.

Definition reconcile (clock : nat → Z) (gateway : Gateway) : Eff world Error Action := fn_body (
  name ← ok_or (om_name (gw_metadata gateway)) (Throw (InvalidConfigError "invalid name"));
  ns ← ok_or (om_namespace (gw_metadata gateway)) (Throw (InvalidConfigError "invalid namespace"));
  controller_name ← try_ (do_read (get_controller_name (gateway_class_name (gw_spec gateway))));
  if bool_decide (controller_name ≠ GATEWAY_CLASS_CONTROLLER_NAME) then return_ await_change else
  '(gw, _) ← try_ (on_local (set_listener_status (clock 0%nat)) gateway);
  let accepted_cond := get_accepted_condition (clock 1%nat) gw in
  let gw := set_condition gw accepted_cond in
  if bool_decide (cond_status accepted_cond = "False") then
    let programmed_cond := MkCondition GatewayConditionType_Programmed "False"
      GatewayConditionReason_Programmed (observed_generation accepted_cond)
      (last_transition_time accepted_cond) (cond_message accepted_cond) in
    let gw := set_condition gw programmed_cond in
    _ ← try_ (patch_status ns name (default GatewayStatus_default (gw_status gw)));
    throw (Throw (InvalidConfigError (cond_message accepted_cond)))
  else
  services ← try_ (do_read (list_services ns (GATEWAY_SERVICE_LABEL +:+ "=" +:+ name)));
  if (1 <? length services)%nat then
    throw (Throw (LoadBalancerError
      "found more than 1 Service for this Gateway; multiple services are not supported"))
  else
  service ← ensure_service ns gateway services;
  program_gateway clock ns name gateway gw service).

Definition error_policy (error : Error) : Action := requeue 5.
End reconcile.
