(* ===== verification/ReconcileProps.v ===== *)
(** * Properties of the reconciler

    Every run ends without a panic; a Gateway of another controller is left
    alone; a rejected Gateway gets its status and no Service; a Gateway is
    reported as programmed only with the addresses of its Service; and a
    Service is created only when there is none. *)

From stdpp Require Import base list gmap strings.
From S2P Require Import Prelude GatewayApi GatewayUtils GatewayProps Reconcile.

Section rules.
Context `{GC : GatewayConstants, KU : Kube, KUS : !KubeSpec}.

Lemma wp_do_read {A} (f : Cluster → outcome KubeError A) (Q : world → outcome Error A → Prop) w :
  f (cluster w) ≠ Fault →
  (∀ a, f (cluster w) = Ret a → Q w (Ret a)) →
  (∀ e, f (cluster w) = Err e → Q w (Err (KubeErr e))) →
  wp (do_read f) Q w.
Proof. intros Hf HO HE. unfold wp, do_read. simpl. destruct (f (cluster w)); simpl; auto. done. Qed.

Lemma wp_do_write wr (Q : world → outcome Error unit → Prop) w :
  (∀ c, Q (MkWorld c (writes w ++ [wr])) (Ret tt)) →
  (∀ c e, Q (MkWorld c (writes w ++ [wr])) (Err (KubeErr e))) →
  wp (do_write wr) Q w.
Proof.
  intros HO HE. unfold wp, do_write. destruct kube_no_fault as (_ & _ & _ & _ & Hw).
  specialize (Hw wr (cluster w)). destruct (api_write wr (cluster w)) as [c [[]|e|]]; simpl in *; auto. done.
Qed.

Lemma wp_fn_body_inv {S E R} (b : Eff S (ctl E R) R) (Q : S → outcome E R → Prop) s :
  wp (fn_body b) Q s →
  wp b (λ s' o, match o with
                | Ret r | Err (Return r) => Q s' (Ret r)
                | Err (Throw e) => Q s' (Err e)
                | Fault => Q s' Fault end) s.
Proof. unfold wp, fn_body. by destruct (b s) as [s' [a|[e|r]|]]. Qed.

Lemma wp_on_local {S A} (m : Eff S Error A) (x : S) (Q : world → outcome Error (S * A) → Prop) w :
  (∀ x' a, m x = (x', Ret a) → Q w (Ret (x', a))) →
  (∀ x' e, m x = (x', Err e) → Q w (Err e)) → (m x).2 ≠ Fault →
  wp (on_local m x) Q w.
Proof. intros HO HE HF. unfold wp, on_local. destruct (m x) as [x' [a|e|]] eqn:E; simpl; eauto. done. Qed.

(** ** The pure parts *)
Lemma set_listener_status_cases now gw :
  (om_generation (gw_metadata gw) = None ∧
   set_listener_status now gw = (gw, Err (InvalidConfigError "Gateway generation not found"))) ∨
  (∃ gen, om_generation (gw_metadata gw) = Some gen ∧ (set_listener_status now gw).2 = Ret tt).
Proof.
  unfold set_listener_status. destruct (om_generation (gw_metadata gw)); [right|by left]. by eexists.
Qed.

Lemma set_listener_status_keeps now gw :
  gw_metadata (set_listener_status now gw).1 = gw_metadata gw ∧
  gw_spec (set_listener_status now gw).1 = gw_spec gw ∧
  (st_conditions <$> gw_status (set_listener_status now gw).1) = (st_conditions <$> gw_status gw).
Proof.
  unfold set_listener_status. destruct (om_generation (gw_metadata gw)); [|done].
  by destruct (gw_status gw) eqn:E; simpl; rewrite ?E.
Qed.

(** The addresses of the ingresses. *)
Definition ingress_addresses (svc_status : ServiceStatus) : list GatewayAddress :=
  MkAddress (Some "IPAddress") <$> omap ing_ip (default [] (load_balancer svc_status ≫= ingress)).

Lemma set_gateway_status_addresses_eq gw svc_status :
  let st := default GatewayStatus_default (gw_status gw) in
  set_gateway_status_addresses gw svc_status =
  set_gw_status (Some (MkGatewayStatus (Some (ingress_addresses svc_status))
                         (st_conditions st) (st_listeners st))) gw.
Proof.
  assert (∀ l acc, foldl (λ gw_addrs addr, match ing_ip addr with
      | Some ip => gw_addrs ++ [MkAddress (Some "IPAddress") ip] | None => gw_addrs end) acc l =
    acc ++ (MkAddress (Some "IPAddress") <$> omap ing_ip l)) as Hf.
  { induction l as [|a l IH]; intros acc; simpl; [by rewrite app_nil_r|].
    rewrite IH. destruct (ing_ip a); simpl; [by rewrite <-app_assoc|done]. }
  unfold set_gateway_status_addresses, ingress_addresses. cbv zeta.
  destruct (load_balancer svc_status) as [lb|]; simpl; [|by destruct (gw_status gw)].
  destruct (ingress lb) as [ing|]; simpl; [rewrite (Hf ing [])|]; by destruct (gw_status gw).
Qed.

Lemma requested_address_no_fault gw : requested_address gw ≠ Fault.
Proof. unfold requested_address. repeat case_match; done. Qed.

Lemma update_service_no_fault gw svc : (update_service_for_gateway gw svc).2 ≠ Fault.
Proof.
  unfold update_service_for_gateway. pose proof (requested_address_no_fault gw).
  repeat case_match; done.
Qed.

Lemma service_for_gateway_no_fault gw : service_for_gateway name_any gw ≠ Fault.
Proof.
  unfold service_for_gateway.
  match goal with |- context [update_service_for_gateway gw ?x] =>
    pose proof (update_service_no_fault gw x); destruct (update_service_for_gateway gw x) as [? []] end;
    done.
Qed.

(** ** Conditions of a status *)

(** [cs] has one condition per type, and the one of type [t] has status [v]. *)
Definition reports (cs : list Condition) (t v : string) : Prop :=
  NoDup (type_ <$> cs) ∧ ∃ c, c ∈ cs ∧ type_ c = t ∧ cond_status c = v.

Definition conditions_of (gw : Gateway) : list Condition :=
  default [] (gw_status gw ≫= st_conditions).

Lemma set_condition_reports gw c :
  is_Some (gw_status gw) → NoDup (type_ <$> conditions_of gw) →
  is_Some (gw_status (set_condition gw c)) ∧
  (st_addresses <$> gw_status (set_condition gw c)) = (st_addresses <$> gw_status gw) ∧
  reports (conditions_of (set_condition gw c)) (type_ c) (cond_status c) ∧
  (∀ t v, t ≠ type_ c → reports (conditions_of gw) t v →
          reports (conditions_of (set_condition gw c)) t v).
Proof.
  intros [st Hst] Hnd. unfold conditions_of in *. rewrite Hst in Hnd. simpl in Hnd.
  destruct (set_condition_run gw st c Hst Hnd) as (cs & -> & Hnd' & Hoth & x & Hx & Hxt & Hxs & _).
  rewrite Hst. simpl. split; [by eexists|]. split; [done|]. split; [split; [done|]; by exists x|].
  intros t v Ht (_ & y & Hy & <- & <-). split; [done|]. exists y. split_and!; [|done..].
  by apply Hoth.
Qed.

(** ** What the parts of a run write *)

(** A status patch is honest if it reports the Gateway as programmed only with
    the addresses of a Service that satisfies [P], and at least one. *)
Definition honest (P : Service → Prop) (p : StatusPatch) : Prop :=
  reports (p_conditions p) GatewayConditionType_Programmed "False" ∨
  (reports (p_conditions p) GatewayConditionType_Programmed "True" ∧
   ∃ svc st, P svc ∧ svc_status svc = Some st ∧
     p_addresses p = ingress_addresses st ∧ p_addresses p ≠ []).

Definition is_programmed (x : write) : Prop :=
  ∃ ns n p, x = PatchStatus ns n p ∧ reports (p_conditions p) GatewayConditionType_Programmed "True".

Definition honest_write (P : Service → Prop) (x : write) : Prop :=
  match x with PatchStatus _ _ p => honest P p | CreateEndpoints _ _ => True | _ => False end.

(** The patch of this Gateway's status. *)
Definition patch_of (gw : Gateway) : StatusPatch :=
  let st := default GatewayStatus_default (gw_status gw) in
  MkStatusPatch (default [] (st_listeners st)) (default [] (st_conditions st))
    (default [] (st_addresses st)).

Lemma patch_conditions gw : p_conditions (patch_of gw) = conditions_of gw.
Proof. unfold conditions_of, patch_of. simpl. by destruct (gw_status gw). Qed.

Lemma wp_report_invalid_lb {A} ns name gw cond msg e
    (Q : world → outcome (ctl Error Action) A → Prop) w :
  is_Some (gw_status gw) → NoDup (type_ <$> conditions_of gw) →
  type_ cond = GatewayConditionType_Programmed → cond_status cond = "False" →
  (∀ c e' p, (∀ P, honest P p) → Q (MkWorld c (writes w ++ [PatchStatus ns name p])) (Err (Throw e'))) →
  wp (report_invalid_lb ns name gw cond msg e) Q w.
Proof.
  intros Hs Hnd Ht Hst HQ. unfold report_invalid_lb.
  match goal with |- context [set_condition gw ?c] => destruct (set_condition_reports gw c Hs Hnd)
    as (_ & _ & Hr & _); set (gw' := set_condition gw c) in * end.
  simpl in Hr. rewrite Ht, Hst in Hr.
  wp_step. wp_step. apply wp_do_write.
  - intros c. wp_step. apply HQ. intros P. left. by rewrite <-patch_conditions in Hr.
  - intros c e'. apply HQ. intros P. left. by rewrite <-patch_conditions in Hr.
Qed.

Lemma first_ip_addresses st lb ing ip :
  load_balancer st = Some lb → ingress lb = Some ing → first_ip ing = Some ip →
  ingress_addresses st ≠ [].
Proof.
  intros Hlb Hing Hip. unfold ingress_addresses. rewrite Hlb. simpl. rewrite Hing. simpl.
  clear -Hip. induction ing as [|a ing IH]; simpl in *; [done|]. destruct (ing_ip a); simpl in *; auto.
Qed.

Lemma wp_create_endpoint key sp st (Q : world → outcome Error unit → Prop) w :
  (∀ e, Q w (Err e)) → (ingress_addresses st ≠ [] → Q w (Ret tt)) →
  (∀ c o ns ep, o ≠ Fault → ingress_addresses st ≠ [] →
     Q (MkWorld c (writes w ++ [CreateEndpoints ns ep])) o) →
  wp (create_endpoint_if_not_exists key sp st) Q w.
Proof.
  intros HE HQ HC. unfold create_endpoint_if_not_exists.
  wp_step. wp_step. destruct (load_balancer st) as [lb|] eqn:Hlb; [|by apply HE].
  wp_step. wp_step. destruct (ingress lb) as [ing|] eqn:Hing; [|by apply HE].
  wp_step. wp_step. destruct (first_ip ing) as [ip|] eqn:Hip; [|by apply HE].
  pose proof (first_ip_addresses st lb ing ip Hlb Hing Hip) as Ha.
  wp_step. wp_step. destruct kube_no_fault as (_ & _ & He & _).
  specialize (He (nn_namespace key) (nn_name key) (cluster w)).
  destruct (get_endpoints _ _ (cluster w)) as [?|err|]; [wp_step; by apply HQ| |done].
  destruct (check_if_not_found_err err); [|wp_step; by apply HQ].
  apply wp_do_write; intros; by apply HC.
Qed.

(** How the last part of a run may end, and what it has written by then. *)
Definition program_post (P : Service → Prop) (w w' : world) (o : outcome (ctl Error Action) Action) : Prop :=
  o ≠ Fault ∧ ∃ ws, writes w' = writes w ++ ws ∧ Forall (honest_write P) ws ∧
    ((∃ e, o = Err (Throw e)) ∨
     (o = Ret (requeue 60) ∧ ∃ x, last ws = Some x ∧ is_programmed x)).

Lemma program_post_err P w w' ws e :
  writes w' = writes w ++ ws → Forall (honest_write P) ws → program_post P w w' (Err (Throw e)).
Proof. intros Hw Hws. split; [done|]. exists ws. split_and!; [done|done|by left; eexists]. Qed.

(** The status with the addresses of the Service. *)
Lemma programmed_patch gw st cond :
  is_Some (gw_status gw) → NoDup (type_ <$> conditions_of gw) →
  let p := patch_of (set_condition (set_gateway_status_addresses gw st) cond) in
  p_addresses p = ingress_addresses st ∧ reports (p_conditions p) (type_ cond) (cond_status cond) ∧
  ∀ t v, t ≠ type_ cond → reports (conditions_of gw) t v → reports (p_conditions p) t v.
Proof.
  intros Hs Hnd. rewrite set_gateway_status_addresses_eq. cbv zeta. set (gw1 := set_gw_status _ gw).
  assert (conditions_of gw1 = conditions_of gw) as Hcs.
  { unfold conditions_of, gw1. simpl. by destruct Hs as [? ->]. }
  destruct (set_condition_reports gw1 cond) as ([st2 Hst2] & Ha & Hr & Hoth);
    [by eexists|by rewrite Hcs|].
  rewrite !patch_conditions, <-Hcs. split_and!; [|done..].
  unfold patch_of. rewrite Hst2 in Ha |- *. simpl in *. by injection Ha as ->.
Qed.

(** The last step: the status with the addresses of the Service. *)
Lemma wp_report_programmed (P : Service → Prop) ns name gw svc st cond (pre : list write) w w1 :
  is_Some (gw_status gw) → NoDup (type_ <$> conditions_of gw) →
  P svc → svc_status svc = Some st → ingress_addresses st ≠ [] →
  type_ cond = GatewayConditionType_Programmed → cond_status cond = "True" →
  writes w1 = writes w ++ pre → Forall (honest_write P) pre →
  wp (_ ← try_ (patch_status ns name (default GatewayStatus_default
         (gw_status (set_condition (set_gateway_status_addresses gw st) cond))));
      mret (requeue 60)) (program_post P w) w1.
Proof.
  intros Hs Hnd HP Hsvc Hne Hct Hcv Hw1 Hpre.
  destruct (programmed_patch gw st cond Hs Hnd) as (Hpa & Hp & _). rewrite Hct, Hcv in Hp.
  unfold patch_status. change (MkStatusPatch _ _ _) with
    (patch_of (set_condition (set_gateway_status_addresses gw st) cond)).
  set (p := patch_of _) in *.
  assert (Forall (honest_write P) (pre ++ [PatchStatus ns name p])) as Hws.
  { apply Forall_app. split; [done|]. apply Forall_singleton. right. split; [done|].
    exists svc, st. by rewrite Hpa. }
  wp_step. wp_step. apply wp_do_write.
  - intros c. wp_step. split; [done|]. exists (pre ++ [PatchStatus ns name p]).
    split_and!; [simpl; by rewrite Hw1, <-app_assoc|done|right]. split; [done|].
    exists (PatchStatus ns name p). rewrite last_snoc. split; [done|]. by do 3 eexists.
  - intros c e. eapply program_post_err; [|done]. simpl. by rewrite Hw1, <-app_assoc.
Qed.

(** From the Service to the status. *)
Lemma program_gateway_run (P : Service → Prop) clock ns name gateway gw service w :
  is_Some (gw_status gw) → NoDup (type_ <$> conditions_of gw) → P service →
  wp (program_gateway clock ns name gateway gw service) (program_post P w) w.
Proof.
  intros Hs Hnd HP. unfold program_gateway.
  assert (∀ (c : Cluster) e' p, (∀ P, honest P p) →
    program_post P w (MkWorld c (writes w ++ [PatchStatus ns name p])) (Err (Throw e'))) as Hrep.
  { intros c e' p Hp. eapply program_post_err; [done|]. apply Forall_singleton, Hp. }
  assert (∀ e, program_post P w w (Err (Throw e))) as Hnil.
  { intros e. eapply (program_post_err _ _ _ []); [by rewrite app_nil_r|done]. }
  destruct (svc_spec service) as [sp|]; [|apply wp_report_invalid_lb; auto].
  destruct (svc_status service) as [st|] eqn:Hst; [|apply wp_report_invalid_lb; auto].
  wp_step. wp_step. unfold wp at 1. simpl.
  destruct (get_service_key service) as [key|e|] eqn:Hk; simpl;
    [|done|unfold get_service_key in Hk; repeat case_match; done].
  destruct ((get_ingress_ip_len st =? 0)%nat || bool_decide (cluster_ip sp = None)) eqn:Hlen;
    [by apply wp_report_invalid_lb|].
  wp_step. wp_step. apply wp_create_endpoint; [done|..].
  - intros Hne. apply (wp_report_programmed _ _ _ _ service _ _ []); try done. by rewrite app_nil_r.
  - intros c [[]|e|] ns' ep Ho Hne; [| |done].
    + apply (wp_report_programmed _ _ _ _ service _ _ [CreateEndpoints ns' ep]); try done.
      by apply Forall_singleton.
    + eapply program_post_err; [done|]. by apply Forall_singleton.
Qed.

(** The Service a run works with: the listed one after the correction, or the
    one the API server returns for the Service it was asked to create. *)
Definition obtained (gateway : Gateway) (services : list Service) (c : Cluster) (svc : Service) : Prop :=
  match services with
  | val :: _ => (update_service_for_gateway gateway val).1 = svc
  | [] => ∃ req, service_for_gateway name_any gateway = Ret req ∧
      (api_create_service (default "default" (om_namespace (gw_metadata gateway))) req c).2 = Ret svc
  end.

(** The write that obtains it: a patch of the listed Service if it had
    drifted, or the creation if there is none. *)
Definition service_write (ns : string) (gateway : Gateway) (services : list Service) (x : write) : Prop :=
  match services with
  | val :: _ => ∃ svc, update_service_for_gateway gateway val = (svc, Ret true) ∧
      x = PatchService ns (name_any (svc_metadata val)) svc
  | [] => ∃ svc, service_for_gateway name_any gateway = Ret svc ∧
      x = CreateService (default "default" (om_namespace (gw_metadata gateway))) svc
  end.

(** The Service is found, corrected or created. *)
Lemma wp_ensure_service ns gateway services
    (Q : world → outcome (ctl Error Action) Service → Prop) w :
  (∀ e, Q w (Err (Throw e))) →
  (∀ svc, obtained gateway services (cluster w) svc → services ≠ [] → Q w (Ret svc)) →
  (∀ c x o, service_write ns gateway services x →
     (∃ s, o = Ret s ∧ obtained gateway services (cluster w) s) ∨ (∃ e, o = Err (Throw e)) →
     Q (MkWorld c (writes w ++ [x])) o) →
  wp (ensure_service ns gateway services) Q w.
Proof.
  intros HE HS HW. unfold ensure_service. destruct services as [|val services].
  - wp_step. unfold wp, create_svc_for_gateway. destruct kube_no_fault as (_ & _ & _ & Hc & _).
    pose proof (service_for_gateway_no_fault gateway) as Hnf.
    destruct (service_for_gateway name_any gateway) as [svc|e|] eqn:Hsvc; [| |done]; [|by apply HE].
    match goal with |- context [api_create_service ?n svc (cluster w)] =>
      specialize (Hc n svc (cluster w));
      destruct (api_create_service n svc (cluster w)) as [c [s|e|]] eqn:Ha end;
      simpl in *; [| |done]; apply HW; eauto; left. exists s. split; [done|]. exists svc. by rewrite Ha.
  - wp_step. wp_step. apply wp_on_local; [|intros; by apply HE|apply update_service_no_fault].
    intros service updated Hu.
    assert (obtained gateway (val :: services) (cluster w) service) as Ho by (simpl; by rewrite Hu).
    wp_step. destruct updated; [|wp_step; wp_step; by apply HS].
    wp_step. apply wp_do_write; intros; [wp_step|]; apply HW; simpl; eauto.
Qed.

(** The Gateway after the listeners and the acceptance were recorded. *)
Definition with_statuses (clock : nat → Z) (gateway : Gateway) : Gateway :=
  (set_listener_status (clock 0%nat) gateway).1.
Definition acceptance (clock : nat → Z) (gateway : Gateway) : Condition :=
  get_accepted_condition (clock 1%nat) (with_statuses clock gateway).
Definition assessed (clock : nat → Z) (gateway : Gateway) : Gateway :=
  set_condition (with_statuses clock gateway) (acceptance clock gateway).

(** The condition that goes with a refusal. *)
Definition refusal (acc : Condition) : Condition :=
  MkCondition GatewayConditionType_Programmed "False" GatewayConditionReason_Programmed
    (observed_generation acc) (last_transition_time acc) (cond_message acc).

(** How [reconcile] proceeds to the Service. *)
Lemma wp_reconcile clock gateway (Q : world → outcome Error Action → Prop) w :
  let class := get_controller_name (gateway_class_name (gw_spec gateway)) (cluster w) in
  let acc := acceptance clock gateway in
  (∀ e, om_name (gw_metadata gateway) = None ∨ om_namespace (gw_metadata gateway) = None ∨
        om_generation (gw_metadata gateway) = None ∨ (∀ cn, class ≠ Ret cn) → Q w (Err e)) →
  (∀ cn, class = Ret cn → cn ≠ GATEWAY_CLASS_CONTROLLER_NAME → Q w (Ret await_change)) →
  (∀ name ns, om_name (gw_metadata gateway) = Some name →
     om_namespace (gw_metadata gateway) = Some ns →
     is_Some (om_generation (gw_metadata gateway)) → class = Ret GATEWAY_CLASS_CONTROLLER_NAME →
     (cond_status acc = "False" →
      ∀ c e, (∃ k, e = KubeErr k) ∨ e = InvalidConfigError (cond_message acc) →
        Q (MkWorld c (writes w ++ [PatchStatus ns name
             (patch_of (set_condition (assessed clock gateway) (refusal acc)))])) (Err e)) ∧
     (cond_status acc ≠ "False" →
      (∀ e, (∀ services, list_services ns (GATEWAY_SERVICE_LABEL +:+ "=" +:+ name) (cluster w) =
                Ret services → (1 < length services)%nat) → Q w (Err e)) ∧
      (∀ services, list_services ns (GATEWAY_SERVICE_LABEL +:+ "=" +:+ name) (cluster w) = Ret services →
         (length services ≤ 1)%nat →
         wp (fn_body (service ← ensure_service ns gateway services;
             program_gateway clock ns name gateway (assessed clock gateway) service)) Q w))) →
  wp (reconcile clock gateway) Q w.
Proof.
  intros class acc HE HF HO. unfold reconcile. wp_step. wp_step. wp_step.
  destruct (om_name (gw_metadata gateway)) as [name|]; [|by apply HE; left].
  wp_step. wp_step. destruct (om_namespace (gw_metadata gateway)) as [ns|]; [|by apply HE; auto].
  destruct kube_no_fault as (Hc & Hl & _).
  wp_step. wp_step. apply wp_do_read; [apply Hc| |intros e He; apply HE; do 3 right; unfold class; by rewrite He].
  intros cn Hcn. case_bool_decide as Hown; [wp_step; by eapply HF|]. subst cn.
  wp_step. wp_step. destruct (set_listener_status_cases (clock 0%nat) gateway) as [[Hg Hs]|(gen & Hg & Hs)].
  { unfold wp, on_local. rewrite Hs. apply HE. auto. }
  destruct (set_listener_status (clock 0%nat) gateway) as [gw' r] eqn:Hgw. simpl in Hs. subst r.
  apply wp_on_local; rewrite Hgw; [|done|done]. intros ? ? [= <- <-].
  assert (with_statuses clock gateway = gw') as Hws by (unfold with_statuses; by rewrite Hgw).
  unfold assessed, acceptance in *. subst acc. rewrite Hws in *.
  destruct (HO name ns eq_refl eq_refl (ltac:(by eexists)) Hcn) as [HR HA]. clear HE HF HO.
  case_bool_decide as Hst.
  { wp_step. wp_step. apply wp_do_write; [intros c; wp_step|intros c e]; apply HR; eauto. }
  destruct (HA Hst) as [HE HS]. wp_step. wp_step. apply wp_do_read; [apply Hl| |intros e He; apply HE; congruence].
  intros services Hsv. destruct (Nat.ltb_spec 1 (length services)) as [?|Hlen];
    [wp_step; apply HE; congruence|].
  apply wp_fn_body_inv. apply HS; [done|lia].
Qed.

Lemma with_statuses_ok clock gateway :
  is_Some (gw_status gateway) → is_Some (gw_status (with_statuses clock gateway)) ∧
  conditions_of (with_statuses clock gateway) = conditions_of gateway.
Proof.
  intros [st Hst]. destruct (set_listener_status_keeps (clock 0%nat) gateway) as (_ & _ & Hc).
  rewrite Hst in Hc. unfold conditions_of, with_statuses.
  destruct (gw_status (set_listener_status (clock 0%nat) gateway).1) as [st'|]; [|done].
  injection Hc as Hc. rewrite Hst. simpl. rewrite Hc. eauto.
Qed.

Lemma assessed_ok clock gateway :
  is_Some (gw_status gateway) → NoDup (type_ <$> conditions_of gateway) →
  let gw := assessed clock gateway in
  is_Some (gw_status gw) ∧ NoDup (type_ <$> conditions_of gw) ∧
  reports (conditions_of gw) (type_ (acceptance clock gateway))
    (cond_status (acceptance clock gateway)).
Proof.
  intros Hs Hnd. destruct (with_statuses_ok clock gateway Hs) as [Hs' Hc].
  destruct (set_condition_reports (with_statuses clock gateway) (acceptance clock gateway))
    as (? & _ & [? ?] & _); [done|by rewrite Hc|]. done.
Qed.

(** What the refused Gateway's status says. *)
Lemma refusal_reports `{!GatewayConstantsSpec} clock gateway gen :
  is_Some (gw_status gateway) → om_generation (gw_metadata gateway) = Some gen →
  NoDup (type_ <$> conditions_of gateway) → cond_status (acceptance clock gateway) = "False" →
  let p := patch_of (set_condition (assessed clock gateway) (refusal (acceptance clock gateway))) in
  reports (p_conditions p) GatewayConditionType_Programmed "False" ∧
  reports (p_conditions p) GatewayConditionType_Accepted "False".
Proof.
  intros Hs Hg Hnd Hf. cbv zeta. rewrite patch_conditions.
  destruct (assessed_ok clock gateway Hs Hnd) as (Hs' & Hnd' & Hr). rewrite Hf in Hr.
  destruct Hs as [st Hst].
  destruct (accepted_iff_run (clock 0%nat) (clock 1%nat) gateway st gen Hst Hg) as (Ht & _).
  fold (acceptance clock gateway) in Ht.
  destruct (set_condition_reports (assessed clock gateway) (refusal (acceptance clock gateway)))
    as (_ & _ & HP & HK); [done..|]. split; [done|].
  apply HK; [apply gateway_types_distinct|]. unfold acceptance, with_statuses in *. by rewrite <-Ht.
Qed.

(** The Service of the Gateway in this state of the cluster. *)
Definition service_of (gateway : Gateway) (c : Cluster) (svc : Service) : Prop :=
  ∃ name ns services,
    om_name (gw_metadata gateway) = Some name ∧ om_namespace (gw_metadata gateway) = Some ns ∧
    list_services ns (GATEWAY_SERVICE_LABEL +:+ "=" +:+ name) c = Ret services ∧
    obtained gateway services c svc.

(** The class of the Gateway belongs to another controller. *)
Definition foreign_class (gateway : Gateway) (w : world) : Prop :=
  ∃ cn, get_controller_name (gateway_class_name (gw_spec gateway)) (cluster w) = Ret cn ∧
        cn ≠ GATEWAY_CLASS_CONTROLLER_NAME.

(** The run of [reconcile]: the writes for the Service, the writes that follow
    and the outcome. *)
Definition run_post (gateway : Gateway) (w w' : world) (o : outcome Error Action) : Prop :=
  o ≠ Fault ∧ ∃ svc_writes rest,
    writes w' = writes w ++ svc_writes ++ rest ∧
    (svc_writes = [] ∨ ∃ name ns services x,
       om_name (gw_metadata gateway) = Some name ∧ om_namespace (gw_metadata gateway) = Some ns ∧
       list_services ns (GATEWAY_SERVICE_LABEL +:+ "=" +:+ name) (cluster w) = Ret services ∧
       (length services ≤ 1)%nat ∧ svc_writes = [x] ∧ service_write ns gateway services x) ∧
    Forall (honest_write (service_of gateway (cluster w))) rest ∧
    ((∃ e, o = Err e) ∨ (o = Ret await_change ∧ foreign_class gateway w ∧ svc_writes = [] ∧ rest = []) ∨
     (o = Ret (requeue 60) ∧ ∃ x, last rest = Some x ∧ is_programmed x)).

(** The part of a run from the Service on, given what the Service took. *)
Lemma program_post_run gateway name ns services svc_writes w w1 w' o :
  om_name (gw_metadata gateway) = Some name → om_namespace (gw_metadata gateway) = Some ns →
  list_services ns (GATEWAY_SERVICE_LABEL +:+ "=" +:+ name) (cluster w) = Ret services →
  (length services ≤ 1)%nat →
  svc_writes = [] ∨ (∃ x, svc_writes = [x] ∧ service_write ns gateway services x) →
  writes w1 = writes w ++ svc_writes →
  program_post (obtained gateway services (cluster w)) w1 w' o →
  match o with
  | Ret r | Err (Return r) => run_post gateway w w' (Ret r)
  | Err (Throw e) => run_post gateway w w' (Err e)
  | Fault => run_post gateway w w' Fault
  end.
Proof.
  intros Hname Hns Hl Hlen Hsv Hw1 (Hf & ws & Hw' & Hws & Ho). rewrite Hw1, <-app_assoc in Hw'.
  assert (Forall (honest_write (service_of gateway (cluster w))) ws) as Hws'.
  { eapply Forall_impl; [exact Hws|]. intros [| | |? ? p] Hx; try exact Hx.
    destruct Hx as [?|(? & svc & st & HP & ?)]; [by left|right; split; [done|]].
    exists svc, st. split; [|done]. exists name, ns, services. exact (conj Hname (conj Hns (conj Hl HP))). }
  destruct Ho as [[e ->]|[-> Hlast]]; (split; [done|]); exists svc_writes, ws; split_and!; eauto;
    (destruct Hsv as [->|(x & -> & Hx)]; [by left|right]); by exists name, ns, services, x.
Qed.

Lemma reconcile_run `{!GatewayConstantsSpec} clock gateway w :
  is_Some (gw_status gateway) → NoDup (type_ <$> conditions_of gateway) →
  wp (reconcile clock gateway) (run_post gateway w) w.
Proof.
  intros Hs Hnd. assert (∀ e, run_post gateway w w (Err e)) as Herr.
  { intros e. split; [done|]. exists [], []. rewrite app_nil_r. split_and!; eauto. }
  apply wp_reconcile; [done| |].
  { intros cn Hcn Hne. split; [done|]. exists [], []. rewrite app_nil_r. split_and!; eauto.
    right. left. split_and!; [done|by exists cn|done..]. }
  intros name ns Hname Hns [gen Hgen] _. split.
  { intros Hacc c e _. split; [done|]. eexists [], _. split_and!; [done|by left| |eauto].
    apply Forall_singleton. left. by eapply refusal_reports. }
  intros _. split; [done|]. intros services Hl Hlen.
  destruct (assessed_ok clock gateway Hs Hnd) as (Hs' & Hnd' & _).
  wp_step. wp_step. apply wp_ensure_service; [done|..].
  - intros svc Hsvc _. eapply wp_mono; [by apply (program_gateway_run (obtained gateway services (cluster w)))|].
    intros w' o Hp. eapply (program_post_run _ _ _ _ []); [done..|by left| |exact Hp]. by rewrite app_nil_r.
  - intros c x o Hx [(svc & -> & Hsvc)|[e ->]].
    + eapply wp_mono; [by apply (program_gateway_run (obtained gateway services (cluster w)))|].
      intros w' o Hp. eapply (program_post_run _ _ _ _ [x]); [done..|by right; eauto| |exact Hp]. done.
    + split; [done|]. exists [x], []. split_and!; eauto. right. by exists name, ns, services, x.
Qed.

Definition is_service_write (x : write) : bool :=
  match x with CreateService _ _ | PatchService _ _ _ => true | _ => false end.

(** C24: honest reports.  A run of [reconcile] on a Gateway that has a status,
    with one condition per type, does not panic; every status it writes either
    has "Programmed" "False", or has "Programmed" "True" with the addresses of
    the Service of the Gateway, at least one.  It ends in one of three ways:
    with an error; with "await change", and then the class of the Gateway
    belongs to another controller and nothing was written; or with a requeue
    after 60 seconds, and then the last thing it wrote was "Programmed"
    "True". *)
Theorem reconcile_honest `{!GatewayConstantsSpec} clock gateway w :
  is_Some (gw_status gateway) → NoDup (type_ <$> conditions_of gateway) →
  let '(w', o) := reconcile clock gateway w in
  o ≠ Fault ∧ ∃ ws, writes w' = writes w ++ ws ∧
    (∀ ns n p, PatchStatus ns n p ∈ ws → honest (service_of gateway (cluster w)) p) ∧
    ((∃ e, o = Err e) ∨ (o = Ret await_change ∧ foreign_class gateway w ∧ ws = []) ∨
     (o = Ret (requeue 60) ∧ ∃ x, last ws = Some x ∧ is_programmed x)).
Proof.
  intros Hs Hnd. pose proof (reconcile_run clock gateway w Hs Hnd) as Hrun. unfold wp in Hrun.
  destruct (reconcile clock gateway w) as [w' o]. destruct Hrun as (Hf & sws & rest & Hw & Hsws & Hr & Ho).
  split; [done|]. exists (sws ++ rest). split_and!; [done|..].
  - intros ns n p [Hp|Hp]%elem_of_app; [|rewrite Forall_forall in Hr; exact (Hr _ Hp)].
    destruct Hsws as [->|(? & ? & services & x & _ & _ & _ & _ & -> & Hx)]; [by apply elem_of_nil in Hp|].
    apply list_elem_of_singleton in Hp. subst x. by destruct services, Hx as (? & _ & ?).
  - destruct Ho as [?|[(? & ? & -> & ->)|(? & x & Hl & ?)]]; auto. do 2 right. split; [done|].
    exists x. split; [|done]. by rewrite last_app, Hl.
Qed.

(** C26: one Service.  A run of [reconcile] writes Services at most once.  If
    it does, the Services with the label of the Gateway were listed and there
    was at most one: the one there was is patched to the corrected Service,
    which differs, and if there was none the Service of the Gateway is created. *)
Theorem reconcile_one_service `{!GatewayConstantsSpec} clock gateway w :
  is_Some (gw_status gateway) → NoDup (type_ <$> conditions_of gateway) →
  ∃ ws, writes (reconcile clock gateway w).1 = writes w ++ ws ∧
    (length (filter is_service_write ws) ≤ 1)%nat ∧
    ∀ x, x ∈ ws → is_service_write x → ∃ name ns services,
      om_name (gw_metadata gateway) = Some name ∧ om_namespace (gw_metadata gateway) = Some ns ∧
      list_services ns (GATEWAY_SERVICE_LABEL +:+ "=" +:+ name) (cluster w) = Ret services ∧
      (length services ≤ 1)%nat ∧ service_write ns gateway services x.
Proof.
  intros Hs Hnd. pose proof (reconcile_run clock gateway w Hs Hnd) as (_ & sws & rest & Hw & Hsws & Hr & _).
  assert (∀ x, x ∈ rest → ¬ is_service_write x) as Hno.
  { rewrite Forall_forall in Hr. intros x Hx. specialize (Hr x Hx). destruct x; simpl in *; tauto. }
  assert (filter is_service_write rest = []) as Hfl.
  { clear -Hno. induction rest as [|x rest IH]; [done|].
    rewrite filter_cons_False; [|apply Hno; by left]. apply IH. intros y Hy. apply Hno. by right. }
  exists (sws ++ rest). split_and!; [done|..].
  - rewrite filter_app, Hfl, app_nil_r.
    destruct Hsws as [->|(? & ? & ? & x & _ & _ & _ & _ & -> & _)]; simpl; [lia|].
    rewrite length_filter. done.
  - intros x [Hx|Hx]%elem_of_app Hsw; [|by destruct (Hno x)].
    destruct Hsws as [->|(name & ns & services & y & ? & ? & ? & ? & -> & ?)]; [by apply elem_of_nil in Hx|].
    apply list_elem_of_singleton in Hx. subst y. by exists name, ns, services.
Qed.

(** Gateways of other controllers.  If the class of a named Gateway belongs
    to another controller, [reconcile] waits for a change and writes nothing. *)
Theorem reconcile_foreign_class clock gateway w name ns cn :
  om_name (gw_metadata gateway) = Some name → om_namespace (gw_metadata gateway) = Some ns →
  get_controller_name (gateway_class_name (gw_spec gateway)) (cluster w) = Ret cn →
  cn ≠ GATEWAY_CLASS_CONTROLLER_NAME →
  reconcile clock gateway w = (w, Ret await_change).
Proof.
  intros Hname Hns Hcn Hne. cut (wp (reconcile clock gateway) (λ w' o, (w', o) = (w, Ret await_change)) w).
  { unfold wp. by destruct (reconcile clock gateway w). }
  unfold reconcile. wp_step. wp_step. wp_step. rewrite Hname. wp_step. wp_step. rewrite Hns.
  wp_step. wp_step. apply wp_do_read; rewrite Hcn; [done| |done]. intros ? [= <-].
  rewrite bool_decide_eq_true_2 by done. by wp_step.
Qed.

(** C27: refusal.  A Gateway with a name, a namespace, a generation and a
    status with one condition per type, whose class is this controller's and
    which has an invalid listener or an unsupported address, gets exactly one
    write, its status, with "Accepted" and "Programmed" both "False"; no
    Service is created or changed and the run ends in an error, whatever the
    API server answers.  (Without a status the Gateway would be accepted:
    [accepted_without_status].) *)
Theorem reconcile_rejected `{!GatewayConstantsSpec} clock gateway w name ns gen :
  om_name (gw_metadata gateway) = Some name → om_namespace (gw_metadata gateway) = Some ns →
  om_generation (gw_metadata gateway) = Some gen →
  is_Some (gw_status gateway) → NoDup (type_ <$> conditions_of gateway) →
  get_controller_name (gateway_class_name (gw_spec gateway)) (cluster w) =
    Ret GATEWAY_CLASS_CONTROLLER_NAME →
  ¬ (Forall listener_valid (listeners (gw_spec gateway)) ∧
     Forall address_ok (default [] (addresses (gw_spec gateway)))) →
  ∃ c p e, reconcile clock gateway w = (MkWorld c (writes w ++ [PatchStatus ns name p]), Err e) ∧
    reports (p_conditions p) GatewayConditionType_Accepted "False" ∧
    reports (p_conditions p) GatewayConditionType_Programmed "False".
Proof.
  intros Hname Hns Hgen [st Hst] Hnd Hcn Hinv.
  destruct (accepted_iff_run (clock 0%nat) (clock 1%nat) gateway st gen Hst Hgen) as (_ & _ & Hiff & Htf).
  assert (cond_status (acceptance clock gateway) = "False") as Hf.
  { destruct Htf as [Ht|Hf]; [|done]. by apply Hiff in Ht. }
  destruct (refusal_reports clock gateway gen) as [HP HA]; [by eexists|done..|].
  cut (wp (reconcile clock gateway) (λ w' o, ∃ c e, (w', o) = (MkWorld c (writes w ++ [PatchStatus ns name
      (patch_of (set_condition (assessed clock gateway) (refusal (acceptance clock gateway))))]), Err e)) w).
  { unfold wp. destruct (reconcile clock gateway w). intros (c & e & Heq). eauto 6. }
  apply wp_reconcile.
  - intros e [Hn|[Hn|[Hn|Hn]]]; [congruence..|]. by destruct (Hn _ Hcn).
  - intros cn Hcn' Hne. congruence.
  - intros name' ns' Hname' Hns' _ _. simplify_eq. split; [eauto|]. intros Ht. congruence.
Qed.

(** ** A Gateway whose Service is ready *)

Lemma ingress_addresses_inv st :
  ingress_addresses st ≠ [] → ∃ lb ing ip,
    load_balancer st = Some lb ∧ ingress lb = Some ing ∧ first_ip ing = Some ip ∧
    get_ingress_ip_len st ≠ 0%nat.
Proof.
  unfold ingress_addresses, get_ingress_ip_len. destruct (load_balancer st) as [lb|]; simpl; [|done].
  destruct (ingress lb) as [ing|] eqn:Hing; simpl; [|done]. intros Hne.
  assert (∃ ip, first_ip ing = Some ip) as [ip Hip].
  { clear Hing. induction ing as [|a ing IH]; simpl in *; [done|]. destruct (ing_ip a); eauto. }
  exists lb, ing, ip. split_and!; [done..|]. by destruct ing.
Qed.

(** The Service is ready: it has an address of its own and one for clients. *)
Definition service_ready (svc : Service) (key : NamespacedName) (st : ServiceStatus) : Prop :=
  get_service_key svc = Ret key ∧ (∃ sp, svc_spec svc = Some sp ∧ cluster_ip sp ≠ None) ∧
  svc_status svc = Some st ∧ ingress_addresses st ≠ [].

Lemma program_gateway_ready clock ns name gateway gw svc key st w :
  is_Some (gw_status gw) → NoDup (type_ <$> conditions_of gw) → service_ready svc key st →
  get_endpoints (nn_namespace key) (nn_name key) (cluster w) = Ret tt →
  (∀ p, (api_write (PatchStatus ns name p) (cluster w)).2 = Ret tt) →
  wp (program_gateway clock ns name gateway gw svc) (λ w' o, o = Ret (requeue 60) ∧
    ∃ p, w' = MkWorld (api_write (PatchStatus ns name p) (cluster w)).1
                (writes w ++ [PatchStatus ns name p]) ∧
      p_addresses p = ingress_addresses st ∧
      reports (p_conditions p) GatewayConditionType_Programmed "True" ∧
      ∀ t v, t ≠ GatewayConditionType_Programmed → reports (conditions_of gw) t v →
             reports (p_conditions p) t v) w.
Proof.
  intros Hs Hnd (Hk & (sp & Hsp & Hip) & Hst & Hne) He Hw. unfold program_gateway. rewrite Hsp, Hst.
  destruct (ingress_addresses_inv st Hne) as (lb & ing & ip & Hlb & Hing & Hfirst & Hlen).
  wp_step. wp_step. unfold wp at 1. simpl. rewrite Hk.
  rewrite (proj2 (Nat.eqb_neq _ _) Hlen), bool_decide_eq_false_2 by done. simpl.
  wp_step. wp_step. unfold create_endpoint_if_not_exists.
  wp_step. wp_step. rewrite Hlb. wp_step. wp_step. rewrite Hing. wp_step. wp_step. rewrite Hfirst.
  wp_step. wp_step. rewrite He. wp_step.
  set (cond := MkCondition GatewayConditionType_Programmed "True" _ _ _ _).
  destruct (programmed_patch gw st cond Hs Hnd) as (Hpa & Hp & Hoth).
  wp_step. wp_step. unfold patch_status. change (MkStatusPatch _ _ _) with
    (patch_of (set_condition (set_gateway_status_addresses gw st) cond)).
  set (p := patch_of _) in *. specialize (Hw p). unfold wp at 1, do_write.
  destruct (api_write (PatchStatus ns name p) (cluster w)) as [c r] eqn:Haw. simpl in Hw. subst r.
  simpl. wp_step. split; [done|]. exists p. by rewrite Haw.
Qed.

(** C25: a ready Gateway is programmed.  Take a Gateway with a name, a
    namespace, a generation and a status with one condition per type, whose
    class is this controller's and whose listeners and addresses are valid.  If
    exactly one Service is listed for it, which needs no correction and has a
    name, a namespace, a cluster IP and an ingress address, if the Endpoints of
    that Service exist already and the API server accepts the status, then [reconcile] makes one
    write, the status: "Accepted" and "Programmed" are "True", the addresses
    are those of the Service; and it comes back in 60 seconds. *)
Theorem reconcile_programs `{!GatewayConstantsSpec} clock gateway w name ns gen val svc key st :
  om_name (gw_metadata gateway) = Some name → om_namespace (gw_metadata gateway) = Some ns →
  om_generation (gw_metadata gateway) = Some gen →
  is_Some (gw_status gateway) → NoDup (type_ <$> conditions_of gateway) →
  get_controller_name (gateway_class_name (gw_spec gateway)) (cluster w) =
    Ret GATEWAY_CLASS_CONTROLLER_NAME →
  Forall listener_valid (listeners (gw_spec gateway)) →
  Forall address_ok (default [] (addresses (gw_spec gateway))) →
  list_services ns (GATEWAY_SERVICE_LABEL +:+ "=" +:+ name) (cluster w) = Ret [val] →
  update_service_for_gateway gateway val = (svc, Ret false) → service_ready svc key st →
  get_endpoints (nn_namespace key) (nn_name key) (cluster w) = Ret tt →
  (∀ p, (api_write (PatchStatus ns name p) (cluster w)).2 = Ret tt) →
  ∃ p, reconcile clock gateway w =
      (MkWorld (api_write (PatchStatus ns name p) (cluster w)).1 (writes w ++ [PatchStatus ns name p]),
       Ret (requeue 60)) ∧
    p_addresses p = ingress_addresses st ∧
    reports (p_conditions p) GatewayConditionType_Accepted "True" ∧
    reports (p_conditions p) GatewayConditionType_Programmed "True".
Proof.
  intros Hname Hns Hgen Hs Hnd Hcn Hval Haddr Hl Hu Hready He Hw. pose proof Hs as [gst Hst].
  destruct (accepted_iff_run (clock 0%nat) (clock 1%nat) gateway gst gen Hst Hgen) as (Hty & _ & Hiff & _).
  assert (cond_status (acceptance clock gateway) = "True") as Ht by (apply Hiff; done).
  destruct (assessed_ok clock gateway Hs Hnd) as (Hs' & Hnd' & Hr). rewrite Ht in Hr.
  cut (wp (reconcile clock gateway) (λ w' o, ∃ p, (w', o) =
      (MkWorld (api_write (PatchStatus ns name p) (cluster w)).1 (writes w ++ [PatchStatus ns name p]),
       Ret (requeue 60)) ∧ p_addresses p = ingress_addresses st ∧
      reports (p_conditions p) GatewayConditionType_Accepted "True" ∧
      reports (p_conditions p) GatewayConditionType_Programmed "True") w).
  { unfold wp. by destruct (reconcile clock gateway w). }
  apply wp_reconcile; [intros e [?|[?|[?|Hn]]]; [congruence..|by destruct (Hn _ Hcn)]|intros; congruence|].
  intros name' ns' Hname' Hns' _ _. simplify_eq. split; [congruence|intros _]. split.
  { intros e Hlen. specialize (Hlen _ Hl). simpl in Hlen. lia. }
  intros services Hl' _. rewrite Hl in Hl'. injection Hl' as <-. wp_step. wp_step. unfold ensure_service. wp_step. wp_step.
  apply wp_on_local; rewrite Hu; [|done|done]. intros ? ? [= <- <-]. wp_step. wp_step. wp_step.
  eapply wp_mono; [by eapply program_gateway_ready|].
  intros w' o (-> & p & -> & Hpa & Hp & Hoth). exists p. split_and!; [done..| |done].
  apply Hoth; [apply gateway_types_distinct|]. unfold acceptance, with_statuses in *. by rewrite <-Hty.
Qed.
End rules.

(** ** The theorems at a concrete cluster *)
#[local] Existing Instance gateway_v1.

Record DemoCluster := MkDemo { demo_services : list Service; demo_endpoints : bool }.

(** A cluster with two classes, the Services of one Gateway, and Endpoints. *)
#[local] Instance demo_kube : Kube := {|
  Cluster := DemoCluster;
  KubeError_to_string := λ e, match e with Api _ => "api" | OtherKubeError => "other" end;
  name_any := λ m, default "" (om_name m);
  get_controller_name := λ n _,
    if bool_decide (n = "blixt") then Ret "gateway.networking.k8s.io/blixt" else
    if bool_decide (n = "other") then Ret "example.com/other" else Err (Api 404);
  list_services := λ _ _ c, Ret (demo_services c);
  get_endpoints := λ _ _ c, if demo_endpoints c then Ret tt else Err (Api 404);
  api_create_service := λ ns svc c,
    let created := MkService (MkObjectMeta (Some "svc") (Some ns) None None (om_labels (svc_metadata svc)))
      (svc_spec svc) (svc_status svc) in
    (MkDemo (demo_services c ++ [created]) (demo_endpoints c), Ret created);
  api_write := λ x c, match x with
    | PatchService _ _ svc => (MkDemo [svc] (demo_endpoints c), Ret tt)
    | CreateEndpoints _ _ => (MkDemo (demo_services c) true, Ret tt)
    | _ => (c, Ret tt)
    end;
|}.

#[local] Instance demo_kube_spec : KubeSpec.
Proof.
  split. split_and!; simpl; intros; repeat case_match; simpl; try done.
Qed.

Definition demo_clock (n : nat) : Z := 100 + Z.of_nat n.
Definition lb_status : ServiceStatus :=
  MkServiceStatus (Some (MkLoadBalancerStatus (Some [MkIngress None; MkIngress (Some "172.18.0.9")]))).
Definition lb_spec : ServiceSpec :=
  MkServiceSpec (Some "10.0.0.1") (Some "LoadBalancer") (Some [demo_port]) (Some "10.96.0.7").
Definition lb_service : Service :=
  MkService (MkObjectMeta (Some "svc") (Some "ns") None None None) (Some lb_spec) (Some lb_status).
Definition demo_world : world := MkWorld (MkDemo [lb_service] true) [].
Definition empty_world : world := MkWorld (MkDemo [] false) [].
Definition web_gw : Gateway := demo_gw [tcp_listener] (Some old_status).

Lemma web_gw_conditions : NoDup (type_ <$> conditions_of web_gw).
Proof. apply NoDup_singleton. Qed.

Lemma reconcile_programs_witness :
  ∃ p, reconcile demo_clock web_gw demo_world =
      (MkWorld (MkDemo [lb_service] true) [PatchStatus "ns" "gw" p], Ret (requeue 60)) ∧
    p_addresses p = [MkAddress (Some "IPAddress") "172.18.0.9"].
Proof.
  destruct (reconcile_programs demo_clock web_gw demo_world "gw" "ns" 3 lb_service lb_service
    (MkNamespacedName "svc" "ns") lb_status) as (p & Heq & Ha & _); try reflexivity.
  - by eexists.
  - apply web_gw_conditions.
  - by apply Forall_singleton.
  - apply Forall_singleton. by right.
  - split_and!; [done|by exists lb_spec|done|done].
  - exists p. split; [exact Heq|exact Ha].
Defined.

(** Nothing there yet: the Service is created, and has no address. *)
Lemma reconcile_honest_witness :
  let w := empty_world in
  let '(w', o) := reconcile demo_clock web_gw w in
  o ≠ Fault ∧ ∃ ws, writes w' = writes w ++ ws ∧
    (∀ ns n p, PatchStatus ns n p ∈ ws → honest (service_of web_gw (cluster w)) p) ∧
    ((∃ e, o = Err e) ∨ (o = Ret await_change ∧ foreign_class web_gw w ∧ ws = []) ∨
     (o = Ret (requeue 60) ∧ ∃ x, last ws = Some x ∧ is_programmed x)).
Proof.
  apply (reconcile_honest demo_clock web_gw empty_world).
  - by eexists.
  - apply web_gw_conditions.
Defined.

Lemma reconcile_one_service_witness :
  (∃ e, (reconcile demo_clock web_gw empty_world).2 = Err e) ∧
  ∃ ws, writes (reconcile demo_clock web_gw empty_world).1 = ws ∧
    length ws = 2%nat ∧ (length (filter is_service_write ws) ≤ 1)%nat.
Proof.
  split; [eexists; reflexivity|].
  destruct (reconcile_one_service demo_clock web_gw empty_world) as (ws & Hw & Hl & _).
  - by eexists.
  - apply web_gw_conditions.
  - exists ws. split; [exact Hw|]. split; [|exact Hl].
    change ws with (writes empty_world ++ ws). rewrite <-Hw. reflexivity.
Defined.

Lemma reconcile_foreign_class_witness :
  let gw := MkGateway demo_meta (MkGatewaySpec "other" [bad_listener] None) None in
  reconcile demo_clock gw demo_world = (demo_world, Ret await_change).
Proof.
  apply (reconcile_foreign_class demo_clock
    (MkGateway demo_meta (MkGatewaySpec "other" [bad_listener] None) None) demo_world
    "gw" "ns" "example.com/other"); done.
Defined.

Lemma reconcile_rejected_witness :
  ∃ c p e, reconcile demo_clock (demo_gw [tcp_listener; bad_listener] (Some old_status)) demo_world =
    (MkWorld c [PatchStatus "ns" "gw" p], Err e) ∧
    reports (p_conditions p) "Accepted" "False" ∧ reports (p_conditions p) "Programmed" "False".
Proof.
  destruct (reconcile_rejected demo_clock (demo_gw [tcp_listener; bad_listener] (Some old_status))
    demo_world "gw" "ns" 3) as (c & p & e & Heq & HA & HP);
    [done..|by eexists|apply NoDup_singleton|done| |].
  - intros [Hv _]. apply Forall_cons in Hv as [_ Hv]. by apply Forall_cons in Hv as [Hv _].
  - exists c, p, e. exact (conj Heq (conj HA HP)).
Defined.
