(* ===== verification/Controller.v ===== *)
(** * The controller

    Models [controller] of [src/controlplane/src/gateway_controller.rs] and
    [run] of [src/controlplane/src/main.rs], and shows what a sequence of runs
    of [reconcile] does to the Services of the cluster.  The runtime of the
    [kube] crate decides when [reconcile] is called and on what copy of a
    Gateway; other clients change the cluster in between. *)

From stdpp Require Import base list gmap strings relations.
From S2P Require Import Prelude GatewayApi GatewayUtils GatewayProps Reconcile ReconcileProps.

(** Listing one Gateway, which fails when the CRDs are not installed. *)
Class KubeCrds `{Kube} := list_gateways : Cluster → outcome KubeError unit.

Section controller.
Context `{GC : GatewayConstants, KU : Kube, KC : !KubeCrds}.

(** The runtime calls [reconcile] for each trigger and asks [error_policy]
    what to do after an error; results are discarded. *)
Fixpoint run_controller (triggers : list ((nat → Z) * Gateway)) : Eff world Error (list Action) :=
  match triggers with
  | [] => mret []
  | (clock, gateway) :: triggers => λ w,
      match reconcile clock gateway w with
      | (w', Ret action) => (a ← run_controller triggers; mret (action :: a)) w'
      | (w', Err e) => (a ← run_controller triggers; mret (error_policy e :: a)) w'
      | (w', Fault) => (w', Fault)
      end
  end.

Definition controller (triggers : list ((nat → Z) * Gateway)) : Eff world Error unit :=
  _ ← (λ w, (w, match list_gateways (cluster w) with
                | Ret _ => Ret tt
                | Err e => Err (CRDNotFoundError e)
                | Fault => Fault
                end));
  _ ← run_controller triggers;
  mret tt.

(** The exit code of the process; [client] is the result of
    [Client::try_default()], and [expect] panics without one. *)
Definition run (client : outcome KubeError unit) (triggers : list ((nat → Z) * Gateway)) :
    Eff world Error Z :=
  match client with
  | Ret _ => λ w,
      match controller triggers w with
      | (w', Ret _) => (w', Ret 0)
      | (w', Err error) => (w', Ret 1)
      | (w', Fault) => (w', Fault)
      end
  | _ => fault
  end.
End controller.

(** ** The Services of the cluster

    What the API server documents about the calls the controller makes. *)
Class KubeServices `{Kube} := services_of : Cluster → list Service.

(** The Services of a Gateway: those with its name in the label, in its namespace. *)
Definition owned_by (ns name : string) (svc : Service) : Prop :=
  om_namespace (svc_metadata svc) = Some ns ∧
  (om_labels (svc_metadata svc) ≫= (.!! GATEWAY_SERVICE_LABEL)) = Some name.
#[export] Instance owned_by_dec ns name svc : Decision (owned_by ns name svc).
Proof. unfold owned_by. apply _. Defined.

Definition same_object (s s' : Service) : Prop :=
  om_name (svc_metadata s) = om_name (svc_metadata s') ∧
  om_namespace (svc_metadata s) = om_namespace (svc_metadata s').

Class KubeServicesSpec `{KS : KubeServices} : Prop := {
  name_any_named m n : om_name m = Some n → name_any m = n;
  (** Objects have names, and no two of a namespace the same. *)
  services_named c s : s ∈ services_of c → is_Some (om_name (svc_metadata s));
  services_unique c s s' : s ∈ services_of c → s' ∈ services_of c → same_object s s' → s = s';
  (** An equality selector on the label. *)
  list_services_ok ns name c l :
    list_services ns (GATEWAY_SERVICE_LABEL +:+ "=" +:+ name) c = Ret l →
    l = filter (owned_by ns name) (services_of c);
  (** A creation adds the object or nothing; an error is reported in either case. *)
  create_service_ok ns svc c :
    let '(c', r) := api_create_service ns svc c in
    services_of c' = services_of c ∨
    ∃ s, services_of c' = services_of c ++ [s] ∧
         om_namespace (svc_metadata s) = Some ns ∧
         om_labels (svc_metadata s) = om_labels (svc_metadata svc);
  (** A patch changes the named object only; labels are merged, so a label the
      patch has keeps its value. *)
  patch_service_ok ns n svc c :
    ∃ f, services_of (api_write (PatchService ns n svc) c).1 = f <$> services_of c ∧
      ∀ s, f s = s ∨
        (om_name (svc_metadata s) = Some n ∧ om_namespace (svc_metadata s) = Some ns ∧
         om_namespace (svc_metadata (f s)) = Some ns ∧
         ∀ v, (om_labels (svc_metadata svc) ≫= (.!! GATEWAY_SERVICE_LABEL)) = Some v →
              (om_labels (svc_metadata (f s)) ≫= (.!! GATEWAY_SERVICE_LABEL)) = Some v);
  other_writes_ok x c :
    match x with
    | CreateEndpoints _ _ | PatchStatus _ _ _ => services_of (api_write x c).1 = services_of c
    | _ => True
    end;
}.

(** At most one Service for every Gateway. *)
Definition single `{KubeServices} (c : Cluster) : Prop :=
  ∀ ns name, (length (filter (owned_by ns name) (services_of c)) ≤ 1)%nat.

(** ** What [reconcile] does to them *)
Section services.
Context `{GC : GatewayConstants, KU : Kube, KS : !KubeServices, KSS : !KubeServicesSpec}.

Definition preserves {E A} (m : Eff world E A) : Prop :=
  ∀ w, single (cluster w) → single (cluster (m w).1).

Lemma preserves_bind {E A B} (m : Eff world E A) (k : A → Eff world E B) :
  preserves m → (∀ a, preserves (k a)) → preserves (m ≫= k).
Proof.
  intros Hm Hk w Hw. specialize (Hm w Hw). unfold mbind, eff_bind.
  destruct (m w) as [w' [a|e|]]; simpl in *; [by apply Hk|done|done].
Qed.

Lemma preserves_try {E R A} (m : Eff world E A) : preserves m → preserves (try_ m : Eff world (ctl E R) A).
Proof. intros Hm w Hw. specialize (Hm w Hw). unfold try_. by destruct (m w) as [w' [a|e|]]. Qed.

Lemma preserves_body {E R} (m : Eff world (ctl E R) R) : preserves m → preserves (fn_body m).
Proof. intros Hm w Hw. specialize (Hm w Hw). unfold fn_body. by destruct (m w) as [w' [a|[e|r]|]]. Qed.

Lemma preserves_ok_or {E A} (o : option A) (e : E) : preserves (ok_or o e).
Proof. destruct o; by intros w Hw. Qed.

Lemma preserves_read {A} (f : Cluster → outcome KubeError A) : preserves (do_read f).
Proof. by intros w Hw. Qed.

Lemma preserves_gets {E A} (f : world → A) : preserves (gets f : Eff world E A).
Proof. by intros w Hw. Qed.

Lemma preserves_local {S A} (m : Eff S Error A) x : preserves (on_local m x).
Proof. intros w Hw. unfold on_local. by destruct (m x) as [x' [a|e|]]. Qed.

Lemma preserves_patch_status ns name st : preserves (patch_status ns name st).
Proof.
  intros w Hw. unfold patch_status, do_write.
  match goal with |- context [api_write ?x _] => pose proof (other_writes_ok x (cluster w)) as Ho;
    destruct (api_write x (cluster w)) as [c r] end.
  simpl in *. unfold single. by rewrite Ho.
Qed.

Lemma preserves_create_endpoints ns ep : preserves (do_write (CreateEndpoints ns ep)).
Proof.
  intros w Hw. unfold do_write. pose proof (other_writes_ok (CreateEndpoints ns ep) (cluster w)) as Ho.
  destruct (api_write _ (cluster w)) as [c r]. simpl in *. unfold single. by rewrite Ho.
Qed.

Lemma preserves_report_invalid_lb {A} ns name gw cond msg e :
  preserves (report_invalid_lb (A:=A) ns name gw cond msg e).
Proof.
  apply preserves_bind; [apply preserves_try, preserves_patch_status|]. by intros _ w Hw.
Qed.

Lemma preserves_create_endpoint key sp st : preserves (create_endpoint_if_not_exists key sp st).
Proof.
  unfold create_endpoint_if_not_exists.
  do 3 (apply preserves_bind; [apply preserves_ok_or|intros ?]).
  apply preserves_bind; [apply preserves_gets|]. intros [u|err|]; [by intros w Hw| |by intros w Hw].
  destruct (check_if_not_found_err err); [apply preserves_create_endpoints|by intros w Hw].
Qed.

Lemma preserves_program clock ns name gateway gw service :
  preserves (program_gateway clock ns name gateway gw service).
Proof.
  unfold program_gateway. destruct (svc_spec service); [|apply preserves_report_invalid_lb].
  destruct (svc_status service); [|apply preserves_report_invalid_lb].
  apply preserves_bind; [apply preserves_try; by intros w Hw|]. intros key.
  case_match; [apply preserves_report_invalid_lb|].
  apply preserves_bind; [apply preserves_try, preserves_create_endpoint|]. intros _.
  apply preserves_bind; [apply preserves_try, preserves_patch_status|]. by intros _ w Hw.
Qed.

(** ** The Service itself *)

Lemma single_app c s ns name :
  single c → filter (owned_by ns name) (services_of c) = [] → owned_by ns name s →
  ∀ c', services_of c' = services_of c ++ [s] → single c'.
Proof.
  intros Hc Hnil Hs c' Hc' ns' name'. rewrite Hc', filter_app, length_app.
  destruct (decide (owned_by ns' name' s)) as [Ho|Ho].
  - assert (ns' = ns ∧ name' = name) as [-> ->].
    { destruct Hs as [H1 H2], Ho as [H3 H4]. split; congruence. }
    rewrite Hnil, filter_cons_True by done. simpl. lia.
  - rewrite filter_cons_False, filter_nil by done. simpl. specialize (Hc ns' name'). lia.
Qed.

(** A patch with the labels of the only Service of that name moves no Service
    to another Gateway. *)
Lemma single_patch c ns n val svc name :
  single c → val ∈ services_of c → owned_by ns name val → name_any (svc_metadata val) = n →
  svc_metadata svc = svc_metadata val → single (api_write (PatchService ns n svc) c).1.
Proof.
  intros Hc Hval Hown Hn Hmeta ns' name'.
  destruct (patch_service_ok ns n svc c) as (f & -> & Hf).
  assert (∀ s, s ∈ services_of c → owned_by ns' name' (f s) → owned_by ns' name' s) as Hkeep.
  { intros s Hs Ho. destruct (Hf s) as [Hfs|(H1 & H2 & H3 & H4)]; [by rewrite Hfs in Ho|].
    assert (s = val) as ->.
    { apply (services_unique c); [done|done|]. destruct (services_named c val Hval) as [n' Hn'].
      pose proof (name_any_named _ _ Hn'). destruct Hown as [Hns _]. split; congruence. }
    destruct Hown as [Hns Hlab], Ho as [H5 H6]. rewrite Hmeta in H4. specialize (H4 _ Hlab).
    split; congruence. }
  etrans; [|apply (Hc ns' name')]. clear -Hkeep.
  induction (services_of c) as [|s l IH]; [done|]. rewrite fmap_cons, filter_cons.
  assert (length (filter (owned_by ns' name') (f <$> l)) ≤
          length (filter (owned_by ns' name') l))%nat by (apply IH; intros; apply Hkeep; [by right|done]).
  rewrite filter_cons. repeat case_decide; simpl; try lia.
  exfalso. match goal with Hn : ¬ _ |- _ => apply Hn end. apply Hkeep; [by left|done].
Qed.

Lemma update_service_metadata gateway svc :
  svc_metadata (update_service_for_gateway gateway svc).1 = svc_metadata svc.
Proof. unfold update_service_for_gateway. repeat case_match; simplify_eq/=; done. Qed.

(** Creating or correcting the Service the listing found. *)
Lemma preserves_ensure_service name ns gateway services w :
  om_name (gw_metadata gateway) = Some name → om_namespace (gw_metadata gateway) = Some ns →
  list_services ns (GATEWAY_SERVICE_LABEL +:+ "=" +:+ name) (cluster w) = Ret services →
  single (cluster w) → single (cluster (ensure_service ns gateway services w).1).
Proof.
  intros Hname Hns Hl%list_services_ok Hw. unfold ensure_service. destruct services as [|val rest].
  - unfold try_, create_svc_for_gateway. rewrite Hns. simpl.
    destruct (service_for_gateway name_any gateway) as [svc|e|] eqn:Hsvc; [|done|done].
    pose proof (create_service_ok ns svc (cluster w)) as Hc.
    destruct (api_create_service ns svc (cluster w)) as [c r].
    assert (single c) as Hc'; [|by destruct r].
    destruct Hc as [Hsame|(s & Happ & Hsn & Hsl)]; [intros ns' name'; rewrite Hsame; apply Hw|].
    apply (single_app (cluster w) s ns name); [done|done| |done]. split; [done|]. rewrite Hsl.
    unfold service_for_gateway in Hsvc.
    match type of Hsvc with context [update_service_for_gateway gateway ?x] =>
      pose proof (update_service_metadata gateway x) as Hm;
      destruct (update_service_for_gateway gateway x) as [svc' [|e|]] end; simplify_eq/=.
    rewrite Hm. simpl. rewrite lookup_singleton_eq. f_equal. by apply name_any_named.
  - assert (val ∈ services_of (cluster w) ∧ owned_by ns name val) as [Hin Hown].
    { assert (val ∈ filter (owned_by ns name) (services_of (cluster w))) as Hv by (rewrite <-Hl; by left).
      apply list_elem_of_filter in Hv as [??]. done. }
    unfold mbind, eff_bind, try_, on_local. pose proof (update_service_metadata gateway val) as Hm.
    destruct (update_service_for_gateway gateway val) as [service [[]|e|]]; simpl in *; try done.
    unfold do_write.
    pose proof (single_patch (cluster w) ns (name_any (svc_metadata val)) val service name
                  Hw Hin Hown eq_refl Hm) as Hp.
    destruct (api_write _ (cluster w)) as [c [[]|e|]]; done.
Qed.

Lemma preserves_ok_or_bind {E A B} (o : option A) (e : E) (k : A → Eff world E B) :
  (∀ a, o = Some a → preserves (k a)) → preserves (ok_or o e ≫= k).
Proof. intros Hk w Hw. destruct o as [a|]; [|done]. by apply (Hk a). Qed.

Lemma preserves_read_bind {R A B} (f : Cluster → outcome KubeError A) (k : A → Eff world (ctl Error R) B) :
  (∀ a w, f (cluster w) = Ret a → single (cluster w) → single (cluster (k a w).1)) →
  preserves (try_ (do_read f) ≫= k).
Proof.
  intros Hk w Hw. unfold mbind, eff_bind, try_, do_read.
  destruct (f (cluster w)) as [a|e|] eqn:Hf; simpl; [by apply Hk|done|done].
Qed.

Lemma preserves_reconcile clock gateway : preserves (reconcile clock gateway).
Proof.
  unfold reconcile. apply preserves_body, preserves_ok_or_bind. intros name Hname.
  apply preserves_ok_or_bind. intros ns Hns.
  apply preserves_bind; [apply preserves_try, preserves_read|]. intros cn.
  case_bool_decide; [by intros w Hw|].
  apply preserves_bind; [apply preserves_try, preserves_local|]. intros [gw u].
  case_bool_decide.
  { apply preserves_bind; [apply preserves_try, preserves_patch_status|]. by intros _ w Hw. }
  apply preserves_read_bind. intros services w Hl Hw.
  destruct (1 <? length services)%nat; [done|].
  pose proof (preserves_ensure_service name ns gateway services w Hname Hns Hl Hw) as He.
  unfold mbind, eff_bind. destruct (ensure_service ns gateway services w) as [w' [svc|e|]]; [|done|done].
  by apply preserves_program.
Qed.
End services.

(** ** Sequences of runs *)
Section sequences.
Context `{GC : GatewayConstants, KU : Kube, KUS : !KubeSpec, KC : !KubeCrds}.
Context `{KS : !KubeServices, KSS : !KubeServicesSpec}.

(** A run of [reconcile] on some copy of a Gateway, however it ends, or a
    change by someone else, who creates no Services for Gateways. *)
Inductive ctl_step : world → world → Prop :=
| ctl_reconcile clock gateway w w' o : reconcile clock gateway w = (w', o) → ctl_step w w'
| ctl_other w c' :
    (∀ ns name, (length (filter (owned_by ns name) (services_of c')) ≤
                 length (filter (owned_by ns name) (services_of (cluster w))))%nat) →
    ctl_step w (MkWorld c' (writes w)).

(** C14: one Service per Gateway.  If every Gateway has at most one Service,
    then this stays so after any sequence of runs of [reconcile], for any
    Gateways, with errors and lost answers of the API server at any point, and
    of changes by others who create no such Services. *)
Theorem controller_single_service w w' :
  single (cluster w) → rtc ctl_step w w' → single (cluster w').
Proof.
  intros Hw Hr. induction Hr as [|w w1 w' Hs _ IH]; [done|]. apply IH.
  destruct Hs as [clock gateway w w1 o Heq|w c' Hc].
  - pose proof (preserves_reconcile clock gateway w Hw) as Hp. by rewrite Heq in Hp.
  - intros ns name. etrans; [apply Hc|]. apply Hw.
Qed.

Lemma controller_steps triggers w : rtc ctl_step w (controller triggers w).1.
Proof.
  unfold controller, mbind, eff_bind. destruct (list_gateways (cluster w)); simpl; [|done|done].
  enough (∀ w, rtc ctl_step w (run_controller triggers w).1) as Hr.
  { specialize (Hr w). by destruct (run_controller triggers w) as [w' [l|e|]]. }
  clear. induction triggers as [|[clock gateway] triggers IH]; intros w; [done|]. simpl.
  destruct (reconcile clock gateway w) as [w' [a|e|]] eqn:Heq;
    (eapply rtc_l; [by eapply ctl_reconcile|]); [..|done]; unfold mbind, eff_bind;
    specialize (IH w'); by destruct (run_controller triggers w') as [w'' [l|e'|]].
Qed.
End sequences.

(** ** A concrete cluster *)
#[local] Existing Instance gateway_v1.

Definition svc_key (s : Service) : option string * option string :=
  (om_namespace (svc_metadata s), om_name (svc_metadata s)).
Definition registry_ok (l : list Service) : Prop :=
  Forall (λ s, is_Some (om_name (svc_metadata s))) l ∧ NoDup (svc_key <$> l).
Definition registry : Type := { l : list Service | registry_ok l }.

(** Change the list, unless two objects would have the same name. *)
Definition registry_set (c : registry) (l : list Service) : registry :=
  match decide (registry_ok l) with left Hl => exist _ l Hl | right _ => c end.

Definition label_of (s : Service) : option string :=
  om_labels (svc_metadata s) ≫= (.!! GATEWAY_SERVICE_LABEL).

Definition with_meta (m : ObjectMeta) (s : Service) : Service := MkService m (svc_spec s) (svc_status s).

(** The first Service of a namespace is called "svc", and a second one fails. *)
Definition registry_create (ns : string) (svc : Service) (c : registry) :
    registry * outcome KubeError Service :=
  let m := MkObjectMeta (Some "svc") (Some ns) None None (om_labels (svc_metadata svc)) in
  let l := `c ++ [with_meta m svc] in
  if decide (registry_ok l) then (registry_set c l, Ret (with_meta m svc)) else (c, Err (Api 409)).

Definition registry_patch (ns n : string) (svc s : Service) : Service :=
  if decide (svc_key s = (Some ns, Some n)) then
    with_meta (MkObjectMeta (Some n) (Some ns) None None (om_labels (svc_metadata svc))) svc
  else s.

#[local] Instance registry_kube : Kube := {|
  Cluster := registry;
  KubeError_to_string := λ e, match e with Api _ => "api" | OtherKubeError => "other" end;
  name_any := λ m, default "" (om_name m);
  get_controller_name := λ n _,
    if bool_decide (n = "blixt") then Ret "gateway.networking.k8s.io/blixt" else Err (Api 404);
  list_services := λ ns label c,
    Ret (filter (λ s, om_namespace (svc_metadata s) = Some ns ∧
                      (λ v, GATEWAY_SERVICE_LABEL +:+ "=" +:+ v) <$> label_of s = Some label) (`c));
  get_endpoints := λ _ _ _, Err (Api 404);
  api_create_service := registry_create;
  api_write := λ x c, match x with
    | PatchService ns n svc => (registry_set c (registry_patch ns n svc <$> `c), Ret tt)
    | _ => (c, Ret tt)
    end;
|}.
#[local] Instance registry_services : KubeServices := λ c : registry, `c.

Lemma string_app_inj_l (p a b : string) : p +:+ a = p +:+ b → a = b.
Proof. induction p as [|x p IH]; simpl; [done|]. intros [= Heq]. by apply IH. Qed.

#[local] Instance registry_spec : KubeServicesSpec.
Proof.
  split; unfold services_of, registry_services; simpl.
  - by intros m n ->.
  - intros [l Hl] s Hs. simpl in Hs. destruct Hl as [Hn _]. rewrite Forall_forall in Hn. by apply Hn.
  - intros [l Hl] s s' Hs Hs' [H1 H2]. simpl in *. destruct Hl as [_ Hd].
    apply list_elem_of_lookup_1 in Hs as [i Hi]. apply list_elem_of_lookup_1 in Hs' as [j Hj].
    assert (i = j) as ->; [|congruence].
    apply (NoDup_lookup _ i j (svc_key s) Hd); rewrite list_lookup_fmap; [by rewrite Hi|rewrite Hj].
    simpl. f_equal. unfold svc_key. congruence.
  - intros ns name c l [= <-]. apply list_filter_iff. intros s. unfold owned_by. fold (label_of s).
    destruct (label_of s) as [v|]; simpl; [|naive_solver].
    split; intros [? Heq]; (split; [done|]); [|congruence].
    apply (inj Some), string_app_inj_l, (string_app_inj_l "=") in Heq. by rewrite Heq.
  - intros ns svc c. unfold registry_create. case_decide as Hok; [|by left]. right.
    eexists. unfold registry_set. case_decide; [|done]. done.
  - intros ns n svc c. unfold registry_set.
    case_decide as Hok; [|exists id; split; [by rewrite list_fmap_id|by left]].
    exists (registry_patch ns n svc). split; [done|]. intros s. unfold registry_patch.
    case_decide as Hk; [right|by left]. unfold svc_key in Hk. by simplify_eq/=.
  - by intros [] c.
Qed.

(** Two Gateways, the first reconciled twice. *)
Definition ctl_gw (ns : string) : Gateway :=
  MkGateway (MkObjectMeta (Some "gw") (Some ns) None (Some 3) None)
    (MkGatewaySpec "blixt" [tcp_listener] None) (Some old_status).
Definition ctl_triggers : list ((nat → Z) * Gateway) :=
  [(demo_clock, ctl_gw "a"); (demo_clock, ctl_gw "a"); (demo_clock, ctl_gw "b")].
#[local] Instance registry_crds : KubeCrds := λ _, Ret tt.
Definition empty_registry : registry := exist _ [] (conj (Forall_nil_2 _) (NoDup_nil_2)).
Definition ctl_start : world := MkWorld (empty_registry : Cluster) [].

Lemma controller_single_service_witness :
  single (cluster (controller ctl_triggers ctl_start).1) ∧
  length (services_of (cluster (controller ctl_triggers ctl_start).1)) = 2%nat.
Proof.
  split; [|vm_compute; reflexivity].
  apply (controller_single_service ctl_start).
  - intros ns name. simpl. lia.
  - apply controller_steps.
Defined.
