(* ===== verification/Proto.v ===== *)
(** * Messages on the wire

    The messages of [src/dataplane/api-server/src/backends.rs] derive
    [prost::Message].  [Message] is what the gRPC code uses of that trait and
    [MessageSpec] the law it relies on; both are stated for any encoding.  The
    rest of the file is one instance of them: the proto3 wire format of the
    fields and tags the attributes declare, with text limited to ASCII, which
    is all the service sends. *)

From stdpp Require Import base list gmap strings pretty.
From S2P Require Import Prelude Common NetUtils Server.

(** [prost::Message]; [message_wf] holds of the values of the Rust type. *)
Class Message (A : Type) := {
  encode : A → list Z;
  decode : list Z → option A;
  message_wf : A → Prop;
}.
Class MessageSpec (A : Type) `{Message A} : Prop := {
  decode_encode a : message_wf a → decode (encode a) = Some a;
}.

(** ** Varints *)
Fixpoint put_varint (groups : nat) (v : Z) : list Z :=
  match groups with
  | O => []
  | S groups => if v <? 128 then [v] else (v mod 128 + 128) :: put_varint groups (v / 128)
  end.

Fixpoint get_varint (groups : nat) (l : list Z) : option (Z * list Z) :=
  match groups, l with
  | S groups, b :: l =>
      if b <? 128 then Some (b, l)
      else '(v, l) ← get_varint groups l; Some (b - 128 + 128 * v, l)
  | _, _ => None
  end.

(** A 64-bit value takes at most ten groups of seven bits. *)
Definition varint_groups : nat := 10.

(** ** Fields *)
Inductive field :=
| Varint (tag v : Z)
| Len (tag : Z) (b : list Z).

Definition put_field (f : field) : list Z :=
  match f with
  | Varint tag v => put_varint varint_groups (tag * 8) ++ put_varint varint_groups v
  | Len tag b =>
      put_varint varint_groups (tag * 8 + 2) ++
      put_varint varint_groups (Z.of_nat (length b)) ++ b
  end.
Definition put_fields (fs : list field) : list Z := fs ≫= put_field.

Definition get_field (l : list Z) : option (field * list Z) :=
  '(key, l) ← get_varint varint_groups l;
  if key mod 8 =? 0 then
    '(v, l) ← get_varint varint_groups l; Some (Varint (key / 8) v, l)
  else if key mod 8 =? 2 then
    '(n, l) ← get_varint varint_groups l;
    if n <=? Z.of_nat (length l)
    then Some (Len (key / 8) (take (Z.to_nat n) l), drop (Z.to_nat n) l)
    else None
  else None.

(** Every field takes at least one byte, so the length of the buffer is
    enough fuel. *)
Fixpoint get_fields (fuel : nat) (l : list Z) : option (list field) :=
  match l, fuel with
  | [], _ => Some []
  | _, O => None
  | _, S fuel => '(f, l) ← get_field l; (f ::.) <$> get_fields fuel l
  end.

(** [merge]: the fields of a buffer update a message one after the other. *)
Fixpoint merge_fields {A} (merge : A → field → option A) (a : A) (fs : list field) : option A :=
  match fs with [] => Some a | f :: fs => a ← merge a f; merge_fields merge a fs end.
Definition merge_buf {A} (merge : A → field → option A) (a : A) (l : list Z) : option A :=
  get_fields (length l) l ≫= merge_fields merge a.

(** Proto3 leaves out the default value of a plain field. *)
Definition uint32_field (tag v : Z) : list field := if v =? 0 then [] else [Varint tag v].
Definition optional_field (tag : Z) (o : option Z) : list field :=
  match o with Some v => [Varint tag v] | None => [] end.

Definition field_wf (f : field) : Prop :=
  match f with
  | Varint tag v => 0 ≤ tag < 2 ^ 29 ∧ fits 64 v
  | Len tag b => 0 ≤ tag < 2 ^ 29 ∧ fits 64 (Z.of_nat (length b))
  end.

Lemma get_put_varint n v l :
  n ≠ O → 0 ≤ v < 128 ^ Z.of_nat n → get_varint n (put_varint n v ++ l) = Some (v, l).
Proof.
  revert v. induction n as [|n IH]; intros v Hn Hv; [done|].
  cbn [put_varint]. destruct (v <? 128) eqn:Hlt; [by simpl; rewrite Hlt|].
  rewrite Nat2Z.inj_succ, Z.pow_succ_r in Hv by lia.
  pose proof (Z.mod_pos_bound v 128). apply Z.ltb_ge in Hlt. cbn [app get_varint].
  rewrite (proj2 (Z.ltb_ge _ _)) by lia. rewrite IH.
  - simpl. do 2 f_equal. pose proof (Z.div_mod v 128). lia.
  - intros ->. simpl in Hv. lia.
  - split; [apply Z.div_pos|apply Z.div_lt_upper_bound]; lia.
Qed.

Lemma get_put_varint64 v l :
  fits 64 v → get_varint varint_groups (put_varint varint_groups v ++ l) = Some (v, l).
Proof.
  intros [? Hv]. apply get_put_varint; [done|]. split; [done|]. eapply Z.lt_le_trans; [exact Hv|].
  by vm_compute.
Qed.

Lemma get_put_field f l : field_wf f → get_field (put_field f ++ l) = Some (f, l).
Proof.
  assert (∀ tag k, 0 ≤ tag < 2 ^ 29 → 0 ≤ k < 8 →
    fits 64 (tag * 8 + k) ∧ (tag * 8 + k) mod 8 = k ∧ (tag * 8 + k) / 8 = tag) as Hkey.
  { intros tag k Ht Hk. rewrite Z.div_add_l, (Z.div_small k 8), Z.add_comm, Z.mod_add, Z.mod_small by lia.
    unfold fits. lia. }
  unfold get_field. destruct f as [tag v|tag b]; intros [Ht Hf]; cbn [put_field]; rewrite <-!app_assoc.
  - destruct (Hkey tag 0 Ht ltac:(lia)) as (H1 & H2 & H3). rewrite Z.add_0_r in *.
    rewrite get_put_varint64 by done. cbn [mbind option_bind]. rewrite H2, H3. cbn [Z.eqb].
    by rewrite get_put_varint64.
  - destruct (Hkey tag 2 Ht ltac:(lia)) as (H1 & H2 & H3).
    rewrite get_put_varint64 by done. cbn [mbind option_bind]. rewrite H2, H3. cbn [Z.eqb Pos.eqb].
    rewrite get_put_varint64 by done. cbn [mbind option_bind].
    rewrite (proj2 (Z.leb_le _ _)), Nat2Z.id, take_app_length, drop_app_length
      by (rewrite length_app; lia). done.
Qed.

Lemma put_varint_nonempty v : put_varint varint_groups v ≠ [].
Proof. unfold varint_groups. cbn [put_varint]. by case_match. Qed.

Lemma put_field_nonempty f : put_field f ≠ [].
Proof.
  destruct f as [tag v|tag b]; cbn [put_field]; intros [? _]%app_eq_nil; by eapply put_varint_nonempty.
Qed.

Lemma get_put_fields fs fuel :
  Forall field_wf fs → (length (put_fields fs) ≤ fuel)%nat → get_fields fuel (put_fields fs) = Some fs.
Proof.
  intros Hfs. revert fuel. induction Hfs as [|f fs Hf _ IH]; intros fuel Hfuel; [by destruct fuel|].
  unfold put_fields in *. cbn [mbind list_bind] in *. rewrite length_app in Hfuel.
  pose proof (put_field_nonempty f) as Hne. destruct (put_field f) as [|b l] eqn:Hb; [done|].
  destruct fuel as [|fuel]; simpl in Hfuel; [lia|]. cbn [app get_fields].
  change (b :: l ++ ?r) with ((b :: l) ++ r). rewrite <-Hb, get_put_field by done.
  cbn [mbind option_bind]. by rewrite IH by lia.
Qed.

Lemma merge_put {A} (merge : A → field → option A) a fs :
  Forall field_wf fs → merge_buf merge a (put_fields fs) = merge_fields merge a fs.
Proof. intros. unfold merge_buf. by rewrite get_put_fields. Qed.

Lemma merge_fields_app {A} (merge : A → field → option A) a fs fs' :
  merge_fields merge a (fs ++ fs') = a ← merge_fields merge a fs; merge_fields merge a fs'.
Proof.
  revert a. induction fs as [|f fs IH]; intros a; [done|]. cbn [app merge_fields].
  destruct (merge a f); simpl; [apply IH|done].
Qed.

(** ** The messages of the service *)

(** [prost] reads a [uint32] as a varint and keeps its low 32 bits. *)
Abbreviation as_u32 := (wrap 32).

Definition merge_Vip (v : Vip) (f : field) : option Vip :=
  match f with
  | Varint 1 x => Some (MkVip (as_u32 x) (vip_port v))
  | Varint 2 x => Some (MkVip (vip_ip v) (as_u32 x))
  | Len 1 _ | Len 2 _ => None
  | _ => Some v
  end.
Definition Vip_fields (v : Vip) : list field :=
  uint32_field 1 (vip_ip v) ++ uint32_field 2 (vip_port v).

Definition merge_Target (t : Target) (f : field) : option Target :=
  match f with
  | Varint 1 x => Some (MkTarget (as_u32 x) (t_dport t) (t_ifindex t))
  | Varint 2 x => Some (MkTarget (t_daddr t) (as_u32 x) (t_ifindex t))
  | Varint 3 x => Some (MkTarget (t_daddr t) (t_dport t) (Some (as_u32 x)))
  | Len 1 _ | Len 2 _ | Len 3 _ => None
  | _ => Some t
  end.
Definition Target_fields (t : Target) : list field :=
  uint32_field 1 (t_daddr t) ++ uint32_field 2 (t_dport t) ++ optional_field 3 (t_ifindex t).

(** A second [vip] is merged into the first; every [targets] field appends. *)
Definition merge_Targets (ts : Targets) (f : field) : option Targets :=
  match f with
  | Len 1 b =>
      v ← merge_buf merge_Vip (default (MkVip 0 0) (vip ts)) b; Some (MkTargets (Some v) (targets ts))
  | Len 2 b =>
      t ← merge_buf merge_Target (MkTarget 0 0 None) b;
      Some (MkTargets (vip ts) (targets ts ++ [t]))
  | Varint 1 _ | Varint 2 _ => None
  | _ => Some ts
  end.
Definition Targets_fields (ts : Targets) : list field :=
  match vip ts with Some v => [Len 1 (put_fields (Vip_fields v))] | None => [] end ++
  ((λ t, Len 2 (put_fields (Target_fields t))) <$> targets ts).

Definition string_bytes (s : string) : list Z :=
  (λ a, Z.of_nat (Ascii.nat_of_ascii a)) <$> String.list_ascii_of_string s.
Definition bytes_string (l : list Z) : option string :=
  if decide (Forall (fits 7) l)
  then Some (String.string_of_list_ascii ((λ b, Ascii.ascii_of_nat (Z.to_nat b)) <$> l)) else None.

Definition merge_Confirmation (c : Confirmation) (f : field) : option Confirmation :=
  match f with
  | Len 1 b => MkConfirmation <$> bytes_string b
  | Varint 1 _ => None
  | _ => Some c
  end.
Definition Confirmation_fields (c : Confirmation) : list field :=
  match string_bytes (confirmation c) with [] => [] | b => [Len 1 b] end.

(** [PodIp] and [InterfaceIndexConfirmation] have one number each. *)
Definition merge_u32 (v : Z) (f : field) : option Z :=
  match f with Varint 1 x => Some (as_u32 x) | Len 1 _ => None | _ => Some v end.

#[export] Instance Vip_message : Message Vip := {|
  encode v := put_fields (Vip_fields v);
  decode := merge_buf merge_Vip (MkVip 0 0);
  message_wf := vip_wf;
|}.
#[export] Instance Targets_message : Message Targets := {|
  encode ts := put_fields (Targets_fields ts);
  decode := merge_buf merge_Targets (MkTargets None []);
  message_wf ts :=
    (∀ v, vip ts = Some v → vip_wf v) ∧
    Forall (λ t, target_wf t ∧ ∀ i, t_ifindex t = Some i → fits 32 i) (targets ts);
|}.
#[export] Instance Confirmation_message : Message Confirmation := {|
  encode c := put_fields (Confirmation_fields c);
  decode := merge_buf merge_Confirmation (MkConfirmation "");
  message_wf c :=
    Forall (fits 7) (string_bytes (confirmation c)) ∧
    fits 64 (Z.of_nat (String.length (confirmation c)));
|}.
#[export] Instance PodIp_message : Message PodIp := {|
  encode p := put_fields (uint32_field 1 (pod_ip p));
  decode l := MkPodIp <$> merge_buf merge_u32 0 l;
  message_wf p := fits 32 (pod_ip p);
|}.
#[export] Instance InterfaceIndexConfirmation_message : Message InterfaceIndexConfirmation := {|
  encode c := put_fields (uint32_field 1 (iic_ifindex c));
  decode l := MkInterfaceIndexConfirmation <$> merge_buf merge_u32 0 l;
  message_wf c := fits 32 (iic_ifindex c);
|}.

Lemma fits_32_64 v : fits 32 v → fits 64 v.
Proof. unfold fits. lia. Qed.

Lemma uint32_field_wf tag v : 0 ≤ tag < 2 ^ 29 → fits 32 v → Forall field_wf (uint32_field tag v).
Proof.
  intros. unfold uint32_field. destruct (v =? 0); [constructor|].
  apply Forall_singleton. split; [done|by apply fits_32_64].
Qed.

Lemma Vip_fields_wf v : vip_wf v → Forall field_wf (Vip_fields v).
Proof. intros [??]. apply Forall_app; split; by apply uint32_field_wf. Qed.

Lemma Target_fields_wf t :
  target_wf t → (∀ i, t_ifindex t = Some i → fits 32 i) → Forall field_wf (Target_fields t).
Proof.
  intros [??] Hi. unfold Target_fields. rewrite !Forall_app. split_and!; [by apply uint32_field_wf..|].
  destruct (t_ifindex t) as [i|]; [|constructor]. apply Forall_singleton.
  split; [done|by apply fits_32_64, Hi].
Qed.

Lemma merge_Vip_fields v : vip_wf v → merge_fields merge_Vip (MkVip 0 0) (Vip_fields v) = Some v.
Proof.
  destruct v as [ip port]. intros [Hi Hp]. simpl in Hi, Hp. unfold Vip_fields, uint32_field. simpl.
  destruct (Z.eqb_spec ip 0), (Z.eqb_spec port 0); subst; simpl; by rewrite ?wrap_id.
Qed.

Lemma merge_Target_fields t :
  target_wf t → (∀ i, t_ifindex t = Some i → fits 32 i) →
  merge_fields merge_Target (MkTarget 0 0 None) (Target_fields t) = Some t.
Proof.
  destruct t as [da dp i]. intros [Ha Hp] Hi. simpl in Ha, Hp, Hi.
  unfold Target_fields, uint32_field. simpl.
  destruct (Z.eqb_spec da 0), (Z.eqb_spec dp 0), i as [i|]; subst; simpl;
    rewrite ?(wrap_id 32 i) by auto; by rewrite ?wrap_id.
Qed.

(** Text of ASCII characters survives the trip through bytes. *)
Lemma bytes_string_bytes s :
  Forall (fits 7) (string_bytes s) → bytes_string (string_bytes s) = Some s.
Proof.
  intros Hs. unfold bytes_string. rewrite decide_True by done. f_equal.
  unfold string_bytes. rewrite <-list_fmap_compose.
  rewrite <-(String.string_of_list_ascii_of_string s) at 2. f_equal.
  rewrite <-(list_fmap_id (String.list_ascii_of_string s)) at 2. apply list_fmap_ext.
  intros _ a _. simpl. by rewrite Nat2Z.id, Ascii.ascii_nat_embedding.
Qed.

Lemma length_string_bytes s : length (string_bytes s) = String.length s.
Proof. unfold string_bytes. rewrite length_fmap. induction s; simpl; auto. Qed.

Lemma put_varint_length n v : (length (put_varint n v) ≤ n)%nat.
Proof. revert v. induction n; intros v; simpl; [done|]. case_match; simpl; [lia|]. specialize (IHn (v / 128)). lia. Qed.

Lemma put_fields_length fs :
  Forall (λ f, ∃ tag v, f = Varint tag v) fs → (length (put_fields fs) ≤ 20 * length fs)%nat.
Proof.
  unfold put_fields. induction 1 as [|f fs (tag & v & ->) _ IH]; [done|].
  cbn [mbind list_bind put_field length]. rewrite !length_app.
  pose proof (put_varint_length varint_groups (tag * 8)). pose proof (put_varint_length varint_groups v).
  unfold varint_groups in *. lia.
Qed.

Lemma numeric_length fs n :
  Forall (λ f, ∃ tag v, f = Varint tag v) fs → (length fs ≤ n)%nat → (n ≤ 100)%nat →
  fits 64 (Z.of_nat (length (put_fields fs))).
Proof. intros H%put_fields_length ??. unfold fits. lia. Qed.

Lemma Targets_fields_wf ts : message_wf ts → Forall field_wf (Targets_fields ts).
Proof.
  intros [Hv Ht]. unfold Targets_fields. apply Forall_app. split.
  - destruct (vip ts) as [v|]; [|constructor]. apply Forall_singleton. split; [done|].
    apply (numeric_length _ 2); unfold Vip_fields, uint32_field; repeat case_match; simpl;
      repeat constructor; eauto.
  - apply Forall_fmap. eapply Forall_impl; [done|]. intros t _. split; [done|].
    apply (numeric_length _ 3); unfold Target_fields, uint32_field, optional_field;
      repeat case_match; simpl; repeat constructor; eauto.
Qed.

Lemma merge_targets v ts ts' :
  Forall (λ t, target_wf t ∧ ∀ i, t_ifindex t = Some i → fits 32 i) ts' →
  merge_fields merge_Targets (MkTargets v ts) ((λ t, Len 2 (put_fields (Target_fields t))) <$> ts') =
  Some (MkTargets v (ts ++ ts')).
Proof.
  intros H. revert ts. induction H as [|t ts' [Ht Hi] _ IH]; intros ts; [by rewrite app_nil_r|].
  cbn [fmap list_fmap merge_fields merge_Targets].
  rewrite merge_put, merge_Target_fields by auto using Target_fields_wf.
  cbn [mbind option_bind vip targets]. by rewrite IH, <-app_assoc.
Qed.

#[export] Instance Vip_message_spec : MessageSpec Vip.
Proof.
  split. intros v Hv. cbv [decode encode Vip_message]. rewrite merge_put by (by apply Vip_fields_wf). by apply merge_Vip_fields.
Qed.

#[export] Instance Targets_message_spec : MessageSpec Targets.
Proof.
  split. intros ts Hts. cbv [decode encode Targets_message]. rewrite merge_put by (by apply Targets_fields_wf).
  destruct Hts as [Hv Ht]. unfold Targets_fields. rewrite merge_fields_app.
  destruct ts as [[v|] ts]; cbn [vip targets merge_fields merge_Targets mbind option_bind default] in *.
  - rewrite merge_put, merge_Vip_fields by auto using Vip_fields_wf.
    cbn [mbind option_bind]. by rewrite merge_targets.
  - by rewrite merge_targets.
Qed.

#[export] Instance Confirmation_message_spec : MessageSpec Confirmation.
Proof.
  split. intros [s] [Ha Hl]. cbv [decode encode Confirmation_message Confirmation_fields]. cbn [confirmation] in *.
  pose proof (bytes_string_bytes s Ha) as Hb. rewrite <-length_string_bytes in Hl.
  destruct (string_bytes s) as [|b l] eqn:Hs.
  - by apply (inj Some) in Hb as <-.
  - rewrite merge_put by (by apply Forall_singleton). cbn [merge_fields merge_Confirmation].
    by rewrite Hb.
Qed.

Lemma merge_u32_field v :
  fits 32 v → merge_buf merge_u32 0 (put_fields (uint32_field 1 v)) = Some v.
Proof.
  intros Hv. rewrite merge_put by (by apply uint32_field_wf). unfold uint32_field.
  destruct (Z.eqb_spec v 0); subst; simpl; by rewrite ?wrap_id.
Qed.

#[export] Instance PodIp_message_spec : MessageSpec PodIp.
Proof. split. intros [ip] Hip. cbv [decode encode PodIp_message pod_ip]. by rewrite merge_u32_field. Qed.

#[export] Instance InterfaceIndexConfirmation_message_spec : MessageSpec InterfaceIndexConfirmation.
Proof. split. intros [i] Hi.
  cbv [decode encode InterfaceIndexConfirmation_message iic_ifindex]. by rewrite merge_u32_field. Qed.
