(* ===== verification/Grpc.v ===== *)
(** * The gRPC stubs

    Models the client and the server of
    [src/dataplane/api-server/src/backends.rs], the stubs the repository keeps
    under version control.  [tonic], which they call, is a parameter: the
    classes below name its operations and [TonicSpec] the documented behaviour
    the stubs rely on, the framing of a unary call. *)

From stdpp Require Import base list gmap strings pretty.
From S2P Require Import Prelude Common Platform TcpState Ebpf NetUtils Server Proto.

(** ** [tonic] and [http] *)
Class TonicTypes := {
  Uri : Type;
  Body : Type;                         (* [tonic::body::BoxBody] *)
  empty_body : Body;
  Encodings : Type;                    (* [EnabledCompressionEncodings] *)
  CompressionEncoding : Type;
  encodings_default : Encodings;
  enable : CompressionEncoding → Encodings → Encodings;
  TransportError : Type;
  TransportError_to_string : TransportError → string;
}.

Record HttpRequest `{TonicTypes} := MkHttpRequest {
  uri_path : string;
  request_headers : list (string * string);
  request_body : Body;
}.
Record HttpResponse `{TonicTypes} := MkHttpResponse {
  http_status : Z;
  response_headers : list (string * string);
  response_body : Body;
}.

Arguments MkHttpRequest {_} _ _ _.
Arguments MkHttpResponse {_} _ _ _.

(** [tonic::Request]: the message and the extensions the stubs add to it. *)
Record GrpcMethod := MkGrpcMethod { grpc_service : string; grpc_method : string }.
Record Request (A : Type) := MkRequest { into_inner : A; extensions : list GrpcMethod }.
Arguments MkRequest {A} _ _.
Arguments into_inner {A} _.
Arguments extensions {A} _.

(** The trait [GrpcService]: what a client sends its requests to. *)
Class GrpcService `{TonicTypes} (St T : Type) := {
  svc_ready : T → Eff St TransportError unit;
  svc_call : T → HttpRequest → Eff St TransportError HttpResponse;
}.

Class Tonic `{TonicTypes} := {
  (* [tonic::server::Grpc] *)
  ServerGrpc : Type;
  server_new : ServerGrpc;
  apply_compression_config : Encodings → Encodings → ServerGrpc → ServerGrpc;
  apply_max_message_size_config : option Z → option Z → ServerGrpc → ServerGrpc;
  server_unary {St A B} `{Message A, Message B} :
    ServerGrpc → (A → Eff St Status B) → HttpRequest → Eff St Empty_set HttpResponse;
  (* [tonic::client::Grpc] *)
  ClientGrpc : Type → Type;
  client_new {T} : T → ClientGrpc T;
  client_with_origin {T} : T → Uri → ClientGrpc T;
  client_send_compressed {T} : CompressionEncoding → ClientGrpc T → ClientGrpc T;
  client_accept_compressed {T} : CompressionEncoding → ClientGrpc T → ClientGrpc T;
  client_max_decoding_message_size {T} : Z → ClientGrpc T → ClientGrpc T;
  client_max_encoding_message_size {T} : Z → ClientGrpc T → ClientGrpc T;
  client_ready {St T} `{!GrpcService St T} : ClientGrpc T → Eff St TransportError unit;
  client_unary {St T A B} `{!GrpcService St T, Message A, Message B} :
    ClientGrpc T → Request A → string → Eff St Status B;
  (* [InterceptedService] *)
  InterceptedService : Type → Type → Type;
  intercepted_new {T F} : T → F → InterceptedService T F;
}.

(** [tonic::transport]: endpoints and channels. *)
Class Transport `{TonicTypes} (St : Type) := {
  Endpoint : Type;
  Channel : Type;
  #[global] Channel_service :: GrpcService St Channel;
  endpoint_new : string → outcome TransportError Endpoint;
  endpoint_connect : Endpoint → Eff St TransportError Channel;
}.

(** [m.map_err(f)?] *)
Definition map_err {S E E' A} (f : E → E') (m : Eff S E A) : Eff S E' A := λ s,
  match m s with
  | (s', Ret a) => (s', Ret a)
  | (s', Err e) => (s', Err (f e))
  | (s', Fault) => (s', Fault)
  end.

(** ** Client *)
Record BackendsClient `{Tonic} (T : Type) := MkBackendsClient { client_inner : ClientGrpc T }.
Arguments MkBackendsClient {_ _ _} _.
Arguments client_inner {_ _ _} _.

Section client.
Context `{TY : TonicTypes, TO : !Tonic} {St : Type}.

Definition BackendsClient_new {T} (inner : T) : BackendsClient T :=
  let inner := client_new inner in MkBackendsClient inner.

Definition BackendsClient_with_origin {T} (inner : T) (origin : Uri) : BackendsClient T :=
  let inner := client_with_origin inner origin in MkBackendsClient inner.

Definition BackendsClient_with_interceptor {T F} (inner : T) (interceptor : F) :
    BackendsClient (InterceptedService T F) :=
  BackendsClient_new (intercepted_new inner interceptor).

Definition BackendsClient_send_compressed {T} (self : BackendsClient T)
    (encoding : CompressionEncoding) : BackendsClient T :=
  MkBackendsClient (client_send_compressed encoding (client_inner self)).

Definition BackendsClient_accept_compressed {T} (self : BackendsClient T)
    (encoding : CompressionEncoding) : BackendsClient T :=
  MkBackendsClient (client_accept_compressed encoding (client_inner self)).

Definition BackendsClient_max_decoding_message_size {T} (self : BackendsClient T) (limit : Z) :
    BackendsClient T :=
  MkBackendsClient (client_max_decoding_message_size limit (client_inner self)).

Definition BackendsClient_max_encoding_message_size {T} (self : BackendsClient T) (limit : Z) :
    BackendsClient T :=
  MkBackendsClient (client_max_encoding_message_size limit (client_inner self)).

Definition BackendsClient_connect `{!Transport St} (dst : string) :
    Eff St TransportError (BackendsClient Channel) :=
  endpoint ← (λ s, (s, endpoint_new dst));
  conn ← endpoint_connect endpoint;
  mret (BackendsClient_new conn).

Definition not_ready (e : TransportError) : Status :=
  MkStatus Unknown ("Service was not ready: " +:+ TransportError_to_string e).

Context `{GS : !GrpcService St T}.
Context `{Message PodIp, Message InterfaceIndexConfirmation, Message Targets, Message Vip, Message Confirmation}.

Definition client_get_interface_index (self : BackendsClient T) (request : PodIp) :
    Eff St Status InterfaceIndexConfirmation :=
  _ ← map_err not_ready (client_ready (client_inner self));
  let path := "/backends.backends/GetInterfaceIndex" in
  let req := MkRequest request [MkGrpcMethod "backends.backends" "GetInterfaceIndex"] in
  client_unary (client_inner self) req path.

Definition client_update (self : BackendsClient T) (request : Targets) :
    Eff St Status Confirmation :=
  _ ← map_err not_ready (client_ready (client_inner self));
  let path := "/backends.backends/Update" in
  let req := MkRequest request [MkGrpcMethod "backends.backends" "Update"] in
  client_unary (client_inner self) req path.

Definition client_delete (self : BackendsClient T) (request : Vip) : Eff St Status Confirmation :=
  _ ← map_err not_ready (client_ready (client_inner self));
  let path := "/backends.backends/Delete" in
  let req := MkRequest request [MkGrpcMethod "backends.backends" "Delete"] in
  client_unary (client_inner self) req path.
End client.

(** ** Server *)

(** The trait [Backends]. *)
Class Backends (St T : Type) := {
  backends_get_interface_index : T → PodIp → Eff St Status InterfaceIndexConfirmation;
  backends_update : T → Targets → Eff St Status Confirmation;
  backends_delete : T → Vip → Eff St Status Confirmation;
}.

(** [BackendService]: its three maps are those of the state it runs on. *)
Inductive BackendService := MkBackendService.
#[export] Instance BackendService_backends `{MP : Maps, AM : !AyaMaps, NL : Netlink} :
    Backends kstate BackendService := {|
  backends_get_interface_index _ := get_interface_index;
  backends_update _ := service_update;
  backends_delete _ := service_delete;
|}.

Record BackendsServer `{TonicTypes} (T : Type) := MkBackendsServer {
  server_inner : T;
  accept_compression_encodings : Encodings;
  send_compression_encodings : Encodings;
  max_decoding_message_size : option Z;
  max_encoding_message_size : option Z;
}.
Arguments MkBackendsServer {_ _} _ _ _ _ _.
Arguments server_inner {_ _} _.
Arguments accept_compression_encodings {_ _} _.
Arguments send_compression_encodings {_ _} _.
Arguments max_decoding_message_size {_ _} _.
Arguments max_encoding_message_size {_ _} _.

Section server.
Context `{TY : TonicTypes, TO : !Tonic} {St T : Type}.

Definition BackendsServer_from_arc (inner : T) : BackendsServer T :=
  MkBackendsServer inner encodings_default encodings_default None None.

Definition BackendsServer_new (inner : T) : BackendsServer T := BackendsServer_from_arc inner.

Definition BackendsServer_with_interceptor {F} (inner : T) (interceptor : F) :
    InterceptedService (BackendsServer T) F :=
  intercepted_new (BackendsServer_new inner) interceptor.

Definition BackendsServer_accept_compressed (self : BackendsServer T)
    (encoding : CompressionEncoding) : BackendsServer T :=
  MkBackendsServer (server_inner self) (enable encoding (accept_compression_encodings self))
    (send_compression_encodings self) (max_decoding_message_size self)
    (max_encoding_message_size self).

Definition BackendsServer_send_compressed (self : BackendsServer T)
    (encoding : CompressionEncoding) : BackendsServer T :=
  MkBackendsServer (server_inner self) (accept_compression_encodings self)
    (enable encoding (send_compression_encodings self)) (max_decoding_message_size self)
    (max_encoding_message_size self).

Definition BackendsServer_max_decoding_message_size (self : BackendsServer T) (limit : Z) :
    BackendsServer T :=
  MkBackendsServer (server_inner self) (accept_compression_encodings self)
    (send_compression_encodings self) (Some limit) (max_encoding_message_size self).

Definition BackendsServer_max_encoding_message_size (self : BackendsServer T) (limit : Z) :
    BackendsServer T :=
  MkBackendsServer (server_inner self) (accept_compression_encodings self)
    (send_compression_encodings self) (max_decoding_message_size self) (Some limit).

Definition BackendsServer_clone (self : BackendsServer T) : BackendsServer T :=
  MkBackendsServer (server_inner self) (accept_compression_encodings self)
    (send_compression_encodings self) (max_decoding_message_size self)
    (max_encoding_message_size self).

(** [NamedService::NAME] *)
Definition NAME : string := "backends.backends".

Context `{BE : !Backends St T}.
Context `{Message PodIp, Message InterfaceIndexConfirmation, Message Targets, Message Vip, Message Confirmation}.

Definition BackendsServer_poll_ready (self : BackendsServer T) : Eff St Empty_set unit := mret tt.

Definition BackendsServer_call (self : BackendsServer T) (req : HttpRequest) :
    Eff St Empty_set HttpResponse :=
  let inner := server_inner self in
  if String.eqb (uri_path req) "/backends.backends/GetInterfaceIndex" then
    let method := backends_get_interface_index inner in
    let grpc :=
      apply_max_message_size_config (max_decoding_message_size self) (max_encoding_message_size self)
        (apply_compression_config (accept_compression_encodings self)
          (send_compression_encodings self) server_new) in
    server_unary grpc method req
  else if String.eqb (uri_path req) "/backends.backends/Update" then
    let method := backends_update inner in
    let grpc :=
      apply_max_message_size_config (max_decoding_message_size self) (max_encoding_message_size self)
        (apply_compression_config (accept_compression_encodings self)
          (send_compression_encodings self) server_new) in
    server_unary grpc method req
  else if String.eqb (uri_path req) "/backends.backends/Delete" then
    let method := backends_delete inner in
    let grpc :=
      apply_max_message_size_config (max_decoding_message_size self) (max_encoding_message_size self)
        (apply_compression_config (accept_compression_encodings self)
          (send_compression_encodings self) server_new) in
    server_unary grpc method req
  else
    mret (MkHttpResponse 200
      [("grpc-status", "12"); ("content-type", "application/grpc")] empty_body).
End server.

(** ** What the stubs rely on

    A message limit of 4 MiB applies where none is set, and none on encoding. *)
Definition decode_limit (max : option Z) : Z := default 4194304 max.
Definition header_get (name : string) (hs : list (string * string)) : option string :=
  snd <$> List.find (λ h, String.eqb h.1 name) hs.

(** The two halves of a unary call, each as a writer and a reader of HTTP
    messages: the client built by [client_new] and the server with the
    configuration the stub applies. *)
Class TonicSpec `{TY : TonicTypes, TO : !Tonic} := {
  write_request {A} `{Message A} : string → A → HttpRequest;
  read_request {A} `{Message A} : Encodings → option Z → HttpRequest → Status + A;
  write_response {B} `{Message B} : Encodings → option Z → HttpRequest → Status + B → HttpResponse;
  read_response {B} `{Message B} : HttpResponse → Status + B;
  transport_status : TransportError → Status;
  server_unary_spec {St A B} `{Message A, Message B} acc snd' dec enc (method : A → Eff St Status B) req s :
    server_unary (apply_max_message_size_config dec enc
      (apply_compression_config acc snd' server_new)) method req s =
    match read_request acc dec req with
    | inl st => (s, Ret (write_response (B:=B) snd' enc req (inl st)))
    | inr a =>
        match method a s with
        | (s', Ret b) => (s', Ret (write_response snd' enc req (inr b)))
        | (s', Err st) => (s', Ret (write_response (B:=B) snd' enc req (inl st)))
        | (s', Fault) => (s', Fault)
        end
    end;
  client_ready_spec {St T} `{!GrpcService St T} (ch : T) s :
    client_ready (client_new ch) s = svc_ready ch s;
  client_unary_spec {St T A B} `{!GrpcService St T, Message A, Message B} (ch : T) (req : Request A) path s :
    client_unary (B:=B) (client_new ch) req path s =
    match svc_call ch (write_request path (into_inner req)) s with
    | (s', Ret res) => (s', match read_response res with inl st => Err st | inr b => Ret b end)
    | (s', Err e) => (s', Err (transport_status e))
    | (s', Fault) => (s', Fault)
    end;
  path_write_request {A} `{Message A} path (a : A) : uri_path (write_request path a) = path;
  read_write_request {A} `{MessageSpec A} acc dec path (a : A) :
    message_wf a → Z.of_nat (length (encode a)) ≤ decode_limit dec →
    read_request acc dec (write_request path a) = inr a;
  read_large_request {A} `{Message A} acc dec path (a : A) :
    decode_limit dec < Z.of_nat (length (encode a)) →
    ∃ st, read_request (A:=A) acc dec (write_request path a) = inl st;
  read_write_response {A B} `{Message A, MessageSpec B} snd' path (a : A) (b : B) :
    message_wf b → Z.of_nat (length (encode b)) ≤ decode_limit None →
    read_response (write_response snd' None (write_request path a) (inr b)) = inr b;
  read_large_response {A B} `{Message A, Message B} snd' path (a : A) (b : B) :
    decode_limit None < Z.of_nat (length (encode b)) →
    ∃ st, read_response (B:=B) (write_response snd' None (write_request path a) (inr b)) = inl st;
  read_write_status {A B} `{Message A, Message B} snd' enc path (a : A) st :
    read_response (B:=B) (write_response (B:=B) snd' enc (write_request path a) (inl st)) = inl st;
  read_unimplemented {B} `{Message B} res :
    header_get "grpc-status" (response_headers res) = Some "12" →
    ∃ msg, read_response (B:=B) res = inl (MkStatus Unimplemented msg);
}.
