(* ===== verification/GrpcRef.v ===== *)
(** * A reference instance of the gRPC library

    A plain implementation of the unary call of [tonic] that satisfies
    [TonicSpec]: the message is the body, the status and its text are headers.
    It shows that the laws can hold together; the theorems do not depend on it. *)

From stdpp Require Import base list gmap strings pretty.
From S2P Require Import Prelude Common Platform TcpState Ebpf NetUtils Server Proto Grpc.

(** The numbers of the status codes, as they are sent. *)
Definition code_numbers : list (Code * string) :=
  [(Cancelled, "1"); (Unknown, "2"); (InvalidArgument, "3"); (DeadlineExceeded, "4");
   (NotFound, "5"); (AlreadyExists, "6"); (PermissionDenied, "7"); (ResourceExhausted, "8");
   (FailedPrecondition, "9"); (Aborted, "10"); (OutOfRange, "11"); (Unimplemented, "12");
   (Internal, "13"); (Unavailable, "14"); (DataLoss, "15"); (Unauthenticated, "16")].
Definition code_number (c : Code) : string :=
  default "2" (snd <$> List.find (λ p, bool_decide (p.1 = c)) code_numbers).
Definition number_code (n : string) : Code :=
  default Unknown (fst <$> List.find (λ p, String.eqb p.2 n) code_numbers).

Definition ref_tonic_types : TonicTypes := {|
  Uri := unit; Body := list Z; empty_body := [];
  Encodings := unit; CompressionEncoding := unit; encodings_default := tt; enable _ e := e;
  TransportError := string; TransportError_to_string e := e;
|}.
#[local] Existing Instance ref_tonic_types.

Definition ref_write_request `{Message A} (path : string) (a : A) : HttpRequest :=
  MkHttpRequest path [("content-type", "application/grpc")] (encode a).

Definition ref_read_body `{Message A} (limit : Z) (b : list Z) : Status + A :=
  if Z.of_nat (length b) <=? limit then
    match decode b with Some a => inr a | None => inl (MkStatus Internal "failed to decode") end
  else inl (MkStatus OutOfRange "message length too large").

Definition ref_read_request `{Message A} (acc : unit) (dec : option Z) (req : HttpRequest) : Status + A :=
  ref_read_body (decode_limit dec) (request_body req).

Definition ref_write_response `{Message B} (snd' : unit) (enc : option Z) (req : HttpRequest)
    (r : Status + B) : HttpResponse :=
  match r with
  | inl st => MkHttpResponse 200 [("grpc-status", code_number (code st)); ("grpc-message", message st)] []
  | inr b => MkHttpResponse 200 [("grpc-status", "0")] (encode b)
  end.

Definition ref_read_response `{Message B} (res : HttpResponse) : Status + B :=
  match header_get "grpc-status" (response_headers res) with
  | Some n =>
      if String.eqb n "0" then ref_read_body (decode_limit None) (response_body res)
      else inl (MkStatus (number_code n) (default "" (header_get "grpc-message" (response_headers res))))
  | None => inl (MkStatus Unknown "no status")
  end.

Definition ref_status (e : string) : Status := MkStatus Unavailable e.

Definition ref_server_unary {St A B} `{Message A, Message B} (g : option Z * option Z)
    (method : A → Eff St Status B) (req : HttpRequest) : Eff St Empty_set HttpResponse := λ s,
  match ref_read_request tt g.1 req with
  | inl st => (s, Ret (ref_write_response (B:=B) tt g.2 req (inl st)))
  | inr a =>
      match method a s with
      | (s', Ret b) => (s', Ret (ref_write_response tt g.2 req (inr b)))
      | (s', Err st) => (s', Ret (ref_write_response (B:=B) tt g.2 req (inl st)))
      | (s', Fault) => (s', Fault)
      end
  end.

Definition ref_client_unary {St T A B} `{!GrpcService St T, Message A, Message B} (ch : T)
    (req : Request A) (path : string) : Eff St Status B := λ s,
  match svc_call ch (ref_write_request path (into_inner req)) s with
  | (s', Ret res) => (s', match ref_read_response res with inl st => Err st | inr b => Ret b end)
  | (s', Err e) => (s', Err (ref_status e))
  | (s', Fault) => (s', Fault)
  end.

(** A client with other settings than the default ones behaves like the
    default one here. *)
Definition ref_tonic : Tonic := {|
  ServerGrpc := option Z * option Z; server_new := (None, None);
  apply_compression_config _ _ g := g;
  apply_max_message_size_config dec enc _ := (dec, enc);
  server_unary St A B MA MB := ref_server_unary;
  ClientGrpc T := T; client_new T ch := ch; client_with_origin T ch _ := ch;
  client_send_compressed T _ g := g; client_accept_compressed T _ g := g;
  client_max_decoding_message_size T _ g := g; client_max_encoding_message_size T _ g := g;
  client_ready St T G := svc_ready;
  client_unary St T A B G MA MB := ref_client_unary;
  InterceptedService T F := (T * F)%type; intercepted_new T F t f := (t, f);
|}.
#[local] Existing Instance ref_tonic.

Lemma ref_read_encode `{MessageSpec A} limit (a : A) :
  message_wf a → Z.of_nat (length (encode a)) ≤ limit → ref_read_body limit (encode a) = inr a.
Proof. intros Hw Hl. unfold ref_read_body. by rewrite (proj2 (Z.leb_le _ _)), decode_encode. Qed.

Lemma ref_read_large `{Message A} limit (a : A) :
  limit < Z.of_nat (length (encode a)) → ∃ st, ref_read_body (A:=A) limit (encode a) = inl st.
Proof. intros Hl. unfold ref_read_body. rewrite (proj2 (Z.leb_gt _ _)) by done. by eexists. Qed.

#[export] Instance ref_tonic_spec : @TonicSpec ref_tonic_types ref_tonic.
Proof.
  refine {| write_request A MA := ref_write_request; read_request A MA := ref_read_request;
    write_response B MB := ref_write_response; read_response B MB := ref_read_response;
    transport_status := ref_status |}; try done.
  - intros. by apply ref_read_encode.
  - intros. by apply ref_read_large.
  - intros. by apply ref_read_encode.
  - intros. by apply ref_read_large.
  - intros A B ? ? ? ? path a [c msg]. by destruct c.
  - intros B ? res Hh. unfold ref_read_response. rewrite Hh. by eexists.
Defined.

(** A link to a server that may lose requests or replies. *)
Record link := Link { drop_request : bool; drop_reply : bool }.
