(* ===== verification/GrpcProps.v ===== *)
(** * Properties of the gRPC stubs

    A call through the client stub, a channel and the server stub is a call
    of the service, on every RPC: the two stubs agree on paths, messages and
    errors.  Over a channel that loses requests or replies a call has its
    effect at most once and an answer is the service's own. *)

From stdpp Require Import base list gmap strings pretty.
From S2P Require Import Prelude Common Platform PlatformRef TcpState Ebpf Demo NetUtils Server ServerProps Proto Grpc GrpcRef.

(** ** Channels *)
Section channels.
Context `{TY : TonicTypes, TO : !Tonic} {St T B : Type}.
Context `{GS : !GrpcService St T, BE : !Backends St B}.
Context `{Message PodIp, Message InterfaceIndexConfirmation, Message Targets, Message Vip, Message Confirmation}.

Definition infallible {A} (m : Eff St Empty_set A) : Eff St TransportError A :=
  map_err (λ e : Empty_set, match e with end) m.

(** The channel hands every request to the server and every response back. *)
Definition connected (ch : T) (srv : BackendsServer B) : Prop :=
  (∀ s, svc_ready ch s = (s, Ret tt)) ∧
  (∀ req s, svc_call ch req s = infallible (BackendsServer_call srv req) s).

(** The channel may also fail: before it takes a request, before the request
    reaches the server, or after the server has handled it. *)
Definition delivers (ch : T) (srv : BackendsServer B) : Prop :=
  (∀ s, svc_ready ch s = (s, Ret tt) ∨ ∃ e, svc_ready ch s = (s, Err e)) ∧
  (∀ req s, (∃ e, svc_call ch req s = (s, Err e)) ∨
            (∃ e, svc_call ch req s = ((BackendsServer_call srv req s).1, Err e)) ∨
            svc_call ch req s = infallible (BackendsServer_call srv req) s).

(** The call had no effect and reports an error, or it had the effect of the
    method and reports the result of the method or an error. *)
Definition at_most_once {A R} (method : A → Eff St Status R) (a : A) (s s' : St)
    (o : outcome Status R) : Prop :=
  (s' = s ∧ ∃ st, o = Err st) ∨
  (s' = (method a s).1 ∧ (o = (method a s).2 ∨ ∃ st, o = Err st)).

(** A message a default client or server accepts. *)
Definition small {A} `{Message A} (a : A) : Prop :=
  Z.of_nat (length (encode a)) ≤ decode_limit None.

(** The reply of a method can be sent and read. *)
Definition reply_wf {R} `{Message R} (o : outcome Status R) : Prop := ∀ r, o = Ret r → message_wf r.
Definition reply_small {R} `{Message R} (o : outcome Status R) : Prop := ∀ r, o = Ret r → small r.
End channels.

Section stubs.
Context `{TY : TonicTypes, TO : !Tonic, TS : !TonicSpec} {St T B : Type}.
Context `{GS : !GrpcService St T, BE : !Backends St B}.
Context `{!Message PodIp, !Message InterfaceIndexConfirmation, !Message Targets, !Message Vip, !Message Confirmation}.
Implicit Types s : St.

(** The body of a client method. *)
Definition stub {A R} `{Message A, Message R} (ch : T) (m : GrpcMethod) (path : string) (a : A) :
    Eff St Status R :=
  _ ← map_err not_ready (client_ready (client_new ch));
  client_unary (client_new ch) (MkRequest a [m]) path.

(** Requests on [path] go to [method]. *)
Definition routes {A R} `{Message A, Message R} (srv : BackendsServer B) (path : string)
    (method : A → Eff St Status R) : Prop :=
  ∀ req s, uri_path req = path →
    BackendsServer_call srv req s =
    server_unary (apply_max_message_size_config (max_decoding_message_size srv)
        (max_encoding_message_size srv)
        (apply_compression_config (accept_compression_encodings srv)
          (send_compression_encodings srv) server_new)) method req s.

Lemma routes_get_interface_index srv :
  routes srv "/backends.backends/GetInterfaceIndex" (backends_get_interface_index (server_inner srv)).
Proof. intros req s Hp. unfold BackendsServer_call. by rewrite Hp. Qed.
Lemma routes_update srv :
  routes srv "/backends.backends/Update" (backends_update (server_inner srv)).
Proof. intros req s Hp. unfold BackendsServer_call. by rewrite Hp. Qed.
Lemma routes_delete srv :
  routes srv "/backends.backends/Delete" (backends_delete (server_inner srv)).
Proof. intros req s Hp. unfold BackendsServer_call. by rewrite Hp. Qed.

(** What the server answers to a request of a client stub. *)
Lemma served_request {A R} `{MA : Message A, !MessageSpec A, MR : Message R}
    (srv : BackendsServer B) path (method : A → Eff St Status R) a s :
  routes srv path method → message_wf a →
  let call := BackendsServer_call srv (write_request path a) s in
  let reply := write_response (send_compression_encodings srv) (max_encoding_message_size srv)
                 (write_request path a) in
  if decide (Z.of_nat (length (encode a)) ≤ decode_limit (max_decoding_message_size srv))
  then call = ((method a s).1, match (method a s).2 with
                               | Ret r => Ret (reply (inr r))
                               | Err st => Ret (reply (inl st : Status + R))
                               | Fault => Fault end)
  else ∃ st, call = (s, Ret (reply (inl st : Status + R))).
Proof.
  intros Hr Ha. cbv zeta. rewrite Hr by apply path_write_request. rewrite server_unary_spec.
  case_decide as Hs.
  - rewrite read_write_request by done. by destruct (method a s) as [s' [r|st|]].
  - destruct (read_large_request (accept_compression_encodings srv) (max_decoding_message_size srv)
      path a) as [st ->]; [lia|]. by exists st.
Qed.

Section rpc.
Context `{MA : Message A, !MessageSpec A, MR : Message R, !MessageSpec R}.
Context (srv : BackendsServer B) (ch : T) (m : GrpcMethod) (path : string).
Context (method : A → Eff St Status R).
Hypothesis Hroute : routes srv path method.
Hypothesis Hplain : max_encoding_message_size srv = None.

(** Over a working channel the stub is the method. *)
Lemma stub_transparent a s :
  connected ch srv → message_wf a →
  Z.of_nat (length (encode a)) ≤ decode_limit (max_decoding_message_size srv) →
  reply_wf (method a s).2 → reply_small (method a s).2 →
  stub ch m path a s = method a s.
Proof.
  intros [Hrd Hcall] Ha Hs Hw Hsm. unfold stub, mbind, eff_bind, map_err.
  rewrite client_ready_spec, Hrd, client_unary_spec, Hcall. unfold infallible, map_err. cbn [into_inner].
  pose proof (served_request srv path method a s Hroute Ha) as Hsv. cbv zeta in Hsv.
  rewrite decide_True in Hsv by done. rewrite Hsv, Hplain.
  destruct (method a s) as [s' [r|st|]]; simpl in *; [|by rewrite read_write_status|done].
  by rewrite read_write_response by (by apply Hw || by apply Hsm).
Qed.

(** Over any channel the stub has the effect of the method at most once. *)
Lemma stub_at_most_once a s :
  delivers ch srv → message_wf a → reply_wf (method a s).2 →
  wp (stub ch m path a) (at_most_once method a s) s.
Proof.
  intros [Hrd Hcall] Ha Hw. unfold wp, stub, mbind, eff_bind, map_err. rewrite client_ready_spec.
  destruct (Hrd s) as [ -> |[e ->]]; [|left; simpl; eauto].
  rewrite client_unary_spec. cbn [into_inner].
  pose proof (served_request srv path method a s Hroute Ha) as Hsv. cbv zeta in Hsv.
  destruct (Hcall (write_request path a) s) as [[e ->]|[[e ->]| -> ]]; [left; simpl; eauto|..].
  - case_decide; [rewrite Hsv; right; simpl; eauto|].
    destruct Hsv as [st ->]. left. simpl. eauto.
  - unfold infallible, map_err. case_decide.
    + rewrite Hsv, Hplain. right. unfold reply_wf in Hw.
      destruct (method a s) as [s' [r|st|]]; simpl in *; [..|eauto].
      * destruct (decide (Z.of_nat (length (encode r)) ≤ decode_limit None)).
        -- rewrite read_write_response by (done || by apply Hw). eauto.
        -- destruct (read_large_response (B:=R) (send_compression_encodings srv) path a r)
             as [st ->]; [lia|]. eauto.
      * rewrite read_write_status. eauto.
    + destruct Hsv as [st ->]. left. simpl. rewrite read_write_status. eauto.
Qed.
End rpc.
End stubs.

(** ** The service behind the stubs *)
Section service.
Context `{TY : TonicTypes, TO : !Tonic, TS : !TonicSpec}.
Context `{MP : Maps, AM : !AyaMaps, NL : Netlink} {T : Type} `{GS : !GrpcService kstate T}.
Context `{!Message PodIp, !Message InterfaceIndexConfirmation, !Message Targets, !Message Vip, !Message Confirmation}.
Context `{!MessageSpec PodIp, !MessageSpec InterfaceIndexConfirmation, !MessageSpec Targets, !MessageSpec Vip, !MessageSpec Confirmation}.
Implicit Types s : kstate.

(** The server [start] builds. *)
Abbreviation server := (BackendsServer_new MkBackendService).

(** The methods of the client and the methods their requests reach. *)
Lemma client_update_stub (ch : T) request :
  client_update (BackendsClient_new ch) request =
  stub ch (MkGrpcMethod "backends.backends" "Update") "/backends.backends/Update" request.
Proof. done. Qed.
Lemma client_delete_stub (ch : T) v :
  client_delete (BackendsClient_new ch) v =
  stub ch (MkGrpcMethod "backends.backends" "Delete") "/backends.backends/Delete" v.
Proof. done. Qed.
Lemma client_index_stub (ch : T) p :
  client_get_interface_index (BackendsClient_new ch) p =
  stub ch (MkGrpcMethod "backends.backends" "GetInterfaceIndex")
    "/backends.backends/GetInterfaceIndex" p.
Proof. done. Qed.

Lemma service_routes :
  routes server "/backends.backends/Update" service_update ∧
  routes server "/backends.backends/Delete" service_delete ∧
  routes server "/backends.backends/GetInterfaceIndex" get_interface_index.
Proof.
  split_and!; [exact (routes_update server)|exact (routes_delete server)|
    exact (routes_get_interface_index server)].
Qed.

Lemma grpc_update_run (ch : T) request s :
  connected ch server → message_wf request → small request →
  reply_wf (service_update request s).2 → reply_small (service_update request s).2 →
  client_update (BackendsClient_new ch) request s = service_update request s.
Proof. intros. rewrite client_update_stub. by eapply stub_transparent; [apply service_routes|..]. Qed.

Lemma grpc_delete_run (ch : T) v s :
  connected ch server → message_wf v → small v →
  reply_wf (service_delete v s).2 → reply_small (service_delete v s).2 →
  client_delete (BackendsClient_new ch) v s = service_delete v s.
Proof. intros. rewrite client_delete_stub. by eapply stub_transparent; [apply service_routes|..]. Qed.

(** C11: the stubs are transparent.  Over a channel to the server of the API
    service, each client method leaves the maps and returns the result, value
    or error, that the method of the service does, when the messages are
    within the size limit of 4 MiB. *)
Theorem grpc_transparent (ch : T) (Hc : connected ch server) :
  (∀ request s, message_wf request → small request →
     reply_wf (service_update request s).2 → reply_small (service_update request s).2 →
     client_update (BackendsClient_new ch) request s = service_update request s) ∧
  (∀ v s, message_wf v → small v →
     reply_wf (service_delete v s).2 → reply_small (service_delete v s).2 →
     client_delete (BackendsClient_new ch) v s = service_delete v s) ∧
  (∀ p s, message_wf p → small p →
     reply_wf (get_interface_index p s).2 → reply_small (get_interface_index p s).2 →
     client_get_interface_index (BackendsClient_new ch) p s = get_interface_index p s).
Proof.
  split_and!; intros; [by apply grpc_update_run|by apply grpc_delete_run|].
  rewrite client_index_stub. by eapply stub_transparent; [apply service_routes|..].
Qed.

(** At most once.  Over a channel that may refuse a request, lose it or
    lose the reply, a client method changes the maps as one call of the
    service does or not at all, and a value it returns is the value of that
    call; this holds for requests of any size. *)
Theorem grpc_at_most_once (ch : T) (Hd : delivers ch server) :
  (∀ request s, message_wf request → reply_wf (service_update request s).2 →
     wp (client_update (BackendsClient_new ch) request) (at_most_once service_update request s) s) ∧
  (∀ v s, message_wf v → reply_wf (service_delete v s).2 →
     wp (client_delete (BackendsClient_new ch) v) (at_most_once service_delete v s) s) ∧
  (∀ p s, message_wf p → reply_wf (get_interface_index p s).2 →
     wp (client_get_interface_index (BackendsClient_new ch) p) (at_most_once get_interface_index p s) s).
Proof.
  split_and!; intros; rewrite ?client_update_stub, ?client_delete_stub, ?client_index_stub;
    by eapply stub_at_most_once; [apply service_routes|..].
Qed.

(** Requests the server refuses.  A request on a path that is none of
    the three methods is answered with the status [Unimplemented], and a
    request over the size limit with some status; neither touches the maps. *)
Theorem grpc_refused s :
  (∀ req R (MR : Message R),
     uri_path req ∉ ["/backends.backends/GetInterfaceIndex"; "/backends.backends/Update";
                     "/backends.backends/Delete"] →
     ∃ res msg, BackendsServer_call server req s = (s, Ret res) ∧ http_status res = 200 ∧
       read_response (B:=R) res = inl (MkStatus Unimplemented msg)) ∧
  (∀ (ch : T) request, connected ch server → message_wf request → ¬ small request →
     ∃ st, client_update (BackendsClient_new ch) request s = (s, Err st)).
Proof.
  split.
  - intros req R MR Hp. unfold BackendsServer_call.
    rewrite !not_elem_of_cons in Hp. destruct Hp as (H1 & H2 & H3 & _).
    rewrite !(proj2 (String.eqb_neq _ _)) by done.
    match goal with |- context [mret ?r] =>
      destruct (read_unimplemented (B:=R) r eq_refl) as [msg Hm]; by exists r, msg end.
  - intros ch request [Hrd Hcall] Hw Hbig.
    pose proof (served_request server _ _ request s (proj1 service_routes) Hw) as Hsv.
    cbv zeta in Hsv. rewrite decide_False in Hsv by done. destruct Hsv as [st Hsv]. exists st.
    unfold client_update, mbind, eff_bind, map_err. cbn [client_inner BackendsClient_new].
    rewrite client_ready_spec, Hrd, client_unary_spec, Hcall. unfold infallible, map_err.
    cbn [into_inner]. by rewrite Hsv, read_write_status.
Qed.
End service.

(** ** The service of the demo behind a link *)
#[local] Existing Instance ref_maps.
#[local] Existing Instance ref_user_maps.
#[local] Existing Instance one_route.
#[local] Existing Instance ref_tonic_types.
#[local] Existing Instance ref_tonic.

Definition demo_link : GrpcService kstate link := {|
  svc_ready _ := mret tt;
  svc_call l req :=
    if drop_request l then throw "request lost"
    else if drop_reply l
    then λ s, ((BackendsServer_call (BackendsServer_new MkBackendService) req s).1, Err "reply lost")
    else infallible (BackendsServer_call (BackendsServer_new MkBackendService) req);
|}.
#[local] Existing Instance demo_link.

Lemma demo_link_connected : connected (Link false false) (BackendsServer_new MkBackendService).
Proof. by split. Qed.

Lemma demo_link_delivers l : delivers l (BackendsServer_new MkBackendService).
Proof. split; [by left|]. intros req s. destruct l as [[] []]; simpl; eauto. Qed.

Lemma demo_update_reply :
  (service_update demo_request (demo_state [] 1 ∅)).2 =
  Ret (MkConfirmation "success, vip 10.0.0.1:80 was updated with 2 backends").
Proof. by vm_compute. Qed.

Lemma demo_request_wf : message_wf demo_request.
Proof. split; [by intros v [= <-]|].
  by repeat (constructor; [split; [done|by intros i [= <-]]|]). Qed.

Lemma demo_reply_wf : message_wf (MkConfirmation "success, vip 10.0.0.1:80 was updated with 2 backends").
Proof. split; [|by vm_compute]. apply (bool_decide_unpack _). by vm_compute. Qed.

Lemma grpc_transparent_witness :
  client_update (BackendsClient_new (Link false false)) demo_request (demo_state [] 1 ∅) =
  service_update demo_request (demo_state [] 1 ∅).
Proof.
  apply (proj1 (grpc_transparent (Link false false) demo_link_connected)).
  - apply demo_request_wf.
  - by vm_compute.
  - rewrite demo_update_reply. intros r [= <-]. apply demo_reply_wf.
  - rewrite demo_update_reply. intros r [= <-]. by vm_compute.
Defined.

Lemma grpc_at_most_once_witness :
  wp (client_update (BackendsClient_new (Link false true)) demo_request)
    (at_most_once service_update demo_request (demo_state [] 1 ∅)) (demo_state [] 1 ∅).
Proof.
  apply (proj1 (grpc_at_most_once (Link false true) (demo_link_delivers _))).
  - apply demo_request_wf.
  - rewrite demo_update_reply. intros r [= <-]. apply demo_reply_wf.
Defined.
