(* ===== verification/AddrText.v ===== *)
(** * Addresses as text

    The parts of the Rust standard library's [core::net] that the developer
    tools use: [FromStr] of [Ipv4Addr] and [SocketAddr], and [Display] of
    [SocketAddr].  An IPv4 address is its 32-bit number ([octets] of
    [NetUtils] are its bytes), an IPv6 address the list of its eight groups. *)

From Stdlib Require Import Ascii.
From stdpp Require Import base list gmap strings pretty.
From S2P Require Import Prelude Common NetUtils.

Inductive SocketAddr :=
| V4 (ip port : Z)
| V6 (groups : list Z) (scope_id port : Z).

(** ** The parser

    A parser takes text to a value and the rest of the text; [None] leaves
    the caller with the text it had. *)
Definition parser (A : Type) : Type := string → option (A * string).

(** [char::to_digit] *)
Definition to_digit (radix : Z) (c : Ascii.ascii) : option Z :=
  let n := Z.of_N (Ascii.N_of_ascii c) in
  let d := if (48 <=? n) && (n <=? 57) then n - 48
           else if (97 <=? n) && (n <=? 102) then n - 87
           else if (65 <=? n) && (n <=? 70) then n - 55 else 99 in
  if d <? radix then Some d else None.

(** The longest run of digits: its value, its length and the rest. *)
Fixpoint read_digits (radix : Z) (s : string) (value : Z) (count : nat) : Z * nat * string :=
  match s with
  | String.String c s' =>
      match to_digit radix c with
      | Some d => read_digits radix s' (value * radix + d) (S count)
      | None => (value, count, s)
      end
  | String.EmptyString => (value, count, s)
  end.

(** [peek_char() == Some('0')] *)
Definition leading_zero (s : string) : bool :=
  match s with String.String c _ => Ascii.eqb c "0"%char | String.EmptyString => false end.

(** [read_number]: at most [max_digits] digits, a value of at most [max]. *)
Definition read_number (radix : Z) (max_digits : option nat) (allow_zero_prefix : bool) (max : Z) :
    parser Z := λ s,
  let has_leading_zero := leading_zero s in
  let '(value, count, rest) := read_digits radix s 0 0 in
  if (count =? 0)%nat then None
  else if match max_digits with Some m => (m <? count)%nat | None => false end then None
  else if negb allow_zero_prefix && has_leading_zero && (1 <? count)%nat then None
  else if value <=? max then Some (value, rest) else None.

Definition read_given_char (c : Ascii.ascii) : parser unit := λ s,
  match s with
  | String.String c' s => if Ascii.eqb c' c then Some (tt, s) else None
  | String.EmptyString => None
  end.

(** [read_separator]: the separator stands before every element but the first. *)
Definition read_separator {A} (sep : Ascii.ascii) (index : nat) (p : parser A) : parser A := λ s,
  match index with
  | O => p s
  | S _ => '(_, s) ← read_given_char sep s; p s
  end.

Definition u8_MAX : Z := 255.
Definition u16_MAX : Z := 65535.
Definition u32_MAX : Z := 4294967295.

Definition read_ipv4_addr : parser Z := λ s,
  '(a, s) ← read_separator "."%char 0 (read_number 10 (Some 3%nat) false u8_MAX) s;
  '(b, s) ← read_separator "."%char 1 (read_number 10 (Some 3%nat) false u8_MAX) s;
  '(c, s) ← read_separator "."%char 2 (read_number 10 (Some 3%nat) false u8_MAX) s;
  '(d, s) ← read_separator "."%char 3 (read_number 10 (Some 3%nat) false u8_MAX) s;
  Some (le_value [d; c; b; a], s).

(** [read_groups]: up to [room] more groups after the first [i]; the flag
    says that an IPv4 address ended them. *)
Fixpoint read_groups (i room : nat) (s : string) : list Z * bool * string :=
  match room with
  | O => ([], false, s)
  | S room' =>
      match (if (room' =? 0)%nat then None else read_separator ":"%char i read_ipv4_addr s) with
      | Some (v4, s) => ([v4 / 65536; v4 mod 65536], true, s)
      | None =>
          match read_separator ":"%char i (read_number 16 (Some 4%nat) true u16_MAX) s with
          | Some (g, s) => let '(gs, v4, s) := read_groups (S i) room' s in (g :: gs, v4, s)
          | None => ([], false, s)
          end
      end
  end.

Definition read_ipv6_addr : parser (list Z) := λ s,
  let '(head, head_ipv4, s) := read_groups 0 8 s in
  if (length head =? 8)%nat then Some (head, s)
  else if head_ipv4 then None
  else
    '(_, s) ← read_given_char ":"%char s;
    '(_, s) ← read_given_char ":"%char s;
    let '(tail, _, s) := read_groups 0 (8 - (length head + 1)) s in
    Some (head ++ replicate (8 - length head - length tail) 0 ++ tail, s).

Definition read_port : parser Z := λ s,
  '(_, s) ← read_given_char ":"%char s; read_number 10 None true u16_MAX s.

Definition read_scope_id : parser Z := λ s,
  '(_, s) ← read_given_char "%"%char s; read_number 10 None true u32_MAX s.

Definition read_socket_addr_v4 : parser SocketAddr := λ s,
  '(ip, s) ← read_ipv4_addr s;
  '(port, s) ← read_port s;
  Some (V4 ip port, s).

Definition read_socket_addr_v6 : parser SocketAddr := λ s,
  '(_, s) ← read_given_char "["%char s;
  '(ip, s) ← read_ipv6_addr s;
  let '(scope_id, s) := match read_scope_id s with Some r => r | None => (0, s) end in
  '(_, s) ← read_given_char "]"%char s;
  '(port, s) ← read_port s;
  Some (V6 ip scope_id port, s).

(** [parse_with]: the parser must use the whole text. *)
Definition parse_with {A} (p : parser A) (s : string) : option A :=
  match p s with Some (a, String.EmptyString) => Some a | _ => None end.

Definition Ipv4Addr_from_str (s : string) : option Z :=
  if (15 <? String.length s)%nat then None else parse_with read_ipv4_addr s.

Definition SocketAddr_from_str (s : string) : option SocketAddr :=
  parse_with (λ s, match read_socket_addr_v4 s with Some r => Some r | None => read_socket_addr_v6 s end) s.

(** ** Display *)
Definition hex_digit (d : Z) : string :=
  match String.get (Z.to_nat d) "0123456789abcdef" with
  | Some c => String.String c String.EmptyString | None => "" end.

(** [{:x}] of a [u16]. *)
Definition hex (g : Z) : string :=
  (if 4096 <=? g then hex_digit (g / 4096) else "") +:+
  (if 256 <=? g then hex_digit (g / 256 mod 16) else "") +:+
  (if 16 <=? g then hex_digit (g / 16 mod 16) else "") +:+ hex_digit (g mod 16).

Definition fmt_subslice (gs : list Z) : string := String.concat ":" (hex <$> gs).

(** The first longest run of zero groups, as its start and length. *)
Fixpoint longest_zeros (i : nat) (gs : list Z) (longest current : nat * nat) : nat * nat :=
  match gs with
  | [] => longest
  | g :: gs =>
      if g =? 0 then
        let current := ((if (current.2 =? 0)%nat then i else current.1), S current.2) in
        longest_zeros (S i) gs (if (longest.2 <? current.2)%nat then current else longest) current
      else longest_zeros (S i) gs longest (0%nat, 0%nat)
  end.

Definition Ipv6Addr_to_string (gs : list Z) : string :=
  match gs with
  | [0; 0; 0; 0; 0; 65535; hi; lo] => "::ffff:" +:+ Ipv4Addr_to_string (hi * 65536 + lo)
  | _ =>
      let '(start, len) := longest_zeros 0 gs (0%nat, 0%nat) (0%nat, 0%nat) in
      if (1 <? len)%nat
      then fmt_subslice (take start gs) +:+ "::" +:+ fmt_subslice (drop (start + len) gs)
      else fmt_subslice gs
  end.

Definition SocketAddr_to_string (a : SocketAddr) : string :=
  match a with
  | V4 ip port => Ipv4Addr_to_string ip +:+ ":" +:+ pretty port
  | V6 gs scope_id port =>
      "[" +:+ Ipv6Addr_to_string gs +:+
      (if scope_id =? 0 then "" else "%" +:+ pretty scope_id) +:+ "]:" +:+ pretty port
  end.

Example parse_v6 :
  SocketAddr_from_str "[2001:db8::1:192.0.2.33%7]:9874" =
    Some (V6 [0x2001; 0xdb8; 0; 0; 0; 1; 0xC000; 0x221] 7 9874).
Proof. by vm_compute. Qed.
Example show_v6 :
  SocketAddr_to_string (V6 [0x2001; 0xdb8; 0; 0; 0; 1; 0xC000; 0x221] 7 9874) =
    "[2001:db8::1:c000:221%7]:9874".
Proof. by vm_compute. Qed.
Example parse_bad :
  SocketAddr_from_str "127.0.0.01:80" = None ∧ SocketAddr_from_str "localhost:80" = None ∧
  SocketAddr_from_str "127.0.0.1:65536" = None ∧ Ipv4Addr_from_str "256.0.0.1" = None.
Proof. by vm_compute. Qed.

(** ** Reading back what is printed *)
Lemma string_app_assoc (s t u : string) : (s +:+ t) +:+ u = s +:+ t +:+ u.
Proof. induction s as [|c s IH]; [done|]. exact (f_equal (String.String c) IH). Qed.
Lemma string_app_nil_r (s : string) : s +:+ "" = s.
Proof. induction s as [|c s IH]; [done|]. exact (f_equal (String.String c) IH). Qed.
Lemma string_length_app (s t : string) :
  String.length (s +:+ t) = (String.length s + String.length t)%nat.
Proof. induction s as [|c s IH]; [done|]. exact (f_equal S IH). Qed.

Definition starts_with_digit (radix : Z) (s : string) : bool :=
  match s with String.String c _ => bool_decide (is_Some (to_digit radix c)) | _ => false end.

Lemma read_digits_app radix s rest value count v n :
  read_digits radix s value count = (v, n, "") → starts_with_digit radix rest = false →
  read_digits radix (s +:+ rest) value count = (v, n, rest).
Proof.
  intros Hs Hr. revert value count Hs. induction s as [|c s IH]; simpl; intros value count Hs.
  - simplify_eq. destruct rest as [|c rest]; [done|]. simpl in *.
    apply bool_decide_eq_false in Hr. destruct (to_digit radix c); [|done]. by destruct Hr.
  - destruct (to_digit radix c); [by apply IH|done].
Qed.

(** What the parser needs to know about a printed octet. *)
Definition octet_text_ok (a : Z) : bool :=
  let s : string := pretty a in
  bool_decide (read_digits 10 s 0 0 = (a, String.length s, "")) &&
  (0 <? String.length s)%nat && (String.length s <=? 3)%nat &&
  negb (leading_zero s && (1 <? String.length s)%nat).

Lemma octet_text a : fits 8 a → octet_text_ok a = true.
Proof.
  intros [Ha1 Ha2]. assert (forallb octet_text_ok (seqZ 0 256) = true) as H by (by vm_compute).
  rewrite forallb_forall in H. apply H. apply list_elem_of_In, elem_of_seqZ. lia.
Qed.

Lemma octet_length a : fits 8 a → (String.length (pretty a) ≤ 3)%nat.
Proof.
  intros Ha%octet_text. unfold octet_text_ok in Ha. rewrite !andb_true_iff in Ha.
  apply Nat.leb_le. tauto.
Qed.

Lemma read_octet a rest :
  fits 8 a → starts_with_digit 10 rest = false →
  read_number 10 (Some 3%nat) false u8_MAX (pretty a +:+ rest) = Some (a, rest).
Proof.
  intros Ha Hr. pose proof (octet_text a Ha) as Ht. unfold octet_text_ok in Ht.
  rewrite !andb_true_iff, bool_decide_eq_true, Nat.ltb_lt, Nat.leb_le, negb_true_iff in Ht.
  destruct Ht as (((Hd & Hn) & Hm) & Hz). unfold read_number.
  rewrite (read_digits_app _ _ _ _ _ _ _ Hd Hr).
  rewrite (proj2 (Nat.eqb_neq _ _)), (proj2 (Nat.ltb_ge _ _)) by lia.
  assert (leading_zero (pretty a +:+ rest) = leading_zero (pretty a)) as ->.
  { destruct (pretty a); [simpl in Hn; lia|done]. }
  cbn [negb andb]. rewrite Hz.
  rewrite (proj2 (Z.leb_le _ _)); [done|]. unfold fits, u8_MAX in *. lia.
Qed.

Lemma read_first_octet a rest :
  fits 8 a → starts_with_digit 10 rest = false →
  read_separator "."%char 0 (read_number 10 (Some 3%nat) false u8_MAX) (pretty a +:+ rest) =
  Some (a, rest).
Proof. apply read_octet. Qed.

Lemma read_dot_octet i a rest :
  i ≠ O → fits 8 a → starts_with_digit 10 rest = false →
  read_separator "."%char i (read_number 10 (Some 3%nat) false u8_MAX) ("." +:+ pretty a +:+ rest) =
  Some (a, rest).
Proof. destruct i; [done|]. intros _ Ha Hr. simpl. by apply read_octet. Qed.

(** The four octets of an address. *)
Lemma octets_cases ip :
  fits 32 ip → ∃ a b c d, octets ip = [a; b; c; d] ∧ le_value [d; c; b; a] = ip ∧
    fits 8 a ∧ fits 8 b ∧ fits 8 c ∧ fits 8 d.
Proof.
  intros Hip. unfold octets. pose proof (le_bytes_byte 4 ip) as Hb.
  pose proof (le_value_bytes 4 ip) as Hv. rewrite Z.mod_small in Hv by exact Hip.
  pose proof (length_le_bytes 4 ip) as Hl.
  destruct (le_bytes 4 ip) as [|d [|c [|b [|a []]]]]; try done.
  unfold byte_list in Hb. rewrite !Forall_cons in Hb.
  destruct Hb as (? & ? & ? & ? & _). by exists a, b, c, d.
Qed.

Lemma read_ipv4_to_string ip rest :
  fits 32 ip → starts_with_digit 10 rest = false →
  read_ipv4_addr (Ipv4Addr_to_string ip +:+ rest) = Some (ip, rest).
Proof.
  intros Hip Hr. destruct (octets_cases ip Hip) as (a & b & c & d & Ho & Hv & Ha & Hb & Hc & Hd).
  unfold read_ipv4_addr, Ipv4Addr_to_string. rewrite Ho.
  rewrite !string_app_assoc, read_first_octet by done. cbn [mbind option_bind].
  do 3 (rewrite read_dot_octet by done; cbn [mbind option_bind]). by rewrite Hv.
Qed.

(** Printing and parsing an IPv4 address gives it back. *)
Theorem ipv4_text_roundtrip ip : fits 32 ip → Ipv4Addr_from_str (Ipv4Addr_to_string ip) = Some ip.
Proof.
  intros Hip. unfold Ipv4Addr_from_str, parse_with.
  pose proof (read_ipv4_to_string ip "" Hip eq_refl) as Hr.
  rewrite string_app_nil_r in Hr. rewrite Hr.
  rewrite (proj2 (Nat.ltb_ge _ _)); [done|].
  destruct (octets_cases ip Hip) as (a & b & c & d & Ho & _ & Ha & Hb & Hc & Hd).
  unfold Ipv4Addr_to_string. rewrite Ho. rewrite !string_length_app. simpl.
  pose proof (octet_length a Ha). pose proof (octet_length b Hb).
  pose proof (octet_length c Hc). pose proof (octet_length d Hd). lia.
Qed.
