(* ===== verification/ClientTool.v ===== *)
(** * The gRPC client of the developer tools

    Models [update] of [src/xtask/src/grpc.rs], which configures one backend
    of a Gateway or deletes the Gateway, over the client stub.  The result
    carries the lines the function prints. *)

From stdpp Require Import base list gmap strings pretty.
From S2P Require Import Prelude Common Platform PlatformRef TcpState Ebpf Demo NetUtils Server ServerProps Proto Grpc GrpcRef GrpcProps AddrText.

(** [Options], with the defaults of its attributes. *)
Record GrpcOptions := MkGrpcOptions {
  server_ip : string;
  server_port : Z;
  opt_vip_ip : string;
  opt_vip_port : Z;
  daddr : string;
  dport : Z;
  ifindex : Z;
  delete : bool;
}.
Definition GrpcOptions_default : GrpcOptions :=
  MkGrpcOptions "127.0.0.1" 9874 "127.0.0.1" 8080 "127.0.0.1" 8080 0 false.

(** The errors [?] turns into an [anyhow::Error]. *)
Inductive ToolError `{TonicTypes} :=
| AddrParseError
| ConnectError (e : TransportError)
| RpcError (st : Status).

(** [s.parse()?] *)
Definition parse_or {S} `{TonicTypes} {A} (o : option A) : Eff S ToolError A :=
  ok_or o AddrParseError.

Section tool.
Context `{TY : TonicTypes, TO : !Tonic} {St : Type} `{TR : !Transport St}.
Context `{Message PodIp, Message InterfaceIndexConfirmation, Message Targets, Message Vip, Message Confirmation}.

Definition grpc_update (opts : GrpcOptions) : Eff St ToolError (list string) :=
  server_addr ← parse_or (SocketAddr_from_str (server_ip opts +:+ ":" +:+ pretty (server_port opts)));
  client ← map_err ConnectError
    (BackendsClient_connect ("http://" +:+ SocketAddr_to_string server_addr));
  addr ← parse_or (Ipv4Addr_from_str (opt_vip_ip opts));
  daddr ← parse_or (Ipv4Addr_from_str (daddr opts));
  let vip := MkVip addr (opt_vip_port opts) in
  if delete opts then
    res ← map_err RpcError (client_delete client vip);
    mret ["grpc server responded to DELETE: " +:+ confirmation res]
  else
    res ← map_err RpcError (client_update client
      (MkTargets (Some vip) [MkTarget daddr (dport opts) (Some (ifindex opts))]));
    mret ["grpc server responded to UPDATE: " +:+ confirmation res].
End tool.

Section props.
Context `{TY : TonicTypes, TO : !Tonic, TS : !TonicSpec}.
Context `{MP : Maps, AM : !AyaMaps, AMS : !AyaMapsSpec, NL : Netlink, NLS : !NetlinkSpec}.
Context `{TR : !Transport kstate}.
Context `{!Message PodIp, !Message InterfaceIndexConfirmation, !Message Targets, !Message Vip, !Message Confirmation}.
Context `{!MessageSpec PodIp, !MessageSpec InterfaceIndexConfirmation, !MessageSpec Targets, !MessageSpec Vip, !MessageSpec Confirmation}.
Implicit Types s : kstate.

(** The address of the options leads to the API server over channel [ch]. *)
Definition reaches (opts : GrpcOptions) (ch : Channel) s : Prop :=
  ∃ a ep,
    SocketAddr_from_str (server_ip opts +:+ ":" +:+ pretty (server_port opts)) = Some a ∧
    endpoint_new ("http://" +:+ SocketAddr_to_string a) = Ret ep ∧
    endpoint_connect ep s = (s, Ret ch) ∧
    connected ch (BackendsServer_new MkBackendService).

(** The messages of an RPC and its reply pass the stubs. *)
Definition passes {A} `{Message A} (method : A → Eff kstate Status Confirmation) (a : A) s : Prop :=
  message_wf a ∧ small a ∧ reply_wf (method a s).2 ∧ reply_small (method a s).2.

(** The request the tool sends. *)
Definition tool_request (opts : GrpcOptions) (vip_ip target_ip : Z) : Targets :=
  MkTargets (Some (MkVip vip_ip (opt_vip_port opts)))
    [MkTarget target_ip (dport opts) (Some (ifindex opts))].

Lemma reached_run opts ch s k (Q : kstate → outcome ToolError (list string) → Prop) :
  reaches opts ch s → wp (k (BackendsClient_new ch)) Q s →
  wp (server_addr ← parse_or (SocketAddr_from_str (server_ip opts +:+ ":" +:+ pretty (server_port opts)));
      client ← map_err ConnectError
        (BackendsClient_connect ("http://" +:+ SocketAddr_to_string server_addr));
      k client) Q s.
Proof.
  intros (a & ep & Ha & He & Hc & _) Hk. unfold parse_or. wp_step. rewrite Ha. wp_step. wp_step. unfold wp at 1.
  unfold map_err, BackendsClient_connect, mbind, eff_bind. by rewrite He, Hc.
Qed.

Lemma wp_map_err {E E' A} (f : E → E') (m : Eff kstate E A) (Q : kstate → outcome E' A → Prop) s :
  wp m (λ s' o, match o with
                | Ret a => Q s' (Ret a)
                | Err e => Q s' (Err (f e))
                | Fault => Q s' Fault end) s → wp (map_err f m) Q s.
Proof. unfold wp, map_err. by destruct (m s) as [s' [a|e|]]. Qed.

Lemma wp_eq {E A} (m : Eff kstate E A) s r : wp m (λ s' o, (s', o) = r) s → m s = r.
Proof. unfold wp. by destruct (m s). Qed.

(** C35: the tool installs one backend.  When the address leads to the API
    server and the two IPv4 addresses parse, a run without [--delete] leaves
    exactly the one backend of the options for the Gateway (its interface index cut to
    16 bits, with no route lookup), restarts its rotation, keeps the other
    Gateways and prints the confirmation. *)
Theorem tool_installs_backend opts ch vip_ip target_ip s
    (Hr : reaches opts ch s) (Hdel : delete opts = false)
    (Hv : Ipv4Addr_from_str (opt_vip_ip opts) = Some vip_ip)
    (Ht : Ipv4Addr_from_str (daddr opts) = Some target_ip)
    (Hp : passes service_update (tool_request opts vip_ip target_ip) s)
    (Hroom : update_room (MkBackendKey vip_ip (opt_vip_port opts)) s) :
  wp (grpc_update opts) (λ s' o,
    let key := MkBackendKey vip_ip (opt_vip_port opts) in
    (∃ msg, o = Ret ["grpc server responded to UPDATE: success, vip " +:+ msg]) ∧
    bpf_get (BACKENDS s') key =
      Some (backend_list_of [MkBackend target_ip (dport opts) (as_u16 (ifindex opts))]) ∧
    bpf_get (GATEWAY_INDEXES s') key = Some 0 ∧
    (∀ k', k' ≠ key → bpf_get (BACKENDS s') k' = bpf_get (BACKENDS s) k' ∧
                      bpf_get (GATEWAY_INDEXES s') k' = bpf_get (GATEWAY_INDEXES s) k') ∧
    LB_CONNECTIONS s' = LB_CONNECTIONS s) s.
Proof.
  unfold grpc_update. apply (reached_run opts ch); [done|]. destruct Hr as (_ & _ & _ & _ & _ & Hc).
  unfold parse_or. wp_step. rewrite Hv. wp_step. wp_step. rewrite Ht, Hdel. wp_step. wp_step. apply wp_map_err.
  destruct Hp as (Hw & Hsm & Hrw & Hrs). fold (tool_request opts vip_ip target_ip).
  unfold wp at 1. rewrite (grpc_update_run ch _ s) by done.
  fold (wp (service_update (tool_request opts vip_ip target_ip))). apply wp_service_update; simpl.
  - done.
  - intros v msg _ Hm. done.
  - intros v bs msg _ _ Hlen. unfold BACKENDS_ARRAY_CAPACITY in Hlen. lia.
  - intros v bs [= <-] [= <-] _. split_and!; [|by intros ?? Hn|by intros ??? Hn].
    intros mb mi Hb Hi. wp_step. split_and!; simpl.
    + eexists. reflexivity.
    + by rewrite Hb, decide_True.
    + by rewrite Hi, decide_True.
    + intros k' Hk. by rewrite Hb, Hi, !decide_False.
    + done.
Qed.

(** Bad input is reported before anything is sent.  A server address
    that does not parse is an error before a connection is made; an IPv4
    address that does not parse (also one that [--delete] would not use) is
    an error after the connection and before any RPC, so the maps are as they were. *)
Theorem tool_bad_input opts s :
  (SocketAddr_from_str (server_ip opts +:+ ":" +:+ pretty (server_port opts)) = None →
   grpc_update opts s = (s, Err AddrParseError)) ∧
  (∀ ch, reaches opts ch s →
   Ipv4Addr_from_str (opt_vip_ip opts) = None ∨ Ipv4Addr_from_str (daddr opts) = None →
   grpc_update opts s = (s, Err AddrParseError)).
Proof.
  split.
  - intros Ha. unfold grpc_update, parse_or. by rewrite Ha.
  - intros ch Hr Hbad. apply wp_eq. unfold grpc_update. apply (reached_run opts ch); [done|].
    unfold parse_or. wp_step. wp_step. destruct (Ipv4Addr_from_str (opt_vip_ip opts)) as [v|]; [|done].
    wp_step. wp_step. destruct Hbad as [?|Hd]; [done|]. by rewrite Hd.
Qed.
End props.

(** ** A run against the demo service *)
#[local] Existing Instance ref_maps.
#[local] Existing Instance ref_user_maps.
#[local] Existing Instance one_route.
#[local] Existing Instance ref_tonic_types.
#[local] Existing Instance ref_tonic.
#[local] Existing Instance demo_link.

Definition demo_transport : Transport kstate := {|
  Endpoint := string; Channel := link;
  endpoint_new dst := Ret dst;
  endpoint_connect ep :=
    if String.eqb ep "http://127.0.0.1:9874" then mret (Link false false) else throw "refused";
|}.
#[local] Existing Instance demo_transport.

Definition demo_options : GrpcOptions :=
  MkGrpcOptions "127.0.0.1" 9874 "10.0.0.1" 80 "10.1.0.1" 8080 3 false.

Lemma demo_reaches s : reaches (TR:=demo_transport) demo_options (Link false false) s.
Proof.
  exists (V4 0x7F000001 9874), "http://127.0.0.1:9874".
  split_and!; [by vm_compute|by vm_compute|done|exact demo_link_connected].
Qed.

Lemma tool_installs_backend_witness :
  wp (grpc_update demo_options) (λ s' o,
    bpf_get (BACKENDS s') demo_vip = Some (backend_list_of [demo_b0])) (demo_state [] 1 ∅).
Proof.
  eapply wp_mono.
  - apply (tool_installs_backend (TR:=demo_transport) demo_options (Link false false) 0x0A000001 0x0A010001
      (demo_state [] 1 ∅)); [apply demo_reaches|done|by vm_compute|by vm_compute| |].
    + assert ((service_update (tool_request demo_options 0x0A000001 0x0A010001) (demo_state [] 1 ∅)).2 =
        Ret (MkConfirmation "success, vip 10.0.0.1:80 was updated with 1 backends")) as Hrep
        by (by vm_compute).
      split_and!; [|by vm_compute|rewrite Hrep; intros r [= <-]|rewrite Hrep; intros r [= <-]].
      * split; [by intros v [= <-]|]. by repeat (constructor; [split; [done|by intros i [= <-]]|]).
      * split; [|by vm_compute]. apply (bool_decide_unpack _). by vm_compute.
      * by vm_compute.
    + by split; [intros bl|]; vm_compute.
  - intros s' o (_ & Hb & _). exact Hb.
Defined.
