(* ===== verification/Startup.v ===== *)
(** * Start of the API server

    Models [src/dataplane/api-server/src/lib.rs] ([start], [setup_tls]) and
    the types of [config.rs].  The process serves the health service in plain
    text on one port and the backends service, with TLS if it is configured,
    on another.  [tonic]'s transport is the class [TonicServer]; the state
    records what the process was asked to serve and where. *)

From stdpp Require Import base list gmap strings pretty.
From S2P Require Import Prelude Common NetUtils Server Proto Grpc GrpcRef.

(** ** [config.rs] *)
Abbreviation PathBuf := string (only parsing).

Record ServerOnlyTLSConfig := MkServerOnlyTLSConfig {
  so_server_certificate_path : PathBuf;
  so_server_private_key_path : PathBuf;
}.
Record MutualTLSConfig := MkMutualTLSConfig {
  m_server_certificate_path : PathBuf;
  m_server_private_key_path : PathBuf;
  m_client_certificate_authority_root_path : PathBuf;
}.
Inductive TLSConfig :=
| TLS (config : ServerOnlyTLSConfig)
| MutualTLS (config : MutualTLSConfig).

(** ** [tonic::transport::server] *)
Class TonicServer `{TonicTypes} := {
  ServerBuilder : Type;                (* [tonic::transport::Server] *)
  ServerTlsConfig : Type;
  Identity : Type;
  Certificate : Type;
  server_builder : ServerBuilder;
  tls_new : ServerTlsConfig;
  identity_from_pem : string → string → Identity;
  certificate_from_pem : string → Certificate;
  tls_identity : Identity → ServerTlsConfig → ServerTlsConfig;
  tls_client_ca_root : Certificate → ServerTlsConfig → ServerTlsConfig;
  builder_tls_config : ServerTlsConfig → ServerBuilder → outcome TransportError ServerBuilder;
}.

(** What a builder and a TLS configuration contain, and how the operations
    change it. *)
Class TonicServerSpec `{TonicServer} := {
  identity_of : ServerTlsConfig → option Identity;
  client_ca_of : ServerTlsConfig → option Certificate;
  tls_of : ServerBuilder → option ServerTlsConfig;
  tls_new_spec : identity_of tls_new = None ∧ client_ca_of tls_new = None;
  tls_identity_spec i t :
    identity_of (tls_identity i t) = Some i ∧ client_ca_of (tls_identity i t) = client_ca_of t;
  tls_client_ca_spec c t :
    client_ca_of (tls_client_ca_root c t) = Some c ∧
    identity_of (tls_client_ca_root c t) = identity_of t;
  server_builder_spec : tls_of server_builder = None;
  builder_tls_spec t b b' : builder_tls_config t b = Ret b' → tls_of b' = Some t;
  builder_tls_no_fault t b : builder_tls_config t b ≠ Fault;
}.

(** Reading a file: its text, or an error. *)
Class FileSystem := {
  IoError : Type;
  read_to_string : PathBuf → IoError + string;
}.

Inductive StartError `{TonicTypes, FileSystem} :=
| ReadFailed (what : string) (path : PathBuf) (e : IoError)
| TlsRejected (e : TransportError).

(** ** [setup_tls] *)
Section setup_tls.
Context `{TY : TonicTypes, SV : !TonicServer, FS : FileSystem} {S : Type}.

(** [fs::read_to_string(path).with_context(..)?] *)
Definition read_file (what : string) (path : PathBuf) : Eff S StartError string :=
  match read_to_string path with
  | inr text => mret text
  | inl e => throw (ReadFailed what path e)
  end.

Definition tls_config (tls : ServerTlsConfig) (builder : ServerBuilder) : Eff S StartError ServerBuilder :=
  match builder_tls_config tls builder with
  | Ret builder => mret builder
  | Err e => throw (TlsRejected e)
  | Fault => fault
  end.

Definition setup_tls (builder : ServerBuilder) (tls_cfg : option TLSConfig) :
    Eff S StartError ServerBuilder :=
  match tls_cfg with
  | Some (TLS config) =>
      let tls := tls_new in
      cert ← read_file "certificate" (so_server_certificate_path config);
      key ← read_file "key" (so_server_private_key_path config);
      let server_identity := identity_from_pem cert key in
      let tls := tls_identity server_identity tls in
      builder ← tls_config tls builder;
      mret builder
  | Some (MutualTLS config) =>
      let tls := tls_new in
      cert ← read_file "certificate" (m_server_certificate_path config);
      key ← read_file "key" (m_server_private_key_path config);
      let server_identity := identity_from_pem cert key in
      let tls := tls_identity server_identity tls in
      client_ca_cert ← read_file "client CA" (m_client_certificate_authority_root_path config);
      let client_ca_root := certificate_from_pem client_ca_cert in
      let tls := tls_client_ca_root client_ca_root tls in
      builder ← tls_config tls builder;
      mret builder
  | None => mret builder
  end.
End setup_tls.

(** ** [start] *)

(** [BackendService::new]: the three maps the service works on. *)
Record ServiceMaps (H : Type) := MkServiceMaps {
  backends_handle : H;
  gateway_indexes_handle : H;
  tcp_conns_handle : H;
}.
Arguments MkServiceMaps {H} _ _ _.
Arguments backends_handle {H} _.
Arguments gateway_indexes_handle {H} _.
Arguments tcp_conns_handle {H} _.

Inductive Service `{TonicTypes} (H : Type) :=
| HealthService
| BackendsService (s : BackendsServer (ServiceMaps H)).
Arguments HealthService {_ _}.
Arguments BackendsService {_ _} _.

(** A request to serve: the address, the port, the service and the builder
    it was added to. *)
Record Listener `{TonicServer} (H : Type) := MkListener {
  l_addr : Z;
  l_port : Z;
  l_service : Service H;
  l_builder : ServerBuilder;
}.
Arguments MkListener {_ _ _} _ _ _ _.
Arguments l_addr {_ _ _} _.
Arguments l_port {_ _ _} _.
Arguments l_service {_ _ _} _.
Arguments l_builder {_ _ _} _.

(** How long a task has run: a server that is up keeps running. *)
Inductive life := Running | Finished.

(** The port cannot be bound, or the server comes up and then [serve] never
    returns ([Ret Running]), returns after a shutdown, or with an error. *)
Inductive serving `{TonicTypes} :=
| BindFailed (e : TransportError)
| Served (o : outcome TransportError life).

Section start.
Context `{TY : TonicTypes, SV : !TonicServer, FS : FileSystem} {H : Type}.

(** How serving goes, and whether the build has overflow checks: a debug build
    does, the release build of [Containerfile.dataplane] does not. *)
Context (serve_result : Listener H → serving) (overflow_checks : bool).

(** The listeners that came up and the result of a task; a task that panics is a [Fault]. *)
Definition serve (l : Listener H) : Eff (list (Listener H)) TransportError life := λ ls,
  match serve_result l with
  | BindFailed e => (ls, Err e)
  | Served o => (ls ++ [l], o)
  end.

(** [r.unwrap()] *)
Definition unwrap {S E E' A} (m : Eff S E A) : Eff S E' A := λ s,
  match m s with (s', Ret a) => (s', Ret a) | (s', _) => (s', Fault) end.

(** [port + 1] on [u16]: out of range it panics or wraps around. *)
Definition u16_add {S E} (a b : Z) : Eff S E Z :=
  if a + b <? 65536 then mret (a + b)
  else if overflow_checks then fault else mret (as_u16 (a + b)).

Definition health_task (addr port : Z) : Eff (list (Listener H)) Empty_set life :=
  health_port ← u16_add port 1;
  unwrap (serve (MkListener addr health_port HealthService server_builder)).

Definition backends_task (addr port : Z) (maps : ServiceMaps H) (tls_cfg : option TLSConfig) :
    Eff (list (Listener H)) Empty_set life :=
  builder ← unwrap (setup_tls server_builder tls_cfg);
  unwrap (serve (MkListener addr port (BackendsService (BackendsServer_new maps)) builder)).

(** [tokio::try_join!]: an error as soon as one task has panicked, the end
    when both have ended.  The tasks are spawned on the runtime's threads;
    [health_first] says which one gets to its listener first. *)
Inductive JoinError := Panicked.
Definition try_join (a b : outcome Empty_set life) : outcome JoinError life :=
  match a, b with
  | Fault, _ | _, Fault => Err Panicked
  | Ret Finished, Ret Finished => Ret Finished
  | _, _ => Ret Running
  end.

Definition start (health_first : bool) (addr port : Z) (maps : ServiceMaps H)
    (tls_cfg : option TLSConfig) : Eff (list (Listener H)) JoinError life := λ ls,
  if health_first then
    let '(ls, h) := health_task addr port ls in
    let '(ls, b) := backends_task addr port maps tls_cfg ls in
    (ls, try_join h b)
  else
    let '(ls, b) := backends_task addr port maps tls_cfg ls in
    let '(ls, h) := health_task addr port ls in
    (ls, try_join h b).
End start.

(** ** Specification *)
Section spec.
Context `{TY : TonicTypes, SV : !TonicServer, SVS : !TonicServerSpec, FS : FileSystem} {H : Type}.
Implicit Types cfg : option TLSConfig.

(** The files of a configuration, in the order they are read. *)
Definition tls_files cfg : list (string * PathBuf) :=
  match cfg with
  | None => []
  | Some (TLS c) =>
      [("certificate", so_server_certificate_path c); ("key", so_server_private_key_path c)]
  | Some (MutualTLS c) =>
      [("certificate", m_server_certificate_path c); ("key", m_server_private_key_path c);
       ("client CA", m_client_certificate_authority_root_path c)]
  end.

Fixpoint first_unreadable (files : list (string * PathBuf)) : option StartError :=
  match files with
  | [] => None
  | (what, path) :: files =>
      match read_to_string path with
      | inl e => Some (ReadFailed what path e)
      | inr _ => first_unreadable files
      end
  end.

(** The server proves its identity with the certificate and the key of the
    configuration, and asks clients for one of the configured CA. *)
Definition identity_is (cert key : PathBuf) (t : ServerTlsConfig) : Prop :=
  ∃ c k, read_to_string cert = inr c ∧ read_to_string key = inr k ∧
    identity_of t = Some (identity_from_pem c k).

Definition tls_matches cfg (b : ServerBuilder) : Prop :=
  match cfg with
  | None => tls_of b = None
  | Some (TLS c) => ∃ t, tls_of b = Some t ∧
      identity_is (so_server_certificate_path c) (so_server_private_key_path c) t ∧
      client_ca_of t = None
  | Some (MutualTLS c) => ∃ t ca, tls_of b = Some t ∧
      identity_is (m_server_certificate_path c) (m_server_private_key_path c) t ∧
      read_to_string (m_client_certificate_authority_root_path c) = inr ca ∧
      client_ca_of t = Some (certificate_from_pem ca)
  end.

(** One file read of [setup_tls]. *)
Lemma wp_read_file {S} what path (k : string → Eff S StartError ServerBuilder) files
    (Q : S → outcome StartError ServerBuilder → Prop) s :
  (∀ e, first_unreadable ((what, path) :: files) = Some e → Q s (Err e)) →
  (∀ text, read_to_string path = inr text →
     first_unreadable ((what, path) :: files) = first_unreadable files → wp (k text) Q s) →
  wp (text ← read_file what path; k text) Q s.
Proof.
  intros HE HO. wp_step. unfold read_file. cbn [first_unreadable] in *.
  destruct (read_to_string path) as [e|text]; wp_step; [by apply HE|by apply HO].
Qed.

(** [setup_tls] changes nothing else, reports the first file it cannot read,
    and otherwise returns a builder with the configured security unless
    [tonic] rejects it. *)
Lemma wp_setup_tls {S} cfg (Q : S → outcome StartError ServerBuilder → Prop) s :
  (∀ e, first_unreadable (tls_files cfg) = Some e → Q s (Err e)) →
  (∀ e, first_unreadable (tls_files cfg) = None → cfg ≠ None → Q s (Err (TlsRejected e))) →
  (∀ b, first_unreadable (tls_files cfg) = None → tls_matches cfg b → Q s (Ret b)) →
  wp (setup_tls server_builder cfg) Q s.
Proof.
  intros HE HT HO.
  assert (∀ t, first_unreadable (tls_files cfg) = None → cfg ≠ None →
    (∀ b, tls_of b = Some t → tls_matches cfg b) →
    wp (builder ← tls_config t server_builder; mret builder) Q s) as Hlast.
  { intros t Hf Hc Hm. wp_step. unfold tls_config. pose proof (builder_tls_no_fault t server_builder).
    destruct (builder_tls_config t server_builder) as [b|e|] eqn:Hb; [|by wp_step; apply HT|done].
    wp_step. wp_step. apply HO, Hm; [done|]. by eapply builder_tls_spec. }
  unfold setup_tls. destruct cfg as [[c|c]|].
  - apply (wp_read_file _ _ _ [("key", so_server_private_key_path c)]); [done|]. intros cert Hc Hf1.
    apply (wp_read_file _ _ _ []); [intros e He; apply HE; cbn [tls_files]; by rewrite Hf1|].
    intros key Hk Hf2. apply Hlast; [cbn [tls_files]; by rewrite Hf1, Hf2|done|].
    intros b Hb. eexists. split; [exact Hb|].
    destruct (tls_identity_spec (identity_from_pem cert key) tls_new) as [Hi ->].
    split; [by exists cert, key|apply tls_new_spec].
  - apply (wp_read_file _ _ _ [("key", m_server_private_key_path c);
      ("client CA", m_client_certificate_authority_root_path c)]); [done|]. intros cert Hc Hf1.
    apply (wp_read_file _ _ _ [("client CA", m_client_certificate_authority_root_path c)]);
      [intros e He; apply HE; cbn [tls_files]; by rewrite Hf1|]. intros key Hk Hf2.
    apply (wp_read_file _ _ _ []); [intros e He; apply HE; cbn [tls_files]; by rewrite Hf1, Hf2|].
    intros ca Ha Hf3. apply Hlast; [cbn [tls_files]; by rewrite Hf1, Hf2, Hf3|done|].
    intros b Hb. eexists _, ca. split; [exact Hb|].
    match goal with |- identity_is _ _ (tls_client_ca_root ?x ?t) ∧ _ =>
      destruct (tls_client_ca_spec x t) as [-> Hi] end.
    split_and!; [|done|done]. exists cert, key. rewrite Hi. split_and!; [done|done|].
    apply tls_identity_spec.
  - wp_step. apply HO; [done|]. apply server_builder_spec.
Qed.

Context (serve_result : Listener H → serving) (overflow_checks : bool).
Implicit Types ls : list (Listener H).

(** The two listeners. *)
Definition health_listener (addr port : Z) : Listener H :=
  MkListener addr (as_u16 (port + 1)) HealthService server_builder.
Definition backends_listener (addr port : Z) (maps : ServiceMaps H) (b : ServerBuilder) : Listener H :=
  MkListener addr port (BackendsService (BackendsServer_new maps)) b.

(** [port + 1] panics. *)
Definition port_panics (port : Z) : bool := overflow_checks && (65536 <=? port + 1).

(** What a task that serves [l] leaves, and how it ends: an error of the
    server is a panic. *)
Definition came_up (l : Listener H) : list (Listener H) :=
  match serve_result l with Served _ => [l] | BindFailed _ => [] end.
Definition served (l : Listener H) : outcome Empty_set life :=
  match serve_result l with Served (Ret x) => Ret x | _ => Fault end.

Lemma unwrap_run {S E E' A} (m : Eff S E A) s s' o :
  m s = (s', o) → unwrap (E':=E') m s = (s', match o with Ret a => Ret a | _ => Fault end).
Proof. unfold unwrap. intros ->. by destruct o. Qed.

Lemma unwrap_serve l ls : unwrap (serve serve_result l) ls = (ls ++ came_up l, served l).
Proof.
  unfold unwrap, serve, came_up, served. destruct (serve_result l) as [e|[]]; by rewrite ?app_nil_r.
Qed.

Lemma health_task_run addr port ls :
  fits 16 port →
  health_task serve_result overflow_checks addr port ls =
  if port_panics port then (ls, Fault)
  else (ls ++ came_up (health_listener addr port), served (health_listener addr port)).
Proof.
  intros Hp. unfold health_task, u16_add, port_panics, mbind, eff_bind.
  destruct (Z.ltb_spec (port + 1) 65536) as [Hlt|Hge].
  - rewrite (proj2 (Z.leb_gt _ _)), andb_false_r by lia. simpl. rewrite unwrap_serve.
    unfold health_listener. rewrite wrap_id by (unfold fits in *; lia). done.
  - rewrite (proj2 (Z.leb_le _ _)), andb_true_r by lia. destruct overflow_checks; [done|].
    simpl. by rewrite unwrap_serve.
Qed.

Lemma wp_backends_task addr port maps cfg ls :
  wp (backends_task serve_result addr port maps cfg) (λ ls' o,
    (∃ b, setup_tls server_builder cfg ls = (ls, Ret b) ∧ tls_matches cfg b ∧
       first_unreadable (tls_files cfg) = None ∧
       ls' = ls ++ came_up (backends_listener addr port maps b) ∧
       o = served (backends_listener addr port maps b)) ∨
    ((∀ b, setup_tls server_builder cfg ls ≠ (ls, Ret b)) ∧ ls' = ls ∧ o = Fault)) ls.
Proof.
  unfold wp, backends_task, mbind, eff_bind.
  assert (wp (setup_tls server_builder cfg) (λ ls' o, ls' = ls ∧ o ≠ Fault ∧
    ∀ b, o = Ret b → tls_matches cfg b ∧ first_unreadable (tls_files cfg) = None) ls) as Hs.
  { apply wp_setup_tls; intros; split_and!; try done; intros; by simplify_eq. }
  unfold wp in Hs. destruct (setup_tls server_builder cfg ls) as [ls' [b|e|]] eqn:E; simpl in Hs;
    destruct Hs as (-> & Hnf & Hb); [left|right|done]; rewrite (unwrap_run _ _ _ _ E); [|by split_and!].
  exists b. destruct (Hb b eq_refl). by rewrite unwrap_serve.
Qed.

(** What may be served, and how. *)
Definition listener_ok (addr port : Z) (maps : ServiceMaps H) cfg (l : Listener H) : Prop :=
  l_addr l = addr ∧
  match l_service l with
  | HealthService =>
      l_port l = as_u16 (port + 1) ∧ (overflow_checks = true → l_port l = port + 1) ∧
      fits 16 (l_port l) ∧ tls_of (l_builder l) = None
  | BackendsService srv =>
      l_port l = port ∧ server_inner srv = maps ∧ tls_matches cfg (l_builder l)
  end.

Lemma health_listener_ok addr port maps cfg :
  fits 16 port → port_panics port = false → listener_ok addr port maps cfg (health_listener addr port).
Proof.
  intros Hp Hlt. split; [done|]. simpl. split_and!; [done| |by apply wrap_fits|apply server_builder_spec].
  intros Ho. unfold port_panics in Hlt. rewrite Ho in Hlt. apply Z.leb_gt in Hlt.
  apply wrap_id. unfold fits in *. lia.
Qed.

Lemma came_up_Forall (P : Listener H → Prop) l : P l → Forall P (came_up l).
Proof. intros Hl. unfold came_up. case_match; by repeat constructor. Qed.

(** Every end of [start]. *)
Lemma start_secure_run (health_first : bool) addr port maps cfg (Hport : fits 16 port) :
  wp (start serve_result overflow_checks health_first addr port maps cfg) (λ ls o,
    Forall (listener_ok addr port maps cfg) ls ∧
    (first_unreadable (tls_files cfg) ≠ None →
       Forall (λ l, l_service l = HealthService) ls ∧ o = Err Panicked)) [].
Proof.
  unfold wp, start.
  assert (∃ health ho, (∀ ls, health_task serve_result overflow_checks addr port ls = (ls ++ health, ho)) ∧
    Forall (listener_ok addr port maps cfg) health ∧ Forall (λ l, l_service l = HealthService) health)
    as (health & ho & Hh & Hok & Hs).
  { destruct (port_panics port) eqn:Hpp.
    - exists [], Fault. split_and!; [|done..]. intros ls. by rewrite health_task_run, Hpp, app_nil_r.
    - exists (came_up (health_listener addr port)). eexists. split_and!.
      + intros ls. by rewrite health_task_run, Hpp.
      + by apply came_up_Forall, health_listener_ok.
      + by apply came_up_Forall. }
  assert (∀ b, tls_matches cfg b →
    Forall (listener_ok addr port maps cfg) (came_up (backends_listener addr port maps b))) as Hb.
  { intros b Hm. by apply came_up_Forall. }
  assert (try_join ho Fault = Err Panicked) as Hj by (by destruct ho as [[]| |]).
  destruct (wp_backends_task addr port maps cfg (if health_first then health else []))
    as [(b & _ & Hm & Hf & Hl & Ho)|(_ & Hl & Ho)].
  all: destruct health_first; rewrite ?Hh; simpl;
    destruct (backends_task _ _ _ _ _ _) as [ls' bo]; simpl in *; subst; rewrite ?Hh; simpl.
  all: split; [by rewrite ?Forall_app; auto|]; intros Hun; done.
Qed.

Lemma start_listeners_ok (health_first : bool) addr port maps cfg (Hport : fits 16 port) :
  wp (start serve_result overflow_checks health_first addr port maps cfg) (λ ls o,
    Forall (listener_ok addr port maps cfg) ls) [].
Proof. eapply wp_mono; [by apply start_secure_run|]. by intros ls o [? _]. Qed.

(** C12: the API server is only served as configured.  Every listener that comes
    up is on the given address; the health service is in plain text on the next
    port (modulo 2^16, and without overflow if the build checks for it);
    the backends service is on the given port, on the given maps, and with
    the configured certificate (and the configured client CA for mutual TLS):
    never in plain text when TLS is configured.  When a file of the
    configuration cannot be read the backends service is not served at all and [start]
    reports an error. *)
Theorem start_secure (health_first : bool) addr port maps cfg (Hport : fits 16 port) :
  wp (start serve_result overflow_checks health_first addr port maps cfg) (λ ls o,
    Forall (listener_ok addr port maps cfg) ls ∧
    (first_unreadable (tls_files cfg) ≠ None →
       Forall (λ l, l_service l = HealthService) ls ∧ o = Err Panicked)) [].
Proof. by apply start_secure_run. Qed.

Lemma health_port addr port :
  fits 16 port →
  l_port (health_listener addr port) = (if decide (port = 65535) then 0 else port + 1) ∧
  l_port (health_listener addr port) ≠ port.
Proof.
  intros Hp. unfold fits in Hp. cbn [health_listener l_port]. case_decide as Hd; [by subst|].
  rewrite wrap_id by (unfold fits; lia). lia.
Qed.

Lemma start_ports_run (health_first : bool) addr port maps cfg b (Hport : fits 16 port)
    (Htls : ∀ ls, setup_tls server_builder cfg ls = (ls, Ret b))
    (Hup : ∀ l, serve_result l = Served (Ret Running)) :
  wp (start serve_result overflow_checks health_first addr port maps cfg) (λ ls o,
    if decide (port = 65535 ∧ overflow_checks = true)
    then ls = [backends_listener addr port maps b] ∧ o = Err Panicked
    else ls ≡ₚ [health_listener addr port; backends_listener addr port maps b] ∧
         l_port (health_listener addr port) = (if decide (port = 65535) then 0 else port + 1) ∧
         NoDup (l_port <$> ls) ∧ o = Ret Running) [].
Proof.
  assert (∀ ls, backends_task serve_result addr port maps cfg ls =
    (ls ++ [backends_listener addr port maps b], Ret Running)) as Hb.
  { intros ls. unfold backends_task, mbind, eff_bind. rewrite (unwrap_run _ _ _ _ (Htls ls)).
    rewrite unwrap_serve. unfold came_up, served. by rewrite Hup. }
  assert (∀ ls, health_task serve_result overflow_checks addr port ls =
    if decide (port = 65535 ∧ overflow_checks = true) then (ls, Fault)
    else (ls ++ [health_listener addr port], Ret Running)) as Hh.
  { intros ls. rewrite health_task_run by done. unfold port_panics, came_up, served. rewrite Hup.
    unfold fits in Hport. destruct overflow_checks, (Z.leb_spec 65536 (port + 1)); simpl; case_decide; done || lia. }
  destruct (health_port addr port Hport) as [Hp Hne].
  unfold wp, start. destruct (decide (port = 65535 ∧ overflow_checks = true)).
  - destruct health_first; [rewrite Hh, Hb|rewrite Hb, Hh]; done.
  - destruct health_first; [rewrite Hh, Hb|rewrite Hb, Hh]; cbn [fst snd app try_join fmap list_fmap];
      (split; [done || by apply Permutation_swap|]); (split; [done|]); (split; [|done]);
      apply NoDup_cons; (split; [intros Hx%list_elem_of_singleton; simpl in *; congruence|apply NoDup_singleton]).
Qed.

(** C36: the ports.  When the security of the configuration can be set up and
    both ports can be bound, exactly two listeners appear, the backends service
    on [port] and the health service on [port + 1], and the server stays up.
    On port 65535 the sum does not fit in 16 bits: in a build with overflow
    checks the health task panics, only the backends service is served and
    [start] reports an error; in a release build, the one that is shipped,
    the sum wraps around, so the health service is asked to listen on port 0
    and nothing is reported. *)
Theorem start_ports (health_first : bool) addr port maps cfg b (Hport : fits 16 port)
    (Htls : ∀ ls, setup_tls server_builder cfg ls = (ls, Ret b))
    (Hup : ∀ l, serve_result l = Served (Ret Running)) :
  wp (start serve_result overflow_checks health_first addr port maps cfg) (λ ls o,
    if decide (port = 65535 ∧ overflow_checks = true)
    then ls = [backends_listener addr port maps b] ∧ o = Err Panicked
    else ls ≡ₚ [health_listener addr port; backends_listener addr port maps b] ∧
         l_port (health_listener addr port) = (if decide (port = 65535) then 0 else port + 1) ∧
         NoDup (l_port <$> ls) ∧ o = Ret Running) [].
Proof. by apply start_ports_run. Qed.
End spec.

(** ** An instance *)

(** Builders and TLS settings as plain data; a TLS setting without an
    identity is rejected. *)
Definition ref_tonic_server : @TonicServer ref_tonic_types := {|
  ServerBuilder := option (option (string * string) * option string);
  ServerTlsConfig := option (string * string) * option string;
  Identity := string * string; Certificate := string;
  server_builder := None; tls_new := (None, None);
  identity_from_pem c k := (c, k); certificate_from_pem c := c;
  tls_identity i t := (Some i, t.2); tls_client_ca_root c t := (t.1, Some c);
  builder_tls_config t _ :=
    match t.1 with Some _ => Ret (Some t) | None => @Err (@TransportError ref_tonic_types) _ "no identity" end;
|}.

#[export] Instance ref_tonic_server_spec : @TonicServerSpec ref_tonic_types ref_tonic_server.
Proof.
  refine (@Build_TonicServerSpec ref_tonic_types ref_tonic_server fst snd id _ _ _ _ _ _); try done.
  - intros t b b' Hb. simpl in *. by destruct t.1; simplify_eq.
  - intros t b. simpl. by destruct t.1.
Defined.

(** A directory with a certificate, a key and a CA, and nothing else. *)
Definition ref_files : FileSystem := {|
  IoError := string;
  read_to_string path :=
    if String.eqb path "tls.crt" then inr "CERT"
    else if String.eqb path "tls.key" then inr "KEY"
    else if String.eqb path "ca.crt" then inr "CA" else inl "not found";
|}.
#[local] Existing Instance ref_tonic_types.
#[local] Existing Instance ref_tonic_server.
#[local] Existing Instance ref_files.

Definition demo_mtls : option TLSConfig :=
  Some (MutualTLS (MkMutualTLSConfig "tls.crt" "tls.key" "ca.crt")).
Definition demo_maps : ServiceMaps string := MkServiceMaps "BACKENDS" "GATEWAY_INDEXES" "LB_CONNECTIONS".
Definition always_up (l : Listener string) : serving := Served (Ret Running).

Lemma start_secure_witness :
  wp (start always_up false true 0 9874 demo_maps (Some (TLS (MkServerOnlyTLSConfig "tls.crt" "missing"))))
    (λ ls o, Forall (λ l, l_service l = HealthService) ls ∧ o = Err Panicked) [].
Proof.
  eapply wp_mono.
  - apply (start_secure always_up false true 0 9874 demo_maps
      (Some (TLS (MkServerOnlyTLSConfig "tls.crt" "missing")))). by vm_compute.
  - intros ls o [_ H]. apply H. by vm_compute.
Defined.

Lemma start_ports_witness :
  wp (start always_up false false 0 9874 demo_maps demo_mtls)
    (λ ls o, length ls = 2%nat ∧ o = Ret Running) [].
Proof.
  eapply wp_mono.
  - apply (start_ports always_up false false 0 9874 demo_maps demo_mtls
      (Some (Some ("CERT", "KEY"), Some "CA"))); [by vm_compute|done|done].
  - intros ls o H. cbv beta in H. destruct (decide (9874 = 65535 ∧ false = true)) as [[]|]; [done|].
    destruct H as (Hp & _ & _ & Ho). split; [|done]. by rewrite Hp.
Defined.
