(* ===== verification/Loader.v ===== *)
(** * The loader

    Models [main] of [src/dataplane/loader/src/main.rs]: it loads the eBPF
    object, loads and attaches the two classifiers, takes the three maps out
    of the object and starts the API server on them.  [aya] is the class
    [Aya]; what one of its calls returns may depend on the calls before it.
    The state records the calls that succeeded and the listeners of the API server. *)

From stdpp Require Import base list gmap strings pretty.
From S2P Require Import Prelude Common NetUtils Server Proto Grpc GrpcRef Startup.

Inductive TcAttachType := Ingress | Egress.

(** Calls that succeeded. *)
Inductive call :=
| EbpfLoad
| LoggerInit
| QdiscAddClsact (iface : string)
| ProgramLoad (name : string)
| ProgramAttach (name iface : string) (t : TcAttachType)
| TakeMap (name : string).

#[export] Instance TcAttachType_eq_dec : EqDecision TcAttachType.
Proof. solve_decision. Defined.
#[export] Instance call_eq_dec : EqDecision call.
Proof. solve_decision. Defined.

Class Aya := {
  AyaError : Type;
  Program : Type;
  SchedClassifier : Type;
  AyaMap : Type;
  AyaHashMap : Type;
  aya_load : list call → AyaError + unit;
  aya_logger_init : list call → AyaError + unit;
  aya_qdisc_add_clsact : string → list call → AyaError + unit;
  aya_program_mut : string → list call → option Program;
  aya_try_into : Program → AyaError + SchedClassifier;
  aya_program_load : SchedClassifier → list call → AyaError + unit;
  aya_attach : SchedClassifier → string → TcAttachType → list call → AyaError + unit;
  aya_take_map : string → list call → option AyaMap;
  aya_hash_map : AyaMap → AyaError + AyaHashMap;
}.

(** [Opt] *)
Record Opt := MkOpt { iface : string; opt_tls_config : option TLSConfig }.

Inductive LoaderError `{Aya} :=
| AyaFailed (e : AyaError)
| AttachFailed (context : string) (e : AyaError)
| ServerFailed (e : JoinError).

Record lstate `{TonicServer, Aya} := LState {
  calls : list call;
  listeners : list (Listener AyaHashMap);
}.
Arguments LState {_ _ _} _ _.

Section loader.
Context `{TY : TonicTypes, SV : !TonicServer, FS : FileSystem, AY : Aya}.
Context (serve_result : Listener AyaHashMap → serving) (overflow_checks health_first : bool).

(** [f()?], and with a context. *)
Definition ayacall {A} (c : call) (wrap_err : AyaError → LoaderError) (f : list call → AyaError + A) :
    Eff lstate LoaderError A := λ s,
  match f (calls s) with
  | inr a => (LState (calls s ++ [c]) (listeners s), Ret a)
  | inl e => (s, Err (wrap_err e))
  end.

(** A call whose result is dropped. *)
Definition ignore (m : Eff lstate LoaderError unit) : Eff lstate LoaderError unit := λ s,
  ((m s).1, Ret tt).

(** [program_mut(name).unwrap().try_into()?] *)
Definition program (name : string) : Eff lstate LoaderError SchedClassifier :=
  p ← gets_or_fault (λ s, aya_program_mut name (calls s));
  match aya_try_into p with inr p => mret p | inl e => throw (AyaFailed e) end.

(** [HashMap::try_from(take_map(name).expect(..))?] *)
Definition hash_map (name : string) : Eff lstate LoaderError AyaHashMap := λ s,
  match aya_take_map name (calls s) with
  | None => (s, Fault)
  | Some m =>
      let s := LState (calls s ++ [TakeMap name]) (listeners s) in
      match aya_hash_map m with inr h => (s, Ret h) | inl e => (s, Err (AyaFailed e)) end
  end.

Definition start_api_server (addr port : Z) (maps : ServiceMaps AyaHashMap)
    (tls_cfg : option TLSConfig) : Eff lstate LoaderError life := λ s,
  let '(ls, r) := start serve_result overflow_checks health_first addr port maps tls_cfg (listeners s) in
  (LState (calls s) ls,
   match r with Ret x => Ret x | Err e => Err (ServerFailed e) | Fault => Fault end).

Definition loader_main (opt : Opt) : Eff lstate LoaderError life :=
  _ ← ayacall EbpfLoad AyaFailed aya_load;
  _ ← ignore (ayacall LoggerInit AyaFailed aya_logger_init);
  _ ← ignore (ayacall (QdiscAddClsact (iface opt)) AyaFailed (aya_qdisc_add_clsact (iface opt)));
  ingress_program ← program "tc_ingress";
  _ ← ayacall (ProgramLoad "tc_ingress") AyaFailed (aya_program_load ingress_program);
  _ ← ayacall (ProgramAttach "tc_ingress" (iface opt) Ingress)
        (AttachFailed "failed to attach the ingress TC program")
        (aya_attach ingress_program (iface opt) Ingress);
  egress_program ← program "tc_egress";
  _ ← ayacall (ProgramLoad "tc_egress") AyaFailed (aya_program_load egress_program);
  _ ← ayacall (ProgramAttach "tc_egress" (iface opt) Egress)
        (AttachFailed "failed to attach the egress TC program")
        (aya_attach egress_program (iface opt) Egress);
  backends ← hash_map "BACKENDS";
  gateway_indexes ← hash_map "GATEWAY_INDEXES";
  tcp_conns ← hash_map "LB_CONNECTIONS";
  start_api_server 0 9874 (MkServiceMaps backends gateway_indexes tcp_conns) (opt_tls_config opt).
End loader.

(** ** Specification *)
Section spec.
Context `{TY : TonicTypes, SV : !TonicServer, SVS : !TonicServerSpec, FS : FileSystem, AY : Aya}.
Context (serve_result : Listener AyaHashMap → serving) (overflow_checks health_first : bool).
Context (opt : Opt).
Implicit Types s : lstate.

(** The calls that must succeed, in order; the logger and the queueing
    discipline may fail. *)
Definition required (c : call) : bool :=
  match c with LoggerInit | QdiscAddClsact _ => false | _ => true end.
Definition loader_plan : list call :=
  [EbpfLoad;
   ProgramLoad "tc_ingress"; ProgramAttach "tc_ingress" (iface opt) Ingress;
   ProgramLoad "tc_egress"; ProgramAttach "tc_egress" (iface opt) Egress;
   TakeMap "BACKENDS"; TakeMap "GATEWAY_INDEXES"; TakeMap "LB_CONNECTIONS"].

(** [h] was made from the map called [name]. *)
Definition handle_of (name : string) (h : AyaHashMap) : Prop :=
  ∃ cs m, aya_take_map name cs = Some m ∧ aya_hash_map m = inr h.
Definition handles_ok (maps : ServiceMaps AyaHashMap) : Prop :=
  handle_of "BACKENDS" (backends_handle maps) ∧
  handle_of "GATEWAY_INDEXES" (gateway_indexes_handle maps) ∧
  handle_of "LB_CONNECTIONS" (tcp_conns_handle maps).

(** The first [n] steps of the plan are done and nothing is served yet. *)
Definition at_step (n : nat) s : Prop :=
  filter required (calls s) = take n loader_plan ∧ listeners s = [].

(** What every end of [loader_main] looks like. *)
Definition loader_ok s (o : outcome LoaderError life) : Prop :=
  (∃ n, at_step n s ∧ ∀ x, o ≠ Ret x) ∨
  (filter required (calls s) = loader_plan ∧
   ∃ maps, handles_ok maps ∧ Forall (listener_ok overflow_checks 0 9874 maps (opt_tls_config opt)) (listeners s)).

Lemma at_step_snoc n s c :
  at_step n s → required c = true → loader_plan !! n = Some c →
  at_step (S n) (LState (calls s ++ [c]) (listeners s)).
Proof.
  intros [Hf Hl] Hc Hn. split; [|done]. cbn [calls].
  rewrite filter_app, Hf, (take_S_r _ _ c), filter_cons_True, filter_nil by (done || by rewrite Hc). done.
Qed.

Section rules.
Context {A : Type} (Q : lstate → outcome LoaderError A → Prop).
Hypothesis Hend : ∀ n s o, at_step n s → (∀ x, o ≠ Ret x) → Q s o.

Lemma wp_required {B} n c w (f : list call → AyaError + B) (k : B → Eff lstate LoaderError A) s :
  at_step n s → required c = true → loader_plan !! n = Some c →
  (∀ b s', at_step (S n) s' → wp (k b) Q s') → wp (b ← ayacall c w f; k b) Q s.
Proof.
  intros Hs Hc Hn Hk. wp_step. unfold wp, ayacall. destruct (f (calls s)) as [e|b]; simpl.
  - by eapply Hend.
  - by apply Hk, at_step_snoc.
Qed.

Lemma wp_optional n c w (f : list call → AyaError + unit) (k : unit → Eff lstate LoaderError A) s :
  at_step n s → required c = false →
  (∀ s', at_step n s' → wp (k tt) Q s') → wp (b ← ignore (ayacall c w f); k b) Q s.
Proof.
  intros Hs Hc Hk. wp_step. unfold wp, ignore, ayacall. destruct (f (calls s)) as [e|[]]; simpl;
    apply Hk; [done|]. destruct Hs as [Hf Hl]. split; [|done]. cbn [calls].
  by rewrite filter_app, Hf, filter_cons_False, filter_nil, app_nil_r by (rewrite Hc; by intros []).
Qed.

Lemma wp_program n name (k : SchedClassifier → Eff lstate LoaderError A) s :
  at_step n s → (∀ p, wp (k p) Q s) → wp (p ← program name; k p) Q s.
Proof.
  intros Hs Hk. wp_step. unfold program. wp_step. unfold wp at 1, gets_or_fault.
  destruct (aya_program_mut name (calls s)) as [p|]; simpl; [|by eapply Hend].
  destruct (aya_try_into p); wp_step; [by eapply Hend|apply Hk].
Qed.

Lemma wp_hash_map n name (k : AyaHashMap → Eff lstate LoaderError A) s :
  at_step n s → loader_plan !! n = Some (TakeMap name) →
  (∀ h s', at_step (S n) s' → handle_of name h → wp (k h) Q s') → wp (h ← hash_map name; k h) Q s.
Proof.
  intros Hs Hn Hk. wp_step. unfold wp, hash_map. pose proof (at_step_snoc n s (TakeMap name) Hs eq_refl Hn).
  destruct (aya_take_map name (calls s)) as [m|] eqn:Hm; simpl; [|by eapply Hend].
  destruct (aya_hash_map m) as [e|h] eqn:Hh; simpl; [by eapply Hend|].
  apply Hk; [done|]. by eexists _, m.
Qed.
End rules.

(** C13: the API server comes last.  However [loader_main] ends, the required
    calls that succeeded are a prefix of the plan in its order; anything is
    served only after the whole plan, that is with both classifiers loaded and attached
    to the interface of the options, and then only as [start] promises: on
    ports 9874 and 9875, on the three maps of the loaded object by name, and
    with the security of the options. *)
Theorem loader_serves_last :
  wp (loader_main serve_result overflow_checks health_first opt) loader_ok (LState [] []).
Proof.
  assert (∀ n s o, at_step n s → (∀ x, o ≠ Ret x) → loader_ok s o) as Hend.
  { intros n s o Hs Ho. left. by exists n. }
  unfold loader_main. eapply (wp_required _ Hend 0); [done..|]. intros _ s1 H1.
  eapply wp_optional; [exact H1|done|]. intros s2 H2.
  eapply wp_optional; [exact H2|done|]. intros s3 H3.
  eapply wp_program; [done|exact H3|]. intros ip.
  eapply wp_required; [done|exact H3|done|done|]. intros _ s4 H4.
  eapply wp_required; [done|exact H4|done|done|]. intros _ s5 H5.
  eapply wp_program; [done|exact H5|]. intros ep.
  eapply wp_required; [done|exact H5|done|done|]. intros _ s6 H6.
  eapply wp_required; [done|exact H6|done|done|]. intros _ s7 H7.
  eapply wp_hash_map; [done|exact H7|done|]. intros b s8 H8 Hb.
  eapply wp_hash_map; [done|exact H8|done|]. intros g s9 H9 Hg.
  eapply wp_hash_map; [done|exact H9|done|]. intros t s10 [Hc Hl] Ht.
  unfold wp, start_api_server. rewrite Hl.
  pose proof (start_listeners_ok serve_result overflow_checks health_first 0 9874 (MkServiceMaps b g t)
    (opt_tls_config opt) ltac:(by vm_compute)) as Hst. unfold wp in Hst.
  destruct (start _ _ _ _ _ _ _ _) as [ls r]. simpl in *.
  right. split; [done|]. by exists (MkServiceMaps b g t).
Qed.

(** The object has the programs and maps the loader names, and every
    required call works; nothing is said of the logger and the queueing discipline. *)
Record aya_works : Prop := {
  works_load cs : aya_load cs = inr tt;
  works_program name cs :
    name ∈ ["tc_ingress"; "tc_egress"] →
    ∃ p c, aya_program_mut name cs = Some p ∧ aya_try_into p = inr c ∧
      (∀ cs, aya_program_load c cs = inr tt) ∧ ∀ i t cs, aya_attach c i t cs = inr tt;
  works_map name cs :
    name ∈ ["BACKENDS"; "GATEWAY_INDEXES"; "LB_CONNECTIONS"] →
    ∃ m h, aya_take_map name cs = Some m ∧ aya_hash_map m = inr h;
}.

Lemma ayacall_ok {A B} c w (f : list call → AyaError + B) b (k : B → Eff lstate LoaderError A) s :
  f (calls s) = inr b →
  (b ← ayacall c w f; k b) s = k b (LState (calls s ++ [c]) (listeners s)).
Proof. intros Hf. unfold mbind, eff_bind, ayacall. by rewrite Hf. Qed.

Lemma ignore_ok {A} c w (f : list call → AyaError + unit) (k : unit → Eff lstate LoaderError A) s :
  ∃ cs, (b ← ignore (ayacall c w f); k b) s = k tt (LState cs (listeners s)).
Proof.
  unfold mbind, eff_bind, ignore, ayacall. destruct (f (calls s)) as [e|[]]; simpl; [|by eexists].
  exists (calls s). by destruct s.
Qed.

Lemma program_ok {A} name (k : SchedClassifier → Eff lstate LoaderError A) s :
  aya_works → name ∈ ["tc_ingress"; "tc_egress"] →
  ∃ c, (p ← program name; k p) s = k c s ∧
    (∀ cs, aya_program_load c cs = inr tt) ∧ ∀ i t cs, aya_attach c i t cs = inr tt.
Proof.
  intros Hw Hn. destruct (works_program Hw name (calls s) Hn) as (p & c & Hp & Hc & Hl).
  exists c. split; [|done]. unfold mbind, eff_bind, program, gets_or_fault, mbind, eff_bind.
  by rewrite Hp, Hc.
Qed.

Lemma hash_map_ok {A} name (k : AyaHashMap → Eff lstate LoaderError A) s :
  aya_works → name ∈ ["BACKENDS"; "GATEWAY_INDEXES"; "LB_CONNECTIONS"] →
  ∃ h, (h ← hash_map name; k h) s = k h (LState (calls s ++ [TakeMap name]) (listeners s)).
Proof.
  intros Hw Hn. destruct (works_map Hw name (calls s) Hn) as (m & h & Hm & Hh).
  exists h. unfold mbind, eff_bind, hash_map. by rewrite Hm, Hh.
Qed.

(** The next call of the loader, when it works. *)
Ltac loader_step Hw :=
  match goal with
  | |- context [mbind ?k (ignore (ayacall ?c ?w ?f)) ?s] => destruct (ignore_ok c w f k s) as [? ->]
  | |- context [mbind ?k (program ?n) ?s] =>
      destruct (program_ok n k s Hw ltac:(set_solver)) as (? & -> & ? & ?)
  | |- context [mbind ?k (hash_map ?n) ?s] => destruct (hash_map_ok n k s Hw ltac:(set_solver)) as [? ->]
  | |- context [mbind ?k (ayacall ?c ?w ?f) ?s] => rewrite (ayacall_ok c w f tt k s) by auto using works_load
  end.

(** C38: The loader comes up.  When every required call works, the TLS files
    are in order and the ports can be served, [loader_main] ends with both
    servers running, on ports 9874 and 9875, whether or not the logger and the queueing
    discipline could be set up. *)
Theorem loader_comes_up b (Hw : aya_works)
    (Htls : ∀ ls : list (Listener AyaHashMap),
       setup_tls server_builder (opt_tls_config opt) ls = (ls, Ret b))
    (Hup : ∀ l, serve_result l = Served (Ret Running)) :
  wp (loader_main serve_result overflow_checks health_first opt) (λ s' o,
    o = Ret Running ∧ l_port <$> listeners s' ≡ₚ [9874; 9875]) (LState [] []).
Proof.
  unfold wp, loader_main. repeat loader_step Hw.
  unfold start_api_server. cbn [calls listeners].
  match goal with |- context [start _ _ _ _ _ ?maps _ _] =>
    pose proof (start_ports_run serve_result overflow_checks health_first 0 9874 maps (opt_tls_config opt) b
      ltac:(by vm_compute) Htls Hup) as Hst end. unfold wp in Hst.
  destruct (start _ _ _ _ _ _ _ _) as [ls r]. cbn [fst snd listeners] in *.
  destruct (decide (9874 = 65535 ∧ overflow_checks = true)) as [[]|]; [done|]. destruct Hst as (Hls & _ & _ & ->).
  split; [done|]. rewrite Hls. apply Permutation_swap.
Qed.
End spec.

(** ** An instance *)

(** An object with the two programs and the three maps; the interface
    already has the queueing discipline, so adding it fails. *)
Definition ref_aya : Aya := {|
  AyaError := string; Program := string; SchedClassifier := string;
  AyaMap := string; AyaHashMap := string;
  aya_load _ := inr tt;
  aya_logger_init _ := inl "no log map";
  aya_qdisc_add_clsact _ _ := inl "File exists";
  aya_program_mut name _ := if bool_decide (name ∈ ["tc_ingress"; "tc_egress"]) then Some name else None;
  aya_try_into p := inr p;
  aya_program_load _ _ := inr tt;
  aya_attach _ _ _ _ := inr tt;
  aya_take_map name _ :=
    if bool_decide (name ∈ ["BACKENDS"; "GATEWAY_INDEXES"; "LB_CONNECTIONS"]) then Some name else None;
  aya_hash_map m := inr m;
|}.
#[local] Existing Instance ref_tonic_types.
#[local] Existing Instance ref_tonic_server.
#[local] Existing Instance ref_files.
#[local] Existing Instance ref_aya.

Lemma ref_aya_works : aya_works.
Proof.
  split; [done|..]; intros name cs Hn; simpl; rewrite bool_decide_true by done; eauto 10.
Qed.

Lemma loader_comes_up_witness :
  wp (loader_main (AY:=ref_aya) always_up false true (MkOpt "eth0" demo_mtls)) (λ s' o,
    o = Ret Running ∧ l_port <$> listeners s' ≡ₚ [9874; 9875]) (LState [] []).
Proof.
  apply (loader_comes_up (AY:=ref_aya) always_up false true (MkOpt "eth0" demo_mtls) (Some (Some ("CERT", "KEY"), Some "CA"))).
  - exact ref_aya_works.
  - by vm_compute.
  - by vm_compute.
Defined.
