(* ===== verification/UdpServer.v ===== *)
(** * The UDP test server

    Models [src/tools/udp-test-server/src/main.rs]: three UDP servers that
    print what they receive and a health server that takes connections once
    all three have told it over a channel that they are up.  Every task is a
    state machine that advances by one await point at a time; what the sockets
    return is the input of a step.  The socket of the health server listens
    from [bind] on: the kernel completes connections and queues them in its
    backlog whether or not the task has come to [accept] (how many it queues
    is not modelled).  The text of the printed lines is not modelled, their
    arguments are. *)

From stdpp Require Import base list gmap strings pretty.
From S2P Require Import Prelude Common NetUtils AddrText.

Inductive IpAddr := IpV4 (ip : Z) | IpV6 (groups : list Z).
#[export] Instance IpAddr_eq_dec : EqDecision IpAddr.
Proof. solve_decision. Defined.

(** [addr.ip()] *)
Definition addr_ip (a : SocketAddr) : IpAddr :=
  match a with V4 ip _ => IpV4 ip | V6 gs _ _ => IpV6 gs end.

(** Printed lines. *)
Inductive line :=
| Received (port : Z) (len : nat) (from : SocketAddr)
| Contents (port : Z) (buf : list Z)
| WorkerListening (port : Z)
| HealthListening
| HealthCheckFrom (addr : SocketAddr).

(** ** [Peers] *)
Record Peers := MkPeers { peers : list IpAddr }.
Definition Peers_default : Peers := MkPeers [].

Definition Peers_add (self : Peers) (addr : SocketAddr) : Peers * list line :=
  let self := if (100 <? length (peers self))%nat then MkPeers [] else self in
  if bool_decide (addr_ip addr ∈ peers self) then (self, [])
  else (MkPeers (peers self ++ [addr_ip addr]), [HealthCheckFrom addr]).

(** ** Tasks *)
Inductive io_error := BindError | BrokenPipe | RecvError | AcceptError.

(** [run_server]: before [bind], before [send], in the loop with its buffer. *)
Inductive udp_task :=
| UBinding
| USending
| ULoop (buf : list Z)
| UEnded (e : io_error).

(** [run_health_server]: before [bind], in the [while] loop, in the [loop]. *)
Inductive health_state :=
| HBinding
| HWaiting (wait_for : nat)
| HServing (ps : Peers)
| HEnded (e : io_error).

Record world := World {
  udp : list (Z * udp_task);
  health : health_state;
  channel : list Z;
  backlog : list SocketAddr;           (* completed connections, not yet accepted *)
  output : list line;
}.

(** What a task gets from outside when it goes on. *)
Inductive input :=
| Bound (ok : bool)
| Datagram (data : list Z) (from : SocketAddr)
| Failed
| Go.

Definition CHANNEL_CAPACITY : nat := 3.

(** [sock.recv_from(&mut buf)]: the datagram, cut to the buffer, is written
    over the front of the buffer. *)
Definition recv_into (buf data : list Z) : list Z * nat :=
  let got := take (length buf) data in (got ++ drop (length got) buf, length got).

(** The receiver of the channel is dropped when the health task ends. *)
Definition receiver_open (h : health_state) : bool := match h with HEnded _ => false | _ => true end.

Definition run_server (port : Z) (t : udp_task) (i : input) (w : world) : option (udp_task * list Z * list line) :=
  match t, i with
  | UBinding, Bound true => Some (USending, channel w, [])
  | UBinding, Bound false => Some (UEnded BindError, channel w, [])
  | USending, Go =>
      if receiver_open (health w) then
        if (length (channel w) <? CHANNEL_CAPACITY)%nat
        then Some (ULoop (replicate 1024 0), channel w ++ [port], []) else None
      else Some (UEnded BrokenPipe, channel w, [])
  | ULoop buf, Datagram data from =>
      let '(buf, len) := recv_into buf data in
      Some (ULoop buf, channel w, [Received port len from; Contents port buf])
  | ULoop _, Failed => Some (UEnded RecvError, channel w, [])
  | _, _ => None
  end.

(** A connection to port 9878 succeeds as soon as the port is bound, and until
    the task ends and drops its listener. *)
Definition listening (h : health_state) : bool :=
  match h with HWaiting _ | HServing _ => true | HBinding | HEnded _ => false end.

Definition run_health_server (t : health_state) (i : input) (w : world) :
    option (health_state * list Z * list SocketAddr * list line) :=
  match t, i with
  | HBinding, Bound true => Some (HWaiting 3, channel w, backlog w, [])
  | HBinding, Bound false => Some (HEnded BindError, channel w, [], [])
  | HWaiting (S wait_for), Go =>
      match channel w with
      | port :: rest => Some (HWaiting wait_for, rest, backlog w, [WorkerListening port])
      | [] => None
      end
  | HWaiting O, Go => Some (HServing Peers_default, channel w, backlog w, [HealthListening])
  | HServing ps, Go =>
      match backlog w with
      | from :: rest => let '(ps, out) := Peers_add ps from in Some (HServing ps, channel w, rest, out)
      | [] => None
      end
  | HServing _, Failed => Some (HEnded AcceptError, channel w, [], [])
  | _, _ => None
  end.

(** [args.len() == 2 && args[1] == "--dry-run"] *)
Definition dry_run (args : list string) : bool :=
  (length args =? 2)%nat && bool_decide (args !! 1%nat = Some "--dry-run").

(** [main]: the tasks it spawns; it then waits for Ctrl-C and keeps its own
    sender, so [recv] never sees a closed channel. *)
Definition udp_main (args : list string) : world :=
  World (if dry_run args then [] else [(9875, UBinding); (9876, UBinding); (9877, UBinding)])
    HBinding [] [] [].

(** One step of one task: of the health task, or of the [n]-th UDP task; or a
    client connects to the port of the health server. *)
Inductive turn := THealth (i : input) | TUdp (n : nat) (i : input) | TConnect (from : SocketAddr).

Definition udp_step (w : world) (t : turn) : option world :=
  match t with
  | THealth i =>
      '(h, ch, bl, out) ← run_health_server (health w) i w;
      Some (World (udp w) h ch bl (output w ++ out))
  | TUdp n i =>
      '(port, task) ← udp w !! n;
      '(task, ch, out) ← run_server port task i w;
      Some (World (<[n := (port, task)]> (udp w)) (health w) ch (backlog w) (output w ++ out))
  | TConnect from =>
      if listening (health w)
      then Some (World (udp w) (health w) (channel w) (backlog w ++ [from]) (output w)) else None
  end.

Fixpoint udp_run (w : world) (ts : list turn) : option world :=
  match ts with [] => Some w | t :: ts => w ← udp_step w t; udp_run w ts end.

(** ** Properties *)

(** A task that has bound its port and told the health server so. *)
Definition is_up (t : udp_task) : bool :=
  match t with ULoop _ | UEnded RecvError => true | _ => false end.
Definition up_count (w : world) : nat := length (filter (λ p, is_up p.2) (udp w)).

(** Notifications the health server has taken out of the channel. *)
Definition taken (h : health_state) : nat :=
  match h with
  | HBinding | HEnded BindError => 0
  | HWaiting n => 3 - n
  | HServing _ | HEnded _ => 3
  end.

Definition peers_ok (h : health_state) : Prop :=
  match h with
  | HServing ps => (length (peers ps) ≤ 101)%nat ∧ NoDup (peers ps)
  | HWaiting n => (n ≤ 3)%nat
  | HBinding | HEnded BindError | HEnded AcceptError => True
  | HEnded _ => False
  end.

Definition buffers_ok (w : world) : Prop :=
  ∀ n port buf, udp w !! n = Some (port, ULoop buf) → length buf = 1024%nat.

(** The health server has come to its [loop]. *)
Definition accepting (h : health_state) : bool :=
  match h with HServing _ | HEnded AcceptError => true | _ => false end.
Definition health_line (l : line) : bool :=
  match l with HealthListening | HealthCheckFrom _ => true | _ => false end.

(** Every notification comes from one task that is up and is either waiting
    in the channel or has been counted. *)
Record world_inv (w : world) : Prop := {
  inv_count : (length (channel w) + taken (health w))%nat = up_count w;
  inv_peers : peers_ok (health w);
  inv_buffers : buffers_ok w;
  inv_output : accepting (health w) = false → Forall (λ l, health_line l = false) (output w);
}.

Lemma Peers_add_ok ps addr :
  (length (peers ps) ≤ 101)%nat → NoDup (peers ps) →
  let ps' := (Peers_add ps addr).1 in (length (peers ps') ≤ 101)%nat ∧ NoDup (peers ps').
Proof.
  intros Hl Hn. unfold Peers_add.
  set (ps0 := if (100 <? length (peers ps))%nat then MkPeers [] else ps).
  assert ((length (peers ps0) ≤ 100)%nat ∧ NoDup (peers ps0)) as [Hl0 Hn0].
  { subst ps0. destruct (Nat.ltb_spec 100 (length (peers ps))); simpl; split; (done || lia || constructor). }
  case_bool_decide; simpl; [split; [lia|done]|].
  rewrite length_app. simpl. split; [lia|]. apply NoDup_app.
  split_and!; [done|set_solver|apply NoDup_singleton].
Qed.

Lemma recv_into_length buf data : length (recv_into buf data).1 = length buf.
Proof. unfold recv_into. simpl. rewrite length_app, length_drop, length_take. lia. Qed.

(** Replacing the state of one task in the list. *)
Lemma up_count_insert (l : list (Z * udp_task)) n port t t' :
  l !! n = Some (port, t) →
  (length (filter (λ p, is_up p.2) (<[n := (port, t')]> l)) + Nat.b2n (is_up t))%nat =
  (length (filter (λ p, is_up p.2) l) + Nat.b2n (is_up t'))%nat.
Proof.
  revert n. induction l as [|[q u] l IH]; intros [|n] Hn; simplify_eq/=.
  - rewrite !filter_cons. simpl. destruct (is_up t), (is_up t'); simpl; lia.
  - specialize (IH n Hn). rewrite !filter_cons. simpl. destruct (is_up u); simpl; lia.
Qed.

Lemma inv_main args : world_inv (udp_main args).
Proof.
  unfold udp_main. destruct (dry_run args); split; try done; intros n port buf Hn; simpl in Hn.
  by destruct n as [|[|[|n]]]; simplify_eq/=.
Qed.

Lemma buffers_insert w n port t h ch bl out :
  buffers_ok w → (∀ buf, t = ULoop buf → length buf = 1024%nat) →
  buffers_ok (World (<[n := (port, t)]> (udp w)) h ch bl out).
Proof.
  intros Hb Ht n' port' buf Hn. simpl in Hn. destruct (decide (n' = n)) as [->|Hne].
  - apply list_lookup_insert_Some in Hn as [(_ & [= <- ->] & _)|[? _]]; [by apply Ht|done].
  - rewrite list_lookup_insert_ne in Hn by done. by eapply Hb.
Qed.

Lemma inv_health w i h ch bl out :
  world_inv w → run_health_server (health w) i w = Some (h, ch, bl, out) →
  world_inv (World (udp w) h ch bl (output w ++ out)).
Proof.
  intros [Hc Hp Hb Ho] Hr. unfold run_health_server in Hr. unfold up_count in Hc.
  destruct (health w) as [|[|n]|ps|e], i as [[]| | |]; simplify_eq/=;
    try (by split; unfold up_count; simpl; rewrite ?app_nil_r; lia || done).
  - split; unfold up_count; simpl; [lia|split; [lia|constructor]|done|done].
  - destruct (channel w) as [|p rest]; simplify_eq/=. split; unfold up_count; simpl; [lia|lia|done|].
    intros _. apply Forall_app. split; [by apply Ho|]. by repeat constructor.
  - destruct (backlog w) as [|from rest]; [done|].
    destruct Hp as [Hl Hn]. destruct (Peers_add_ok ps from Hl Hn) as [Hl' Hn'].
    destruct (Peers_add ps from) as [ps' out']. simplify_eq/=. by split.
Qed.

Lemma inv_udp w n port t i t' ch out :
  world_inv w → udp w !! n = Some (port, t) → run_server port t i w = Some (t', ch, out) →
  world_inv (World (<[n := (port, t')]> (udp w)) (health w) ch (backlog w) (output w ++ out)).
Proof.
  intros [Hc Hp Hb Hout] Hn Hr. pose proof (up_count_insert _ n port t t' Hn) as Hup.
  fold (up_count w) in Hup.
  assert (length ch + taken (health w) =
    length (filter (λ p, is_up p.2) (<[n := (port, t')]> (udp w))) ∧
    (∀ buf, t' = ULoop buf → length buf = 1024) ∧ Forall (λ l, health_line l = false) out)%nat
    as (Hcount & Hbuf & Hlines); cycle 1.
  { split; [exact Hcount|done|by apply buffers_insert|]. intros Ha. apply Forall_app. auto. }
  unfold run_server in Hr. destruct t as [| |buf|e]; destruct i as [[]| | |]; simplify_eq/=.
  - split_and!; [lia|done..].
  - split_and!; [lia|done..].
  - destruct (receiver_open (health w)); [|simplify_eq/=; split_and!; [lia|done..]].
    destruct (_ <? _)%nat; simplify_eq/=. rewrite length_app. simpl. split_and!; [lia| |done].
    intros buf [= <-]. done.
  - specialize (Hb n port buf Hn). pose proof (recv_into_length buf data).
    simplify_eq/=. split_and!; [lia| |by repeat constructor]. intros buf' [= <-]. by rewrite <-Hb.
  - split_and!; [lia|done..].
Qed.

Lemma inv_step w t w' : world_inv w → udp_step w t = Some w' → world_inv w'.
Proof.
  intros Hw. destruct t as [i|n i|from]; simpl.
  - destruct (run_health_server _ _ _) as [[[[h ch] bl] out]|] eqn:Hr; [|done].
    intros [= <-]. by eapply inv_health.
  - destruct (udp w !! n) as [[port t]|] eqn:Hn; [|done]. simpl.
    destruct (run_server port t i w) as [[[t' ch] out]|] eqn:Hr; [|done].
    intros [= <-]. by eapply inv_udp.
  - destruct (listening (health w)); [|done]. intros [= <-]. by destruct Hw.
Qed.

Lemma inv_run w ts w' : world_inv w → udp_run w ts = Some w' → world_inv w'.
Proof.
  revert w. induction ts as [|t ts IH]; intros w Hw; simpl; [by intros [= <-]|].
  destruct (udp_step w t) as [w1|] eqn:Hs; [|done]. simpl. intros Hr.
  eapply IH; [|done]. by eapply inv_step.
Qed.





(** The memory of the health server is bounded.  In every state the
    program can reach it remembers at most 101 peers, each once, and every
    receive buffer is 1024 bytes long. *)
Theorem udp_bounded args ts w (Hrun : udp_run (udp_main args) ts = Some w) :
  (∀ ps, health w = HServing ps → (length (peers ps) ≤ 101)%nat ∧ NoDup (peers ps)) ∧
  (∀ n port buf, udp w !! n = Some (port, ULoop buf) → length buf = 1024%nat).
Proof.
  destruct (inv_run _ _ _ (inv_main args) Hrun) as [_ Hp Hb _]. split; [|done].
  intros ps Hh. by rewrite Hh in Hp.
Qed.

(** The printed buffer is stale.  After a datagram, a shorter one prints
    its own bytes followed by the rest of the one before it and then what the
    buffer held before both: the whole buffer is printed, not the bytes received. *)
Theorem udp_contents_stale w n port buf d1 d2 from1 from2
    (Hn : udp w !! n = Some (port, ULoop buf)) (Hb : length buf = 1024%nat)
    (H1 : (length d1 ≤ 1024)%nat) (H2 : (length d2 ≤ length d1)%nat) :
  ∃ w', udp_run w [TUdp n (Datagram d1 from1); TUdp n (Datagram d2 from2)] = Some w' ∧
    output w' = output w ++
      [Received port (length d1) from1; Contents port (d1 ++ drop (length d1) buf);
       Received port (length d2) from2;
       Contents port (d2 ++ drop (length d2) d1 ++ drop (length d1) buf)].
Proof.
  assert (∀ b d, (length d ≤ length b)%nat → recv_into b d = (d ++ drop (length d) b, length d)) as Hrecv.
  { intros b d Hd. unfold recv_into. by rewrite take_ge. }
  cbn [udp_run udp_step]. rewrite Hn. cbn [mbind option_bind run_server].
  rewrite Hrecv by lia. cbn [mbind option_bind udp channel health backlog output].
  rewrite list_lookup_insert_eq by (by eapply lookup_lt_Some). cbn [mbind option_bind run_server].
  rewrite Hrecv by (rewrite length_app, length_drop; lia). cbn [mbind option_bind].
  eexists. split; [done|]. cbn [output]. rewrite <-app_assoc, drop_app_le by done. done.
Qed.

(** The three servers bind and report, the health server counts them; a client
    connects before it is done and is accepted at the end. *)
Definition demo_udp_schedule : list turn :=
  [THealth (Bound true); TUdp 1 (Bound true); TUdp 1 Go; TUdp 0 (Bound true); THealth Go;
   TUdp 2 (Bound true); TConnect (V4 1 2); TUdp 2 Go; TUdp 0 Go; THealth Go; THealth Go; THealth Go;
   THealth Go].

Lemma demo_udp_serves : ∃ w,
  udp_run (udp_main ["udp-test-server"]) demo_udp_schedule = Some w ∧
  health w = HServing (MkPeers [IpV4 1]).
Proof. eexists. split; [by vm_compute|done]. Qed.


Lemma udp_bounded_witness : ∃ w,
  udp_run (udp_main ["udp-test-server"]) demo_udp_schedule = Some w ∧
  ∀ ps, health w = HServing ps → (length (peers ps) ≤ 101)%nat ∧ NoDup (peers ps).
Proof.
  destruct demo_udp_serves as (w & Hr & Hh). exists w. split; [done|].
  apply (udp_bounded ["udp-test-server"] demo_udp_schedule w Hr).
Defined.

Lemma udp_contents_stale_witness :
  let w := World [(9875, ULoop (replicate 1024 0))] (HWaiting 3) [] [] [] in
  ∃ w', udp_run w [TUdp 0 (Datagram [104; 105; 33] (V4 1 2)); TUdp 0 (Datagram [111] (V4 1 2))] = Some w' ∧
    output w' = [Received 9875 3 (V4 1 2); Contents 9875 ([104; 105; 33] ++ replicate 1021 0);
                 Received 9875 1 (V4 1 2); Contents 9875 ([111; 105; 33] ++ replicate 1021 0)].
Proof.
  apply (udp_contents_stale (World [(9875, ULoop (replicate 1024 0))] (HWaiting 3) [] [] []) 0 9875
    (replicate 1024 0) [104; 105; 33] [111] (V4 1 2) (V4 1 2)); [done|by vm_compute|simpl; lia|simpl; lia].
Defined.
