(* ===== verification/Xtask.v ===== *)
(** * The developer tools

    Models [src/xtask/src/]: [build_ebpf.rs], [build_proto.rs], [run.rs] and
    the dispatch of [main.rs]; the gRPC client is in [ClientTool].  The
    operating system is the class [Process]; the state is the list of the
    commands that were started.  Text is ASCII. *)

From Stdlib Require Import Ascii.
From stdpp Require Import base list gmap strings pretty.
From S2P Require Import Prelude Common NetUtils Server Proto Grpc AddrText ClientTool.

(** ** Text ([core::str]) *)
Definition is_whitespace (c : Ascii.ascii) : bool :=
  let n := Ascii.nat_of_ascii c in ((9 <=? n) && (n <=? 13) || (n =? 32))%nat.

Fixpoint trim_start (s : string) : string :=
  match s with
  | String.String c s' => if is_whitespace c then trim_start s' else s
  | String.EmptyString => s
  end.
Fixpoint trim_end (s : string) : string :=
  match s with
  | String.String c s' =>
      let t := trim_end s' in
      if is_whitespace c && String.eqb t "" then "" else String.String c t
  | String.EmptyString => s
  end.
Definition trim (s : string) : string := trim_end (trim_start s).

Fixpoint split_on (sep : Ascii.ascii) (s : string) : list string :=
  match s with
  | String.EmptyString => [""]
  | String.String c s' =>
      if Ascii.eqb c sep then "" :: split_on sep s'
      else match split_on sep s' with
           | w :: ws => String.String c w :: ws
           | [] => [String.String c ""]
           end
  end.

(** [split_terminator]: an empty last piece is dropped. *)
Definition split_terminator (sep : Ascii.ascii) (s : string) : list string :=
  let ws := split_on sep s in
  match last ws with
  | Some String.EmptyString => take (length ws - 1) ws
  | _ => ws
  end.

(** ** [std::process::Command] *)
Record Command := MkCommand {
  cmd_program : string;
  cmd_args : list string;
  cmd_dir : option string;
  cmd_env : list (string * string);
}.

(** The settings of [tonic_build::configure()] that the tool sets. *)
Record ProtoConfig := MkProtoConfig {
  protoc_arg : string;
  build_server : bool;
  out_dir : string;
}.

(** How a command ends: [status] gives whether it succeeded, or nothing when it
    cannot be started; [exec] gives an error only when it fails. *)
Class Process := {
  status_of : Command → list Command → option bool;
  exec_error : Command → list Command → option string;
  (* [tonic_build]: its settings, the files and the include paths *)
  compile_protos : ProtoConfig → list string → list string → option string;
}.

Inductive XtaskError := Failure (msg : string).

Section process.
Context `{PR : Process}.

(** [cmd.status().expect(..)] and [assert!(status.success())] *)
Definition run_checked (c : Command) : Eff (list Command) XtaskError unit := λ t,
  match status_of c t with
  | Some true => (t ++ [c], Ret tt)
  | Some false => (t ++ [c], Fault)
  | None => (t, Fault)
  end.
End process.

(** ** [build_ebpf.rs] *)
Inductive Architecture := BpfEl | BpfEb.

Definition Architecture_from_str (s : string) : string + Architecture :=
  if String.eqb s "bpfel-unknown-none" then inr BpfEl
  else if String.eqb s "bpfeb-unknown-none" then inr BpfEb
  else inl "invalid target".

Definition Architecture_to_string (a : Architecture) : string :=
  match a with BpfEl => "bpfel-unknown-none" | BpfEb => "bpfeb-unknown-none" end.

Record BuildOptions := MkBuildOptions { target : Architecture; build_release : bool }.

Definition build_ebpf_command (opts : BuildOptions) : Command :=
  let dir := "dataplane/ebpf" in
  let target := "--target=" +:+ Architecture_to_string (target opts) in
  let args := ["+nightly"; "build"; "--verbose"; target; "-Z"; "build-std=core"] in
  let args := if build_release opts then args ++ ["--release"] else args in
  MkCommand "cargo" args (Some dir) [].

Definition build_ebpf `{Process} (opts : BuildOptions) : Eff (list Command) XtaskError unit :=
  _ ← run_checked (build_ebpf_command opts);
  mret tt.

(** ** [build_proto.rs] *)
Definition build_proto `{Process} : Eff (list Command) XtaskError unit :=
  let proto_file := "./dataplane/api-server/proto/backends.proto" in
  let config := MkProtoConfig "--experimental_allow_proto3_optional" true "./dataplane/api-server/src" in
  match compile_protos config [proto_file] ["."] with
  | None => mret tt
  | Some e => throw (Failure e)
  end.

(** ** [run.rs] *)
Record RunOptions := MkRunOptions {
  bpf_target : Architecture;
  release : bool;
  runner : string;
  run_args : list string;
}.

Definition build_command (opts : RunOptions) : Command :=
  let args := ["build"] in
  let args := if release opts then args ++ ["--release"] else args in
  MkCommand "cargo" args None [].

Definition build `{Process} (opts : RunOptions) : Eff (list Command) XtaskError unit :=
  _ ← run_checked (build_command opts);
  mret tt.

(** The words of the final command line. *)
Definition run_words (opts : RunOptions) : list string :=
  let profile := if release opts then "release" else "debug" in
  let bin_path := "target/" +:+ profile +:+ "/loader" in
  let args := split_terminator " "%char (trim (runner opts)) in
  args ++ [bin_path] ++ run_args opts.

(** [build_ebpf] and [build] never return an error (they panic), so the
    contexts [run] adds to their errors are never seen.

    A value of [run] means that the process was replaced by its last command. *)
Definition run `{Process} (opts : RunOptions) : Eff (list Command) XtaskError unit :=
  _ ← build_ebpf (MkBuildOptions (bpf_target opts) (release opts));
  _ ← build opts;
  let args := run_words opts in
  match args with
  | [] => fault
  | first :: rest =>
      let cmd := MkCommand first rest None [("RUST_LOG", "info")] in
      λ t, match exec_error cmd t with
           | None => (t ++ [cmd], Ret tt)
           | Some e => (t, Err (Failure ("Failed to run `" +:+ String.concat " " args +:+ "`")))
           end
  end.

(** ** [main.rs] *)
Inductive XtaskCommand :=
| BuildEbpf (opts : BuildOptions)
| BuildProto
| Run (opts : RunOptions)
| GrpcClient (opts : GrpcOptions).

(** The command and the exit code of the process: 101 after a panic, 1 after
    an error, none when the process was replaced.  The gRPC client acts on the services it talks to, of state
    [St]; the others act on the machine. *)
Section main.
Context `{PR : Process, TY : TonicTypes, TO : !Tonic} {St : Type} `{TR : !Transport St}.
Context `{!Message PodIp, !Message InterfaceIndexConfirmation, !Message Targets, !Message Vip, !Message Confirmation}.

Definition exit_code {E A} (o : outcome E A) : Z :=
  match o with Ret _ => 0 | Err _ => 1 | Fault => 101 end.

Definition xtask_main (command : XtaskCommand) (s : list Command * St) :
    (list Command * St) * option Z :=
  match command with
  | BuildEbpf opts => let '(t, ret) := build_ebpf opts s.1 in ((t, s.2), Some (exit_code ret))
  | BuildProto => let '(t, ret) := build_proto s.1 in ((t, s.2), Some (exit_code ret))
  | Run opts =>
      let '(t, ret) := run opts s.1 in
      ((t, s.2), match ret with Ret _ => None | _ => Some (exit_code ret) end)
  | GrpcClient opts =>
      let '(st, ret) := grpc_update opts s.2 in ((s.1, st), Some (exit_code ret))
  end.
End main.

(** ** Properties *)
Definition word_ok (w : string) : bool :=
  negb (String.eqb w "") && forallb (λ c, negb (is_whitespace c)) (String.list_ascii_of_string w).

Lemma split_on_word w rest :
  word_ok w = true → split_on " "%char (w +:+ String.String " "%char rest) = w :: split_on " "%char rest.
Proof.
  intros [_ Hw]%andb_true_iff. induction w as [|c w IH]; [done|].
  cbn [String.list_ascii_of_string forallb] in Hw. apply andb_true_iff in Hw as [Hc Hw].
  change (String.String c w +:+ ?r) with (String.String c (w +:+ r)). cbn [split_on].
  rewrite (proj2 (Ascii.eqb_neq c " "%char)) by (by intros ->). by rewrite IH.
Qed.

Lemma split_on_last w : word_ok w = true → split_on " "%char w = [w].
Proof.
  intros [_ Hw]%andb_true_iff. induction w as [|c w IH]; [done|].
  cbn [String.list_ascii_of_string forallb] in Hw. apply andb_true_iff in Hw as [Hc Hw]. cbn [split_on].
  rewrite (proj2 (Ascii.eqb_neq c " "%char)) by (by intros ->). by rewrite IH.
Qed.

Lemma concat_cons (w w' : string) ws :
  String.concat " " (w :: w' :: ws) = w +:+ String.String " "%char (String.concat " " (w' :: ws)).
Proof. done. Qed.

Lemma split_concat w ws :
  Forall (λ w, word_ok w = true) (w :: ws) →
  split_on " "%char (String.concat " " (w :: ws)) = w :: ws.
Proof.
  revert w. induction ws as [|w' ws IH]; intros w [Hw Hws]%Forall_cons; [by apply split_on_last|].
  rewrite concat_cons, split_on_word by done. f_equal. by apply IH.
Qed.

(** Text that ends in a word is not trimmed at its end. *)
Lemma trim_end_app s t : trim_end t ≠ "" → trim_end (s +:+ t) = s +:+ trim_end t.
Proof.
  intros Ht. induction s as [|c s IH]; [done|].
  change (String.String c s +:+ ?r) with (String.String c (s +:+ r)). cbn [trim_end]. rewrite IH.
  rewrite (proj2 (String.eqb_neq _ _)), andb_false_r; [done|]. by destruct s as [|c' s]; [exact Ht|discriminate].
Qed.

Lemma trim_end_word w : word_ok w = true → trim_end w = w.
Proof.
  intros [_ Hw]%andb_true_iff. induction w as [|c w IH]; [done|].
  cbn [String.list_ascii_of_string forallb] in Hw. apply andb_true_iff in Hw as [Hc%negb_true_iff Hw].
  cbn [trim_end]. by rewrite Hc, IH.
Qed.

Lemma word_nonempty w : word_ok w = true → w ≠ "".
Proof. by intros [Hw _]%andb_true_iff ->. Qed.

Lemma trim_end_concat w ws :
  Forall (λ w, word_ok w = true) (w :: ws) →
  trim_end (String.concat " " (w :: ws)) = String.concat " " (w :: ws).
Proof.
  revert w. induction ws as [|w' ws IH]; intros w [Hw Hws]%Forall_cons; [by apply trim_end_word|].
  rewrite concat_cons. change (String.String " "%char ?r) with (" " +:+ r).
  assert (String.concat " " (w' :: ws) ≠ "") as Hne.
  { apply Forall_cons in Hws as [Hw' _]. apply word_nonempty in Hw'.
    destruct ws; [done|]. rewrite concat_cons. by destruct w'; [done|discriminate]. }
  specialize (IH w' Hws). set (r := String.concat " " (w' :: ws)) in *.
  assert (trim_end (" " +:+ r) = " " +:+ r) as Hr by (rewrite trim_end_app; by rewrite IH).
  rewrite trim_end_app; rewrite Hr; [done|discriminate].
Qed.

Lemma trim_start_word w rest : word_ok w = true → trim_start (w +:+ rest) = w +:+ rest.
Proof.
  intros Hw. pose proof (word_nonempty w Hw). destruct w as [|c w]; [done|].
  apply andb_true_iff in Hw as [_ [Hc%negb_true_iff _]%andb_true_iff].
  change (String.String c w +:+ rest) with (String.String c (w +:+ rest)). cbn [trim_start]. by rewrite Hc.
Qed.

(** Words separated by single spaces are read back. *)
Lemma split_terminator_words ws :
  Forall (λ w, word_ok w = true) ws →
  split_terminator " "%char (trim (String.concat " " ws)) = ws.
Proof.
  destruct ws as [|w ws]; [done|]. intros Hws. unfold trim.
  assert (trim_start (String.concat " " (w :: ws)) = String.concat " " (w :: ws)) as ->.
  { apply Forall_cons in Hws as [Hw _]. destruct ws as [|w' ws].
    - rewrite <-(string_app_nil_r (String.concat _ _)). by apply trim_start_word.
    - rewrite concat_cons. by apply trim_start_word. }
  rewrite trim_end_concat by done. unfold split_terminator. rewrite split_concat by done.
  destruct (last (w :: ws)) as [l|] eqn:Hl; [|done].
  assert (word_ok l = true) as Hwl%word_nonempty.
  { rewrite Forall_forall in Hws. by apply Hws, last_Some_elem_of. }
  by destruct l.
Qed.

(** The three commands of [run]. *)
Definition run_plan (opts : RunOptions) (first : string) (rest : list string) : list Command :=
  [build_ebpf_command (MkBuildOptions (bpf_target opts) (release opts)); build_command opts;
   MkCommand first rest None [("RUST_LOG", "info")]].

Section props.
Context `{PR : Process}.

Lemma wp_run_checked {A} c (k : unit → Eff (list Command) XtaskError A) Q t :
  (status_of c t = Some true → wp (k tt) Q (t ++ [c])) →
  (status_of c t ≠ Some true → ∀ t', t' = t ∨ t' = t ++ [c] → Q t' Fault) →
  wp (_ ← run_checked c; k tt) Q t.
Proof.
  intros HO HF. wp_step. unfold wp at 1, run_checked.
  destruct (status_of c t) as [[]|]; simpl; [by apply HO|apply HF; auto..].
Qed.

Lemma run_words_cons opts : ∃ first rest, run_words opts = first :: rest.
Proof. unfold run_words. destruct (split_terminator _ _); by eexists _, _. Qed.

(** Build, then run.  [run] starts commands only in the order eBPF
    build, user-space build, program; the program replaces the process
    only after both builds succeeded, and its command line is the words
    of the runner, the binary of the chosen profile and the given arguments.
    The panic on an empty command line is unreachable. *)
Theorem xtask_run_order opts ws
    (Hws : Forall (λ w, word_ok w = true) ws) (Hr : runner opts = String.concat " " ws) :
  ∃ first rest,
    first :: rest =
      ws ++ ["target/" +:+ (if release opts then "release" else "debug") +:+ "/loader"] ++ run_args opts ∧
    wp (run opts) (λ t o,
      t `prefix_of` run_plan opts first rest ∧
      (o = Ret tt ↔ t = run_plan opts first rest) ∧
      (o = Fault → ∃ c t', c ∈ take 2 (run_plan opts first rest) ∧ status_of c t' ≠ Some true)) [].
Proof.
  destruct (run_words_cons opts) as (first & rest & Hw). exists first, rest. split.
  { rewrite <-Hw. unfold run_words. by rewrite Hr, split_terminator_words. }
  unfold run, build_ebpf, build. rewrite Hw.
  set (c1 := build_ebpf_command _). set (c2 := build_command opts).
  assert (∀ t : list Command, t ≠ run_plan opts first rest → t `prefix_of` run_plan opts first rest →
    ∀ c t', c ∈ take 2 (run_plan opts first rest) → status_of c t' ≠ Some true →
    t `prefix_of` run_plan opts first rest ∧
    (@Fault XtaskError unit = Ret tt ↔ t = run_plan opts first rest) ∧
    (@Fault XtaskError unit = Fault → ∃ c t', c ∈ take 2 (run_plan opts first rest) ∧ status_of c t' ≠ Some true))
    as Hfail by (intros; split_and!; [done|by split|eauto]).
  wp_step. apply wp_run_checked; cycle 1.
  { intros Hs t [->| ->]; eapply Hfail; try done;
      [apply prefix_nil|simpl; set_solver|by exists [c2; MkCommand first rest None [("RUST_LOG", "info")]]|
       simpl; set_solver]. }
  intros _. wp_step. wp_step. apply wp_run_checked; cycle 1.
  { intros Hs t [->| ->]; eapply Hfail; try done.
    - by exists [c2; MkCommand first rest None [("RUST_LOG", "info")]].
    - simpl. set_solver.
    - by exists [MkCommand first rest None [("RUST_LOG", "info")]].
    - simpl. set_solver. }
  intros _. wp_step. unfold wp. destruct (exec_error _ _) as [e|]; simpl.
  - split_and!; [by exists [MkCommand first rest None [("RUST_LOG", "info")]]|by split|done].
  - split_and!; [done|by split|done].
Qed.

(** Target names.  Parsing the name of an architecture gives it back, and
    only those two names parse. *)
Theorem architecture_roundtrip s a :
  Architecture_from_str s = inr a ↔ s = Architecture_to_string a.
Proof.
  unfold Architecture_from_str. split.
  - destruct (String.eqb_spec s "bpfel-unknown-none") as [->|]; [by intros [= <-]|].
    destruct (String.eqb_spec s "bpfeb-unknown-none") as [->|]; [by intros [= <-]|done].
  - intros ->. by destruct a.
Qed.
End props.

(** ** An instance *)
Definition ref_process : Process := {|
  status_of _ _ := Some true; exec_error _ _ := None; compile_protos _ _ _ := None;
|}.
#[local] Existing Instance ref_process.

Definition demo_run : RunOptions := MkRunOptions BpfEl true "sudo -E" ["--iface"; "eth0"].

Lemma xtask_run_order_witness :
  ∃ first rest,
    first :: rest = ["sudo"; "-E"; "target/release/loader"; "--iface"; "eth0"] ∧
    wp (run demo_run) (λ t o, t `prefix_of` run_plan demo_run first rest) [].
Proof.
  destruct (xtask_run_order demo_run ["sudo"; "-E"]) as (first & rest & He & Hw).
  - repeat constructor.
  - by vm_compute.
  - exists first, rest. split; [exact He|]. eapply wp_mono; [exact Hw|]. by intros t o [? _].
Defined.
